(** * smallz4: LZ4 frame encoder with optimal parsing, and its decoder

    A shallow embedding of [smallz4.hpp] (struct [smallz4]: [dump],
    [getHash32], [findLongestMatch], [estimateCosts], [selectBestMatches],
    [compress]) and of [unlz4] from [smallz4.cpp], with the properties the
    specification states about them.

    Conventions.
    - A byte is a [Byte.byte]; [b2z] and [z2b] convert from and to the
      numeric value ([z2b] truncates like a cast to [unsigned char]).
    - Fixed-width integers are [Z] with the wrap-around written out
      ([u32], [u16]).
    - A pointer into the input is an index into the list that holds the
      buffer.  Dereferencing outside of the buffer is undefined behaviour
      in the source and is the outcome [Undefined] here. *)

From Stdlib Require Import ZArith List Lia Bool.
From Stdlib.Strings Require Import Byte.
From Stdlib.Strings Require String.
Import ListNotations.
Local Open Scope Z_scope.

(** ** Bytes and machine integers *)

Definition b2z (c : byte) : Z := Z.of_N (Byte.to_N c).

Definition z2b (z : Z) : byte :=
  match Byte.of_N (Z.to_N (z mod 256)) with
  | Some c => c
  | None => x00
  end.

Definition u16 (z : Z) : Z := z mod 65536.
Definition u32 (z : Z) : Z := z mod 4294967296.

(** ** Outcomes of a run *)

Inductive error : Type :=
| InvalidSignature      (* "invalid signature" *)
| UnsupportedVersion    (* "only LZ4 file format version 1 supported" *)
| InvalidOffset         (* "invalid offset" *)
| CannotOpenDictionary  (* "cannot open dictionary" *)
| DictionaryUnsupported (* std::runtime_error thrown by compress *).

Inductive result (A : Type) : Type :=
| Ok (a : A)
| Fatal (e : error)     (* unlz4error (exit) or a thrown exception *)
| Undefined             (* access outside of a buffer *)
| OutOfFuel             (* the model's loop bound was too small *).
Arguments Ok {A} a.
Arguments Fatal {A} e.
Arguments Undefined {A}.
Arguments OutOfFuel {A}.

Definition bind {A B} (r : result A) (k : A -> result B) : result B :=
  match r with
  | Ok a => k a
  | Fatal e => Fatal e
  | Undefined => Undefined
  | OutOfFuel => OutOfFuel
  end.

Notation "x <- e ;; k" := (bind e (fun x => k))
  (at level 61, e at next level, right associativity).
Notation "' pat <- e ;; k" := (bind e (fun x => match x with pat => k end))
  (at level 61, pat pattern, e at next level, right associativity).

(** ** The output sink: a growable buffer and a write cursor *)

Record sink : Type := { buf : list byte; ix : nat }.

Definition resize (b : list byte) (n : nat) : list byte :=
  firstn n b ++ repeat x00 (n - length b).

(** [memcpy(b.data() + ix, src, n)] for a destination that is large enough. *)
Definition overwrite (b : list byte) (i : nat) (src : list byte) : list byte :=
  firstn i b ++ src ++ skipn (i + length src) b.

(** [dump(std::span, b, ix)] *)
Definition dump (str : list byte) (s : sink) : sink :=
  let n := length str in
  let b := if (length (buf s) <? ix s + n)%nat
           then resize (buf s) (Nat.max (length (buf s) * 2) (ix s + n))
           else buf s in
  {| buf := overwrite b (ix s) str; ix := (ix s + n)%nat |}.

(** [dump(unsigned char, b, ix)] *)
Definition dump1 (c : byte) (s : sink) : sink :=
  let b := if (ix s =? length (buf s))%nat
           then resize (buf s)
                  (if (length (buf s) =? 0)%nat then 128 else length (buf s) * 2)
           else buf s in
  {| buf := overwrite b (ix s) [c]; ix := S (ix s) |}.

(** [dump_type(uint32_t, b, ix)]: the four bytes of the value, little endian. *)
Definition le32 (v : Z) : list byte :=
  [z2b v; z2b (Z.shiftr v 8); z2b (Z.shiftr v 16); z2b (Z.shiftr v 24)].

Definition dump_type (v : Z) (s : sink) : sink := dump (le32 v) s.

(** What a caller sees after [b.resize(ix)]. *)
Definition written (s : sink) : list byte := firstn (ix s) (buf s).

Definition sink0 : sink := {| buf := []; ix := 0 |}.

(** ** The decoder [unlz4] *)

Module Unlz4.

Definition HISTORY_SIZE : Z := 65536.

Record state : Type :=
  { it : nat;               (* read cursor, index into the input buffer *)
    history : list byte;    (* unsigned char history[HISTORY_SIZE] *)
    pos : Z;                (* next free position in history *)
    out : sink }.

Definition with_it (s : state) (i : nat) : state :=
  {| it := i; history := history s; pos := pos s; out := out s |}.

Section Decoder.

(** The buffer the input pointer points into. *)
Variable mem : list byte.

(** [c = *it; ++it] *)
Definition next (s : state) : result (Z * state) :=
  match nth_error mem (it s) with
  | Some c => Ok (b2z c, with_it s (S (it s)))
  | None => Undefined
  end.

Fixpoint list_set (l : list byte) (i : nat) (c : byte) : list byte :=
  match l, i with
  | [], _ => []
  | _ :: t, O => c :: t
  | h :: t, S j => h :: list_set t j c
  end.

(** [history[pos++] = c] *)
Definition push (c : Z) (s : state) : result state :=
  if (0 <=? pos s) && (pos s <? HISTORY_SIZE) then
    Ok {| it := it s;
          history := list_set (history s) (Z.to_nat (pos s)) (z2b c);
          pos := u32 (pos s + 1);
          out := out s |}
  else Undefined.

(** [if (pos == HISTORY_SIZE) { dump({history, HISTORY_SIZE}, b, ix); pos = 0; }] *)
Definition flush_if_full (s : state) : state :=
  if pos s =? HISTORY_SIZE then
    {| it := it s; history := history s; pos := 0;
       out := dump (firstn (Z.to_nat HISTORY_SIZE) (history s)) (out s) |}
  else s.

(** [do { current = *it; ++it; n += current; blockOffset++; } while (current == 255)] *)
Fixpoint read_length (fuel : nat) (n blockOffset : Z) (s : state)
  : result (Z * Z * state) :=
  match fuel with
  | O => OutOfFuel
  | S fuel' =>
      '(current, s1) <- next s ;;
      let n1 := u32 (n + current) in
      let bo1 := u32 (blockOffset + 1) in
      if current =? 255 then read_length fuel' n1 bo1 s1
      else Ok (n1, bo1, s1)
  end.

(** fast loop: [while (numLiterals-- > 0) { history[pos++] = *it; ++it; }] *)
Fixpoint copy_literals_fast (n : nat) (s : state) : result state :=
  match n with
  | O => Ok s
  | S n' =>
      '(c, s1) <- next s ;;
      s2 <- push c s1 ;;
      copy_literals_fast n' s2
  end.

(** slow loop: the same with the flush of a full history *)
Fixpoint copy_literals_slow (n : nat) (s : state) : result state :=
  match n with
  | O => Ok s
  | S n' =>
      '(c, s1) <- next s ;;
      s2 <- push c s1 ;;
      copy_literals_slow n' (flush_if_full s2)
  end.

Definition hist (s : state) (i : Z) : result Z :=
  if (0 <=? i) then
    match nth_error (history s) (Z.to_nat i) with
    | Some c => Ok (b2z c)
    | None => Undefined
    end
  else Undefined.

(** [memcpy(history + pos, history + referencePos, matchLength); pos += matchLength] *)
Definition memcpy_match (referencePos matchLength : Z) (s : state) : result state :=
  if (0 <=? referencePos) && (referencePos + matchLength <=? HISTORY_SIZE)
     && (0 <=? pos s) && (pos s + matchLength <=? HISTORY_SIZE) then
    let src := firstn (Z.to_nat matchLength)
                 (skipn (Z.to_nat referencePos) (history s)) in
    Ok {| it := it s;
          history := overwrite (history s) (Z.to_nat (pos s)) src;
          pos := u32 (pos s + matchLength);
          out := out s |}
  else Undefined.

(** [while (matchLength-- > 0) history[pos++] = history[referencePos++];] *)
Fixpoint copy_match_overlap (n : nat) (referencePos : Z) (s : state) : result state :=
  match n with
  | O => Ok s
  | S n' =>
      c <- hist s referencePos ;;
      s1 <- push c s ;;
      copy_match_overlap n' (u32 (referencePos + 1)) s1
  end.

(** the loop for a copy that wraps around at the end of [history] *)
Fixpoint copy_match_wrap (n : nat) (referencePos : Z) (s : state) : result state :=
  match n with
  | O => Ok s
  | S n' =>
      c <- hist s referencePos ;;
      s1 <- push c s ;;
      copy_match_wrap n' (u32 (referencePos + 1) mod HISTORY_SIZE) (flush_if_full s1)
  end.

(** the first half of the body of [while (blockOffset < blockSize)]: the
    token and the literals *)
Definition literal_run (blockOffset : Z) (s : state) : result (Z * Z * state) :=
  '(token, s) <- next s ;;
  let blockOffset := u32 (blockOffset + 1) in
  let numLiterals := Z.shiftr token 4 in
  '(numLiterals, blockOffset, s) <-
     (if numLiterals =? 15
      then read_length (S (length mem)) numLiterals blockOffset s
      else Ok (numLiterals, blockOffset, s)) ;;
  let blockOffset := u32 (blockOffset + numLiterals) in
  s <- (if u32 (pos s + numLiterals) <? HISTORY_SIZE
        then copy_literals_fast (Z.to_nat numLiterals) s
        else copy_literals_slow (Z.to_nat numLiterals) s) ;;
  Ok (token, blockOffset, s).

(** the second half: the offset and the match *)
Definition match_run (token blockOffset : Z) (s : state) : result (Z * state) :=
  '(d0, s) <- next s ;;
  '(d1, s) <- next s ;;
  let delta := Z.lor d0 (Z.shiftl d1 8) in
  if delta =? 0 then Fatal InvalidOffset
  else
    let blockOffset := u32 (blockOffset + 2) in
    let matchLength := 4 + Z.land token 15 in
    '(matchLength, blockOffset, s) <-
       (if matchLength =? 4 + 15
        then read_length (S (length mem)) matchLength blockOffset s
        else Ok (matchLength, blockOffset, s)) ;;
    let referencePos :=
      if delta <=? pos s then pos s - delta
      else u32 (HISTORY_SIZE + pos s - delta) in
    s <- (if (u32 (pos s + matchLength) <? HISTORY_SIZE)
             && (u32 (referencePos + matchLength) <? HISTORY_SIZE)
          then
            if (u32 (referencePos + matchLength) <=? pos s)
               || (u32 (pos s + matchLength) <=? referencePos)
            then memcpy_match referencePos matchLength s
            else copy_match_overlap (Z.to_nat matchLength) referencePos s
          else copy_match_wrap (Z.to_nat matchLength) referencePos s) ;;
    Ok (blockOffset, s).

(** One pass of [while (blockOffset < blockSize)]: [inl] is the state at a
    [break], [inr] the block offset and state at the end of the body. *)
Definition sequence (blockSize blockOffset : Z) (s : state)
  : result (state + Z * state) :=
  '(token, blockOffset, s) <- literal_run blockOffset s ;;
  if blockOffset =? blockSize then Ok (inl s)
  else
    r <- match_run token blockOffset s ;;
    Ok (inr r).

(** [while (blockOffset < blockSize) { ... }] *)
Fixpoint compressed_block (fuel : nat) (blockSize blockOffset : Z) (s : state)
  : result state :=
  match fuel with
  | O => OutOfFuel
  | S fuel' =>
      if blockOffset <? blockSize then
        r <- sequence blockSize blockOffset s ;;
        match r with
        | inl s' => Ok s'
        | inr (blockOffset', s') => compressed_block fuel' blockSize blockOffset' s'
        end
      else Ok s
  end.

(** [while (blockSize-- > 0) { history[pos++] = *it; ++it; if (pos == HISTORY_SIZE) ... }] *)
Definition raw_block (blockSize : Z) (s : state) : result state :=
  copy_literals_slow (Z.to_nat blockSize) s.

(** the four bytes of a block's size, little endian *)
Definition read_u32 (s : state) : result (Z * state) :=
  '(b0, s) <- next s ;;
  '(b1, s) <- next s ;;
  '(b2, s) <- next s ;;
  '(b3, s) <- next s ;;
  Ok (Z.lor (Z.lor (Z.lor b0 (Z.shiftl b1 8)) (Z.shiftl b2 16)) (Z.shiftl b3 24), s).

(** [while (true)]: parse all blocks until [blockSize == 0] *)
Fixpoint blocks (fuel : nat) (hasBlockChecksum : bool) (s : state) : result state :=
  match fuel with
  | O => OutOfFuel
  | S fuel' =>
      '(blockSize, s) <- read_u32 s ;;
      let isCompressed := Z.land blockSize 2147483648 =? 0 in
      let blockSize := Z.land blockSize 2147483647 in
      if blockSize =? 0 then Ok s
      else
        s <- (if isCompressed
              then compressed_block (S (length mem)) blockSize 0 s
              else raw_block blockSize s) ;;
        blocks fuel' hasBlockChecksum
          (if hasBlockChecksum then with_it s (it s + 4) else s)
  end.

End Decoder.

(** The [dictionary] argument: a null pointer, or the name of a file that
    [fopen] cannot open ([None]) or whose contents it gives. *)
Inductive dictionary_arg : Type :=
| NoDictionary
| DictionaryFile (contents : option (list byte)).

(** [fread(history + HISTORY_SIZE - dictSize, 1, dictSize, dict)] of the last
    64k of the file *)
Definition load_dictionary (history0 dict : list byte) : list byte :=
  let dictSize := Nat.min (length dict) (Z.to_nat HISTORY_SIZE) in
  overwrite history0 (Z.to_nat HISTORY_SIZE - dictSize)
    (skipn (length dict - dictSize) dict).

(** [unlz4(it, end, b, ix, dictionary)].  [history0] is what the stack
    happens to hold where [history] is allocated.  The result is the read
    cursor and the sink at the return. *)
Definition unlz4 (history0 : list byte) (mem : list byte)
    (it0 : nat) (end_ : nat) (o : sink) (dictionary : dictionary_arg)
  : result (nat * sink) :=
  let s := {| it := it0; history := history0; pos := 0; out := o |} in
  '(signature1, s) <- next mem s ;;
  '(signature2, s) <- next mem s ;;
  '(signature3, s) <- next mem s ;;
  '(signature4, s) <- next mem s ;;
  let signature :=
    u32 (Z.lor (Z.lor (Z.lor (Z.shiftl signature4 24) (Z.shiftl signature3 16))
                  (Z.shiftl signature2 8)) signature1) in
  let isModern := signature =? 407708164 (* 0x184D2204 *) in
  if negb isModern then Fatal InvalidSignature
  else
    '(flags, s) <- next mem s ;;
    let hasBlockChecksum := negb (Z.land flags 16 =? 0) in
    let hasContentSize := negb (Z.land flags 8 =? 0) in
    let hasContentChecksum := negb (Z.land flags 4 =? 0) in
    let hasDictionaryID := negb (Z.land flags 1 =? 0) in
    let version := Z.shiftr flags 6 in
    if negb (version =? 1) then Fatal UnsupportedVersion
    else
      let numIgnore :=
        (1 + (if hasContentSize then 8 else 0)
           + (if hasDictionaryID then 4 else 0) + 1)%nat in
      let s := with_it s (it s + numIgnore) in
      h <- match dictionary with
           | NoDictionary => Ok (history s)
           | DictionaryFile None => Fatal CannotOpenDictionary
           | DictionaryFile (Some d) => Ok (load_dictionary (history s) d)
           end ;;
      let s := {| it := it s; history := h; pos := 0; out := out s |} in
      s <- blocks mem (S (length mem)) hasBlockChecksum s ;;
      let s := if hasContentChecksum then with_it s (it s + 4) else s in
      Ok (it s, dump (firstn (Z.to_nat (pos s)) (history s)) (out s)).

End Unlz4.

(** ** The encoder: struct [smallz4] *)

Module Smallz4.

Definition ShortChainsGreedy : Z := 3.
Definition ShortChainsLazy : Z := 6.
Definition MinMatch : Z := 4.
Definition JustLiteral : Z := 1.
Definition BlockEndNoMatch : Z := 12.
Definition BlockEndLiterals : Z := 5.
Definition HashBits : Z := 20.
Definition HashSize : Z := Z.shiftl 1 HashBits.
Definition MaxDistance : Z := 65535.
Definition EndOfChain : Z := 0.
Definition MaxChainLength : Z := MaxDistance.
Definition MaxSameLetter : Z := 19 + 255 * 256.
Definition MaxBlockSizeId : Z := 7.
Definition MaxBlockSize : Z := 4 * 1024 * 1024.
Definition MaxLengthCode : Z := 255.
Definition NoLastHash : Z := 18446744073709551615. (* ~0 as uint64_t *)

Definition u64 (z : Z) : Z := z mod 18446744073709551616.

(** [std::vector<Length>], [std::vector<Distance>], [std::vector<Cost>]:
    a read is [v[i]]; every index the encoder uses in these is inside the
    vector, except in the loop that [fill_literals] embeds. *)
Definition vget (v : list Z) (i : Z) : Z :=
  if i <? 0 then 0 else nth (Z.to_nat i) v 0.

Fixpoint vset_nat (v : list Z) (i : nat) (x : Z) : list Z :=
  match v, i with
  | [], _ => []
  | _ :: t, O => x :: t
  | h :: t, S j => h :: vset_nat t j x
  end.

Definition vset (v : list Z) (i : Z) (x : Z) : list Z :=
  if i <? 0 then v else vset_nat v (Z.to_nat i) x.

(** The three index tables have 2^20 and 2^16 entries, all initialised: a
    total map from the index to the entry. *)
Definition table : Type := Z -> Z.

Definition tset (t : table) (k v : Z) : table :=
  fun j => if j =? k then v else t j.

Record Matches : Type :=
  { lengths : list Z;      (* std::vector<Length> *)
    distances : list Z     (* std::vector<Distance> *) }.

(** [getHash32] *)
Definition getHash32 (fourBytes : Z) : Z :=
  let HashMultiplier := 48271 in
  Z.land (Z.shiftr (u32 (fourBytes * HashMultiplier)) (32 - HashBits)) (HashSize - 1).

Section Encoder.

(** how many matches are checked in [findLongestMatch] (a [uint16_t]) *)
Variable maxChainLength : Z.

(** The bytes of the input range [[it, end)].  An address is the distance
    from the first byte; the encoder reads only inside of the range. *)
Variable input : list byte.

Definition byte_at (p : Z) : Z :=
  if p <? 0 then 0 else b2z (nth (Z.to_nat p) input x00).

(** an unaligned 32 bit load: [*(const uint32_t* )a], [memcpy(&four, a, 4)] *)
Definition load32 (a : Z) : Z :=
  Z.lor (Z.lor (Z.lor (byte_at a) (Z.shiftl (byte_at (a + 1)) 8))
           (Z.shiftl (byte_at (a + 2)) 16))
    (Z.shiftl (byte_at (a + 3)) 24).

(** [match4] *)
Definition match4 (a b : Z) : bool := load32 a =? load32 b.

(** [while (phase1 > current && match4(phase1, phase1 - totalDistance)) phase1 -= 4;]
    The loop leaves when [phase1 <= current], which is at the latest after
    [phase1 - current] passes: this is what [n] counts. *)
Fixpoint phase1_loop (n : nat) (current totalDistance phase1 : Z) : Z :=
  match n with
  | O => phase1
  | S n' =>
      if (phase1 >? current) && match4 phase1 (phase1 - totalDistance)
      then phase1_loop n' current totalDistance (phase1 - 4)
      else phase1
  end.

(** [while (phase2 + 4 <= stop && match4(phase2, phase2 - totalDistance)) phase2 += 4;] *)
Fixpoint phase2_fast (n : nat) (stop totalDistance phase2 : Z) : Z :=
  match n with
  | O => phase2
  | S n' =>
      if (phase2 + 4 <=? stop) && match4 phase2 (phase2 - totalDistance)
      then phase2_fast n' stop totalDistance (phase2 + 4)
      else phase2
  end.

(** [while (phase2 < stop && *phase2 == *(phase2 - totalDistance)) ++phase2;] *)
Fixpoint phase2_slow (n : nat) (stop totalDistance phase2 : Z) : Z :=
  match n with
  | O => phase2
  | S n' =>
      if (phase2 <? stop) && (byte_at phase2 =? byte_at (phase2 - totalDistance))
      then phase2_slow n' stop totalDistance (phase2 + 1)
      else phase2
  end.

(** The body of [while (distance != EndOfChain)] in [findLongestMatch].
    [totalDistance] grows by at least one in every pass that does not leave
    the loop and the loop leaves when it exceeds [MaxDistance]: [n] bounds
    the number of passes. *)
Fixpoint chain_loop (n : nat) (pos current stop : Z) (chain : table)
    (distance totalDistance stepsLeft result_length result_distance : Z)
  : Z * Z :=
  match n with
  | O => (result_length, result_distance)
  | S n' =>
      if distance =? EndOfChain then (result_length, result_distance)
      else
        let totalDistance := u32 (totalDistance + distance) in
        if totalDistance >? MaxDistance then (result_length, result_distance)
        else
          let distance := u16 (chain (Z.land (pos - totalDistance) MaxDistance)) in
          let atLeast := current + result_length + 1 in
          if atLeast >? stop then (result_length, result_distance)
          else
            let CheckAtOnce := 4 in
            let phase1 :=
              phase1_loop (Z.to_nat (atLeast - CheckAtOnce - current))
                current totalDistance (atLeast - CheckAtOnce) in
            if phase1 >? current then
              chain_loop n' pos current stop chain distance totalDistance
                stepsLeft result_length result_distance
            else
              let phase2 :=
                phase2_fast (Z.to_nat (stop - atLeast)) stop totalDistance atLeast in
              let phase2 :=
                phase2_slow (Z.to_nat (stop - phase2)) stop totalDistance phase2 in
              let result_length := u32 (phase2 - current) in
              let result_distance := u16 totalDistance in
              let stepsLeft := u16 (stepsLeft - 1) in
              if stepsLeft =? 0 then (result_length, result_distance)
              else
                chain_loop n' pos current stop chain distance totalDistance
                  stepsLeft result_length result_distance
      end.

(** [findLongestMatch(data, pos, begin, end, chain, result_length, result_distance)]:
    [data] is the address the pointer holds, [result_distance] the value the
    referenced entry has at the call; the result is the two referenced
    entries at the return. *)
Definition findLongestMatch (data pos begin end_ : Z) (chain : table)
    (result_distance : Z) : Z * Z :=
  let result_length := JustLiteral in
  let stepsLeft := maxChainLength in
  let current := data + pos - begin in
  let stop := current + end_ - pos in
  let distance := u16 (chain (Z.land pos MaxDistance)) in
  chain_loop (Z.to_nat (MaxDistance + 2)) pos current stop chain
    distance 0 stepsLeft result_length result_distance.

(** [{data + a, n}]: the span of [n] bytes at address [a] *)
Definition span (a n : Z) : list byte :=
  firstn (Z.to_nat n) (skipn (Z.to_nat a) input).

(** [while (v >= MaxLengthCode) { dump(MaxLengthCode, ...); v -= MaxLengthCode; }
    dump((unsigned char)v, ...);] *)
Fixpoint dump_length (n : nat) (v : Z) (r : sink) : sink :=
  match n with
  | O => dump1 (z2b v) r
  | S n' =>
      if v >=? MaxLengthCode
      then dump_length n' (v - MaxLengthCode) (dump1 (z2b MaxLengthCode) r)
      else dump1 (z2b v) r
  end.

(** The part of the loop body of [selectBestMatches] below the choice
    between a literal and a match: it writes one sequence. *)
Definition emit_sequence (lastToken : bool) (data length distance : Z)
    (literalsFrom numLiterals : Z) (r : sink) : sink :=
  let matchLength := if lastToken then 0 else length - MinMatch in
  let token := if matchLength <? 15 then b2z (z2b matchLength) else 15 in
  let r :=
    if numLiterals <? 15 then
      dump1 (z2b (Z.lor token (Z.shiftl numLiterals 4))) r
    else
      let r := dump1 (z2b (Z.lor token 240)) r in
      let encodeNumLiterals := numLiterals - 15 in
      dump_length (Z.to_nat encodeNumLiterals) encodeNumLiterals r in
  let r := if numLiterals >? 0 then dump (span (data + literalsFrom) numLiterals) r
           else r in
  if (numLiterals >? 0) && lastToken then r
  else
    let r := dump1 (z2b (Z.land distance 255)) r in
    let r := dump1 (z2b (Z.shiftr distance 8)) r in
    if matchLength >=? 15 then
      let matchLength := matchLength - 15 in
      dump_length (Z.to_nat matchLength) matchLength r
    else r.

(** The loop of [selectBestMatches].  [offset] grows in every pass, [n]
    bounds the number of passes.  [emitted] is not in the source: it lists
    the matches the loop has written, as (offset, length, distance). *)
Fixpoint select_loop (n : nat) (m : Matches) (data n_matches : Z)
    (offset literalsFrom numLiterals : Z) (r : sink) (emitted : list (Z * Z * Z))
  : sink * list (Z * Z * Z) :=
  match n with
  | O => (r, emitted)
  | S n' =>
      if offset <? n_matches then
        let length := vget (lengths m) offset in
        let distance := vget (distances m) offset in
        if length <=? JustLiteral then
          let literalsFrom := if numLiterals =? 0 then offset else literalsFrom in
          let numLiterals := numLiterals + 1 in
          let offset1 := offset + 1 in
          if offset1 <? n_matches then
            select_loop n' m data n_matches offset1 literalsFrom numLiterals r emitted
          else
            (emit_sequence true data length distance literalsFrom numLiterals r,
             emitted)
        else
          select_loop n' m data n_matches (offset + length) literalsFrom 0
            (emit_sequence false data length distance literalsFrom numLiterals r)
            (emitted ++ [(offset, length, distance)])
      else (r, emitted)
  end.

Definition select (m : Matches) (data : Z) : sink * list (Z * Z * Z) :=
  let n_matches := Z.of_nat (length (lengths m)) in
  select_loop (length (lengths m)) m data n_matches 0 0 0
    {| buf := resize [] (length (lengths m)); ix := 0 |} [].

(** [selectBestMatches(matches, data, result)]: [result] at the return *)
Definition selectBestMatches (m : Matches) (data : Z) : list byte :=
  written (fst (select m data)).

(** [for (Length length = MinMatch; length <= match_length; ++length)] in
    [estimateCosts] *)
Fixpoint cost_loop (n : nat) (cost : list Z) (i match_length length : Z)
    (minCost bestLength extraCost nextCostIncrease : Z) : Z * Z :=
  match n with
  | O => (minCost, bestLength)
  | S n' =>
      if length <=? match_length then
        let currentCost := u32 (vget cost (i + length) + extraCost) in
        let better := currentCost <=? minCost in
        let minCost := if better then currentCost else minCost in
        let bestLength := if better then length else bestLength in
        let increase := length =? nextCostIncrease in
        let extraCost := if increase then u32 (extraCost + 1) else extraCost in
        let nextCostIncrease :=
          if increase then u32 (nextCostIncrease + MaxLengthCode)
          else nextCostIncrease in
        cost_loop n' cost i match_length (u32 (length + 1))
          minCost bestLength extraCost nextCostIncrease
      else (minCost, bestLength)
  end.

(** one pass of the backwards loop of [estimateCosts], at position [i] *)
Definition cost_step (i : Z) (st : Matches * list Z * Z) : Matches * list Z * Z :=
  let '(m, cost, numLiterals) := st in
  let numLiterals := u32 (numLiterals + 1) in
  let bestLength := JustLiteral in
  let minCost := u32 (vget cost (i + 1) + JustLiteral) in
  let minCost :=
    if (numLiterals >=? 15)
       && ((numLiterals =? 15)
           || ((numLiterals >=? 15 + MaxLengthCode)
               && ((numLiterals - 15) mod MaxLengthCode =? 0)))
    then u32 (minCost + 1) else minCost in
  let match_length := vget (lengths m) i in
  let match_distance := vget (distances m) i in
  let '(minCost, bestLength) :=
    if (match_length >=? MaxSameLetter) && (match_distance =? 1) then
      (u32 (vget cost (i + match_length) + 1 + 2 + 1 + u32 (match_length - 19) / 255),
       match_length)
    else
      cost_loop (Z.to_nat (match_length - MinMatch + 1)) cost i match_length MinMatch
        minCost bestLength (1 + 2) 18 in
  let cost := vset cost i minCost in
  let m := {| lengths := vset (lengths m) i bestLength; distances := distances m |} in
  (m, cost, if bestLength =? JustLiteral then numLiterals else 0).

(** [for (int64_t i = blockEnd - (1 + BlockEndLiterals); i >= 0; --i)]:
    [n] is the number of positions left, the next one is [n - 1]; the
    first one is [blockEnd - (1 + BlockEndLiterals)], so that there are
    [blockEnd - (1 + BlockEndLiterals) + 1] of them. *)
Fixpoint cost_steps (n : nat) (st : Matches * list Z * Z) : Matches * list Z * Z :=
  match n with
  | O => st
  | S n' => cost_steps n' (cost_step (Z.of_nat n') st)
  end.

(** [estimateCosts(matches)]: [matches] at the return *)
Definition estimateCosts (m : Matches) : Matches :=
  let blockEnd := Z.of_nat (length (lengths m)) in
  let cost := repeat 0 (length (lengths m)) in
  fst (fst (cost_steps (Z.to_nat (blockEnd - (1 + BlockEndLiterals) + 1))
              (m, cost, BlockEndLiterals))).

(** *** The match finder loop of [compress] *)

(** what [compress] keeps between the positions of a block *)
Record finder : Type :=
  { lastHash : table;          (* std::vector<uint64_t>, HashSize entries *)
    previousHash : table;      (* std::vector<Distance>, MaxDistance + 1 entries *)
    previousExact : table;     (* std::vector<Distance>, MaxDistance + 1 entries *)
    matches : Matches;
    skipMatches : Z;
    lazyEvaluation : bool }.

(** the block being processed: the span [data] (address and size),
    [dataZero], [lastBlock] and [nextBlock] *)
Record window : Type :=
  { data_ptr : Z;     (* data.data(), as an address *)
    data_size : Z;    (* data.size() *)
    dataZero : Z;
    lastBlock : Z;
    nextBlock : Z }.

(** [&data[k]]: [std::span::operator[]] does no bounds check, it is the
    address [data.data() + k]. *)
Definition data_at (w : window) (k : Z) : Z := data_ptr w + k.

Definition dataBlock (w : window) : Z := data_at w (lastBlock w - dataZero w).
Definition blockSize (w : window) : Z := nextBlock w - lastBlock w.

(** Which way a pass of the loop took (not in the source). *)
Inductive visit : Type :=
| SelfRun     (* copied the predecessor's self-referencing match *)
| NoChain     (* no predecessor with the same hash or the same four bytes *)
| Lookback    (* i < 0: the chains are updated, no match finding *)
| Skipped     (* match finding skipped in greedy or lazy mode *)
| Searched    (* findLongestMatch was called *).

(** [while (true)] that walks the hash chain until the four bytes match.
    [distance] grows in every pass that does not leave the loop, and the
    loop leaves when it exceeds [MaxDistance]: [n] bounds the passes.  The
    result is [currentFour] and [distance] at the exit. *)
Fixpoint exact_walk (n : nat) (w : window) (previousHash : table)
    (four hash lastHashMatch distance : Z) : Z * Z :=
  let currentFour := load32 (data_at w (lastHashMatch - dataZero w)) in
  match n with
  | O => (currentFour, distance)
  | S n' =>
      if currentFour =? four then (currentFour, distance)
      else if negb (hash =? getHash32 currentFour) then (currentFour, distance)
      else
        let next := u16 (previousHash (Z.land lastHashMatch MaxDistance)) in
        if next =? EndOfChain then (currentFour, distance)
        else
          let distance := u64 (distance + next) in
          if distance >? MaxDistance then (currentFour, distance)
          else
            let lastHashMatch := u64 (lastHashMatch - next) in
            if lastHashMatch <? dataZero w then (currentFour, distance)
            else exact_walk n' w previousHash four hash lastHashMatch distance
  end.

Definition isGreedy : bool := maxChainLength <=? ShortChainsGreedy.
Definition isLazy : bool := negb isGreedy && (maxChainLength <=? ShortChainsLazy).

Definition set_match (m : Matches) (i length distance : Z) : Matches :=
  {| lengths := vset (lengths m) i length;
     distances := vset (distances m) i distance |}.

(** the body of the loop over the positions [i] of a block *)
Definition step (w : window) (i : Z) (f : finder) : visit * finder :=
  let m := matches f in
  if (i >? 0) && (byte_at (dataBlock w + i) =? byte_at (dataBlock w + (i - 1)))
     && (vget (distances m) (i - 1) =? 1)
     && (vget (lengths m) (i - 1) >? MaxSameLetter)
  then
    let prev_length := vget (lengths m) (i - 1) in
    (SelfRun,
     {| lastHash := lastHash f; previousHash := previousHash f;
        previousExact := previousExact f;
        matches := set_match m i (u32 (prev_length - 1)) 1;
        skipMatches := skipMatches f; lazyEvaluation := lazyEvaluation f |})
  else
    let four := load32 (dataBlock w + i) in
    let hash := getHash32 four in
    let lastHashMatch := lastHash f hash in
    let lastHash' := tset (lastHash f) hash (u64 (i + lastBlock w)) in
    let prevIndex := Z.land (i + MaxDistance + 1) MaxDistance in
    let no_chain (ph : table) :=
      (NoChain,
       {| lastHash := lastHash'; previousHash := ph;
          previousExact := tset (previousExact f) prevIndex EndOfChain;
          matches := m;
          skipMatches := skipMatches f; lazyEvaluation := lazyEvaluation f |}) in
    if lastHashMatch =? NoLastHash then
      no_chain (tset (previousHash f) prevIndex EndOfChain)
    else
      let distance := u64 (lastHash' hash - lastHashMatch) in
      if distance >? MaxDistance then
        no_chain (tset (previousHash f) prevIndex EndOfChain)
      else
        let previousHash' := tset (previousHash f) prevIndex (u16 distance) in
        let '(currentFour, distance) :=
          exact_walk (Z.to_nat (MaxDistance + 2)) w previousHash'
            four hash lastHashMatch distance in
        if negb (four =? currentFour) then no_chain previousHash'
        else
          let previousExact' := tset (previousExact f) prevIndex (u16 distance) in
          let updated (v : visit) (m : Matches) (skip : Z) (lazy : bool) :=
            (v,
             {| lastHash := lastHash'; previousHash := previousHash';
                previousExact := previousExact';
                matches := m; skipMatches := skip; lazyEvaluation := lazy |}) in
          if i <? 0 then updated Lookback m (skipMatches f) (lazyEvaluation f)
          else if (skipMatches f >? 0) && negb (lazyEvaluation f) then
            updated Skipped m (u32 (skipMatches f - 1)) (lazyEvaluation f)
          else
            let skip := if skipMatches f >? 0 then u32 (skipMatches f - 1)
                        else skipMatches f in
            let lazy := if skipMatches f >? 0 then false else lazyEvaluation f in
            let '(length, distance) :=
              findLongestMatch (data_ptr w) (i + lastBlock w) (dataZero w)
                (nextBlock w - BlockEndLiterals) previousExact'
                (vget (distances m) i) in
            let m := set_match m i length distance in
            if (isLazy || isGreedy) && negb (length =? JustLiteral)
            then updated Searched m length (skip =? 0)
            else updated Searched m skip lazy.

(** [for (i = lookback; i + BlockEndNoMatch <= int64_t(blockSize); ++i)]:
    [n] is the number of positions left.  [trace] is not in the source: it
    lists the positions visited and the way each pass took. *)
Fixpoint match_loop (n : nat) (w : window) (i : Z) (f : finder)
    (trace : list (Z * visit)) : finder * list (Z * visit) :=
  match n with
  | O => (f, trace)
  | S n' =>
      let '(v, f') := step w i f in
      match_loop n' w (i + 1) f' (trace ++ [(i, v)])
  end.

(** [while (i < n_lengths) { matches.lengths[i] = JustLiteral; ++i; }]
    A negative [i] is an index outside of the vector. *)
Fixpoint fill_literals (n : nat) (i : Z) (m : Matches) : result Matches :=
  match n with
  | O => Ok m
  | S n' =>
      if i <? 0 then Undefined
      else fill_literals n' (i + 1)
             {| lengths := vset (lengths m) i JustLiteral; distances := distances m |}
  end.

(** what [compress] keeps between the blocks *)
Record encoder : Type :=
  { it : Z;                  (* the read pointer, as an address *)
    win : window;
    numRead : Z;
    hashes : table;          (* lastHash *)
    chainHash : table;       (* previousHash *)
    chainExact : table;      (* previousExact *)
    parseDictionary : bool;
    output : sink;
    (* not in the source: the matches written so far, as
       (position in the input, length, distance) *)
    log : list (Z * Z * Z) }.

Definition uncompressed : bool := maxChainLength =? 0.

(** The first position of the loop over the positions of a block: the
    last literals of the previous block are visited again.
    [parseDictionary] is false where this runs (the pass has thrown
    otherwise), which leaves [lookback] as below. *)
Definition lookback (w : window) : Z :=
  let lookback := dataZero w in
  let lookback :=
    if lookback >? BlockEndNoMatch then BlockEndNoMatch else lookback in
  let lookback := - lookback in
  if uncompressed then 0 else lookback.

(** the number of passes of [for (i = lookback; i + BlockEndNoMatch <=
    int64_t(blockSize) && !uncompressed; ++i)], when it is not negative *)
Definition passes (w : window) : Z :=
  if uncompressed then 0 else blockSize w - BlockEndNoMatch + 1 - lookback w.

Definition n_matches (w : window) : Z :=
  if uncompressed then 0 else blockSize w.

(** the match table of a block: the loop over the positions, then the
    literals at the end *)
Definition find_matches (w : window) (lh ph pe : table)
  : result (finder * list (Z * visit)) :=
  let m := {| lengths := repeat 0 (Z.to_nat (n_matches w));
              distances := repeat 0 (Z.to_nat (n_matches w)) |} in
  let f := {| lastHash := lh; previousHash := ph; previousExact := pe;
              matches := m; skipMatches := 0; lazyEvaluation := false |} in
  let '(f, trace) := match_loop (Z.to_nat (passes w)) w (lookback w) f [] in
  let i := lookback w + Z.max 0 (passes w) in
  m <- fill_literals (Z.to_nat (n_matches w - i)) i (matches f) ;;
  Ok ({| lastHash := lastHash f; previousHash := previousHash f;
         previousExact := previousExact f; matches := m;
         skipMatches := skipMatches f; lazyEvaluation := lazyEvaluation f |},
      trace).

(** the matches of a block after the optional [estimateCosts] *)
Definition choose (m : Matches) : Matches :=
  let n_matches := Z.of_nat (length (lengths m)) in
  if (n_matches >? BlockEndNoMatch) && (maxChainLength >? ShortChainsGreedy)
  then estimateCosts m else m.

(** a block from the match finder to the serializer: the tables at the end,
    the passes of the match finder, the matches written and the bytes of
    the compressed block *)
Record encoded : Type :=
  { found : finder;
    visits : list (Z * visit);
    chosen : list (Z * Z * Z);
    compressed : list byte }.

Definition encode_block (w : window) (lh ph pe : table) : result encoded :=
  '(f, trace) <- find_matches w lh ph pe ;;
  let '(r, emitted) := select (choose (matches f)) (dataBlock w) in
  Ok {| found := f; visits := trace; chosen := emitted; compressed := written r |}.

(** the output of a block: the size, tagged with bit 31 for a block that is
    not compressed, and the bytes *)
Definition emit_block (w : window) (compressed : list byte) (o : sink) : sink :=
  let useCompression :=
    (Z.of_nat (length compressed) <? blockSize w) && negb uncompressed in
  let numBytes :=
    u32 (if useCompression then Z.of_nat (length compressed) else blockSize w) in
  let numBytesTagged :=
    Z.lor numBytes (if useCompression then 0 else 2147483648) in
  let o := dump1 (z2b (Z.land numBytesTagged 255)) o in
  let o := dump1 (z2b (Z.land (Z.shiftr numBytesTagged 8) 255)) o in
  let o := dump1 (z2b (Z.land (Z.shiftr numBytesTagged 16) 255)) o in
  let o := dump1 (z2b (Z.land (Z.shiftr numBytesTagged 24) 255)) o in
  if useCompression then dump (firstn (Z.to_nat numBytes) compressed) o
  else dump (span (dataBlock w) numBytes) o.

(** [if (const size_t incoming = size_t(end - it); incoming) { ... }] *)
Definition read_more (e : encoder) : window :=
  let incoming := Z.of_nat (length input) - it e in
  let w := win e in
  if incoming =? 0 then w
  else if data_size w =? 0 then
    {| data_ptr := it e; data_size := incoming; dataZero := dataZero w;
       lastBlock := lastBlock w; nextBlock := nextBlock w |}
  else
    {| data_ptr := data_ptr w; data_size := data_size w + incoming;
       dataZero := dataZero w;
       lastBlock := lastBlock w; nextBlock := nextBlock w |}.

(** the borders of the next block *)
Definition next_block (w : window) (numRead : Z) : window :=
  let next := nextBlock w + MaxBlockSize in
  {| data_ptr := data_ptr w; data_size := data_size w;
     dataZero := dataZero w; lastBlock := nextBlock w;
     nextBlock := if next >? numRead then numRead else next |}.

(** [if (data.size() > MaxDistance) { ... data = data.subspan(remove); }] *)
Definition discard (w : window) : window :=
  if data_size w >? MaxDistance then
    let remove := data_size w - MaxDistance in
    {| data_ptr := data_ptr w + remove; data_size := MaxDistance;
       dataZero := dataZero w + remove;
       lastBlock := lastBlock w; nextBlock := nextBlock w |}
  else w.

(** One pass of [while (true)] in [compress]: [inl] is the state at the
    [break], [inr] the state at the end of the body.  When the body throws
    or leaves the buffers, the sink is the one of the argument. *)
Definition block (e : encoder) : result (encoder + encoder) :=
  if parseDictionary e then Fatal DictionaryUnsupported
  else
    let incoming := Z.of_nat (length input) - it e in
    let w := read_more e in
    let numRead' := numRead e + incoming in
    let it' := it e + incoming in
    if nextBlock w =? numRead' then
      Ok (inl {| it := it'; win := w; numRead := numRead';
                 hashes := hashes e; chainHash := chainHash e;
                 chainExact := chainExact e;
                 parseDictionary := parseDictionary e; output := output e;
                 log := log e |})
    else
      let w := next_block w numRead' in
      b <- encode_block w (hashes e) (chainHash e) (chainExact e) ;;
      let o := emit_block w (compressed b) (output e) in
      let useCompression :=
        (Z.of_nat (length (compressed b)) <? blockSize w) && negb uncompressed in
      Ok (inr {| it := it'; win := discard w; numRead := numRead';
                 hashes := lastHash (found b); chainHash := previousHash (found b);
                 chainExact := previousExact (found b);
                 parseDictionary := false; output := o;
                 log := log e ++
                        (if useCompression
                         then map (fun '(p, l, d) => (lastBlock w + p, l, d))
                                (chosen b)
                         else []) |}).

(** [while (true)]: one block for each pass *)
Fixpoint blocks (n : nat) (e : encoder) : encoder * result unit :=
  match n with
  | O => (e, OutOfFuel)
  | S n' =>
      match block e with
      | Ok (inl e') => (e', Ok tt)
      | Ok (inr e') => blocks n' e'
      | Fatal err => (e, Fatal err)
      | Undefined => (e, Undefined)
      | OutOfFuel => (e, OutOfFuel)
      end
  end.

Definition header : list byte :=
  [x04; x22; x4d; x18;               (* magic bytes *)
   z2b (Z.shiftl 1 6);               (* flags *)
   z2b (Z.shiftl MaxBlockSizeId 4);  (* max blocksize *)
   xdf]                              (* header checksum *).

(** the state of [compress] at the first block *)
Definition start (o : sink) (dictionary : list byte) : encoder :=
  {| it := 0;
     win := {| data_ptr := 0; data_size := 0; dataZero := 0;
               lastBlock := 0; nextBlock := 0 |};
     numRead := 0;
     hashes := fun _ => NoLastHash;
     chainHash := fun _ => EndOfChain;
     chainExact := fun _ => EndOfChain;
     parseDictionary := negb (Nat.eqb (length dictionary) 0);
     output := dump header o;
     log := [] |}.

(** The run of [compress] up to the end of the loop.  Every pass of the
    loop but the last one takes at least one byte of the input. *)
Definition run (o : sink) (dictionary : list byte) : encoder * result unit :=
  blocks (S (length input)) (start o dictionary).

(** [compress(it, end, b, ix, dictionary)]: the sink at the end of the run
    and how the run ended *)
Definition compress (o : sink) (dictionary : list byte) : sink * result unit :=
  match run o dictionary with
  | (e, Ok _) => (dump_type 0 (output e), Ok tt)
  | (e, r) => (output e, r)
  end.

End Encoder.

(** [smallz4::lz4(it, end, b, ix, maxChainLength, dictionary)] *)
Definition lz4 (input : list byte) (o : sink) (maxChainLength : Z)
    (dictionary : list byte) : sink * result unit :=
  compress maxChainLength input o dictionary.

(** the matches a run has written, as (position, length, distance) *)
Definition matches_of (input : list byte) (maxChainLength : Z)
  : list (Z * Z * Z) :=
  log (fst (run maxChainLength input sink0 [])).


End Smallz4.

(** ** The LZ4 frame format

    What a frame holds, as sections 4.4 and 4.5 of the specification give
    the format (not from the source): the bytes of a frame for a list of
    blocks, each raw or a list of sequences.  It states what a conformant
    encoder may hand to the decoder. *)

Module Format.

Record sequence : Type :=
  { literals : list byte;   (* the literal bytes *)
    offset : Z;             (* the match offset, two bytes little endian *)
    matchLength : Z         (* the length of the match, at least 4 *) }.

Inductive block : Type :=
| Raw (payload : list byte)
| Compressed (sequences : list sequence) (last_literals : list byte).

(** the bytes that extend a length of 15 in a token: [255] as often as it
    fits into [v], then the rest *)
Definition overflow (v : Z) : list byte :=
  repeat xff (Z.to_nat (v / 255)) ++ [z2b (v mod 255)].

Definition length_field (n : Z) : list byte :=
  if n <? 15 then [] else overflow (n - 15).

Definition token (numLiterals matchCode : Z) : byte :=
  z2b (Z.lor (Z.shiftl (Z.min numLiterals 15) 4) (Z.min matchCode 15)).

Definition sequence_bytes (s : sequence) : list byte :=
  let n := Z.of_nat (length (literals s)) in
  [token n (matchLength s - 4)]
  ++ length_field n
  ++ literals s
  ++ [z2b (offset s); z2b (Z.shiftr (offset s) 8)]
  ++ length_field (matchLength s - 4).

(** the last sequence of a block: literals only *)
Definition last_bytes (l : list byte) : list byte :=
  let n := Z.of_nat (length l) in
  [token n 0] ++ length_field n ++ l.

Definition payload (b : block) : list byte :=
  match b with
  | Raw p => p
  | Compressed ss l => concat (map sequence_bytes ss) ++ last_bytes l
  end.

Definition block_bytes (b : block) : list byte :=
  let size := Z.of_nat (length (payload b)) in
  le32 (match b with
        | Raw _ => Z.lor size 2147483648
        | Compressed _ _ => size
        end)
  ++ payload b.

(** the frame descriptor behind the magic number: the flags, the block
    size byte, the content size and the dictionary ID when the flags
    announce them, and the header checksum *)
Definition descriptor (flags bd : byte) (contentSize dictID : list byte) (hc : byte)
  : list byte :=
  [flags; bd]
  ++ (if Z.land (b2z flags) 8 =? 0 then [] else contentSize)
  ++ (if Z.land (b2z flags) 1 =? 0 then [] else dictID)
  ++ [hc].

Definition frame (flags bd : byte) (contentSize dictID : list byte) (hc : byte)
    (blocks : list block) : list byte :=
  [x04; x22; x4d; x18]
  ++ descriptor flags bd contentSize dictID hc
  ++ concat (map block_bytes blocks)
  ++ le32 0.

(** a sequence as the format has it, but for the offset, which may be 0
    here *)
Definition sequence_shape (s : sequence) : Prop :=
  0 <= offset s <= 65535
  /\ 4 <= matchLength s <= 4194304.

(** a block of at least one and at most 4 MiB bytes *)
Definition block_shape (b : block) : Prop :=
  1 <= Z.of_nat (length (payload b)) <= 4194304
  /\ match b with
     | Raw _ => True
     | Compressed ss _ => Forall sequence_shape ss
     end.

(** flags of version 01 that announce no checksum, with the 8 bytes of a
    content size and the 4 bytes of a dictionary ID *)
Definition descriptor_shape (flags : byte) (contentSize dictID : list byte) : Prop :=
  Z.shiftr (b2z flags) 6 = 1
  /\ Z.land (b2z flags) 16 = 0
  /\ Z.land (b2z flags) 4 = 0
  /\ (Z.land (b2z flags) 8 <> 0 -> length contentSize = 8%nat)
  /\ (Z.land (b2z flags) 1 <> 0 -> length dictID = 4%nat).

Definition has_zero_offset (b : block) : Prop :=
  match b with
  | Raw _ => False
  | Compressed ss _ => Exists (fun s => offset s = 0) ss
  end.

End Format.

(** ** Inputs of the examples *)

Module Inputs.
Import String.

Definition hello : list byte := list_byte_of_string "Hello World. Hello World!".
Definition hello_head : list byte := list_byte_of_string "Hello World. ".
Definition hello_tail : list byte := list_byte_of_string "orld!".
Definition twice7 : list byte := list_byte_of_string "ABCDEFGABCDEFGxxxxx".
Definition abcd4 : list byte :=
  list_byte_of_string "abcdabcdabcdabcd0123456789ABCDEF".

End Inputs.

(** * The vocabulary of the properties *)

(** the write cursor is inside of the buffer or at its end *)
Definition wf_sink (s : sink) : Prop := (ix s <= length (buf s))%nat.

(** the four bytes [emit_block] writes for the tagged size [t] *)
Definition size_prefix (t : Z) : list byte :=
  [z2b (Z.land t 255); z2b (Z.land (Z.shiftr t 8) 255);
   z2b (Z.land (Z.shiftr t 16) 255); z2b (Z.land (Z.shiftr t 24) 255)].

(** what is left of the input for the loop over the blocks *)
Definition slack (input : list byte) (e : Smallz4.encoder) : Z :=
  Z.of_nat (length input) - Smallz4.it e + Smallz4.numRead e
  - Smallz4.nextBlock (Smallz4.win e).

(** the window of the block a pass works on, and the state behind it *)
Definition block_window (input : list byte) (e : Smallz4.encoder) : Smallz4.window :=
  Smallz4.next_block (Smallz4.read_more input e)
    (Smallz4.numRead e + (Z.of_nat (length input) - Smallz4.it e)).

Definition advance (L : Z) (input : list byte) (e : Smallz4.encoder)
    (b : Smallz4.encoded) : Smallz4.encoder :=
  let w := block_window input e in
  {| Smallz4.it := Smallz4.it e + (Z.of_nat (length input) - Smallz4.it e);
     Smallz4.win := Smallz4.discard w;
     Smallz4.numRead :=
       Smallz4.numRead e + (Z.of_nat (length input) - Smallz4.it e);
     Smallz4.hashes := Smallz4.lastHash (Smallz4.found b);
     Smallz4.chainHash := Smallz4.previousHash (Smallz4.found b);
     Smallz4.chainExact := Smallz4.previousExact (Smallz4.found b);
     Smallz4.parseDictionary := false;
     Smallz4.output := Smallz4.emit_block L input w (Smallz4.compressed b)
                         (Smallz4.output e);
     Smallz4.log :=
       Smallz4.log e ++
       (if (Z.of_nat (length (Smallz4.compressed b)) <? Smallz4.blockSize w)
           && negb (Smallz4.uncompressed L)
        then map (fun '(p, l, d) => (Smallz4.lastBlock w + p, l, d))
               (Smallz4.chosen b)
        else []) |}.





(** a match of the table for a block of [B] bytes starts at least 12 bytes
    and ends at least 5 bytes in front of the end of the block *)
Definition bounded (B : Z) (m : Smallz4.Matches) : Prop :=
  forall j : Z,
    1 < Smallz4.vget (Smallz4.lengths m) j ->
    j + 12 <= B /\ j + Smallz4.vget (Smallz4.lengths m) j + 5 <= B.

(** a match that starts at least 12 bytes and ends at least 5 bytes in
    front of the position [N] *)
Definition inside (N : Z) (x : Z * Z * Z) : Prop :=
  let '(p, l, d) := x in
  0 <= p /\ 1 < l /\ p + 12 <= N /\ p + l + 5 <= N.

(** what the loop over the blocks keeps: the input has been read or is
    read in the next pass, the blocks so far end inside of the input, and
    the matches written so far are inside of the input *)
Definition block_inv (input : list byte) (e : Smallz4.encoder) : Prop :=
  Smallz4.parseDictionary e = false
  /\ Smallz4.numRead e + (Z.of_nat (length input) - Smallz4.it e)
     = Z.of_nat (length input)
  /\ 0 <= Smallz4.nextBlock (Smallz4.win e) <= Z.of_nat (length input)
  /\ Forall (inside (Z.of_nat (length input))) (Smallz4.log e).

(** the input buffer holds the bytes [xs] at the index [i] *)
Definition holds (mem : list byte) (i : nat) (xs : list byte) : Prop :=
  firstn (length xs) (skipn i mem) = xs.

(** the history has its 64k bytes and the write position is inside of it *)
Definition dwf (s : Unlz4.state) : Prop :=
  length (Unlz4.history s) = Z.to_nat Unlz4.HISTORY_SIZE
  /\ 0 <= Unlz4.pos s < Unlz4.HISTORY_SIZE
  /\ wf_sink (Unlz4.out s).

(** the only error of a run is "invalid offset" *)
Definition only_offset {A : Type} (r : result A) : Prop :=
  forall e, r = Fatal e -> e = InvalidOffset.

(** the run of [unlz4] behind the flags byte *)
Definition after_flags (history0 mem : list byte) (it0 : nat) (o : sink)
    (dictionary : Unlz4.dictionary_arg) (flags : Z) : result (nat * sink) :=
  let s := {| Unlz4.it := S (S (S (S (S it0)))); Unlz4.history := history0;
              Unlz4.pos := 0; Unlz4.out := o |} in
  let hasBlockChecksum := negb (Z.land flags 16 =? 0) in
  let hasContentSize := negb (Z.land flags 8 =? 0) in
  let hasContentChecksum := negb (Z.land flags 4 =? 0) in
  let hasDictionaryID := negb (Z.land flags 1 =? 0) in
  if negb (Z.shiftr flags 6 =? 1) then Fatal UnsupportedVersion
  else
    let numIgnore :=
      (1 + (if hasContentSize then 8 else 0)
         + (if hasDictionaryID then 4 else 0) + 1)%nat in
    let s := Unlz4.with_it s (Unlz4.it s + numIgnore) in
    h <- match dictionary with
         | Unlz4.NoDictionary => Ok (Unlz4.history s)
         | Unlz4.DictionaryFile None => Fatal CannotOpenDictionary
         | Unlz4.DictionaryFile (Some d) =>
             Ok (Unlz4.load_dictionary (Unlz4.history s) d)
         end ;;
    let s := {| Unlz4.it := Unlz4.it s; Unlz4.history := h; Unlz4.pos := 0;
                Unlz4.out := Unlz4.out s |} in
    s <- Unlz4.blocks mem (S (length mem)) hasBlockChecksum s ;;
    let s := if hasContentChecksum then Unlz4.with_it s (Unlz4.it s + 4) else s in
    Ok (Unlz4.it s,
        dump (firstn (Z.to_nat (Unlz4.pos s)) (Unlz4.history s)) (Unlz4.out s)).

(** the bytes of the buffer behind the read cursor *)
Definition unread (mem : list byte) (s : Unlz4.state) : nat :=
  length mem - Unlz4.it s.

(** ** What a frame stands for

    The text a list of blocks decodes to, as the format defines a match: the
    bytes of a match are copied one by one from [offset] bytes back, so that
    a match may run into the bytes it has written itself. *)

Fixpoint copy_match (n d : nat) (text : list byte) : list byte :=
  match n with
  | O => text
  | S n' => copy_match n' d (text ++ [nth (length text - d) text x00])
  end.

Definition expand_sequence (text : list byte) (q : Format.sequence) : list byte :=
  copy_match (Z.to_nat (Format.matchLength q)) (Z.to_nat (Format.offset q))
    (text ++ Format.literals q).

Definition expand_block (text : list byte) (b : Format.block) : list byte :=
  match b with
  | Format.Raw p => text ++ p
  | Format.Compressed ss l => fold_left expand_sequence ss text ++ l
  end.

Definition expand (bl : list Format.block) : list byte :=
  fold_left expand_block bl [].

(** the offsets of the sequences reach back into the text, not in front of it *)
Fixpoint seqs_inside (text : list byte) (ss : list Format.sequence) : Prop :=
  match ss with
  | [] => True
  | q :: ss' =>
      1 <= Format.offset q <= Z.of_nat (length (text ++ Format.literals q))
      /\ seqs_inside (expand_sequence text q) ss'
  end.

Fixpoint blocks_inside (text : list byte) (bl : list Format.block) : Prop :=
  match bl with
  | [] => True
  | b :: bl' =>
      match b with
      | Format.Raw _ => True
      | Format.Compressed ss _ => seqs_inside text ss
      end
      /\ blocks_inside (expand_block text b) bl'
  end.

(** The decoder has written [text] behind the bytes [pre] of the sink: the
    bytes in front of the last [pos] ones are in the sink, the last [pos]
    ones at the start of [history], and behind them [history] still has the
    bytes that are 64k older. *)
Definition ring (pre text : list byte) (s : Unlz4.state) : Prop :=
  let p := Z.to_nat (Unlz4.pos s) in
  length (Unlz4.history s) = Z.to_nat 65536
  /\ 0 <= Unlz4.pos s <= 65536
  /\ wf_sink (Unlz4.out s)
  /\ (p <= length text)%nat
  /\ written (Unlz4.out s) = pre ++ firstn (length text - p) text
  /\ (forall j : nat, (j < p)%nat ->
        nth_error (Unlz4.history s) j = nth_error text (length text - p + j))
  /\ (forall j : nat, (p <= j < Z.to_nat 65536)%nat ->
        (Z.to_nat 65536 + p <= length text + j)%nat ->
        nth_error (Unlz4.history s) j
        = nth_error text (length text + j - p - Z.to_nat 65536)).

(** a match of [l] bytes at the position [p] of the input that repeats the
    bytes [d] positions in front of it *)
Definition valid_match (input : list byte) (p l d : Z) : Prop :=
  1 <= d <= 65535 /\ d <= p
  /\ forall k : Z, 0 <= k < l ->
       Smallz4.byte_at input (p + k) = Smallz4.byte_at input (p + k - d).

(** What the index tables hold after the positions up to [hi]: [R] is the
    set of the positions that have been entered.  An entry of [lastHash]
    is such a position.  A position of the last 64k that has been entered
    owns its entry of the two chains: the distance there leads to an
    entered position, in [previousExact] to one with the same four bytes. *)
Definition chains (input : list byte) (R : Z -> Prop) (hi : Z)
    (lh ph pe : Smallz4.table) : Prop :=
  (forall q, R q -> 0 <= q <= hi)
  /\ (forall h, lh h = Smallz4.NoLastHash \/ R (lh h))
  /\ (forall q, R q -> hi - 65536 < q ->
        let d := u16 (ph (Z.land q 65535)) in d = 0 \/ R (q - d))
  /\ (forall q, R q -> hi - 65536 < q ->
        let d := u16 (pe (Z.land q 65535)) in
        d = 0 \/ (R (q - d)
                  /\ Smallz4.load32 input q = Smallz4.load32 input (q - d))).

(** the window of a block of an input without dictionary: addresses are
    positions, a block starts at a multiple of 64k, and bytes are dropped
    from the window only behind the first block *)
Definition plain_window (input : list byte) (w : Smallz4.window) : Prop :=
  Smallz4.data_ptr w = Smallz4.dataZero w
  /\ (0 <= Smallz4.dataZero w
      /\ (Smallz4.dataZero w = 0 \/ 12 <= Smallz4.lastBlock w))
  /\ Smallz4.lastBlock w mod 65536 = 0
  /\ (0 <= Smallz4.lastBlock w
      /\ Smallz4.lastBlock w < Smallz4.nextBlock w <= Z.of_nat (length input))
  /\ Smallz4.blockSize w <= Smallz4.MaxBlockSize.

(** the matches of the table of a block are matches of the input, of at
    least four bytes *)
Definition table_ok (input : list byte) (w : Smallz4.window)
    (m : Smallz4.Matches) : Prop :=
  length (Smallz4.lengths m) = length (Smallz4.distances m)
  /\ forall j : Z, 0 <= j ->
       1 < Smallz4.vget (Smallz4.lengths m) j ->
       4 <= Smallz4.vget (Smallz4.lengths m) j
       /\ valid_match input (Smallz4.lastBlock w + j)
            (Smallz4.vget (Smallz4.lengths m) j)
            (Smallz4.vget (Smallz4.distances m) j).

(** the sink [r'] is [r] with the bytes [bs] written behind it *)
Definition appends (r r' : sink) (bs : list byte) : Prop :=
  wf_sink r' /\ written r' = written r ++ bs.

(** What the loop over the blocks keeps, for an input without dictionary:
    the sink holds the header and the blocks [bl], and these stand for the
    input up to the end of the last block. *)
Definition encoder_inv (input : list byte) (o : sink) (e : Smallz4.encoder)
    (bl : list Format.block) : Prop :=
  block_inv input e
  /\ (let w := Smallz4.read_more input e in
      Smallz4.data_ptr w = Smallz4.dataZero w
      /\ 0 <= Smallz4.dataZero w
      /\ Smallz4.data_size w = Z.of_nat (length input) - Smallz4.dataZero w
      /\ (Smallz4.dataZero w = 0 \/ 12 <= Smallz4.nextBlock (Smallz4.win e)))
  /\ (Smallz4.nextBlock (Smallz4.win e) mod 4194304 = 0
      \/ Smallz4.nextBlock (Smallz4.win e) = Z.of_nat (length input))
  /\ (exists (R : Z -> Prop) (hi : Z),
         chains input R hi (Smallz4.hashes e) (Smallz4.chainHash e)
           (Smallz4.chainExact e)
         /\ (hi <= Smallz4.nextBlock (Smallz4.win e) - 12 \/ hi < 0))
  /\ appends o (Smallz4.output e)
       (Smallz4.header ++ concat (map Format.block_bytes bl))
  /\ Forall Format.block_shape bl
  /\ blocks_inside [] bl
  /\ expand bl = firstn (Z.to_nat (Smallz4.nextBlock (Smallz4.win e))) input.

(** the inputs the encoder does not return on: a chain length other than
    0 and a last block of 1 to 10 bytes behind a full block *)
Definition short_tail (L : Z) (input : list byte) : bool :=
  negb (L =? 0)
  && (Smallz4.MaxBlockSize <? Z.of_nat (length input))
  && (1 <=? Z.of_nat (length input) mod Smallz4.MaxBlockSize)
  && (Z.of_nat (length input) mod Smallz4.MaxBlockSize <=? 10).

(** what the loop over the blocks keeps of the borders of the blocks *)
Definition borders (input : list byte) (e : Smallz4.encoder) : Prop :=
  let N := Z.of_nat (length input) in
  let nb := Smallz4.nextBlock (Smallz4.win e) in
  Smallz4.parseDictionary e = false
  /\ Smallz4.numRead e + (N - Smallz4.it e) = N
  /\ 0 <= nb <= N
  /\ (nb mod 4194304 = 0 \/ nb = N)
  /\ ((nb = 0 /\ Smallz4.dataZero (Smallz4.win e) = 0
       /\ Smallz4.data_size (Smallz4.read_more input e) = N)
      \/ nb = N
      \/ (0 < nb /\ 12 < Smallz4.dataZero (Smallz4.win e))).

(** the bytes in front of the end mark: the header, and for each block
    started four bytes and at most its bytes *)
Definition frame_bound (nb : Z) : Z := 7 + nb + 4 * ((nb + 4194303) / 4194304).

(** blocks with the bytes of a checksum behind each of them, and a frame
    of such blocks with the bytes of a content checksum at its end *)
Definition blocks_with_sums (bl : list (Format.block * list byte)) : list byte :=
  concat (map (fun bc => Format.block_bytes (fst bc) ++ snd bc) bl).

Definition frame_with_sums (flags bd : byte) (contentSize dictID : list byte)
    (hc : byte) (bl : list (Format.block * list byte)) (cc : list byte)
  : list byte :=
  [x04; x22; x4d; x18]
  ++ Format.descriptor flags bd contentSize dictID hc
  ++ blocks_with_sums bl
  ++ le32 0
  ++ cc.

(** the same with the size prefix [t] where the end mark is, and any bytes
    behind it *)
Definition frame_with_mark (t : Z) (flags bd : byte)
    (contentSize dictID : list byte) (hc : byte)
    (bl : list (Format.block * list byte)) (rest : list byte) : list byte :=
  [x04; x22; x4d; x18]
  ++ Format.descriptor flags bd contentSize dictID hc
  ++ blocks_with_sums bl
  ++ le32 t
  ++ rest.

(** two sinks that hold the same bytes behind [w1] and behind [w2] *)
Definition same_text (w1 w2 : list byte) (o1 o2 : sink) : Prop :=
  wf_sink o1 /\ wf_sink o2
  /\ exists bs, written o1 = w1 ++ bs /\ written o2 = w2 ++ bs.

(** two states of the decoder that differ in their sinks only *)
Definition twins (w1 w2 : list byte) (s1 s2 : Unlz4.state) : Prop :=
  Unlz4.it s1 = Unlz4.it s2
  /\ Unlz4.history s1 = Unlz4.history s2
  /\ Unlz4.pos s1 = Unlz4.pos s2
  /\ same_text w1 w2 (Unlz4.out s1) (Unlz4.out s2).

(** two runs that end the same way, with results that [R] relates *)
Definition alike {A : Type} (R : A -> A -> Prop) (r1 r2 : result A) : Prop :=
  match r1, r2 with
  | Ok a, Ok b => R a b
  | Fatal e, Fatal e' => e = e'
  | Undefined, Undefined => True
  | OutOfFuel, OutOfFuel => True
  | _, _ => False
  end.

(** a value and a state *)
Definition twins_with {A : Type} (w1 w2 : list byte)
    (x y : A * Unlz4.state) : Prop :=
  fst x = fst y /\ twins w1 w2 (snd x) (snd y).

(** the result of a pass over a sequence *)
Definition twin_pass (w1 w2 : list byte)
    (x y : Unlz4.state + Z * Unlz4.state) : Prop :=
  match x, y with
  | inl s1, inl s2 => twins w1 w2 s1 s2
  | inr p1, inr p2 => twins_with w1 w2 p1 p2
  | _, _ => False
  end.

(** an encoder with another sink *)
Definition with_output (e : Smallz4.encoder) (o : sink) : Smallz4.encoder :=
  {| Smallz4.it := Smallz4.it e; Smallz4.win := Smallz4.win e;
     Smallz4.numRead := Smallz4.numRead e; Smallz4.hashes := Smallz4.hashes e;
     Smallz4.chainHash := Smallz4.chainHash e;
     Smallz4.chainExact := Smallz4.chainExact e;
     Smallz4.parseDictionary := Smallz4.parseDictionary e;
     Smallz4.output := o; Smallz4.log := Smallz4.log e |}.

(** two states of the encoder that differ in their sinks only *)
Definition encoder_twins (w1 w2 : list byte) (e1 e2 : Smallz4.encoder) : Prop :=
  e2 = with_output e1 (Smallz4.output e2)
  /\ same_text w1 w2 (Smallz4.output e1) (Smallz4.output e2).


(** * Properties *)

(** ** Bytes *)

Lemma b2z_range (c : byte) : 0 <= b2z c < 256.
Proof.
  unfold b2z. pose proof (Byte.to_N_bounded c). lia.
Qed.

Lemma z2b_b2z (c : byte) : z2b (b2z c) = c.
Proof.
  unfold z2b. rewrite Z.mod_small by apply b2z_range.
  unfold b2z. rewrite N2Z.id, Byte.of_to_N. reflexivity.
Qed.

Lemma b2z_z2b (z : Z) : b2z (z2b z) = z mod 256.
Proof.
  unfold z2b, b2z.
  assert (H : 0 <= z mod 256 < 256) by (apply Z.mod_pos_bound; lia).
  destruct (Byte.of_N (Z.to_N (z mod 256))) as [c|] eqn:E.
  - apply Byte.to_of_N in E. rewrite E. rewrite Z2N.id; lia.
  - apply Byte.of_N_None_iff in E. lia.
Qed.

Lemma b2z_inj (c d : byte) : b2z c = b2z d -> c = d.
Proof.
  intros H. rewrite <- (z2b_b2z c), <- (z2b_b2z d), H. reflexivity.
Qed.

(** ** The sink *)

Lemma length_resize (b : list byte) (n : nat) : length (resize b n) = n.
Proof.
  unfold resize. rewrite length_app, length_firstn, repeat_length. lia.
Qed.

Lemma firstn_resize (b : list byte) (n i : nat) :
  (i <= length b)%nat -> (i <= n)%nat -> firstn i (resize b n) = firstn i b.
Proof.
  intros Hb Hn. unfold resize.
  rewrite firstn_app, length_firstn, firstn_firstn.
  replace (Nat.min i n) with i by lia.
  replace (i - Nat.min n (length b))%nat with 0%nat by lia.
  simpl. apply app_nil_r.
Qed.

Lemma written_overwrite (b : list byte) (i : nat) (src : list byte) :
  (i <= length b)%nat ->
  firstn (i + length src) (overwrite b i src) = firstn i b ++ src.
Proof.
  intros Hi. unfold overwrite.
  assert (L : length (firstn i b) = i) by (rewrite length_firstn; lia).
  rewrite firstn_app, L.
  rewrite (firstn_all2 (n := i + length src) (firstn i b)) by lia.
  replace (i + length src - i)%nat with (length src) by lia.
  rewrite firstn_app, Nat.sub_diag, firstn_all. simpl.
  rewrite app_nil_r. reflexivity.
Qed.

Lemma length_overwrite (b : list byte) (i : nat) (src : list byte) :
  (i + length src <= length b)%nat -> length (overwrite b i src) = length b.
Proof.
  intros H. unfold overwrite.
  rewrite !length_app, length_firstn, length_skipn. lia.
Qed.

Lemma dump_spec (str : list byte) (s : sink) :
  wf_sink s ->
  wf_sink (dump str s) /\ written (dump str s) = written s ++ str
  /\ ix (dump str s) = (ix s + length str)%nat.
Proof.
  unfold wf_sink, written, dump. intros H. cbn [buf ix].
  set (b := if (length (buf s) <? ix s + length str)%nat then _ else _).
  assert (Hb : (ix s + length str <= length b)%nat
               /\ firstn (ix s) b = firstn (ix s) (buf s)).
  { subst b. destruct (Nat.ltb_spec (length (buf s)) (ix s + length str)).
    - rewrite length_resize. split; [lia|]. apply firstn_resize; lia.
    - split; [lia | reflexivity]. }
  destruct Hb as [Hb1 Hb2].
  rewrite length_overwrite by exact Hb1.
  rewrite written_overwrite by lia. rewrite Hb2. auto.
Qed.

Lemma dump1_spec (c : byte) (s : sink) :
  wf_sink s ->
  wf_sink (dump1 c s) /\ written (dump1 c s) = written s ++ [c]
  /\ ix (dump1 c s) = S (ix s).
Proof.
  unfold wf_sink, written, dump1. intros H. cbn [buf ix].
  set (b := if (ix s =? length (buf s))%nat then _ else _).
  assert (Hb : (ix s + 1 <= length b)%nat
               /\ firstn (ix s) b = firstn (ix s) (buf s)).
  { subst b. destruct (Nat.eqb_spec (ix s) (length (buf s))) as [E|E].
    - rewrite length_resize.
      destruct (Nat.eqb_spec (length (buf s)) 0).
      + split; [lia|]. apply firstn_resize; lia.
      + split; [lia|]. apply firstn_resize; lia.
    - split; [lia | reflexivity]. }
  destruct Hb as [Hb1 Hb2].
  rewrite length_overwrite by (simpl; lia).
  replace (S (ix s)) with (ix s + length [c])%nat by (simpl; lia).
  rewrite written_overwrite by lia. rewrite Hb2. simpl. repeat split; lia.
Qed.

Lemma wf_sink0 : wf_sink sink0.
Proof. unfold wf_sink, sink0. simpl. lia. Qed.

Lemma length_written (s : sink) : wf_sink s -> length (written s) = ix s.
Proof.
  unfold wf_sink, written. intros H. rewrite length_firstn. lia.
Qed.

(** ** The decoder: the end of the stream and the [end] argument *)

Lemma next_at (mem : list byte) (s : Unlz4.state) (c : byte) :
  nth_error mem (Unlz4.it s) = Some c ->
  Unlz4.next mem s = Ok (b2z c, Unlz4.with_it s (S (Unlz4.it s))).
Proof.
  intros H. unfold Unlz4.next. rewrite H. reflexivity.
Qed.

(** a size prefix whose low 31 bits are zero ends the loop over the blocks
    whether bit 31 is set or not: the loop stops behind the four bytes *)
Lemma zero_size_prefix_ends_blocks (mem : list byte) (fuel : nat)
    (hasBlockChecksum : bool) (s : Unlz4.state) (top : byte) :
  nth_error mem (Unlz4.it s) = Some x00 ->
  nth_error mem (S (Unlz4.it s)) = Some x00 ->
  nth_error mem (S (S (Unlz4.it s))) = Some x00 ->
  nth_error mem (S (S (S (Unlz4.it s)))) = Some top ->
  top = x00 \/ top = x80 ->
  Unlz4.blocks mem (S fuel) hasBlockChecksum s
  = Ok (Unlz4.with_it s (Unlz4.it s + 4)).
Proof.
  intros H0 H1 H2 H3 Ht.
  cbn [Unlz4.blocks]. unfold Unlz4.read_u32.
  rewrite (next_at _ _ _ H0). cbn [bind].
  rewrite (next_at mem _ x00) by exact H1. cbn [bind].
  rewrite (next_at mem _ x00) by exact H2. cbn [bind].
  rewrite (next_at mem _ top) by exact H3. cbn [bind].
  replace (Unlz4.it s + 4)%nat with (S (S (S (S (Unlz4.it s))))) by lia.
  destruct Ht; subst top; reflexivity.
Qed.

(** C10: [unlz4] never looks at its [end] argument: with any two values of
    it the run reads the same bytes, leaves the read cursor at the same
    place and writes the same output.  The frame of the empty input, given
    with an [end] that cuts it after the flags, is read to its last byte:
    the cursor ends at 11, behind the supplied [end] of 5, and no error is
    reported. *)
Theorem unlz4_ignores_end :
  (forall (history0 mem : list byte) (it0 end1 end2 : nat) (o : sink)
          (d : Unlz4.dictionary_arg),
      Unlz4.unlz4 history0 mem it0 end1 o d
      = Unlz4.unlz4 history0 mem it0 end2 o d)
  /\ (forall history0 : list byte,
      Unlz4.unlz4 history0 (Smallz4.header ++ [x00; x00; x00; x00])
        0 5 sink0 Unlz4.NoDictionary
      = Ok (11%nat, sink0)).
Proof.
  split.
  - intros. reflexivity.
  - intros. reflexivity.
Qed.

(** ** The encoder: a dictionary *)

Lemma block_dictionary (L : Z) (input : list byte) (e : Smallz4.encoder) :
  Smallz4.parseDictionary e = true ->
  Smallz4.block L input e = Fatal DictionaryUnsupported.
Proof.
  intros H. unfold Smallz4.block. rewrite H. reflexivity.
Qed.

(** C8, as the code has it: with a dictionary that is not empty the call
    fails, for every input and every chain length, but the failure comes in
    the first pass of the loop over the blocks, after the frame header has
    been written: the sink holds the seven header bytes behind what it held
    and the write cursor has moved by seven; no block and no end mark is
    written. *)
Theorem dictionary_rejected_after_header
    (input : list byte) (L : Z) (o : sink) (dictionary : list byte) :
  dictionary <> [] ->
  wf_sink o ->
  Smallz4.lz4 input o L dictionary
  = (dump Smallz4.header o, Fatal DictionaryUnsupported)
  /\ written (dump Smallz4.header o) = written o ++ Smallz4.header
  /\ ix (dump Smallz4.header o) = (ix o + 7)%nat.
Proof.
  intros Hd Ho. split.
  - unfold Smallz4.lz4, Smallz4.compress, Smallz4.run.
    cbn [Smallz4.blocks].
    rewrite block_dictionary.
    + reflexivity.
    + destruct dictionary; [contradiction | reflexivity].
  - destruct (dump_spec Smallz4.header o Ho) as (_ & Hw & Hi). auto.
Qed.

Lemma dictionary_rejected_after_header_witness :
  Smallz4.lz4 [] sink0 65535 [x00]
  = (dump Smallz4.header sink0, Fatal DictionaryUnsupported)
  /\ written (dump Smallz4.header sink0) = written sink0 ++ Smallz4.header
  /\ ix (dump Smallz4.header sink0) = (ix sink0 + 7)%nat.
Proof.
  apply (dictionary_rejected_after_header [] 65535 sink0 [x00]).
  - discriminate.
  - exact wf_sink0.
Defined.

(** C8 as stated fails: with the one byte dictionary [00] and the empty
    input the call fails, and the sink is not the one of the call: it holds
    the header and its cursor is at 7. *)
Lemma dictionary_sink_changed :
  snd (Smallz4.lz4 [] sink0 65535 [x00]) = Fatal DictionaryUnsupported
  /\ fst (Smallz4.lz4 [] sink0 65535 [x00])
     = {| buf := Smallz4.header; ix := 7 |}
  /\ fst (Smallz4.lz4 [] sink0 65535 [x00]) <> sink0.
Proof.
  repeat split. discriminate.
Qed.

(** ** The encoder: the scenarios of the specification *)

(** C6 as stated fails: for "Hello World. Hello World!" the encoder writes
    one match, of 7 bytes and not of 12, at position 13 with distance 13. *)
Lemma hello_world_match_is_not_12_bytes :
  Smallz4.matches_of Inputs.hello Smallz4.MaxChainLength = [(13, 7, 13)]
  /\ ~ In (13, 12, 13) (Smallz4.matches_of Inputs.hello Smallz4.MaxChainLength).
Proof.
  assert (H : Smallz4.matches_of Inputs.hello Smallz4.MaxChainLength
              = [(13, 7, 13)]) by (vm_compute; reflexivity).
  split; [exact H|]. rewrite H. intros [E | []]. discriminate.
Qed.

(** C6, as the code has it: for the 25 bytes "Hello World. Hello World!"
    the encoder, at the default chain length, writes one compressed block
    of 22 bytes: the 13 literals "Hello World. ", a match of 7 bytes
    ("Hello W") with distance 13, which ends five bytes before the end of
    the input, and the literals "orld!" at the end. *)
Theorem hello_world_frame :
  let r := Smallz4.lz4 Inputs.hello sink0 Smallz4.MaxChainLength [] in
  snd r = Ok tt
  /\ written (fst r)
     = Smallz4.header
       ++ le32 22
       ++ ([z2b 211] ++ Inputs.hello_head ++ [z2b 13; z2b 0]
           ++ [z2b 80] ++ Inputs.hello_tail)
       ++ le32 0
  /\ Smallz4.matches_of Inputs.hello Smallz4.MaxChainLength = [(13, 7, 13)].
Proof.
  vm_compute. repeat split.
Qed.

(** ** The encoder: the frame around the blocks *)

Lemma fill_literals_cases (n : nat) (i : Z) (m : Smallz4.Matches) :
  (exists m', Smallz4.fill_literals n i m = Ok m'
              /\ length (Smallz4.lengths m') = length (Smallz4.lengths m))
  \/ Smallz4.fill_literals n i m = Undefined.
Proof.
  revert i m. induction n as [|n IH]; intros i m; cbn [Smallz4.fill_literals].
  - left. eauto.
  - destruct (i <? 0); [right; reflexivity|].
    destruct (IH (i + 1)
                {| Smallz4.lengths := Smallz4.vset (Smallz4.lengths m) i Smallz4.JustLiteral;
                   Smallz4.distances := Smallz4.distances m |})
      as [(m' & E & Hl) | E]; [left | right; exact E].
    exists m'. split; [exact E|]. rewrite Hl. cbn [Smallz4.lengths].
    unfold Smallz4.vset. destruct (i <? 0); [reflexivity|].
    generalize (Z.to_nat i). generalize (Smallz4.lengths m).
    induction l as [|h t IHt]; intros [|k]; simpl; auto.
Qed.

Lemma encode_block_cases (L : Z) (input : list byte) (w : Smallz4.window)
    (lh ph pe : Smallz4.table) :
  (exists b, Smallz4.encode_block L input w lh ph pe = Ok b)
  \/ Smallz4.encode_block L input w lh ph pe = Undefined.
Proof.
  unfold Smallz4.encode_block, Smallz4.find_matches.
  destruct (Smallz4.match_loop _ _ _ _ _ _ _) as [f trace].
  match goal with
  | |- context [Smallz4.fill_literals ?n ?i ?m] =>
      destruct (fill_literals_cases n i m) as [(m' & E & _) | E]; rewrite E
  end; cbn [bind].
  - left. destruct (Smallz4.select _ _ _) as [r emitted]. eauto.
  - right. reflexivity.
Qed.

Lemma dump_prefixed (t : Z) (payload : list byte) (o : sink) :
  wf_sink o ->
  let o4 :=
    dump1 (z2b (Z.land (Z.shiftr t 24) 255))
      (dump1 (z2b (Z.land (Z.shiftr t 16) 255))
         (dump1 (z2b (Z.land (Z.shiftr t 8) 255))
            (dump1 (z2b (Z.land t 255)) o))) in
  wf_sink (dump payload o4)
  /\ written (dump payload o4) = written o ++ size_prefix t ++ payload.
Proof.
  intros Ho.
  destruct (dump1_spec (z2b (Z.land t 255)) o Ho) as (W1 & E1 & _).
  destruct (dump1_spec (z2b (Z.land (Z.shiftr t 8) 255)) _ W1) as (W2 & E2 & _).
  destruct (dump1_spec (z2b (Z.land (Z.shiftr t 16) 255)) _ W2) as (W3 & E3 & _).
  destruct (dump1_spec (z2b (Z.land (Z.shiftr t 24) 255)) _ W3) as (W4 & E4 & _).
  destruct (dump_spec payload _ W4) as (W5 & E5 & _).
  cbn zeta. split; [exact W5|].
  rewrite E5, E4, E3, E2, E1. unfold size_prefix.
  rewrite <- !app_assoc. reflexivity.
Qed.

Lemma emit_block_appends (L : Z) (input : list byte) (w : Smallz4.window)
    (c : list byte) (o : sink) :
  wf_sink o ->
  wf_sink (Smallz4.emit_block L input w c o)
  /\ exists bs, written (Smallz4.emit_block L input w c o) = written o ++ bs.
Proof.
  intros Ho. unfold Smallz4.emit_block.
  destruct ((Z.of_nat (length c) <? Smallz4.blockSize w)
            && negb (Smallz4.uncompressed L)).
  - match goal with
    | |- context [dump ?p (dump1 (z2b (Z.land (Z.shiftr ?t 24) 255)) _)] =>
        destruct (dump_prefixed t p o Ho) as (W & E)
    end.
    split; [exact W | eauto].
  - match goal with
    | |- context [dump ?p (dump1 (z2b (Z.land (Z.shiftr ?t 24) 255)) _)] =>
        destruct (dump_prefixed t p o Ho) as (W & E)
    end.
    split; [exact W | eauto].
Qed.

Lemma nextBlock_read_more (input : list byte) (e : Smallz4.encoder) :
  Smallz4.nextBlock (Smallz4.read_more input e) = Smallz4.nextBlock (Smallz4.win e).
Proof.
  unfold Smallz4.read_more.
  destruct (_ =? 0); [reflexivity|]. destruct (_ =? 0); reflexivity.
Qed.

Lemma nextBlock_discard (w : Smallz4.window) :
  Smallz4.nextBlock (Smallz4.discard w) = Smallz4.nextBlock w.
Proof.
  unfold Smallz4.discard. destruct (_ >? _); reflexivity.
Qed.

Lemma block_cases (L : Z) (input : list byte) (e : Smallz4.encoder) :
  Smallz4.parseDictionary e = false ->
  wf_sink (Smallz4.output e) ->
  0 <= slack input e ->
  match Smallz4.block L input e with
  | Ok (inl e') => Smallz4.output e' = Smallz4.output e
  | Ok (inr e') =>
      Smallz4.parseDictionary e' = false
      /\ wf_sink (Smallz4.output e')
      /\ (exists bs, written (Smallz4.output e')
                     = written (Smallz4.output e) ++ bs)
      /\ 0 <= slack input e' < slack input e
  | Undefined => True
  | _ => False
  end.
Proof.
  intros Hd Ho Hs. unfold Smallz4.block. rewrite Hd.
  rewrite nextBlock_read_more.
  destruct (Z.eqb_spec (Smallz4.nextBlock (Smallz4.win e))
              (Smallz4.numRead e + (Z.of_nat (length input) - Smallz4.it e)))
    as [E | E]; [reflexivity|].
  match goal with
  | |- context [Smallz4.encode_block ?a ?b ?c ?d ?e ?f] =>
      destruct (encode_block_cases a b c d e f) as [(b0 & Eb) | Eb]; rewrite Eb
  end; cbn [bind]; [|exact I].
  match goal with
  | |- context [Smallz4.emit_block ?a ?b ?c ?d ?e] =>
      destruct (emit_block_appends a b c d e Ho) as (W & bs & Hw)
  end.
  repeat split; [exact W | eauto | |].
  - unfold slack in *. cbn [Smallz4.win Smallz4.it Smallz4.numRead].
    rewrite nextBlock_discard. unfold Smallz4.next_block.
    cbn [Smallz4.nextBlock]. rewrite nextBlock_read_more.
    unfold Smallz4.MaxBlockSize. destruct (Z.gtb_spec
      (Smallz4.nextBlock (Smallz4.win e) + 4 * 1024 * 1024)
      (Smallz4.numRead e + (Z.of_nat (length input) - Smallz4.it e))); lia.
  - unfold slack in *. cbn [Smallz4.win Smallz4.it Smallz4.numRead].
    rewrite nextBlock_discard. unfold Smallz4.next_block.
    cbn [Smallz4.nextBlock]. rewrite nextBlock_read_more.
    unfold Smallz4.MaxBlockSize. destruct (Z.gtb_spec
      (Smallz4.nextBlock (Smallz4.win e) + 4 * 1024 * 1024)
      (Smallz4.numRead e + (Z.of_nat (length input) - Smallz4.it e))); lia.
Qed.

Lemma blocks_cases (L : Z) (input : list byte) (n : nat) (e : Smallz4.encoder) :
  Smallz4.parseDictionary e = false ->
  wf_sink (Smallz4.output e) ->
  0 <= slack input e < Z.of_nat n ->
  let r := Smallz4.blocks L input n e in
  (snd r = Ok tt \/ snd r = Undefined)
  /\ wf_sink (Smallz4.output (fst r))
  /\ exists bs, written (Smallz4.output (fst r))
                = written (Smallz4.output e) ++ bs.
Proof.
  revert e. induction n as [|n IH]; intros e Hd Ho Hs; [lia|].
  cbn [Smallz4.blocks].
  pose proof (block_cases L input e Hd Ho (proj1 Hs)) as Hb.
  destruct (Smallz4.block L input e) as [[e' | e'] | err | | ]; cbn zeta.
  - cbn [fst snd]. rewrite Hb. repeat split; auto.
    exists []. rewrite app_nil_r. reflexivity.
  - destruct Hb as (Hd' & Ho' & (bs & Hw) & Hs').
    destruct (IH e' Hd' Ho' ltac:(lia)) as (Hr & Hwf & bs' & Hw').
    repeat split; auto. exists (bs ++ bs').
    rewrite Hw', Hw, app_assoc. reflexivity.
  - contradiction.
  - cbn [fst snd]. repeat split; auto.
    exists []. rewrite app_nil_r. reflexivity.
  - contradiction.
Qed.

(** what [lz4] has written starts with the header, and ends with the end
    mark when the run returns *)
Lemma lz4_frame_cases (input : list byte) (L : Z) :
  let r := Smallz4.lz4 input sink0 L [] in
  exists mid : list byte,
    (snd r = Ok tt
     /\ written (fst r)
        = [x04; x22; x4d; x18; x40; x70; xdf] ++ mid ++ [x00; x00; x00; x00])
    \/ (snd r = Undefined
        /\ written (fst r) = [x04; x22; x4d; x18; x40; x70; xdf] ++ mid).
Proof.
  cbn zeta.
  unfold Smallz4.lz4, Smallz4.compress, Smallz4.run.
  assert (W0 : wf_sink (Smallz4.output (Smallz4.start sink0 []))).
  { apply (dump_spec Smallz4.header sink0 wf_sink0). }
  destruct (blocks_cases L input (S (length input)) (Smallz4.start sink0 [])
              eq_refl W0) as (Hr & Hwf & bs & Hw).
  { unfold slack. cbn. lia. }
  destruct (Smallz4.blocks L input (S (length input)) (Smallz4.start sink0 []))
    as [e r]. cbn [fst snd] in *.
  exists bs.
  assert (Hh : written (Smallz4.output (Smallz4.start sink0 []))
               = [x04; x22; x4d; x18; x40; x70; xdf]) by reflexivity.
  rewrite Hh in Hw.
  destruct Hr as [Hr | Hr]; subst r.
  + left. cbn [fst snd]. split; [reflexivity|].
    destruct (dump_spec (le32 0) (Smallz4.output e) Hwf) as (_ & E & _).
    unfold dump_type. rewrite E, Hw. rewrite <- app_assoc. reflexivity.
  + right. cbn [fst snd]. auto.
Qed.

(** ** The encoder: raw blocks *)

Lemma z2b_land_255 (x : Z) : z2b (Z.land x 255) = z2b x.
Proof.
  apply b2z_inj. rewrite !b2z_z2b.
  change 255 with (Z.ones 8). rewrite Z.land_ones by lia.
  change (2 ^ 8) with 256. rewrite Z.mod_mod by lia. reflexivity.
Qed.

Lemma size_prefix_le32 (t : Z) : size_prefix t = le32 t.
Proof.
  unfold size_prefix, le32. rewrite !z2b_land_255. reflexivity.
Qed.

Lemma tagged_size (n : Z) :
  0 <= n < 2147483648 ->
  Z.testbit (Z.lor n 2147483648) 31 = true
  /\ Z.land (Z.lor n 2147483648) 2147483647 = n.
Proof.
  intros H. split.
  - rewrite Z.lor_spec. change (Z.testbit 2147483648 31) with true.
    apply orb_true_r.
  - rewrite Z.land_lor_distr_l.
    change (Z.land 2147483648 2147483647) with 0. rewrite Z.lor_0_r.
    change 2147483647 with (Z.ones 31). rewrite Z.land_ones by lia.
    apply Z.mod_small. change (2 ^ 31) with 2147483648. lia.
Qed.

Lemma small_size_bit31 (n : Z) : 0 <= n < 2147483648 -> Z.testbit n 31 = false.
Proof.
  intros H. apply Z.testbit_false; [lia|].
  change (2 ^ 31) with 2147483648. rewrite Z.div_small by lia. reflexivity.
Qed.


(** ** The encoder: a short block behind a full one *)

Lemma fill_literals_inside (n : nat) (i : Z) (m : Smallz4.Matches) :
  0 <= i -> exists m', Smallz4.fill_literals n i m = Ok m'.
Proof.
  revert i m. induction n as [|n IH]; intros i m Hi; cbn [Smallz4.fill_literals].
  - eauto.
  - destruct (Z.ltb_spec i 0); [lia|]. apply IH. lia.
Qed.

Lemma fill_literals_outside (n : nat) (i : Z) (m : Smallz4.Matches) :
  i < 0 -> Smallz4.fill_literals (S n) i m = Undefined.
Proof.
  intros Hi. cbn [Smallz4.fill_literals].
  destruct (Z.ltb_spec i 0); [reflexivity | lia].
Qed.

(** the first block of an input: the loop over the positions starts at 0 *)
Lemma encode_block_at_start (L : Z) (input : list byte) (w : Smallz4.window)
    (lh ph pe : Smallz4.table) :
  Smallz4.dataZero w = 0 ->
  exists b, Smallz4.encode_block L input w lh ph pe = Ok b.
Proof.
  intros Hz. unfold Smallz4.encode_block, Smallz4.find_matches.
  assert (Hl : Smallz4.lookback L w = 0).
  { unfold Smallz4.lookback. rewrite Hz.
    destruct (Smallz4.uncompressed L); reflexivity. }
  rewrite Hl.
  destruct (Smallz4.match_loop _ _ _ _ _ _ _) as [f trace].
  match goal with
  | |- context [Smallz4.fill_literals ?n ?i ?m] =>
      destruct (fill_literals_inside n i m) as (m' & E); [lia | rewrite E]
  end.
  cbn [bind]. destruct (Smallz4.select _ _ _) as [r emitted]. eauto.
Qed.

(** a block of at most ten bytes behind more than twelve bytes of history:
    the loop over the positions starts at -12 and ends below 0 *)
Lemma encode_block_short (L : Z) (input : list byte) (w : Smallz4.window)
    (lh ph pe : Smallz4.table) :
  L <> 0 ->
  Smallz4.BlockEndNoMatch < Smallz4.dataZero w ->
  1 <= Smallz4.blockSize w <= 10 ->
  Smallz4.encode_block L input w lh ph pe = Undefined.
Proof.
  intros HL Hz Hb. unfold Smallz4.encode_block, Smallz4.find_matches.
  assert (Hu : Smallz4.uncompressed L = false).
  { unfold Smallz4.uncompressed. apply Z.eqb_neq. exact HL. }
  assert (Hl : Smallz4.lookback L w = -12).
  { unfold Smallz4.lookback. rewrite Hu.
    destruct (Z.gtb_spec (Smallz4.dataZero w) Smallz4.BlockEndNoMatch);
      [reflexivity | lia]. }
  assert (Hp : Smallz4.passes L w = Smallz4.blockSize w + 1).
  { unfold Smallz4.passes. rewrite Hu, Hl. unfold Smallz4.BlockEndNoMatch. lia. }
  assert (Hn : Smallz4.n_matches L w = Smallz4.blockSize w).
  { unfold Smallz4.n_matches. rewrite Hu. reflexivity. }
  rewrite Hl, Hp, Hn.
  destruct (Smallz4.match_loop _ _ _ _ _ _ _) as [f trace].
  set (n := Z.to_nat _).
  assert (En : n = S (Nat.pred n)) by (subst n; lia).
  rewrite En, fill_literals_outside by lia. reflexivity.
Qed.

Lemma block_continue (L : Z) (input : list byte) (e : Smallz4.encoder) :
  Smallz4.parseDictionary e = false ->
  Smallz4.nextBlock (Smallz4.win e)
  <> Smallz4.numRead e + (Z.of_nat (length input) - Smallz4.it e) ->
  Smallz4.block L input e
  = (b <- Smallz4.encode_block L input (block_window input e)
            (Smallz4.hashes e) (Smallz4.chainHash e) (Smallz4.chainExact e) ;;
     Ok (inr (advance L input e b))).
Proof.
  intros Hd Hn. unfold Smallz4.block. rewrite Hd, nextBlock_read_more.
  destruct (Z.eqb_spec (Smallz4.nextBlock (Smallz4.win e))
              (Smallz4.numRead e + (Z.of_nat (length input) - Smallz4.it e)));
    [contradiction | reflexivity].
Qed.

Lemma short_last_block (L : Z) (input : list byte) :
  L <> 0 ->
  Smallz4.MaxBlockSize < Z.of_nat (length input) <= Smallz4.MaxBlockSize + 10 ->
  snd (Smallz4.lz4 input sink0 L []) = Undefined.
Proof.
  intros HL HN. unfold Smallz4.lz4, Smallz4.compress, Smallz4.run.
  unfold Smallz4.MaxBlockSize in HN.
  destruct (length input) as [|[|n]] eqn:EN; try lia.
  rewrite <- EN in HN.
  assert (Hsnd : snd (Smallz4.blocks L input (S (S (S n))) (Smallz4.start sink0 []))
                 = Undefined).
  { set (e0 := Smallz4.start sink0 []).
    cbn [Smallz4.blocks].
    (* the first pass *)
    rewrite (block_continue L input e0) by (cbn; lia).
    assert (W0 : block_window input e0
                 = {| Smallz4.data_ptr := 0;
                      Smallz4.data_size := Z.of_nat (length input);
                      Smallz4.dataZero := 0; Smallz4.lastBlock := 0;
                      Smallz4.nextBlock := 4194304 |}).
    { unfold block_window, Smallz4.read_more, Smallz4.next_block.
      cbn [e0 Smallz4.start Smallz4.it Smallz4.win Smallz4.numRead
           Smallz4.data_size Smallz4.dataZero Smallz4.lastBlock
           Smallz4.nextBlock Smallz4.data_ptr].
      rewrite Z.sub_0_r, Z.add_0_l.
      destruct (Z.eqb_spec (Z.of_nat (length input)) 0); [lia|].
      cbn [Z.eqb Smallz4.data_size Smallz4.dataZero Smallz4.lastBlock
           Smallz4.nextBlock Smallz4.data_ptr].
      unfold Smallz4.MaxBlockSize.
      destruct (Z.gtb_spec (0 + 4 * 1024 * 1024) (Z.of_nat (length input)));
        [lia | reflexivity]. }
    destruct (encode_block_at_start L input (block_window input e0)
                (Smallz4.hashes e0) (Smallz4.chainHash e0) (Smallz4.chainExact e0))
      as (b1 & E1); [rewrite W0; reflexivity|].
    rewrite E1. cbn [bind].
    set (e1 := advance L input e0 b1).
    assert (I1 : Smallz4.it e1 = Z.of_nat (length input)) by (cbn; lia).
    assert (R1 : Smallz4.numRead e1 = Z.of_nat (length input)) by (cbn; lia).
    assert (W1 : Smallz4.win e1
                 = {| Smallz4.data_ptr := Z.of_nat (length input) - 65535;
                      Smallz4.data_size := 65535;
                      Smallz4.dataZero := Z.of_nat (length input) - 65535;
                      Smallz4.lastBlock := 0;
                      Smallz4.nextBlock := 4194304 |}).
    { cbn [e1 advance Smallz4.win]. rewrite W0. unfold Smallz4.discard.
      cbn [Smallz4.data_size Smallz4.dataZero Smallz4.lastBlock
           Smallz4.nextBlock Smallz4.data_ptr].
      unfold Smallz4.MaxDistance.
      destruct (Z.gtb_spec (Z.of_nat (length input)) 65535); [|lia].
      rewrite !Z.add_0_l. reflexivity. }
    (* the second pass *)
    rewrite (block_continue L input e1);
      [| reflexivity | rewrite W1, I1, R1; cbn [Smallz4.nextBlock]; lia].
    assert (W2 : block_window input e1
                 = {| Smallz4.data_ptr := Z.of_nat (length input) - 65535;
                      Smallz4.data_size := 65535;
                      Smallz4.dataZero := Z.of_nat (length input) - 65535;
                      Smallz4.lastBlock := 4194304;
                      Smallz4.nextBlock := Z.of_nat (length input) |}).
    { unfold block_window, Smallz4.read_more, Smallz4.next_block.
      rewrite I1, R1, W1, Z.sub_diag, Z.add_0_r.
      cbn [Z.eqb Smallz4.data_size Smallz4.dataZero Smallz4.lastBlock
           Smallz4.nextBlock Smallz4.data_ptr].
      unfold Smallz4.MaxBlockSize.
      destruct (Z.gtb_spec (4194304 + 4 * 1024 * 1024)
                  (Z.of_nat (length input) + 0));
        [f_equal; lia | lia]. }
    rewrite W2, encode_block_short; [reflexivity | exact HL | |].
    - unfold Smallz4.BlockEndNoMatch. cbn [Smallz4.dataZero]. lia.
    - unfold Smallz4.blockSize. cbn [Smallz4.nextBlock Smallz4.lastBlock]. lia. }
  destruct (Smallz4.blocks L input (S (S (S n))) (Smallz4.start sink0 []))
    as [e r]. cbn [snd] in *. subst r. reflexivity.
Qed.

(** C1 fails at an input of 4 MiB + 1 bytes, for every [maxChainLength] of
    the claim but 0: in the second block, which has one byte, the loop over
    the positions starts at -12 and ends at -10, and the loop that marks the
    last bytes as literals writes [matches.lengths[-10]]: the run leaves
    the vector and returns no frame to decode. *)
Theorem short_last_block_is_undefined :
  Forall
    (fun L : Z =>
       snd (Smallz4.lz4 (repeat x00 (Z.to_nat (Smallz4.MaxBlockSize + 1)))
              sink0 L [])
       = Undefined)
    [1; 3; 6; 9; 65535].
Proof.
  assert (H : forall L : Z, L <> 0 ->
            snd (Smallz4.lz4 (repeat x00 (Z.to_nat (Smallz4.MaxBlockSize + 1)))
                   sink0 L []) = Undefined).
  { intros L HL. apply short_last_block; [exact HL|].
    rewrite repeat_length, Z2Nat.id by (unfold Smallz4.MaxBlockSize; lia).
    lia. }
  repeat (apply Forall_cons; [apply H; discriminate|]). apply Forall_nil.
Qed.

(** ** The encoder: greedy mode *)


Ltac step_cases :=
  repeat match goal with
    | |- context [let '(_, _) := ?p in _] =>
        let a := fresh "a" in let b := fresh "b" in
        destruct p as [a b] eqn:?
    | |- context [if ?c then _ else _] =>
        lazymatch c with
        | context [if _ then _ else _] => fail
        | _ => destruct c eqn:?
        end
    end.






(** ** The encoder: where matches start and end *)

Lemma phase2_fast_range (input : list byte) (n : nat) (stop td p : Z) :
  p <= stop ->
  p <= Smallz4.phase2_fast input n stop td p <= stop.
Proof.
  revert p. induction n as [|n IH]; intros p Hp; cbn [Smallz4.phase2_fast].
  - lia.
  - destruct (Z.leb_spec (p + 4) stop); cbn [andb]; [|lia].
    destruct (Smallz4.match4 input p (p - td)); [|lia].
    specialize (IH (p + 4) ltac:(lia)). lia.
Qed.

Lemma phase2_slow_range (input : list byte) (n : nat) (stop td p : Z) :
  p <= stop ->
  p <= Smallz4.phase2_slow input n stop td p <= stop.
Proof.
  revert p. induction n as [|n IH]; intros p Hp; cbn [Smallz4.phase2_slow].
  - lia.
  - destruct (Z.ltb_spec p stop); cbn [andb]; [|lia].
    destruct (_ =? _); [|lia].
    specialize (IH (p + 1) ltac:(lia)). lia.
Qed.

(** a match that [findLongestMatch] returns ends at [stop] or in front of it *)
Lemma chain_loop_range (L : Z) (input : list byte) (n : nat)
    (pos current stop : Z) (chain : Smallz4.table)
    (distance td steps rl rd : Z) :
  stop - current < 4294967296 ->
  rl = 1 \/ 2 <= rl <= stop - current ->
  let r := Smallz4.chain_loop input n pos current stop chain distance td steps rl rd in
  fst r = 1 \/ 2 <= fst r <= stop - current.
Proof.
  intros Hs. revert distance td steps rl rd.
  induction n as [|n IH]; intros distance td steps rl rd Hr;
    cbn [Smallz4.chain_loop]; cbn zeta.
  - exact Hr.
  - destruct (distance =? Smallz4.EndOfChain); [exact Hr|].
    destruct (u32 (td + distance) >? Smallz4.MaxDistance); [exact Hr|].
    destruct (Z.gtb_spec (current + rl + 1) stop) as [Hg | Hg]; [exact Hr|].
    destruct (_ >? current).
    + apply IH. exact Hr.
    + set (p2 := Smallz4.phase2_slow _ _ _ _ _).
      assert (Hp : current + rl + 1 <= p2 <= stop).
      { subst p2.
        pose proof (phase2_fast_range input (Z.to_nat (stop - (current + rl + 1)))
                      stop (u32 (td + distance)) (current + rl + 1) Hg) as F.
        pose proof (phase2_slow_range input
                      (Z.to_nat (stop - Smallz4.phase2_fast input
                                           (Z.to_nat (stop - (current + rl + 1)))
                                           stop (u32 (td + distance))
                                           (current + rl + 1)))
                      stop (u32 (td + distance)) _ (proj2 F)) as S.
        lia. }
      assert (Hu : u32 (p2 - current) = p2 - current).
      { unfold u32. apply Z.mod_small. lia. }
      destruct (_ =? 0).
      * cbn [fst]. rewrite Hu. right. lia.
      * apply IH. rewrite Hu. right. lia.
Qed.

Lemma findLongestMatch_range (L : Z) (input : list byte)
    (data pos begin end_ : Z) (chain : Smallz4.table) (rd : Z) :
  end_ - pos < 4294967296 ->
  let r := Smallz4.findLongestMatch L input data pos begin end_ chain rd in
  fst r = 1 \/ 2 <= fst r <= end_ - pos.
Proof.
  intros H. unfold Smallz4.findLongestMatch. cbn zeta.
  match goal with
  | |- context [Smallz4.chain_loop input ?n ?pos ?cur ?stop ?ch ?d ?td ?st ?rl ?rd] =>
      pose proof (chain_loop_range L input n pos cur stop ch d td st rl rd) as C
  end.
  cbn zeta in C.
  replace (data + pos - begin + end_ - pos - (data + pos - begin))
    with (end_ - pos) in C by lia.
  apply C; [lia | left; reflexivity].
Qed.

Lemma length_vset (v : list Z) (i x : Z) :
  length (Smallz4.vset v i x) = length v.
Proof.
  unfold Smallz4.vset. destruct (i <? 0); [reflexivity|].
  generalize (Z.to_nat i). induction v as [|h t IH]; intros [|k]; simpl; auto.
Qed.

Lemma nth_vset_nat (v : list Z) (i j : nat) (x : Z) :
  nth j (Smallz4.vset_nat v i x) 0
  = if (Nat.eqb j i) && (Nat.ltb i (length v)) then x else nth j v 0.
Proof.
  revert i j. induction v as [|h t IH]; intros i j.
  - simpl. rewrite andb_false_r. destruct i; reflexivity.
  - destruct i as [|i], j as [|j]; simpl; try reflexivity.
    rewrite IH. reflexivity.
Qed.

(** a read behind a write: the value written at the same index, when the
    index is inside of the vector, and the old value at any other index *)
Lemma vget_vset (v : list Z) (i j x : Z) :
  Smallz4.vget (Smallz4.vset v i x) j
  = if (j =? i) && (0 <=? i) && (i <? Z.of_nat (length v)) then x
    else Smallz4.vget v j.
Proof.
  unfold Smallz4.vget, Smallz4.vset.
  destruct (Z.ltb_spec i 0) as [Hi | Hi].
  - destruct (Z.leb_spec 0 i); [lia|]. rewrite andb_false_r. reflexivity.
  - destruct (Z.leb_spec 0 i); [|lia]. rewrite andb_true_r.
    destruct (Z.ltb_spec j 0) as [Hj | Hj].
    + destruct (Z.eqb_spec j i); [lia | reflexivity].
    + rewrite nth_vset_nat.
      destruct (Z.eqb_spec j i) as [E | E].
      * subst j. rewrite Nat.eqb_refl. cbn [andb].
        destruct (Nat.ltb_spec (Z.to_nat i) (length v));
          destruct (Z.ltb_spec i (Z.of_nat (length v))); try lia; reflexivity.
      * destruct (Nat.eqb_spec (Z.to_nat j) (Z.to_nat i)); [lia | reflexivity].
Qed.

Lemma vget_vset_cases (v : list Z) (i j x : Z) :
  Smallz4.vget (Smallz4.vset v i x) j = Smallz4.vget v j
  \/ (j = i /\ Smallz4.vget (Smallz4.vset v i x) j = x).
Proof.
  rewrite vget_vset.
  destruct (Z.eqb_spec j i); cbn [andb]; [|left; reflexivity].
  destruct ((0 <=? i) && (i <? Z.of_nat (length v))); auto.
Qed.

Lemma bounded_set (B : Z) (m : Smallz4.Matches) (i l d : Z) :
  bounded B m ->
  (1 < l -> i + 12 <= B /\ i + l + 5 <= B) ->
  bounded B (Smallz4.set_match m i l d).
Proof.
  intros Hm Hl j. unfold Smallz4.set_match. cbn [Smallz4.lengths].
  destruct (vget_vset_cases (Smallz4.lengths m) i j l) as [E | [-> E]];
    rewrite E; auto.
Qed.

Lemma step_bounded (L : Z) (input : list byte) (w : Smallz4.window) (i : Z)
    (f : Smallz4.finder) :
  Smallz4.blockSize w < 4294967296 ->
  i + 12 <= Smallz4.blockSize w ->
  bounded (Smallz4.blockSize w) (Smallz4.matches f) ->
  bounded (Smallz4.blockSize w) (Smallz4.matches (snd (Smallz4.step L input w i f))).
Proof.
  intros HB Hi Hm. unfold Smallz4.step.
  destruct (_ && _ && _ && _) eqn:Hc.
  - (* the match of the predecessor, one byte shorter *)
    cbn [snd Smallz4.matches]. apply bounded_set; [exact Hm|].
    apply andb_true_iff in Hc. destruct Hc as [Hc0 Hc].
    apply andb_true_iff in Hc0. destruct Hc0 as [Hc0 _].
    apply andb_true_iff in Hc0. destruct Hc0 as [Hc0 _].
    apply Z.gtb_lt in Hc0.
    apply Z.gtb_lt in Hc. unfold Smallz4.MaxSameLetter in Hc.
    destruct (Hm (i - 1) ltac:(lia)) as [_ Hp].
    assert (Hu : u32 (Smallz4.vget (Smallz4.lengths (Smallz4.matches f)) (i - 1) - 1)
                 = Smallz4.vget (Smallz4.lengths (Smallz4.matches f)) (i - 1) - 1).
    { unfold u32. apply Z.mod_small. lia. }
    rewrite Hu. lia.
  - cbn zeta.
    step_cases; cbn [snd Smallz4.matches]; try exact Hm.
    all: apply bounded_set; [exact Hm|].
    all: match goal with
         | H : Smallz4.findLongestMatch ?L ?inp ?d ?p ?b ?e ?c ?rd = (?l, _) |- _ =>
             pose proof (findLongestMatch_range L inp d p b e c rd) as R;
             rewrite H in R; cbn [fst] in R
         end.
    all: unfold Smallz4.blockSize, Smallz4.BlockEndLiterals in *.
    all: match goal with
         | H : (_ <? 0) = false |- _ => apply Z.ltb_ge in H
         end.
    all: lia.
Qed.

Lemma match_loop_bounded (L : Z) (input : list byte) (n : nat)
    (w : Smallz4.window) (i : Z) (f : Smallz4.finder)
    (trace : list (Z * Smallz4.visit)) :
  Smallz4.blockSize w < 4294967296 ->
  ((0 < n)%nat -> i + Z.of_nat n <= Smallz4.blockSize w - 11) ->
  bounded (Smallz4.blockSize w) (Smallz4.matches f) ->
  bounded (Smallz4.blockSize w)
    (Smallz4.matches (fst (Smallz4.match_loop L input n w i f trace))).
Proof.
  intros HB. revert i f trace.
  induction n as [|n IH]; intros i f trace Hn Hm; cbn [Smallz4.match_loop].
  - exact Hm.
  - pose proof (step_bounded L input w i f HB ltac:(lia) Hm) as Hs.
    destruct (Smallz4.step L input w i f) as [v f']. cbn [snd] in Hs.
    apply IH; [lia | exact Hs].
Qed.

Lemma fill_literals_bounded (B : Z) (n : nat) (i : Z) (m m' : Smallz4.Matches) :
  Smallz4.fill_literals n i m = Ok m' ->
  bounded B m -> bounded B m'.
Proof.
  revert i m. induction n as [|n IH]; intros i m; cbn [Smallz4.fill_literals].
  - intros E Hm. inversion E. subst. exact Hm.
  - destruct (i <? 0); [discriminate|]. intros E Hm.
    apply (IH _ _ E).
    apply (bounded_set B m i Smallz4.JustLiteral
             (Smallz4.vget (Smallz4.distances m) i)) in Hm.
    + intros j. specialize (Hm j). exact Hm.
    + unfold Smallz4.JustLiteral. lia.
Qed.

Lemma vget_zeros (n : nat) (j : Z) : Smallz4.vget (repeat 0 n) j = 0.
Proof.
  unfold Smallz4.vget. destruct (j <? 0); [reflexivity|].
  generalize (Z.to_nat j). induction n as [|n IH]; intros [|k]; simpl; auto.
Qed.

Lemma find_matches_bounded (L : Z) (input : list byte) (w : Smallz4.window)
    (lh ph pe : Smallz4.table) (f : Smallz4.finder)
    (trace : list (Z * Smallz4.visit)) :
  Smallz4.blockSize w < 4294967296 ->
  Smallz4.find_matches L input w lh ph pe = Ok (f, trace) ->
  bounded (Smallz4.blockSize w) (Smallz4.matches f).
Proof.
  intros HB. unfold Smallz4.find_matches.
  match goal with
  | |- context [Smallz4.match_loop L input ?n w ?i ?f0 ?t] =>
      pose proof (match_loop_bounded L input n w i f0 t HB) as Hl;
      destruct (Smallz4.match_loop L input n w i f0 t) as [f1 trace1]
  end.
  cbn [fst] in Hl.
  destruct (Smallz4.fill_literals _ _ _) as [m' | | |] eqn:E; cbn [bind];
    try discriminate.
  intros H. inversion H. subst. clear H. cbn [Smallz4.matches].
  apply (fill_literals_bounded _ _ _ _ _ E). apply Hl.
  - unfold Smallz4.passes. destruct (Smallz4.uncompressed L); [simpl; lia|].
    unfold Smallz4.BlockEndNoMatch. lia.
  - intros j. cbn [Smallz4.matches Smallz4.lengths]. rewrite vget_zeros. lia.
Qed.

Lemma cost_loop_shortens (n : nat) (cost : list Z)
    (i ml len minCost best extra next : Z) :
  best <= 1 \/ best <= ml ->
  let r := Smallz4.cost_loop n cost i ml len minCost best extra next in
  snd r <= 1 \/ snd r <= ml.
Proof.
  revert len minCost best extra next.
  induction n as [|n IH]; intros len minCost best extra next Hb;
    cbn [Smallz4.cost_loop]; cbn zeta.
  - exact Hb.
  - destruct (Z.leb_spec len ml); [|exact Hb].
    apply IH. destruct (_ <=? minCost); [right; assumption | exact Hb].
Qed.

Lemma cost_step_bounded (B i : Z) (m : Smallz4.Matches) (cost : list Z) (nl : Z) :
  bounded B m ->
  bounded B (fst (fst (Smallz4.cost_step i (m, cost, nl)))).
Proof.
  intros Hm. unfold Smallz4.cost_step.
  match goal with
  | |- context [if ?c then (?a, ?b) else Smallz4.cost_loop ?n ?co ?i ?ml ?l ?mc ?bl ?e ?nx] =>
      pose proof (cost_loop_shortens n co i ml l mc bl e nx
                    ltac:(left; unfold Smallz4.JustLiteral; lia)) as Hc;
      cbn zeta in Hc;
      destruct c;
      [ | destruct (Smallz4.cost_loop n co i ml l mc bl e nx) as [minCost best] ]
  end; cbn [fst snd] in *.
  - intros j. cbn [Smallz4.lengths].
    destruct (vget_vset_cases (Smallz4.lengths m) i j
                (Smallz4.vget (Smallz4.lengths m) i)) as [E | [-> E]];
      rewrite E; auto.
  - intros j. cbn [Smallz4.lengths].
    destruct (vget_vset_cases (Smallz4.lengths m) i j best) as [E | [-> E]];
      rewrite E; auto.
    intros H1. destruct Hc as [Hc | Hc]; [lia|].
    destruct (Hm i ltac:(lia)). lia.
Qed.

Lemma cost_steps_bounded (B : Z) (n : nat) (st : Smallz4.Matches * list Z * Z) :
  bounded B (fst (fst st)) ->
  bounded B (fst (fst (Smallz4.cost_steps n st))).
Proof.
  revert st. induction n as [|n IH]; intros [[m cost] nl] Hm;
    cbn [Smallz4.cost_steps]; [exact Hm|].
  apply IH. apply cost_step_bounded. exact Hm.
Qed.

Lemma choose_bounded (L B : Z) (m : Smallz4.Matches) :
  bounded B m -> bounded B (Smallz4.choose L m).
Proof.
  intros Hm. unfold Smallz4.choose. destruct (_ && _); [|exact Hm].
  unfold Smallz4.estimateCosts. apply cost_steps_bounded. exact Hm.
Qed.

(** what the serializer notes for a match: the position, and the length and
    the distance the match table has there *)
Lemma select_loop_emitted (input : list byte) (n : nat) (m : Smallz4.Matches)
    (data n_matches offset literalsFrom numLiterals : Z) (r : sink)
    (emitted : list (Z * Z * Z)) (P : Z * Z * Z -> Prop) :
  0 <= offset ->
  (forall o : Z, 0 <= o -> 1 < Smallz4.vget (Smallz4.lengths m) o ->
                 P (o, Smallz4.vget (Smallz4.lengths m) o,
                    Smallz4.vget (Smallz4.distances m) o)) ->
  Forall P emitted ->
  Forall P (snd (Smallz4.select_loop input n m data n_matches offset
                   literalsFrom numLiterals r emitted)).
Proof.
  intros Ho HP. revert offset literalsFrom numLiterals r emitted Ho.
  induction n as [|n IH]; intros offset literalsFrom numLiterals r emitted Ho He;
    cbn [Smallz4.select_loop]; cbn zeta.
  - exact He.
  - destruct (offset <? n_matches); [|exact He].
    destruct (Z.leb_spec (Smallz4.vget (Smallz4.lengths m) offset)
                Smallz4.JustLiteral) as [Hl | Hl].
    + destruct (offset + 1 <? n_matches); [|exact He].
      apply IH; [lia | exact He].
    + unfold Smallz4.JustLiteral in Hl.
      apply IH; [lia|].
      apply Forall_app. split; [exact He|].
      constructor; [|constructor]. apply HP; assumption.
Qed.

Lemma encode_block_chosen (L : Z) (input : list byte) (w : Smallz4.window)
    (lh ph pe : Smallz4.table) (b : Smallz4.encoded) :
  Smallz4.blockSize w < 4294967296 ->
  Smallz4.encode_block L input w lh ph pe = Ok b ->
  Forall (inside (Smallz4.blockSize w)) (Smallz4.chosen b).
Proof.
  intros HB. unfold Smallz4.encode_block.
  destruct (Smallz4.find_matches L input w lh ph pe) as [[f trace] | | |] eqn:E;
    cbn [bind]; try discriminate.
  pose proof (find_matches_bounded L input w lh ph pe f trace HB E) as Hf.
  apply (choose_bounded L) in Hf.
  unfold Smallz4.select.
  match goal with
  | |- context [Smallz4.select_loop input ?n ?m ?d ?nm ?o ?lf ?nl ?r ?e] =>
      pose proof (select_loop_emitted input n m d nm o lf nl r e
                    (inside (Smallz4.blockSize w)) ltac:(lia)) as Hs;
      destruct (Smallz4.select_loop input n m d nm o lf nl r e) as [r' em]
  end.
  intros H. inversion H. subst. clear H. cbn [Smallz4.chosen snd] in *.
  apply Hs; [|constructor].
  intros o Ho Hl. unfold inside. destruct (Hf o Hl). lia.
Qed.

Lemma block_window_borders (input : list byte) (e : Smallz4.encoder) :
  block_inv input e ->
  Smallz4.nextBlock (Smallz4.win e) <> Z.of_nat (length input) ->
  let w := block_window input e in
  Smallz4.lastBlock w = Smallz4.nextBlock (Smallz4.win e)
  /\ Smallz4.lastBlock w < Smallz4.nextBlock w <= Z.of_nat (length input)
  /\ Smallz4.blockSize w <= Smallz4.MaxBlockSize.
Proof.
  intros (_ & HR & HN & _) Hne. cbn zeta.
  unfold block_window, Smallz4.next_block, Smallz4.blockSize.
  cbn [Smallz4.lastBlock Smallz4.nextBlock].
  rewrite nextBlock_read_more, HR. unfold Smallz4.MaxBlockSize.
  destruct (Z.gtb_spec (Smallz4.nextBlock (Smallz4.win e) + 4 * 1024 * 1024)
              (Z.of_nat (length input))); lia.
Qed.

Lemma block_keeps_inv (L : Z) (input : list byte) (e : Smallz4.encoder) :
  block_inv input e ->
  match Smallz4.block L input e with
  | Ok (inl e') => Smallz4.log e' = Smallz4.log e
  | Ok (inr e') => block_inv input e'
  | _ => True
  end.
Proof.
  intros Hinv. pose proof Hinv as (Hd & HR & HN & Hlog).
  destruct (Z.eq_dec (Smallz4.nextBlock (Smallz4.win e))
              (Z.of_nat (length input))) as [E | E].
  - unfold Smallz4.block. rewrite Hd, nextBlock_read_more, HR, E, Z.eqb_refl.
    reflexivity.
  - rewrite block_continue by (rewrite ?HR; assumption).
    destruct (block_window_borders input e Hinv E) as (Hlb & Hnb & Hbs).
    destruct (Smallz4.encode_block L input (block_window input e) _ _ _)
      as [b | | |] eqn:Eb; cbn [bind]; auto.
    apply encode_block_chosen in Eb;
      [|unfold Smallz4.MaxBlockSize in Hbs; lia].
    unfold block_inv, advance. cbn zeta.
    cbn [Smallz4.parseDictionary Smallz4.numRead Smallz4.it Smallz4.win
         Smallz4.log].
    rewrite nextBlock_discard.
    repeat split; try lia.
    apply Forall_app. split; [exact Hlog|].
    destruct (_ && _); [|constructor].
    apply Forall_map. revert Eb. apply Forall_impl.
    intros [[p l] d]. unfold inside, Smallz4.blockSize. lia.
Qed.

Lemma blocks_keep_inv (L : Z) (input : list byte) (n : nat) (e : Smallz4.encoder) :
  block_inv input e ->
  Forall (inside (Z.of_nat (length input)))
    (Smallz4.log (fst (Smallz4.blocks L input n e))).
Proof.
  revert e. induction n as [|n IH]; intros e Hinv; cbn [Smallz4.blocks].
  - apply Hinv.
  - pose proof (block_keeps_inv L input e Hinv) as Hb.
    destruct (Smallz4.block L input e) as [[e' | e'] | | |]; cbn [fst].
    + rewrite Hb. apply Hinv.
    + apply IH. exact Hb.
    + apply Hinv.
    + apply Hinv.
    + apply Hinv.
Qed.

(** C5 as stated fails: for "ABCDEFGABCDEFGxxxxx" (19 bytes) the encoder
    writes a match of 7 bytes that starts at position 7, the first of the
    last twelve bytes: 7 < 19 - 12 does not hold. *)
Lemma match_starts_at_the_last_twelve_bytes :
  Smallz4.matches_of Inputs.twice7 Smallz4.MaxChainLength = [(7, 7, 7)]
  /\ snd (Smallz4.lz4 Inputs.twice7 sink0 Smallz4.MaxChainLength []) = Ok tt
  /\ ~ (forall p l d : Z,
         In (p, l, d) (Smallz4.matches_of Inputs.twice7 Smallz4.MaxChainLength) ->
         p < Z.of_nat (length Inputs.twice7) - 12).
Proof.
  assert (H : Smallz4.matches_of Inputs.twice7 Smallz4.MaxChainLength
              = [(7, 7, 7)]) by (vm_compute; reflexivity).
  split; [exact H|]. split; [vm_compute; reflexivity|].
  intros C. specialize (C 7 7 7). rewrite H in C.
  specialize (C (or_introl eq_refl)). vm_compute in C. discriminate.
Qed.

(** C5, as the code has it: for every input and every [maxChainLength],
    every match the encoder writes starts at least twelve bytes in front
    of the end of the input ([p + 12 <= streamLength], which a match that
    starts at the first of the last twelve bytes meets) and ends at least
    five bytes in front of it: no match covers one of the last five bytes,
    they are literals of the last sequence or bytes of a raw block. *)
Theorem matches_stay_off_the_end (input : list byte) (L : Z) :
  Forall
    (fun x : Z * Z * Z =>
       let '(p, l, d) := x in
       0 <= p
       /\ p + Smallz4.BlockEndNoMatch <= Z.of_nat (length input)
       /\ 1 < l
       /\ p + l + Smallz4.BlockEndLiterals <= Z.of_nat (length input))
    (Smallz4.matches_of input L).
Proof.
  unfold Smallz4.matches_of, Smallz4.run.
  pose proof (blocks_keep_inv L input (S (length input)) (Smallz4.start sink0 []))
    as H.
  eapply Forall_impl; [|apply H].
  - intros [[p l] d]. unfold inside, Smallz4.BlockEndNoMatch,
      Smallz4.BlockEndLiterals. lia.
  - unfold block_inv. cbn. repeat split; try lia. constructor.
Qed.

(** ** The decoder on the frames of the format *)

Lemma holds_nil (mem : list byte) (i : nat) : holds mem i [].
Proof. reflexivity. Qed.

Lemma firstn_add (a b : nat) (l : list byte) :
  firstn (a + b) l = firstn a l ++ firstn b (skipn a l).
Proof.
  revert l. induction a as [|a IH]; intros l; [reflexivity|].
  destruct l as [|h t]; simpl.
  - rewrite firstn_nil. reflexivity.
  - rewrite IH. reflexivity.
Qed.

Lemma app_same_length (a a' b b' : list byte) :
  length a = length a' -> a ++ b = a' ++ b' -> a = a' /\ b = b'.
Proof.
  revert a'. induction a as [|h t IH]; intros [|h' t'] Hl H;
    simpl in *; try discriminate; auto.
  inversion H. subst. destruct (IH t' ltac:(lia) H2). subst. auto.
Qed.

Lemma holds_app (mem : list byte) (i : nat) (xs ys : list byte) :
  holds mem i (xs ++ ys) <-> holds mem i xs /\ holds mem (i + length xs) ys.
Proof.
  unfold holds. rewrite length_app, firstn_add, skipn_skipn.
  rewrite (Nat.add_comm (length xs) i).
  split.
  - intros H.
    assert (L : length (firstn (length xs) (skipn i mem)) = length xs).
    { pose proof (f_equal (@length byte) H) as HL.
      rewrite !length_app, !length_firstn, !length_skipn in HL.
      rewrite length_firstn, length_skipn. lia. }
    apply app_same_length in H; [exact H | exact L].
  - intros [H1 H2]. rewrite H1, H2. reflexivity.
Qed.

Lemma holds_cons (mem : list byte) (i : nat) (c : byte) (xs : list byte) :
  holds mem i (c :: xs) <-> nth_error mem i = Some c /\ holds mem (S i) xs.
Proof.
  change (c :: xs) with ([c] ++ xs). rewrite holds_app.
  simpl length. rewrite Nat.add_1_r.
  assert (H : holds mem i [c] <-> nth_error mem i = Some c).
  { unfold holds. simpl length.
    rewrite <- (Nat.add_0_r i) at 2. rewrite <- nth_error_skipn.
    destruct (skipn i mem) as [|h t]; simpl.
    - split; discriminate.
    - split; intros E; inversion E; reflexivity. }
  rewrite H. reflexivity.
Qed.

Lemma holds_length (mem : list byte) (i : nat) (xs : list byte) :
  holds mem i xs -> xs <> [] -> (i + length xs <= length mem)%nat.
Proof.
  unfold holds. intros H Hx.
  apply (f_equal (@length byte)) in H.
  rewrite length_firstn, length_skipn in H.
  destruct xs; [contradiction|]. cbn [length] in H |- *. lia.
Qed.

Lemma next_holds (mem : list byte) (s : Unlz4.state) (c : byte) (xs : list byte) :
  holds mem (Unlz4.it s) (c :: xs) ->
  Unlz4.next mem s = Ok (b2z c, Unlz4.with_it s (S (Unlz4.it s)))
  /\ holds mem (S (Unlz4.it s)) xs.
Proof.
  intros H. apply holds_cons in H. destruct H as [H1 H2].
  split; [apply next_at; exact H1 | exact H2].
Qed.

Lemma length_list_set (l : list byte) (i : nat) (c : byte) :
  length (Unlz4.list_set l i c) = length l.
Proof.
  revert i. induction l as [|h t IH]; intros [|i]; simpl; auto.
Qed.

Lemma push_ok (c : Z) (s : Unlz4.state) :
  0 <= Unlz4.pos s < Unlz4.HISTORY_SIZE ->
  exists s', Unlz4.push c s = Ok s'
             /\ Unlz4.it s' = Unlz4.it s
             /\ length (Unlz4.history s') = length (Unlz4.history s)
             /\ Unlz4.pos s' = Unlz4.pos s + 1
             /\ Unlz4.out s' = Unlz4.out s.
Proof.
  intros H. unfold Unlz4.push.
  destruct (Z.leb_spec 0 (Unlz4.pos s)); [|lia].
  destruct (Z.ltb_spec (Unlz4.pos s) Unlz4.HISTORY_SIZE); [|lia].
  cbn [andb]. eexists. split; [reflexivity|].
  cbn [Unlz4.it Unlz4.history Unlz4.pos Unlz4.out].
  rewrite length_list_set. repeat split.
  unfold u32, Unlz4.HISTORY_SIZE in *. apply Z.mod_small. lia.
Qed.

Lemma flush_if_full_ok (s : Unlz4.state) :
  0 <= Unlz4.pos s <= Unlz4.HISTORY_SIZE ->
  wf_sink (Unlz4.out s) ->
  let s' := Unlz4.flush_if_full s in
  Unlz4.it s' = Unlz4.it s
  /\ Unlz4.history s' = Unlz4.history s
  /\ 0 <= Unlz4.pos s' < Unlz4.HISTORY_SIZE
  /\ wf_sink (Unlz4.out s').
Proof.
  intros H W. cbn zeta. unfold Unlz4.flush_if_full.
  destruct (Z.eqb_spec (Unlz4.pos s) Unlz4.HISTORY_SIZE).
  - cbn [Unlz4.it Unlz4.history Unlz4.pos Unlz4.out].
    repeat split; try (unfold Unlz4.HISTORY_SIZE; lia).
    apply dump_spec. exact W.
  - repeat split; try lia. exact W.
Qed.

Lemma copy_literals_fast_ok (mem : list byte) (lits : list byte) (s : Unlz4.state) :
  holds mem (Unlz4.it s) lits ->
  0 <= Unlz4.pos s ->
  Unlz4.pos s + Z.of_nat (length lits) < Unlz4.HISTORY_SIZE ->
  exists s', Unlz4.copy_literals_fast mem (length lits) s = Ok s'
             /\ Unlz4.it s' = (Unlz4.it s + length lits)%nat
             /\ length (Unlz4.history s') = length (Unlz4.history s)
             /\ Unlz4.pos s' = Unlz4.pos s + Z.of_nat (length lits)
             /\ Unlz4.out s' = Unlz4.out s.
Proof.
  revert s. induction lits as [|c lits IH]; intros s Hh Hp Hn.
  - exists s. cbn [length Unlz4.copy_literals_fast].
    repeat split; try lia.
  - cbn [length Unlz4.copy_literals_fast].
    destruct (next_holds mem s c lits Hh) as [En Hh'].
    rewrite En. cbn [bind].
    destruct (push_ok (b2z c) (Unlz4.with_it s (S (Unlz4.it s))))
      as (s1 & E1 & I1 & L1 & P1 & O1).
    { cbn [Unlz4.with_it Unlz4.pos]. cbn [length] in Hn. lia. }
    rewrite E1. cbn [bind].
    cbn [Unlz4.with_it Unlz4.it Unlz4.history Unlz4.pos Unlz4.out] in *.
    destruct (IH s1) as (s' & E & I & Lh & P & O).
    { rewrite I1. exact Hh'. }
    { lia. }
    { cbn [length] in Hn. lia. }
    exists s'. split; [exact E|].
    rewrite I, Lh, P, O, I1, L1, P1, O1. cbn [length].
    repeat split; lia.
Qed.

Lemma copy_literals_slow_ok (mem : list byte) (lits : list byte) (s : Unlz4.state) :
  holds mem (Unlz4.it s) lits ->
  dwf s ->
  exists s', Unlz4.copy_literals_slow mem (length lits) s = Ok s'
             /\ Unlz4.it s' = (Unlz4.it s + length lits)%nat
             /\ dwf s'.
Proof.
  revert s. induction lits as [|c lits IH]; intros s Hh (Hl & Hp & Hw).
  - exists s. cbn [length Unlz4.copy_literals_slow].
    repeat split; try lia; assumption.
  - cbn [length Unlz4.copy_literals_slow].
    destruct (next_holds mem s c lits Hh) as [En Hh'].
    rewrite En. cbn [bind].
    destruct (push_ok (b2z c) (Unlz4.with_it s (S (Unlz4.it s))))
      as (s1 & E1 & I1 & L1 & P1 & O1).
    { cbn [Unlz4.with_it Unlz4.pos]. lia. }
    rewrite E1. cbn [bind].
    cbn [Unlz4.with_it Unlz4.it Unlz4.history Unlz4.pos Unlz4.out] in *.
    destruct (flush_if_full_ok s1) as (I2 & H2 & P2 & W2).
    { lia. }
    { rewrite O1. exact Hw. }
    destruct (IH (Unlz4.flush_if_full s1)) as (s' & E & I & D).
    { rewrite I2, I1. exact Hh'. }
    { unfold dwf. rewrite H2, L1. auto. }
    exists s'. split; [exact E|]. rewrite I, I2, I1. split; [lia | exact D].
Qed.

Lemma read_length_ok (mem : list byte) (k : nat) (r : Z) :
  0 <= r < 255 ->
  forall (fuel : nat) (n bo : Z) (s : Unlz4.state),
    holds mem (Unlz4.it s) (repeat xff k ++ [z2b r]) ->
    0 <= n -> n + 255 * Z.of_nat k + r < 4294967296 ->
    0 <= bo -> bo + Z.of_nat k + 1 < 4294967296 ->
    (k < fuel)%nat ->
    Unlz4.read_length mem fuel n bo s
    = Ok (n + 255 * Z.of_nat k + r, bo + Z.of_nat k + 1,
          Unlz4.with_it s (Unlz4.it s + k + 1)).
Proof.
  intros Hr. induction k as [|k IH]; intros fuel n bo s Hh Hn Hn2 Hb Hb2 Hf;
    (destruct fuel as [|fuel]; [lia|]); cbn [Unlz4.read_length].
  - cbn [repeat app] in Hh.
    destruct (next_holds mem s _ _ Hh) as [En _]. rewrite En. cbn [bind].
    rewrite b2z_z2b, (Z.mod_small r 256) by lia.
    destruct (Z.eqb_spec r 255); [lia|].
    unfold u32. rewrite !Z.mod_small by lia.
    replace (n + 255 * Z.of_nat 0 + r) with (n + r) by lia.
    replace (bo + Z.of_nat 0 + 1) with (bo + 1) by lia.
    replace (Unlz4.it s + 0 + 1)%nat with (S (Unlz4.it s)) by lia.
    reflexivity.
  - cbn [repeat app] in Hh.
    destruct (next_holds mem s _ _ Hh) as [En Hh']. rewrite En. cbn [bind].
    change (b2z xff) with 255. cbn [Z.eqb Pos.eqb].
    unfold u32 at 1 2. rewrite !Z.mod_small by lia.
    rewrite (IH fuel (n + 255) (bo + 1) (Unlz4.with_it s (S (Unlz4.it s))));
      try lia; [|exact Hh'].
    unfold Unlz4.with_it.
    cbn [Unlz4.it Unlz4.history Unlz4.pos Unlz4.out].
    replace (n + 255 + 255 * Z.of_nat k + r)
      with (n + 255 * Z.of_nat (S k) + r) by lia.
    replace (bo + 1 + Z.of_nat k + 1) with (bo + Z.of_nat (S k) + 1) by lia.
    replace (S (Unlz4.it s) + k + 1)%nat with (Unlz4.it s + S k + 1)%nat by lia.
    reflexivity.
Qed.

Lemma length_overflow (v : Z) :
  0 <= v -> Z.of_nat (length (Format.overflow v)) = v / 255 + 1.
Proof.
  intros H. unfold Format.overflow.
  rewrite length_app, repeat_length. cbn [length].
  pose proof (Z.div_pos v 255 H ltac:(lia)). lia.
Qed.

(** the decoder reads back the bytes that extend a length *)
Lemma read_overflow (mem : list byte) (v n bo : Z) (s : Unlz4.state) :
  0 <= v ->
  holds mem (Unlz4.it s) (Format.overflow v) ->
  0 <= n -> n + v < 4294967296 ->
  0 <= bo -> bo + v / 255 + 1 < 4294967296 ->
  Unlz4.read_length mem (S (length mem)) n bo s
  = Ok (n + v, bo + Z.of_nat (length (Format.overflow v)),
        Unlz4.with_it s (Unlz4.it s + length (Format.overflow v))).
Proof.
  intros Hv Hh Hn Hn2 Hb Hb2.
  pose proof (Z.div_pos v 255 Hv ltac:(lia)) as Hq.
  pose proof (Z.mod_pos_bound v 255 ltac:(lia)) as Hm.
  pose proof (Z.div_mod v 255 ltac:(lia)) as Hd.
  pose proof (holds_length mem _ _ Hh) as HL.
  unfold Format.overflow in *.
  rewrite length_app, repeat_length in *. cbn [length] in *.
  specialize (HL ltac:(destruct (repeat xff (Z.to_nat (v / 255))); discriminate)).
  rewrite (read_length_ok mem (Z.to_nat (v / 255)) (v mod 255) Hm
             (S (length mem)) n bo s Hh); try lia.
  rewrite Z2Nat.id by lia.
  replace (n + 255 * (v / 255) + v mod 255) with (n + v) by lia.
  replace (bo + v / 255 + 1)
    with (bo + Z.of_nat (Z.to_nat (v / 255) + 1)) by lia.
  rewrite Nat.add_assoc. reflexivity.
Qed.

Lemma memcpy_match_ok (ref ml : Z) (s : Unlz4.state) :
  length (Unlz4.history s) = Z.to_nat Unlz4.HISTORY_SIZE ->
  0 <= ml ->
  0 <= ref -> ref + ml <= Unlz4.HISTORY_SIZE ->
  0 <= Unlz4.pos s -> Unlz4.pos s + ml < Unlz4.HISTORY_SIZE ->
  exists s', Unlz4.memcpy_match ref ml s = Ok s'
             /\ Unlz4.it s' = Unlz4.it s
             /\ length (Unlz4.history s') = length (Unlz4.history s)
             /\ Unlz4.pos s' = Unlz4.pos s + ml
             /\ Unlz4.out s' = Unlz4.out s.
Proof.
  intros Hl Hm Hr Hr2 Hp Hp2. unfold Unlz4.memcpy_match.
  destruct (Z.leb_spec 0 ref); [|lia].
  destruct (Z.leb_spec (ref + ml) Unlz4.HISTORY_SIZE); [|lia].
  destruct (Z.leb_spec 0 (Unlz4.pos s)); [|lia].
  destruct (Z.leb_spec (Unlz4.pos s + ml) Unlz4.HISTORY_SIZE); [|lia].
  cbn [andb]. eexists. split; [reflexivity|].
  cbn [Unlz4.it Unlz4.history Unlz4.pos Unlz4.out].
  repeat split.
  - apply length_overwrite.
    rewrite length_firstn, length_skipn, Hl.
    unfold Unlz4.HISTORY_SIZE in *. lia.
  - unfold u32, Unlz4.HISTORY_SIZE in *. apply Z.mod_small. lia.
Qed.

Lemma hist_ok (s : Unlz4.state) (i : Z) :
  length (Unlz4.history s) = Z.to_nat Unlz4.HISTORY_SIZE ->
  0 <= i < Unlz4.HISTORY_SIZE ->
  exists c, Unlz4.hist s i = Ok c.
Proof.
  intros Hl Hi. unfold Unlz4.hist.
  destruct (Z.leb_spec 0 i); [|lia].
  destruct (nth_error (Unlz4.history s) (Z.to_nat i)) as [c|] eqn:E; [eauto|].
  apply nth_error_None in E. unfold Unlz4.HISTORY_SIZE in *. lia.
Qed.

Lemma copy_match_overlap_ok (n : nat) (ref : Z) (s : Unlz4.state) :
  length (Unlz4.history s) = Z.to_nat Unlz4.HISTORY_SIZE ->
  0 <= ref -> ref + Z.of_nat n <= Unlz4.HISTORY_SIZE ->
  0 <= Unlz4.pos s -> Unlz4.pos s + Z.of_nat n < Unlz4.HISTORY_SIZE ->
  exists s', Unlz4.copy_match_overlap n ref s = Ok s'
             /\ Unlz4.it s' = Unlz4.it s
             /\ length (Unlz4.history s') = length (Unlz4.history s)
             /\ Unlz4.pos s' = Unlz4.pos s + Z.of_nat n
             /\ Unlz4.out s' = Unlz4.out s.
Proof.
  revert ref s. induction n as [|n IH]; intros ref s Hl Hr Hr2 Hp Hp2;
    cbn [Unlz4.copy_match_overlap].
  - exists s. repeat split; lia.
  - destruct (hist_ok s ref Hl ltac:(lia)) as (c & Ec). rewrite Ec. cbn [bind].
    destruct (push_ok c s ltac:(lia)) as (s1 & E1 & I1 & L1 & P1 & O1).
    rewrite E1. cbn [bind].
    assert (Hu : u32 (ref + 1) = ref + 1).
    { unfold u32, Unlz4.HISTORY_SIZE in *. apply Z.mod_small. lia. }
    rewrite Hu.
    destruct (IH (ref + 1) s1) as (s' & E & I & Lh & P & O);
      try (rewrite ?L1, ?P1; lia).
    exists s'. split; [exact E|].
    repeat split; try congruence; lia.
Qed.

Lemma copy_match_wrap_ok (n : nat) (ref : Z) (s : Unlz4.state) :
  dwf s ->
  0 <= ref < Unlz4.HISTORY_SIZE ->
  exists s', Unlz4.copy_match_wrap n ref s = Ok s'
             /\ Unlz4.it s' = Unlz4.it s
             /\ dwf s'.
Proof.
  revert ref s. induction n as [|n IH]; intros ref s (Hl & Hp & Hw) Hr;
    cbn [Unlz4.copy_match_wrap].
  - exists s. repeat split; try lia; assumption.
  - destruct (hist_ok s ref Hl Hr) as (c & Ec). rewrite Ec. cbn [bind].
    destruct (push_ok c s Hp) as (s1 & E1 & I1 & L1 & P1 & O1).
    rewrite E1. cbn [bind].
    destruct (flush_if_full_ok s1) as (I2 & H2 & P2 & W2).
    { lia. }
    { rewrite O1. exact Hw. }
    destruct (IH (u32 (ref + 1) mod Unlz4.HISTORY_SIZE) (Unlz4.flush_if_full s1))
      as (s' & E & I & D).
    { unfold dwf. rewrite H2, L1. auto. }
    { apply Z.mod_pos_bound. unfold Unlz4.HISTORY_SIZE. lia. }
    exists s'. split; [exact E|]. rewrite I, I2, I1. split; [reflexivity | exact D].
Qed.

(** *** Bits of tokens, offsets and sizes *)

Lemma lor_shiftl_add (k lo hi : Z) :
  0 <= k -> 0 <= lo < 2 ^ k ->
  Z.lor lo (Z.shiftl hi k) = lo + hi * 2 ^ k.
Proof.
  intros Hk Hlo.
  assert (D : Z.land lo (Z.shiftl hi k) = 0).
  { apply Z.bits_inj'. intros n Hn.
    rewrite Z.land_spec, Z.bits_0.
    destruct (Z.lt_ge_cases n k) as [Hlt | Hge].
    - rewrite Z.shiftl_spec_low by lia. apply andb_false_r.
    - rewrite <- (Z.mod_small lo (2 ^ k)) by lia.
      rewrite Z.mod_pow2_bits_high by lia. reflexivity. }
  rewrite <- Z.lxor_lor by exact D.
  rewrite <- Z.add_nocarry_lxor by exact D.
  rewrite Z.shiftl_mul_pow2 by lia. reflexivity.
Qed.

Lemma nibbles (a b : Z) :
  0 <= a <= 15 -> 0 <= b <= 15 ->
  let t := b2z (z2b (Z.lor (Z.shiftl a 4) b)) in
  Z.shiftr t 4 = a /\ Z.land t 15 = b.
Proof.
  intros Ha Hb. cbn zeta. rewrite b2z_z2b.
  rewrite Z.lor_comm, lor_shiftl_add by (change (2 ^ 4) with 16; lia).
  change (2 ^ 4) with 16.
  rewrite Z.mod_small by lia.
  rewrite Z.shiftr_div_pow2 by lia. change (2 ^ 4) with 16.
  change 15 with (Z.ones 4). rewrite Z.land_ones by lia. change (2 ^ 4) with 16.
  split.
  - rewrite Z.add_comm, Z.div_add_l by lia. rewrite Z.div_small by lia. lia.
  - rewrite Z.add_comm, Z.add_comm, Z_mod_plus_full. apply Z.mod_small. lia.
Qed.

Lemma token_fields (n m : Z) :
  0 <= n -> 0 <= m ->
  Z.shiftr (b2z (Format.token n m)) 4 = Z.min n 15
  /\ Z.land (b2z (Format.token n m)) 15 = Z.min m 15.
Proof.
  intros Hn Hm. unfold Format.token. apply nibbles; lia.
Qed.

Lemma offset_bytes (o : Z) :
  0 <= o <= 65535 ->
  Z.lor (b2z (z2b o)) (Z.shiftl (b2z (z2b (Z.shiftr o 8))) 8) = o.
Proof.
  intros H. rewrite !b2z_z2b.
  rewrite Z.shiftr_div_pow2 by lia. change (2 ^ 8) with 256.
  rewrite lor_shiftl_add; change (2 ^ 8) with 256;
    [|lia| apply Z.mod_pos_bound; lia].
  Z.div_mod_to_equations. lia.
Qed.

Lemma le32_value (v : Z) :
  0 <= v < 4294967296 ->
  let b := fun k => b2z (nth k (le32 v) x00) in
  Z.lor (Z.lor (Z.lor (b 0%nat) (Z.shiftl (b 1%nat) 8)) (Z.shiftl (b 2%nat) 16))
    (Z.shiftl (b 3%nat) 24) = v.
Proof.
  intros H. cbn zeta. unfold le32. cbn [nth]. rewrite !b2z_z2b.
  rewrite !Z.shiftr_div_pow2 by lia.
  change (2 ^ 8) with 256. change (2 ^ 16) with 65536.
  change (2 ^ 24) with 16777216.
  assert (B0 : 0 <= v mod 256 < 256) by (apply Z.mod_pos_bound; lia).
  assert (B1 : 0 <= (v / 256) mod 256 < 256) by (apply Z.mod_pos_bound; lia).
  assert (B2 : 0 <= (v / 65536) mod 256 < 256) by (apply Z.mod_pos_bound; lia).
  assert (B3 : 0 <= (v / 16777216) mod 256 < 256) by (apply Z.mod_pos_bound; lia).
  rewrite (lor_shiftl_add 8) by (change (2 ^ 8) with 256; lia).
  rewrite (lor_shiftl_add 16) by (change (2 ^ 8) with 256;
                                  change (2 ^ 16) with 65536; lia).
  rewrite (lor_shiftl_add 24) by (change (2 ^ 8) with 256;
                                  change (2 ^ 16) with 65536;
                                  change (2 ^ 24) with 16777216; lia).
  change (2 ^ 8) with 256. change (2 ^ 16) with 65536.
  change (2 ^ 24) with 16777216.
  Z.div_mod_to_equations. lia.
Qed.

(** *** The decoder on a sequence *)

Lemma length_length_field (v : Z) :
  0 <= v ->
  0 <= Z.of_nat (length (Format.length_field v)) <= v / 255 + 1.
Proof.
  intros H. unfold Format.length_field.
  pose proof (Z.div_pos v 255 H ltac:(lia)).
  destruct (Z.ltb_spec v 15).
  - cbn [length]. lia.
  - rewrite length_overflow by lia.
    assert ((v - 15) / 255 <= v / 255) by (apply Z.div_le_mono; lia).
    pose proof (Z.div_pos (v - 15) 255 ltac:(lia) ltac:(lia)). lia.
Qed.

(** a length of a token with what extends it: [base] is 0 for the
    literals and 4 for a match *)
Lemma read_field (mem : list byte) (base v bo : Z) (s : Unlz4.state) :
  0 <= v ->
  holds mem (Unlz4.it s) (Format.length_field v) ->
  0 <= base -> base + v < 4294967296 ->
  0 <= bo -> bo + v / 255 + 1 < 4294967296 ->
  exists s',
    (if base + Z.min v 15 =? base + 15
     then Unlz4.read_length mem (S (length mem)) (base + Z.min v 15) bo s
     else Ok (base + Z.min v 15, bo, s))
    = Ok (base + v, bo + Z.of_nat (length (Format.length_field v)), s')
    /\ Unlz4.it s' = (Unlz4.it s + length (Format.length_field v))%nat
    /\ Unlz4.history s' = Unlz4.history s
    /\ Unlz4.pos s' = Unlz4.pos s
    /\ Unlz4.out s' = Unlz4.out s.
Proof.
  intros Hv Hh Hb Hb2 Ho Ho2. unfold Format.length_field in *.
  destruct (Z.ltb_spec v 15) as [Hlt | Hge].
  - destruct (Z.eqb_spec (base + Z.min v 15) (base + 15)); [lia|].
    exists s. cbn [length]. rewrite Z.min_l by lia.
    rewrite Z.add_0_r, Nat.add_0_r. auto.
  - destruct (Z.eqb_spec (base + Z.min v 15) (base + 15)); [|lia].
    rewrite Z.min_r by lia.
    assert (Hq : (v - 15) / 255 <= v / 255) by (apply Z.div_le_mono; lia).
    rewrite (read_overflow mem (v - 15) (base + 15) bo s) by (assumption || lia).
    eexists. split; [f_equal; f_equal; f_equal; lia|].
    cbn. auto.
Qed.

Lemma literal_run_ok (mem : list byte) (lits : list byte) (m bo : Z)
    (s : Unlz4.state) :
  let n := Z.of_nat (length lits) in
  let field := Format.length_field n in
  holds mem (Unlz4.it s) ([Format.token n m] ++ field ++ lits) ->
  dwf s ->
  0 <= m ->
  0 <= bo -> bo + 1 + Z.of_nat (length field) + n < 2147483648 ->
  exists s',
    Unlz4.literal_run mem bo s
    = Ok (b2z (Format.token n m), bo + 1 + Z.of_nat (length field) + n, s')
    /\ Unlz4.it s' = (Unlz4.it s + 1 + length field + length lits)%nat
    /\ dwf s'.
Proof.
  cbn zeta. intros Hh (Hl & Hp & Hw) Hm Hb Hb2.
  set (n := Z.of_nat (length lits)) in *.
  assert (Hn : 0 <= n) by (subst n; lia).
  pose proof (length_length_field n Hn) as Hf.
  cbn [app] in Hh.
  destruct (next_holds mem s _ _ Hh) as [En Hh1].
  apply holds_app in Hh1. destruct Hh1 as [Hh1 Hh2].
  unfold Unlz4.literal_run. rewrite En. cbn [bind].
  destruct (token_fields n m Hn Hm) as [T1 _]. rewrite T1.
  assert (Hu : u32 (bo + 1) = bo + 1) by (unfold u32; apply Z.mod_small; lia).
  rewrite Hu.
  destruct (read_field mem 0 n (bo + 1) (Unlz4.with_it s (S (Unlz4.it s))))
    as (s1 & E1 & I1 & H1 & P1 & O1); try lia.
  { exact Hh1. }
  { pose proof (Z.div_le_upper_bound n 255 n ltac:(lia) ltac:(lia)). lia. }
  cbn [Z.add] in E1. rewrite E1. cbn [bind].
  cbn [Unlz4.with_it Unlz4.it Unlz4.history Unlz4.pos Unlz4.out] in *.
  assert (Hu2 : u32 (bo + 1 + Z.of_nat (length (Format.length_field n)) + n)
                = bo + 1 + Z.of_nat (length (Format.length_field n)) + n).
  { unfold u32. apply Z.mod_small. lia. }
  rewrite Hu2.
  assert (Hu3 : u32 (Unlz4.pos s1 + n) = Unlz4.pos s1 + n).
  { unfold u32, Unlz4.HISTORY_SIZE in *. apply Z.mod_small. lia. }
  rewrite Hu3. subst n. rewrite Nat2Z.id.
  destruct (Z.ltb_spec (Unlz4.pos s1 + Z.of_nat (length lits)) Unlz4.HISTORY_SIZE).
  - destruct (copy_literals_fast_ok mem lits s1)
      as (s2 & E2 & I2 & L2 & P2 & O2); try lia.
    { rewrite I1. rewrite (Nat.add_comm _ (length _)) in Hh2.
      replace (Unlz4.it s + 1 + length (Format.length_field (Z.of_nat (length lits))))%nat
        with (S (Unlz4.it s) + length (Format.length_field (Z.of_nat (length lits))))%nat
        by lia.
      rewrite (Nat.add_comm (S _)) in *. exact Hh2. }
    rewrite E2. cbn [bind]. exists s2. split; [reflexivity|].
    split; [lia|]. unfold dwf. rewrite L2, H1, P2, O2, O1. repeat split; try lia.
    exact Hw.
  - destruct (copy_literals_slow_ok mem lits s1) as (s2 & E2 & I2 & D2).
    { rewrite I1.
      replace (Unlz4.it s + 1 + length (Format.length_field (Z.of_nat (length lits))))%nat
        with (S (Unlz4.it s) + length (Format.length_field (Z.of_nat (length lits))))%nat
        by lia.
      exact Hh2. }
    { unfold dwf. rewrite H1, P1, O1. auto. }
    rewrite E2. cbn [bind]. exists s2. split; [reflexivity|].
    split; [lia | exact D2].
Qed.

Lemma match_run_ok (mem : list byte) (q : Format.sequence) (token bo : Z)
    (s : Unlz4.state) :
  let field := Format.length_field (Format.matchLength q - 4) in
  holds mem (Unlz4.it s)
    ([z2b (Format.offset q); z2b (Z.shiftr (Format.offset q) 8)] ++ field) ->
  dwf s ->
  Format.sequence_shape q ->
  Z.land token 15 = Z.min (Format.matchLength q - 4) 15 ->
  0 <= bo -> bo + 2 + Z.of_nat (length field) < 2147483648 ->
  if Format.offset q =? 0 then
    Unlz4.match_run mem token bo s = Fatal InvalidOffset
  else
    exists s',
      Unlz4.match_run mem token bo s
      = Ok (bo + 2 + Z.of_nat (length field), s')
      /\ Unlz4.it s' = (Unlz4.it s + 2 + length field)%nat
      /\ dwf s'.
Proof.
  cbn zeta. intros Hh (Hl & Hp & Hw) (Ho & Hm) Ht Hb Hb2.
  cbn [app] in Hh.
  destruct (next_holds mem s _ _ Hh) as [E0 Hh1].
  destruct (next_holds mem (Unlz4.with_it s (S (Unlz4.it s))) _ _ Hh1)
    as [E1 Hh2].
  unfold Unlz4.match_run. rewrite E0. cbn [bind]. rewrite E1. cbn [bind].
  rewrite offset_bytes by exact Ho.
  destruct (Z.eqb_spec (Format.offset q) 0) as [Hz | Hz]; [reflexivity|].
  rewrite Ht.
  assert (Hu : u32 (bo + 2) = bo + 2) by (unfold u32; apply Z.mod_small; lia).
  rewrite Hu.
  set (s0 := Unlz4.with_it (Unlz4.with_it s (S (Unlz4.it s)))
               (S (Unlz4.it (Unlz4.with_it s (S (Unlz4.it s)))))) in *.
  pose proof (length_length_field (Format.matchLength q - 4) ltac:(lia)) as Hf.
  assert (Hq : (Format.matchLength q - 4) / 255 <= Format.matchLength q - 4).
  { apply Z.div_le_upper_bound; lia. }
  destruct (read_field mem 4 (Format.matchLength q - 4) (bo + 2) s0)
    as (s1 & R1 & I1 & H1 & P1 & O1); try lia.
  { exact Hh2. }
  rewrite R1. cbn [bind].
  replace (4 + (Format.matchLength q - 4)) with (Format.matchLength q) by lia.
  assert (D1 : dwf s1).
  { unfold dwf. rewrite H1, P1, O1. subst s0. cbn. auto. }
  destruct D1 as (Hl1 & Hp1 & Hw1).
  assert (I1' : Unlz4.it s1
                = (Unlz4.it s + 2
                   + length (Format.length_field (Format.matchLength q - 4)))%nat).
  { rewrite I1. subst s0. cbn. lia. }
  set (ml := Format.matchLength q) in *.
  set (delta := Format.offset q) in *.
  set (ref := if delta <=? Unlz4.pos s1 then Unlz4.pos s1 - delta
              else u32 (Unlz4.HISTORY_SIZE + Unlz4.pos s1 - delta)).
  assert (Hr : 0 <= ref < Unlz4.HISTORY_SIZE).
  { subst ref. unfold u32, Unlz4.HISTORY_SIZE in *.
    destruct (Z.leb_spec delta (Unlz4.pos s1)); [lia|].
    rewrite Z.mod_small; lia. }
  assert (U1 : u32 (Unlz4.pos s1 + ml) = Unlz4.pos s1 + ml).
  { unfold u32, Unlz4.HISTORY_SIZE in *. apply Z.mod_small. lia. }
  assert (U2 : u32 (ref + ml) = ref + ml).
  { unfold u32, Unlz4.HISTORY_SIZE in *. apply Z.mod_small. lia. }
  rewrite U1, U2.
  destruct (Z.ltb_spec (Unlz4.pos s1 + ml) Unlz4.HISTORY_SIZE) as [C1 | C1];
    destruct (Z.ltb_spec (ref + ml) Unlz4.HISTORY_SIZE) as [C2 | C2];
    cbn [andb].
  - destruct ((ref + ml <=? Unlz4.pos s1) || (Unlz4.pos s1 + ml <=? ref)).
    + destruct (memcpy_match_ok ref ml s1) as (s2 & E2 & I2 & L2 & P2 & O2);
        try lia.
      rewrite E2. cbn [bind]. exists s2. split; [reflexivity|].
      split; [congruence|]. unfold dwf. rewrite L2, P2, O2. repeat split; try lia.
      exact Hw1.
    + destruct (copy_match_overlap_ok (Z.to_nat ml) ref s1)
        as (s2 & E2 & I2 & L2 & P2 & O2); try lia.
      rewrite E2. cbn [bind]. exists s2. split; [reflexivity|].
      split; [congruence|]. unfold dwf. rewrite L2, P2, O2. repeat split; try lia.
      exact Hw1.
  - destruct (copy_match_wrap_ok (Z.to_nat ml) ref s1) as (s2 & E2 & I2 & D2);
      [unfold dwf; auto | exact Hr |].
    rewrite E2. cbn [bind]. exists s2. split; [reflexivity|].
    split; [congruence | exact D2].
  - destruct (copy_match_wrap_ok (Z.to_nat ml) ref s1) as (s2 & E2 & I2 & D2);
      [unfold dwf; auto | exact Hr |].
    rewrite E2. cbn [bind]. exists s2. split; [reflexivity|].
    split; [congruence | exact D2].
  - destruct (copy_match_wrap_ok (Z.to_nat ml) ref s1) as (s2 & E2 & I2 & D2);
      [unfold dwf; auto | exact Hr |].
    rewrite E2. cbn [bind]. exists s2. split; [reflexivity|].
    split; [congruence | exact D2].
Qed.

Lemma length_sequence_bytes (q : Format.sequence) :
  length (Format.sequence_bytes q)
  = (1 + length (Format.length_field (Z.of_nat (length (Format.literals q))))
     + length (Format.literals q) + 2
     + length (Format.length_field (Format.matchLength q - 4)))%nat.
Proof.
  unfold Format.sequence_bytes. cbn zeta.
  rewrite !length_app. cbn [length]. lia.
Qed.

Lemma sequence_ok (mem : list byte) (q : Format.sequence) (bs bo : Z)
    (s : Unlz4.state) :
  holds mem (Unlz4.it s) (Format.sequence_bytes q) ->
  dwf s ->
  Format.sequence_shape q ->
  0 <= bo -> bo + Z.of_nat (length (Format.sequence_bytes q)) <= bs ->
  bs < 2147483648 ->
  if Format.offset q =? 0 then
    Unlz4.sequence mem bs bo s = Fatal InvalidOffset
  else
    exists s',
      Unlz4.sequence mem bs bo s
      = Ok (inr (bo + Z.of_nat (length (Format.sequence_bytes q)), s'))
      /\ Unlz4.it s' = (Unlz4.it s + length (Format.sequence_bytes q))%nat
      /\ dwf s'.
Proof.
  intros Hh D Hq Hb Hb2 Hbs.
  pose proof (length_sequence_bytes q) as HL.
  unfold Format.sequence_bytes in Hh. cbn zeta in Hh.
  set (F1 := Format.length_field (Z.of_nat (length (Format.literals q)))) in *.
  set (F2 := Format.length_field (Format.matchLength q - 4)) in *.
  set (tok := Format.token (Z.of_nat (length (Format.literals q)))
                (Format.matchLength q - 4)) in *.
  apply holds_app in Hh. destruct Hh as [HA Hh].
  apply holds_app in Hh. destruct Hh as [HB Hh].
  apply holds_app in Hh. destruct Hh as [HC HD].
  cbn [length] in HB, HC, HD.
  assert (Hh12 : holds mem (Unlz4.it s) ([tok] ++ F1 ++ Format.literals q)).
  { apply holds_app. split; [exact HA|].
    apply holds_app. split; [exact HB | exact HC]. }
  destruct Hq as (Ho & Hm).
  destruct (literal_run_ok mem (Format.literals q) (Format.matchLength q - 4)
              bo s Hh12 D ltac:(lia) Hb ltac:(fold F1; lia))
    as (s1 & E1 & I1 & D1).
  fold F1 in E1, I1. fold tok in E1.
  unfold Unlz4.sequence. rewrite E1. cbn [bind].
  match goal with
  | |- context [?a =? bs] => destruct (Z.eqb_spec a bs); [lia|]
  end.
  destruct (token_fields (Z.of_nat (length (Format.literals q)))
              (Format.matchLength q - 4) ltac:(lia) ltac:(lia)) as [_ T2].
  fold tok in T2.
  pose proof (match_run_ok mem q (b2z tok)
                (bo + 1 + Z.of_nat (length F1)
                 + Z.of_nat (length (Format.literals q))) s1) as M.
  cbn zeta in M. fold F2 in M.
  assert (Hh4 : holds mem (Unlz4.it s1)
                  ([z2b (Format.offset q); z2b (Z.shiftr (Format.offset q) 8)]
                   ++ F2)).
  { rewrite I1. exact HD. }
  specialize (M Hh4 D1 (conj Ho Hm) T2 ltac:(lia) ltac:(lia)).
  destruct (Z.eqb_spec (Format.offset q) 0).
  - rewrite M. reflexivity.
  - destruct M as (s2 & E2 & I2 & D2). rewrite E2. cbn [bind].
    exists s2. split; [|split; [|exact D2]].
    + do 3 f_equal. lia.
    + lia.
Qed.

Lemma last_ok (mem : list byte) (l : list byte) (bs bo : Z) (s : Unlz4.state) :
  holds mem (Unlz4.it s) (Format.last_bytes l) ->
  dwf s ->
  0 <= bo -> bo + Z.of_nat (length (Format.last_bytes l)) = bs ->
  bs < 2147483648 ->
  exists s',
    Unlz4.sequence mem bs bo s = Ok (inl s')
    /\ Unlz4.it s' = (Unlz4.it s + length (Format.last_bytes l))%nat
    /\ dwf s'.
Proof.
  intros Hh D Hb Hb2 Hbs.
  unfold Format.last_bytes in *. cbn zeta in *.
  rewrite !length_app in *. cbn [length] in Hb2 |- *.
  destruct (literal_run_ok mem l 0 bo s Hh D ltac:(lia) Hb ltac:(lia))
    as (s1 & E1 & I1 & D1).
  unfold Unlz4.sequence. rewrite E1. cbn [bind].
  match goal with
  | |- context [?a =? bs] => destruct (Z.eqb_spec a bs); [|lia]
  end.
  exists s1. split; [reflexivity|]. split; [lia | exact D1].
Qed.

Lemma length_last_bytes (l : list byte) : (1 <= length (Format.last_bytes l))%nat.
Proof.
  unfold Format.last_bytes. cbn zeta. rewrite !length_app. cbn [length]. lia.
Qed.

Lemma length_sequences (ss : list Format.sequence) :
  (length ss <= length (concat (map Format.sequence_bytes ss)))%nat.
Proof.
  induction ss as [|q ss IH]; cbn [map concat length]; [lia|].
  rewrite length_app, length_sequence_bytes. lia.
Qed.

(** the decoder on the payload of a compressed block: it stops with
    "invalid offset" when a sequence has the offset 0, and takes the whole
    payload otherwise *)
Lemma compressed_block_ok (mem : list byte) (ss : list Format.sequence)
    (l : list byte) (bs : Z) :
  Forall Format.sequence_shape ss ->
  bs < 2147483648 ->
  forall (fuel : nat) (bo : Z) (s : Unlz4.state),
    holds mem (Unlz4.it s) (concat (map Format.sequence_bytes ss)
                            ++ Format.last_bytes l) ->
    dwf s ->
    0 <= bo ->
    bo + Z.of_nat (length (concat (map Format.sequence_bytes ss)
                           ++ Format.last_bytes l)) = bs ->
    (length ss < fuel)%nat ->
    (Exists (fun q => Format.offset q = 0) ss ->
     Unlz4.compressed_block mem fuel bs bo s = Fatal InvalidOffset)
    /\ (Forall (fun q => Format.offset q <> 0) ss ->
        exists s',
          Unlz4.compressed_block mem fuel bs bo s = Ok s'
          /\ Unlz4.it s'
             = (Unlz4.it s + length (concat (map Format.sequence_bytes ss)
                                     ++ Format.last_bytes l))%nat
          /\ dwf s').
Proof.
  intros Hss Hbs. induction Hss as [|q ss Hq Hss IH];
    intros fuel bo s Hh D Hb Hb2 Hf;
    (destruct fuel as [|fuel]; [lia|]); cbn [Unlz4.compressed_block].
  - cbn [map concat app] in *.
    pose proof (length_last_bytes l).
    destruct (Z.ltb_spec bo bs); [|lia].
    split; [intros E; inversion E|]. intros _.
    destruct (last_ok mem l bs bo s Hh D Hb Hb2 Hbs) as (s' & E & I & D').
    rewrite E. cbn [bind]. eauto.
  - cbn [map concat] in *. rewrite <- app_assoc in Hh, Hb2 |- *.
    rewrite length_app in Hb2 |- *.
    pose proof (length_last_bytes l).
    assert (HL : (1 <= length (concat (map Format.sequence_bytes ss)
                               ++ Format.last_bytes l))%nat).
    { rewrite length_app. lia. }
    destruct (Z.ltb_spec bo bs); [|lia].
    apply holds_app in Hh. destruct Hh as [Hh1 Hh2].
    pose proof (sequence_ok mem q bs bo s Hh1 D Hq Hb ltac:(lia) Hbs) as S.
    destruct (Z.eqb_spec (Format.offset q) 0) as [Hz | Hz].
    + rewrite S. cbn [bind]. split; [reflexivity|].
      intros F. inversion F. contradiction.
    + destruct S as (s1 & E1 & I1 & D1). rewrite E1. cbn [bind].
      cbn [length] in Hf.
      destruct (IH fuel (bo + Z.of_nat (length (Format.sequence_bytes q))) s1)
        as [IH1 IH2];
        [rewrite I1; exact Hh2 | exact D1 | lia | lia | lia |].
      split.
      * intros E. inversion E; [contradiction|]. apply IH1. assumption.
      * intros F. inversion F. subst.
        destruct (IH2 ltac:(assumption)) as (s' & E' & I' & D').
        exists s'. split; [exact E'|]. split; [lia | exact D'].
Qed.

Lemma raw_block_ok (mem : list byte) (p : list byte) (s : Unlz4.state) :
  holds mem (Unlz4.it s) p ->
  dwf s ->
  exists s',
    Unlz4.raw_block mem (Z.of_nat (length p)) s = Ok s'
    /\ Unlz4.it s' = (Unlz4.it s + length p)%nat
    /\ dwf s'.
Proof.
  intros Hh D. unfold Unlz4.raw_block. rewrite Nat2Z.id.
  apply copy_literals_slow_ok; assumption.
Qed.

Lemma read_u32_ok (mem : list byte) (v : Z) (s : Unlz4.state) :
  0 <= v < 4294967296 ->
  holds mem (Unlz4.it s) (le32 v) ->
  Unlz4.read_u32 mem s = Ok (v, Unlz4.with_it s (Unlz4.it s + 4)).
Proof.
  intros Hv Hh. unfold Unlz4.read_u32.
  pose proof (le32_value v Hv) as V. cbn zeta in V.
  unfold le32 in Hh, V. cbn [nth] in V.
  destruct (next_holds mem s _ _ Hh) as [E0 Hh0]. rewrite E0. cbn [bind].
  set (s1 := Unlz4.with_it s (S (Unlz4.it s))) in *.
  destruct (next_holds mem s1 _ _ Hh0) as [E1 Hh1]. rewrite E1. cbn [bind].
  set (s2 := Unlz4.with_it s1 (S (Unlz4.it s1))) in *.
  destruct (next_holds mem s2 _ _ Hh1) as [E2 Hh2]. rewrite E2. cbn [bind].
  set (s3 := Unlz4.with_it s2 (S (Unlz4.it s2))) in *.
  destruct (next_holds mem s3 _ _ Hh2) as [E3 Hh3]. rewrite E3. cbn [bind].
  rewrite V. subst s3 s2 s1. unfold Unlz4.with_it.
  cbn [Unlz4.it Unlz4.history Unlz4.pos Unlz4.out].
  replace (Unlz4.it s + 4)%nat with (S (S (S (S (Unlz4.it s))))) by lia.
  reflexivity.
Qed.

Lemma land_bit31_small (n : Z) :
  0 <= n < 2147483648 -> Z.land n 2147483648 = 0.
Proof.
  intros H. apply Z.bits_inj'. intros k Hk.
  rewrite Z.land_spec, Z.bits_0.
  change 2147483648 with (2 ^ 31). rewrite Z.pow2_bits_eqb by lia.
  destruct (Z.eqb_spec 31 k) as [<- | _]; [|apply andb_false_r].
  rewrite small_size_bit31 by exact H. reflexivity.
Qed.

Lemma land_low31_small (n : Z) :
  0 <= n < 2147483648 -> Z.land n 2147483647 = n.
Proof.
  intros H. change 2147483647 with (Z.ones 31).
  rewrite Z.land_ones by lia. apply Z.mod_small.
  change (2 ^ 31) with 2147483648. lia.
Qed.

Lemma land_bit31_tagged (n : Z) :
  0 <= n < 2147483648 -> Z.land (Z.lor n 2147483648) 2147483648 = 2147483648.
Proof.
  intros H. rewrite Z.land_lor_distr_l, land_bit31_small by exact H.
  reflexivity.
Qed.

Lemma tagged_value (n : Z) :
  0 <= n < 2147483648 -> Z.lor n 2147483648 = n + 2147483648.
Proof.
  intros H. change 2147483648 with (Z.shiftl 1 31) at 1.
  rewrite lor_shiftl_add by (change (2 ^ 31) with 2147483648; lia).
  reflexivity.
Qed.

Lemma dwf_with_it (s : Unlz4.state) (i : nat) : dwf s -> dwf (Unlz4.with_it s i).
Proof. intros H. exact H. Qed.

(** the decoder on the blocks of a frame and the end mark behind them *)
Lemma blocks_ok (mem : list byte) (bl : list Format.block) :
  Forall Format.block_shape bl ->
  forall (fuel : nat) (s : Unlz4.state),
    holds mem (Unlz4.it s) (concat (map Format.block_bytes bl) ++ le32 0) ->
    dwf s ->
    (length bl < fuel)%nat ->
    (Exists Format.has_zero_offset bl ->
     Unlz4.blocks mem fuel false s = Fatal InvalidOffset)
    /\ (Forall (fun b => ~ Format.has_zero_offset b) bl ->
        exists s',
          Unlz4.blocks mem fuel false s = Ok s'
          /\ Unlz4.it s'
             = (Unlz4.it s
                + length (concat (map Format.block_bytes bl) ++ le32 0))%nat
          /\ dwf s').
Proof.
  intros Hbl. induction Hbl as [|b bl Hb Hbl IH]; intros fuel s Hh D Hf;
    (destruct fuel as [|fuel]; [cbn [length] in Hf; lia|]);
    cbn [Unlz4.blocks].
  - cbn [map concat app] in *.
    rewrite (read_u32_ok mem 0 s) by (lia || exact Hh). cbn [bind].
    cbn [Z.land Z.eqb].
    split; [intros E; inversion E|]. intros _.
    eexists. split; [reflexivity|]. split; [reflexivity|].
    apply dwf_with_it. exact D.
  - cbn [map concat length] in *. rewrite <- app_assoc in Hh |- *.
    rewrite length_app.
    apply holds_app in Hh. destruct Hh as [Hh1 Hh2].
    assert (HLb : length (Format.block_bytes b)
                  = (4 + length (Format.payload b))%nat).
    { unfold Format.block_bytes. cbn zeta. rewrite length_app. reflexivity. }
    rewrite HLb in Hh2 |- *.
    unfold Format.block_bytes in Hh1. cbn zeta in Hh1.
    apply holds_app in Hh1. destruct Hh1 as [Hp Hq].
    replace (length (le32 (match b with
                           | Format.Raw _ =>
                               Z.lor (Z.of_nat (length (Format.payload b))) 2147483648
                           | Format.Compressed _ _ =>
                               Z.of_nat (length (Format.payload b))
                           end))) with 4%nat in * by reflexivity.
    destruct Hb as (Hsz & Hsh).
    set (n := Z.of_nat (length (Format.payload b))) in *.
    set (s1 := Unlz4.with_it s (Unlz4.it s + 4)).
    assert (D1 : dwf s1) by (apply dwf_with_it; exact D).
    pose proof (holds_length mem _ _ Hq) as HLm.
    destruct b as [p | ss l]; cbn [Format.payload] in *.
    + (* a raw block *)
      assert (Ht : 0 <= Z.lor n 2147483648 < 4294967296)
        by (rewrite tagged_value by lia; lia).
      rewrite (read_u32_ok mem (Z.lor n 2147483648) s Ht Hp).
      cbn [bind]. fold s1.
      rewrite land_bit31_tagged by lia. cbn [Z.eqb].
      destruct (tagged_size n ltac:(lia)) as [_ T]. rewrite T.
      destruct (Z.eqb_spec n 0); [lia|].
      destruct (raw_block_ok mem p s1 Hq D1) as (s2 & E2 & I2 & D2).
      fold n in E2. rewrite E2. cbn [bind].
      destruct (IH fuel s2) as [IH1 IH2];
        [rewrite I2; subst s1; cbn [Unlz4.with_it Unlz4.it];
         rewrite <- Nat.add_assoc; exact Hh2 | exact D2 | lia |].
      split.
      * intros E. inversion E; [contradiction|]. apply IH1. assumption.
      * intros F. inversion F. subst.
        destruct (IH2 ltac:(assumption)) as (s' & E' & I' & D').
        exists s'. split; [exact E'|]. split; [|exact D'].
        rewrite I', I2. subst s1. cbn [Unlz4.with_it Unlz4.it]. lia.
    + (* a compressed block *)
      rewrite (read_u32_ok mem n s) by (lia || exact Hp).
      cbn [bind]. fold s1.
      rewrite land_bit31_small by lia. cbn [Z.eqb].
      rewrite land_low31_small by lia.
      destruct (Z.eqb_spec n 0); [lia|].
      pose proof (length_sequences ss) as Hls.
      assert (Hne : concat (map Format.sequence_bytes ss) ++ Format.last_bytes l
                    <> []).
      { intros C. apply (f_equal (@length byte)) in C.
        rewrite length_app in C. pose proof (length_last_bytes l).
        cbn [length] in C. lia. }
      specialize (HLm Hne). rewrite length_app in HLm.
      destruct (compressed_block_ok mem ss l n Hsh ltac:(lia)
                  (S (length mem)) 0 s1 Hq D1 ltac:(lia) ltac:(subst n; lia))
        as [C1 C2]; [lia|].
      split.
      * intros E. inversion E as [? ? Hz | ? ? Hz]; subst.
        -- cbn [Format.has_zero_offset] in Hz. rewrite (C1 Hz). reflexivity.
        -- destruct (Forall_Exists_dec (fun q => Format.offset q <> 0)
                       (fun q => match Z.eq_dec (Format.offset q) 0 with
                                 | left e => right (fun h => h e)
                                 | right ne => left ne
                                 end) ss) as [Fa | Ex].
           ++ destruct (C2 Fa) as (s2 & E2 & I2 & D2). rewrite E2. cbn [bind].
              destruct (IH fuel s2) as [IH1 _];
                [rewrite I2; subst s1; cbn [Unlz4.with_it Unlz4.it];
         rewrite <- Nat.add_assoc; exact Hh2 | exact D2 | lia |].
              apply IH1. exact Hz.
           ++ rewrite C1; [reflexivity|].
              apply Exists_exists. apply Exists_exists in Ex.
              destruct Ex as (q & Hin & Hq0). exists q. split; [exact Hin|].
              destruct (Z.eq_dec (Format.offset q) 0); [assumption|contradiction].
      * intros F. inversion F as [|? ? Hnz Frest]; subst.
        cbn [Format.has_zero_offset] in Hnz.
        assert (Fa : Forall (fun q => Format.offset q <> 0) ss).
        { apply Forall_forall. intros q Hin Hq0. apply Hnz.
          apply Exists_exists. eauto. }
        destruct (C2 Fa) as (s2 & E2 & I2 & D2). rewrite E2. cbn [bind].
        destruct (IH fuel s2) as [_ IH2];
          [rewrite I2; subst s1; cbn [Unlz4.with_it Unlz4.it];
         rewrite <- Nat.add_assoc; exact Hh2 | exact D2 | lia |].
        destruct (IH2 Frest) as (s' & E' & I' & D').
        exists s'. split; [exact E'|]. split; [|exact D'].
        rewrite I', I2. subst s1. cbn [Unlz4.with_it Unlz4.it]. lia.
Qed.

(** *** The errors of the loop over the blocks *)

Lemma only_offset_bind {A B : Type} (r : result A) (k : A -> result B) :
  only_offset r -> (forall a, only_offset (k a)) -> only_offset (bind r k).
Proof.
  intros Hr Hk e. destruct r as [a | e0 | |]; cbn [bind]; intros E;
    [apply (Hk a e E) | | discriminate | discriminate].
  inversion E. subst. apply Hr. reflexivity.
Qed.

Lemma only_offset_ok {A : Type} (a : A) : only_offset (Ok a).
Proof. intros e E. discriminate. Qed.

Lemma only_offset_next (mem : list byte) (s : Unlz4.state) :
  only_offset (Unlz4.next mem s).
Proof.
  unfold Unlz4.next. destruct (nth_error mem (Unlz4.it s));
    intros e E; discriminate.
Qed.

Lemma only_offset_push (c : Z) (s : Unlz4.state) : only_offset (Unlz4.push c s).
Proof.
  unfold Unlz4.push. destruct (_ && _); intros e E; discriminate.
Qed.

Lemma only_offset_hist (s : Unlz4.state) (i : Z) : only_offset (Unlz4.hist s i).
Proof.
  unfold Unlz4.hist. destruct (0 <=? i); [|intros e E; discriminate].
  destruct (nth_error _ _); intros e E; discriminate.
Qed.

Ltac only_offset_step :=
  repeat first
    [ apply only_offset_ok
    | apply only_offset_next
    | apply only_offset_push
    | apply only_offset_hist
    | apply only_offset_bind; [|intros]
    | match goal with
      | |- only_offset (match ?x with (_, _) => _ end) => destruct x
      | |- only_offset (if ?c then _ else _) => destruct c
      end ].

Lemma only_offset_read_length (mem : list byte) (fuel : nat) (n bo : Z)
    (s : Unlz4.state) :
  only_offset (Unlz4.read_length mem fuel n bo s).
Proof.
  revert n bo s. induction fuel as [|fuel IH]; intros n bo s;
    cbn [Unlz4.read_length].
  - intros e E. discriminate.
  - only_offset_step. apply IH.
Qed.

Lemma only_offset_literals_fast (mem : list byte) (n : nat) (s : Unlz4.state) :
  only_offset (Unlz4.copy_literals_fast mem n s).
Proof.
  revert s. induction n as [|n IH]; intros s; cbn [Unlz4.copy_literals_fast];
    only_offset_step. apply IH.
Qed.

Lemma only_offset_literals_slow (mem : list byte) (n : nat) (s : Unlz4.state) :
  only_offset (Unlz4.copy_literals_slow mem n s).
Proof.
  revert s. induction n as [|n IH]; intros s; cbn [Unlz4.copy_literals_slow];
    only_offset_step. apply IH.
Qed.

Lemma only_offset_overlap (n : nat) (ref : Z) (s : Unlz4.state) :
  only_offset (Unlz4.copy_match_overlap n ref s).
Proof.
  revert ref s. induction n as [|n IH]; intros ref s;
    cbn [Unlz4.copy_match_overlap]; only_offset_step. apply IH.
Qed.

Lemma only_offset_wrap (n : nat) (ref : Z) (s : Unlz4.state) :
  only_offset (Unlz4.copy_match_wrap n ref s).
Proof.
  revert ref s. induction n as [|n IH]; intros ref s;
    cbn [Unlz4.copy_match_wrap]; only_offset_step. apply IH.
Qed.

Lemma only_offset_memcpy (ref ml : Z) (s : Unlz4.state) :
  only_offset (Unlz4.memcpy_match ref ml s).
Proof.
  unfold Unlz4.memcpy_match. destruct (_ && _); intros e E; discriminate.
Qed.

Lemma only_offset_sequence (mem : list byte) (bs bo : Z) (s : Unlz4.state) :
  only_offset (Unlz4.sequence mem bs bo s).
Proof.
  unfold Unlz4.sequence, Unlz4.literal_run, Unlz4.match_run.
  repeat first
    [ apply only_offset_read_length
    | apply only_offset_literals_fast
    | apply only_offset_literals_slow
    | apply only_offset_memcpy
    | apply only_offset_overlap
    | apply only_offset_wrap
    | apply only_offset_ok
    | apply only_offset_next
    | apply only_offset_bind; [|intros]
    | match goal with
      | |- only_offset (match ?x with (_, _) => _ end) => destruct x
      | |- only_offset (if ?c then _ else _) => destruct c
      | |- only_offset (Fatal InvalidOffset) =>
          intros e E; inversion E; reflexivity
      end ].
Qed.

Lemma only_offset_compressed_block (mem : list byte) (fuel : nat) (bs bo : Z)
    (s : Unlz4.state) :
  only_offset (Unlz4.compressed_block mem fuel bs bo s).
Proof.
  revert bo s. induction fuel as [|fuel IH]; intros bo s;
    cbn [Unlz4.compressed_block].
  - intros e E. discriminate.
  - destruct (bo <? bs); [|apply only_offset_ok].
    apply only_offset_bind; [apply only_offset_sequence|].
    intros [s' | [bo' s']]; [apply only_offset_ok | apply IH].
Qed.

Lemma only_offset_blocks (mem : list byte) (fuel : nat) (cs : bool)
    (s : Unlz4.state) :
  only_offset (Unlz4.blocks mem fuel cs s).
Proof.
  revert s. induction fuel as [|fuel IH]; intros s; cbn [Unlz4.blocks].
  - intros e E. discriminate.
  - unfold Unlz4.read_u32, Unlz4.raw_block.
    repeat first
      [ apply only_offset_compressed_block
      | apply only_offset_literals_slow
      | apply IH
      | apply only_offset_ok
      | apply only_offset_next
      | apply only_offset_bind; [|intros]
      | match goal with
        | |- only_offset (match ?x with (_, _) => _ end) => destruct x
        | |- only_offset (if ?c then _ else _) => destruct c
        end ].
Qed.

(** *** The frame header *)

Lemma lor_add (k a b : Z) :
  0 <= k -> 0 <= b < 2 ^ k -> a mod 2 ^ k = 0 -> Z.lor a b = a + b.
Proof.
  intros Hk Hb Ha.
  assert (E : a = Z.shiftl (a / 2 ^ k) k).
  { rewrite Z.shiftl_mul_pow2 by lia.
    pose proof (Z.div_mod a (2 ^ k) ltac:(lia)). lia. }
  rewrite Z.lor_comm, E, lor_shiftl_add by assumption.
  rewrite <- Z.shiftl_mul_pow2, <- E by lia. lia.
Qed.

Lemma signature_value (b0 b1 b2 b3 : byte) :
  u32 (Z.lor (Z.lor (Z.lor (Z.shiftl (b2z b3) 24) (Z.shiftl (b2z b2) 16))
                (Z.shiftl (b2z b1) 8)) (b2z b0))
  = b2z b0 + 256 * b2z b1 + 65536 * b2z b2 + 16777216 * b2z b3.
Proof.
  pose proof (b2z_range b0). pose proof (b2z_range b1).
  pose proof (b2z_range b2). pose proof (b2z_range b3).
  rewrite !Z.shiftl_mul_pow2 by lia.
  change (2 ^ 24) with 16777216. change (2 ^ 16) with 65536.
  change (2 ^ 8) with 256.
  rewrite (lor_add 24 (b2z b3 * 16777216) (b2z b2 * 65536));
    [| lia | change (2 ^ 24) with 16777216; lia
     | change (2 ^ 24) with 16777216; apply Z.mod_mul; lia].
  rewrite (lor_add 16 _ (b2z b1 * 256));
    [| lia | change (2 ^ 16) with 65536; lia |].
  2:{ change (2 ^ 16) with 65536.
      replace (b2z b3 * 16777216 + b2z b2 * 65536)
        with ((b2z b3 * 256 + b2z b2) * 65536) by lia.
      apply Z.mod_mul. lia. }
  rewrite (lor_add 8 _ (b2z b0));
    [| lia | change (2 ^ 8) with 256; lia |].
  2:{ change (2 ^ 8) with 256.
      replace (b2z b3 * 16777216 + b2z b2 * 65536 + b2z b1 * 256)
        with ((b2z b3 * 65536 + b2z b2 * 256 + b2z b1) * 256) by lia.
      apply Z.mod_mul. lia. }
  unfold u32. rewrite Z.mod_small by lia. lia.
Qed.

Lemma magic_bytes (b0 b1 b2 b3 : byte) :
  b2z b0 + 256 * b2z b1 + 65536 * b2z b2 + 16777216 * b2z b3 = 407708164
  <-> [b0; b1; b2; b3] = [x04; x22; x4d; x18].
Proof.
  split.
  - intros E.
    pose proof (b2z_range b0). pose proof (b2z_range b1).
    pose proof (b2z_range b2). pose proof (b2z_range b3).
    assert (b2z b0 = b2z x04) by (change (b2z x04) with 4; lia).
    assert (b2z b1 = b2z x22) by (change (b2z x22) with 34; lia).
    assert (b2z b2 = b2z x4d) by (change (b2z x4d) with 77; lia).
    assert (b2z b3 = b2z x18) by (change (b2z x18) with 24; lia).
    repeat f_equal; apply b2z_inj; assumption.
  - intros E. inversion E. reflexivity.
Qed.

Lemma unlz4_signature (history0 mem : list byte) (it0 end_ : nat) (o : sink)
    (d : Unlz4.dictionary_arg) (b0 b1 b2 b3 : byte) :
  holds mem it0 [b0; b1; b2; b3] ->
  Unlz4.unlz4 history0 mem it0 end_ o d
  = if (b2z b0 + 256 * b2z b1 + 65536 * b2z b2 + 16777216 * b2z b3 =? 407708164)
    then
      '(flags, _) <- Unlz4.next mem
                       {| Unlz4.it := S (S (S (S it0))); Unlz4.history := history0;
                          Unlz4.pos := 0; Unlz4.out := o |} ;;
      after_flags history0 mem it0 o d flags
    else Fatal InvalidSignature.
Proof.
  intros Hh. unfold Unlz4.unlz4.
  set (s0 := {| Unlz4.it := it0; Unlz4.history := history0; Unlz4.pos := 0;
                Unlz4.out := o |}).
  change it0 with (Unlz4.it s0) in Hh.
  destruct (next_holds mem s0 _ _ Hh) as [E0 Hh0]. rewrite E0. cbn [bind].
  set (s1 := Unlz4.with_it s0 (S (Unlz4.it s0))) in *.
  destruct (next_holds mem s1 _ _ Hh0) as [E1 Hh1]. rewrite E1. cbn [bind].
  set (s2 := Unlz4.with_it s1 (S (Unlz4.it s1))) in *.
  destruct (next_holds mem s2 _ _ Hh1) as [E2 Hh2]. rewrite E2. cbn [bind].
  set (s3 := Unlz4.with_it s2 (S (Unlz4.it s2))) in *.
  destruct (next_holds mem s3 _ _ Hh2) as [E3 Hh3]. rewrite E3. cbn [bind].
  rewrite signature_value.
  destruct (_ =? 407708164); cbn [negb]; [|reflexivity].
  subst s3 s2 s1 s0.
  unfold Unlz4.next, Unlz4.with_it.
  cbn [Unlz4.it Unlz4.history Unlz4.pos Unlz4.out].
  destruct (nth_error mem (S (S (S (S it0))))); [|reflexivity].
  cbn [bind]. reflexivity.
Qed.

Lemma holds_self (l : list byte) : holds l 0 l.
Proof. unfold holds. cbn [skipn]. apply firstn_all. Qed.

Lemma length_blocks (bl : list Format.block) :
  (length bl <= length (concat (map Format.block_bytes bl)))%nat.
Proof.
  induction bl as [|b bl IH]; cbn [map concat length]; [lia|].
  rewrite length_app. unfold Format.block_bytes at 1. cbn zeta.
  rewrite length_app.
  replace (length (le32 _)) with 4%nat by reflexivity. lia.
Qed.

Lemma length_load_dictionary (h d : list byte) :
  length h = Z.to_nat Unlz4.HISTORY_SIZE ->
  length (Unlz4.load_dictionary h d) = length h.
Proof.
  intros Hl. unfold Unlz4.load_dictionary. cbn zeta.
  apply length_overwrite. rewrite length_skipn. lia.
Qed.

(** the decoder on a frame of the format: it reports "invalid offset" when
    a sequence of a compressed block has the offset 0, and returns
    otherwise *)
Lemma frame_ok (history0 : list byte) (flags bd : byte)
    (contentSize dictID : list byte) (hc : byte) (bl : list Format.block)
    (end_ : nat) (o : sink) (d : Unlz4.dictionary_arg) :
  length history0 = Z.to_nat Unlz4.HISTORY_SIZE ->
  Format.descriptor_shape flags contentSize dictID ->
  Forall Format.block_shape bl ->
  wf_sink o ->
  d <> Unlz4.DictionaryFile None ->
  let mem := Format.frame flags bd contentSize dictID hc bl in
  (Exists Format.has_zero_offset bl ->
   Unlz4.unlz4 history0 mem 0 end_ o d = Fatal InvalidOffset)
  /\ (Forall (fun b => ~ Format.has_zero_offset b) bl ->
      exists r, Unlz4.unlz4 history0 mem 0 end_ o d = Ok r).
Proof.
  intros Hl (Hv & Hbc & Hcc & Hcs & Hdi) Hbl Ho Hd. cbn zeta.
  set (mem := Format.frame flags bd contentSize dictID hc bl).
  pose proof (holds_self mem) as Hh. unfold mem at 2 in Hh.
  unfold Format.frame in Hh.
  apply holds_app in Hh. destruct Hh as [Hmagic Hh].
  cbn [length Nat.add] in Hh.
  apply holds_app in Hh. destruct Hh as [Hdesc Hblocks].
  rewrite (unlz4_signature history0 mem 0 end_ o d _ _ _ _ Hmagic).
  change (b2z x04 + 256 * b2z x22 + 65536 * b2z x4d + 16777216 * b2z x18
          =? 407708164) with true. cbn match.
  unfold Format.descriptor in Hdesc, Hblocks.
  pose proof Hdesc as Hflags. cbn [app] in Hflags.
  apply holds_cons in Hflags. destruct Hflags as [Hflags _].
  rewrite (next_at mem _ flags) by exact Hflags. cbn [bind].
  unfold after_flags. rewrite Hv, Hbc, Hcc. cbn [Z.eqb Pos.eqb negb].
  set (s := {| Unlz4.it := _; Unlz4.history := _; Unlz4.pos := _;
               Unlz4.out := _ |}).
  set (h := match d with
            | Unlz4.NoDictionary => _
            | Unlz4.DictionaryFile _ => _
            end).
  assert (Eh : exists h', h = Ok h' /\ length h' = Z.to_nat Unlz4.HISTORY_SIZE).
  { subst h. destruct d as [|[dd|]].
    - exists history0. auto.
    - eexists. split; [reflexivity|].
      cbn [Unlz4.with_it Unlz4.history s].
      rewrite length_load_dictionary; assumption.
    - contradiction. }
  destruct Eh as (h' & Eh & Hl'). rewrite Eh. cbn [bind].
  set (s' := {| Unlz4.it := _; Unlz4.history := h'; Unlz4.pos := 0;
                Unlz4.out := _ |}).
  assert (D : dwf s').
  { unfold dwf. subst s' s. cbn. unfold Unlz4.HISTORY_SIZE.
    repeat split; try lia; assumption. }
  assert (Hh' : holds mem (Unlz4.it s')
                  (concat (map Format.block_bytes bl) ++ le32 0)).
  { subst s' s. cbn [Unlz4.it Unlz4.with_it].
    match goal with
    | H : holds mem ?i ?x |- holds mem ?j ?x =>
        replace j with i; [exact H|]
    end.
    rewrite !length_app. cbn [length].
    destruct (Z.eqb_spec (Z.land (b2z flags) 8) 0),
      (Z.eqb_spec (Z.land (b2z flags) 1) 0);
      cbn [negb length]; rewrite ?Hcs, ?Hdi by assumption; lia. }
  assert (Hf : (length bl < S (length mem))%nat).
  { pose proof (length_blocks bl).
    pose proof (holds_length mem _ _ Hh') as HL.
    rewrite length_app in HL.
    specialize (HL ltac:(destruct (concat _); discriminate)). lia. }
  destruct (blocks_ok mem bl Hbl (S (length mem)) s' Hh' D Hf) as [B1 B2].
  split.
  - intros E. rewrite (B1 E). reflexivity.
  - intros F. destruct (B2 F) as (s2 & E2 & _). rewrite E2. cbn [bind]. eauto.
Qed.

Lemma unlz4_fatal (history0 mem : list byte) (it0 end_ : nat) (o : sink)
    (d : Unlz4.dictionary_arg) (e : error) :
  Unlz4.unlz4 history0 mem it0 end_ o d = Fatal e ->
  (e = InvalidSignature /\ ~ holds mem it0 [x04; x22; x4d; x18])
  \/ (exists flags : byte,
        holds mem it0 [x04; x22; x4d; x18; flags]
        /\ ((e = UnsupportedVersion /\ Z.shiftr (b2z flags) 6 <> 1)
            \/ (Z.shiftr (b2z flags) 6 = 1
                /\ ((e = CannotOpenDictionary /\ d = Unlz4.DictionaryFile None)
                    \/ (e = InvalidOffset /\ d <> Unlz4.DictionaryFile None))))).
Proof.
  intros H.
  destruct (nth_error mem it0) as [b0|] eqn:E0;
    [|unfold Unlz4.unlz4, Unlz4.next in H; cbn [Unlz4.it] in H;
      rewrite E0 in H; discriminate].
  destruct (nth_error mem (S it0)) as [b1|] eqn:E1;
    [|unfold Unlz4.unlz4, Unlz4.next, Unlz4.with_it in H; cbn [Unlz4.it] in H;
      rewrite E0 in H; cbn [bind Unlz4.it] in H; rewrite E1 in H; discriminate].
  destruct (nth_error mem (S (S it0))) as [b2|] eqn:E2;
    [|unfold Unlz4.unlz4, Unlz4.next, Unlz4.with_it in H; cbn [Unlz4.it] in H;
      rewrite E0 in H; cbn [bind Unlz4.it] in H; rewrite E1 in H;
      cbn [bind Unlz4.it] in H; rewrite E2 in H; discriminate].
  destruct (nth_error mem (S (S (S it0)))) as [b3|] eqn:E3;
    [|unfold Unlz4.unlz4, Unlz4.next, Unlz4.with_it in H; cbn [Unlz4.it] in H;
      rewrite E0 in H; cbn [bind Unlz4.it] in H; rewrite E1 in H;
      cbn [bind Unlz4.it] in H; rewrite E2 in H;
      cbn [bind Unlz4.it] in H; rewrite E3 in H; discriminate].
  assert (Hh : holds mem it0 [b0; b1; b2; b3]).
  { apply holds_cons. split; [exact E0|]. apply holds_cons. split; [exact E1|].
    apply holds_cons. split; [exact E2|]. apply holds_cons. split; [exact E3|].
    apply holds_nil. }
  rewrite (unlz4_signature _ _ _ _ _ _ _ _ _ _ Hh) in H.
  destruct (Z.eqb_spec (b2z b0 + 256 * b2z b1 + 65536 * b2z b2
                        + 16777216 * b2z b3) 407708164) as [Em | Em].
  - apply magic_bytes in Em. inversion Em. subst. right.
    unfold Unlz4.next in H. cbn [Unlz4.it] in H.
    destruct (nth_error mem (S (S (S (S it0))))) as [flags|] eqn:E4;
      [|discriminate].
    cbn [bind] in H. exists flags. split.
    { apply holds_cons. split; [exact E0|]. apply holds_cons. split; [exact E1|].
      apply holds_cons. split; [exact E2|]. apply holds_cons. split; [exact E3|].
      apply holds_cons. split; [exact E4|]. apply holds_nil. }
    unfold after_flags in H.
    destruct (Z.eqb_spec (Z.shiftr (b2z flags) 6) 1) as [Ev | Ev]; cbn [negb] in H.
    + right. split; [exact Ev|].
      destruct d as [|[dd|]]; cbn [bind] in H.
      * right. split; [|discriminate].
        match type of H with
        | bind (Unlz4.blocks ?m ?f ?c ?s) _ = _ =>
            pose proof (only_offset_blocks m f c s) as B;
            destruct (Unlz4.blocks m f c s); cbn [bind] in H; try discriminate
        end.
        inversion H. subst. apply B. reflexivity.
      * right. split; [|discriminate].
        match type of H with
        | bind (Unlz4.blocks ?m ?f ?c ?s) _ = _ =>
            pose proof (only_offset_blocks m f c s) as B;
            destruct (Unlz4.blocks m f c s); cbn [bind] in H; try discriminate
        end.
        inversion H. subst. apply B. reflexivity.
      * left. inversion H. auto.
    + left. inversion H. auto.
  - left. inversion H. split; [reflexivity|].
    intros Hm. apply Em. apply magic_bytes.
    apply holds_cons in Hm. destruct Hm as [M0 Hm].
    apply holds_cons in Hm. destruct Hm as [M1 Hm].
    apply holds_cons in Hm. destruct Hm as [M2 Hm].
    apply holds_cons in Hm. destruct Hm as [M3 _].
    congruence.
Qed.

(** C2 as stated fails: the frame of the empty input, given with the name
    of a dictionary that cannot be opened, makes the decoder report a fatal
    error, while its magic number is 0x184D2204, its version bits are 01
    and it has no compressed block at all. *)
Lemma fourth_decoder_error :
  Unlz4.unlz4 (repeat x00 (Z.to_nat Unlz4.HISTORY_SIZE))
    (Smallz4.header ++ [x00; x00; x00; x00]) 0 11 sink0
    (Unlz4.DictionaryFile None)
  = Fatal CannotOpenDictionary
  /\ holds (Smallz4.header ++ [x00; x00; x00; x00]) 0 [x04; x22; x4d; x18]
  /\ Z.shiftr (b2z (nth 4 (Smallz4.header ++ [x00; x00; x00; x00]) x00)) 6 = 1
  /\ Smallz4.header ++ [x00; x00; x00; x00]
     = Format.frame x40 x70 [] [] xdf [].
Proof.
  repeat split.
Qed.

(** C2, as the code has it.  The decoder reports a fatal error in four
    cases and in no other: the four bytes of the magic number differ from
    [04 22 4D 18] ("invalid signature"); the version bits of the flags
    differ from 01 ("only LZ4 file format version 1 supported"); a
    dictionary file is named and cannot be opened ("cannot open
    dictionary"); the loop over the blocks stops with "invalid offset".
    Every error ends the run: no kind of error is recovered from.  On a
    frame of the format without checksums, with or without a dictionary
    that can be opened, the decoder reports "invalid offset" exactly when a
    sequence of a compressed block has the offset 0: on what a conformant
    encoder writes (offsets from 1 to 65535) it returns without an error. *)
Theorem decoder_errors :
  (forall (history0 mem : list byte) (it0 end_ : nat) (o : sink)
          (d : Unlz4.dictionary_arg) (b0 b1 b2 b3 : byte),
      holds mem it0 [b0; b1; b2; b3] ->
      [b0; b1; b2; b3] <> [x04; x22; x4d; x18] ->
      Unlz4.unlz4 history0 mem it0 end_ o d = Fatal InvalidSignature)
  /\ (forall (history0 mem : list byte) (it0 end_ : nat) (o : sink)
             (d : Unlz4.dictionary_arg) (flags : byte),
      holds mem it0 [x04; x22; x4d; x18; flags] ->
      Z.shiftr (b2z flags) 6 <> 1 ->
      Unlz4.unlz4 history0 mem it0 end_ o d = Fatal UnsupportedVersion)
  /\ (forall (history0 mem : list byte) (it0 end_ : nat) (o : sink)
             (flags : byte),
      holds mem it0 [x04; x22; x4d; x18; flags] ->
      Z.shiftr (b2z flags) 6 = 1 ->
      Unlz4.unlz4 history0 mem it0 end_ o (Unlz4.DictionaryFile None)
      = Fatal CannotOpenDictionary)
  /\ (forall (history0 mem : list byte) (it0 end_ : nat) (o : sink)
             (d : Unlz4.dictionary_arg) (e : error),
      Unlz4.unlz4 history0 mem it0 end_ o d = Fatal e ->
      (e = InvalidSignature /\ ~ holds mem it0 [x04; x22; x4d; x18])
      \/ (exists flags : byte,
            holds mem it0 [x04; x22; x4d; x18; flags]
            /\ ((e = UnsupportedVersion /\ Z.shiftr (b2z flags) 6 <> 1)
                \/ (Z.shiftr (b2z flags) 6 = 1
                    /\ ((e = CannotOpenDictionary
                         /\ d = Unlz4.DictionaryFile None)
                        \/ (e = InvalidOffset
                            /\ d <> Unlz4.DictionaryFile None))))))
  /\ (forall (history0 : list byte) (flags bd : byte)
             (contentSize dictID : list byte) (hc : byte)
             (bl : list Format.block) (end_ : nat) (o : sink)
             (d : Unlz4.dictionary_arg),
      length history0 = Z.to_nat Unlz4.HISTORY_SIZE ->
      Format.descriptor_shape flags contentSize dictID ->
      Forall Format.block_shape bl ->
      wf_sink o ->
      d <> Unlz4.DictionaryFile None ->
      let mem := Format.frame flags bd contentSize dictID hc bl in
      (Exists Format.has_zero_offset bl ->
       Unlz4.unlz4 history0 mem 0 end_ o d = Fatal InvalidOffset)
      /\ (Forall (fun b => ~ Format.has_zero_offset b) bl ->
          exists r, Unlz4.unlz4 history0 mem 0 end_ o d = Ok r)).
Proof.
  split; [|split; [|split; [|split]]].
  - intros history0 mem it0 end_ o d b0 b1 b2 b3 Hh Hne.
    rewrite (unlz4_signature _ _ _ _ _ _ _ _ _ _ Hh).
    destruct (Z.eqb_spec (b2z b0 + 256 * b2z b1 + 65536 * b2z b2
                          + 16777216 * b2z b3) 407708164) as [Em | Em];
      [|reflexivity].
    apply magic_bytes in Em. contradiction.
  - intros history0 mem it0 end_ o d flags Hh Hv.
    change [x04; x22; x4d; x18; flags] with ([x04; x22; x4d; x18] ++ [flags]) in Hh.
    apply holds_app in Hh. destruct Hh as [Hm Hf].
    apply holds_cons in Hf. destruct Hf as [Hf _].
    rewrite (unlz4_signature _ _ _ _ _ _ _ _ _ _ Hm).
    change (b2z x04 + 256 * b2z x22 + 65536 * b2z x4d + 16777216 * b2z x18
            =? 407708164) with true. cbn match.
    cbn [length] in Hf. replace (it0 + 4)%nat with (S (S (S (S it0)))) in Hf by lia.
    rewrite (next_at mem _ flags) by exact Hf. cbn [bind].
    unfold after_flags.
    destruct (Z.eqb_spec (Z.shiftr (b2z flags) 6) 1); [contradiction|].
    reflexivity.
  - intros history0 mem it0 end_ o flags Hh Hv.
    change [x04; x22; x4d; x18; flags] with ([x04; x22; x4d; x18] ++ [flags]) in Hh.
    apply holds_app in Hh. destruct Hh as [Hm Hf].
    apply holds_cons in Hf. destruct Hf as [Hf _].
    rewrite (unlz4_signature _ _ _ _ _ _ _ _ _ _ Hm).
    change (b2z x04 + 256 * b2z x22 + 65536 * b2z x4d + 16777216 * b2z x18
            =? 407708164) with true. cbn match.
    cbn [length] in Hf. replace (it0 + 4)%nat with (S (S (S (S it0)))) in Hf by lia.
    rewrite (next_at mem _ flags) by exact Hf. cbn [bind].
    unfold after_flags. rewrite Hv. reflexivity.
  - apply unlz4_fatal.
  - apply frame_ok.
Qed.

Lemma decoder_errors_witness :
  let zero := {| Format.literals := [x41]; Format.offset := 0;
                 Format.matchLength := 4 |} in
  let frame := Format.frame x40 x70 [] [] xdf
                 [Format.Compressed [zero] [x42; x43; x44; x45; x46]] in
  Unlz4.unlz4 (repeat x00 (Z.to_nat 65536)) frame 0 (length frame) sink0
    Unlz4.NoDictionary
  = Fatal InvalidOffset.
Proof.
  cbn zeta.
  destruct (proj2 (proj2 (proj2 (proj2 decoder_errors)))
              (repeat x00 (Z.to_nat 65536)) x40 x70 [] [] xdf
              [Format.Compressed
                 [{| Format.literals := [x41]; Format.offset := 0;
                     Format.matchLength := 4 |}]
                 [x42; x43; x44; x45; x46]]
              (length (Format.frame x40 x70 [] [] xdf
                         [Format.Compressed
                            [{| Format.literals := [x41]; Format.offset := 0;
                                Format.matchLength := 4 |}]
                            [x42; x43; x44; x45; x46]]))
              sink0 Unlz4.NoDictionary) as [W _].
  - apply repeat_length.
  - unfold Format.descriptor_shape.
    repeat split; try (vm_compute; reflexivity); intros C; vm_compute in C;
      contradiction.
  - constructor; [|constructor]. split.
    + vm_compute. split; discriminate.
    + constructor; [|constructor]. unfold Format.sequence_shape. simpl. lia.
  - exact wf_sink0.
  - discriminate.
  - apply W. constructor. simpl. constructor. reflexivity.
Defined.

(** ** The loop bounds of the model

    Each loop of the encoder that the model runs for a number of passes
    has left before the passes are used up: more passes give the same
    result. *)

Lemma phase1_loop_passes (input : list byte) (n m : nat) (current td p : Z) :
  p - current <= Z.of_nat n -> p - current <= Z.of_nat m ->
  Smallz4.phase1_loop input n current td p
  = Smallz4.phase1_loop input m current td p.
Proof.
  revert m p. induction n as [|n IH]; intros [|m] p Hn Hm;
    cbn [Smallz4.phase1_loop]; try reflexivity.
  - destruct (Z.gtb_spec p current); [lia | reflexivity].
  - destruct (Z.gtb_spec p current); [lia | reflexivity].
  - destruct (Z.gtb_spec p current); cbn [andb]; [|reflexivity].
    destruct (Smallz4.match4 input p (p - td)); [|reflexivity].
    apply IH; lia.
Qed.

Lemma phase2_fast_passes (input : list byte) (n m : nat) (stop td p : Z) :
  stop - p <= Z.of_nat n -> stop - p <= Z.of_nat m ->
  Smallz4.phase2_fast input n stop td p = Smallz4.phase2_fast input m stop td p.
Proof.
  revert m p. induction n as [|n IH]; intros [|m] p Hn Hm;
    cbn [Smallz4.phase2_fast]; try reflexivity.
  - destruct (Z.leb_spec (p + 4) stop); [lia | reflexivity].
  - destruct (Z.leb_spec (p + 4) stop); [lia | reflexivity].
  - destruct (Z.leb_spec (p + 4) stop); cbn [andb]; [|reflexivity].
    destruct (Smallz4.match4 input p (p - td)); [|reflexivity].
    apply IH; lia.
Qed.

Lemma phase2_slow_passes (input : list byte) (n m : nat) (stop td p : Z) :
  stop - p <= Z.of_nat n -> stop - p <= Z.of_nat m ->
  Smallz4.phase2_slow input n stop td p = Smallz4.phase2_slow input m stop td p.
Proof.
  revert m p. induction n as [|n IH]; intros [|m] p Hn Hm;
    cbn [Smallz4.phase2_slow]; try reflexivity.
  - destruct (Z.ltb_spec p stop); [lia | reflexivity].
  - destruct (Z.ltb_spec p stop); [lia | reflexivity].
  - destruct (Z.ltb_spec p stop); cbn [andb]; [|reflexivity].
    destruct (_ =? _); [|reflexivity].
    apply IH; lia.
Qed.

Lemma u16_range (z : Z) : 0 <= u16 z <= 65535.
Proof.
  unfold u16. pose proof (Z.mod_pos_bound z 65536 ltac:(lia)). lia.
Qed.

Lemma chain_loop_passes (input : list byte) (n m : nat)
    (pos current stop : Z) (chain : Smallz4.table)
    (distance td steps rl rd : Z) :
  0 <= distance <= 65535 ->
  0 <= td <= Smallz4.MaxDistance ->
  Smallz4.MaxDistance + 2 - td <= Z.of_nat n ->
  Smallz4.MaxDistance + 2 - td <= Z.of_nat m ->
  Smallz4.chain_loop input n pos current stop chain distance td steps rl rd
  = Smallz4.chain_loop input m pos current stop chain distance td steps rl rd.
Proof.
  unfold Smallz4.MaxDistance.
  revert m distance td steps rl rd.
  induction n as [|n IH]; intros [|m] distance td steps rl rd Hd Ht Hn Hm;
    try lia.
  cbn [Smallz4.chain_loop]; cbn zeta.
  destruct (Z.eqb_spec distance Smallz4.EndOfChain) as [|Hne]; [reflexivity|].
  unfold Smallz4.EndOfChain in Hne.
  assert (Hu : u32 (td + distance) = td + distance).
  { unfold u32. apply Z.mod_small. lia. }
  rewrite Hu. unfold Smallz4.MaxDistance.
  destruct (Z.gtb_spec (td + distance) 65535); [reflexivity|].
  destruct (_ >? stop); [reflexivity|].
  pose proof (u16_range (chain (Z.land (pos - (td + distance)) 65535))).
  destruct (_ >? current).
  - apply IH; lia.
  - destruct (_ =? 0); [reflexivity|]. apply IH; lia.
Qed.

Lemma exact_walk_passes (input : list byte) (n m : nat) (w : Smallz4.window)
    (ph : Smallz4.table) (four hash lastHashMatch distance : Z) :
  0 <= distance <= Smallz4.MaxDistance ->
  Smallz4.MaxDistance + 2 - distance <= Z.of_nat n ->
  Smallz4.MaxDistance + 2 - distance <= Z.of_nat m ->
  Smallz4.exact_walk input n w ph four hash lastHashMatch distance
  = Smallz4.exact_walk input m w ph four hash lastHashMatch distance.
Proof.
  unfold Smallz4.MaxDistance.
  revert m lastHashMatch distance.
  induction n as [|n IH]; intros [|m] lastHashMatch distance Hd Hn Hm; try lia.
  cbn [Smallz4.exact_walk]; cbn zeta.
  destruct (_ =? four); [reflexivity|].
  destruct (negb _); [reflexivity|].
  pose proof (u16_range (ph (Z.land lastHashMatch Smallz4.MaxDistance))) as Hr.
  destruct (Z.eqb_spec (u16 (ph (Z.land lastHashMatch Smallz4.MaxDistance)))
              Smallz4.EndOfChain) as [|Hne]; [reflexivity|].
  unfold Smallz4.EndOfChain in Hne.
  assert (Hu : Smallz4.u64 (distance
                            + u16 (ph (Z.land lastHashMatch Smallz4.MaxDistance)))
               = distance + u16 (ph (Z.land lastHashMatch Smallz4.MaxDistance))).
  { unfold Smallz4.u64. apply Z.mod_small. lia. }
  rewrite Hu. unfold Smallz4.MaxDistance in *.
  destruct (Z.gtb_spec (distance + u16 (ph (Z.land lastHashMatch 65535))) 65535);
    [reflexivity|].
  destruct (_ <? Smallz4.dataZero w); [reflexivity|].
  apply IH; lia.
Qed.

Lemma dump_length_passes (n m : nat) (v : Z) (r : sink) :
  v < 255 * (Z.of_nat n + 1) -> v < 255 * (Z.of_nat m + 1) ->
  Smallz4.dump_length n v r = Smallz4.dump_length m v r.
Proof.
  unfold Smallz4.dump_length.
  revert m v r. induction n as [|n IH]; intros [|m] v r Hn Hm;
    try reflexivity; fold Smallz4.dump_length in *.
  - unfold Smallz4.MaxLengthCode.
    destruct (Z.geb_spec v 255); [lia | reflexivity].
  - unfold Smallz4.MaxLengthCode.
    destruct (Z.geb_spec v 255); [lia | reflexivity].
  - unfold Smallz4.MaxLengthCode.
    destruct (Z.geb_spec v 255); [|reflexivity].
    apply IH; lia.
Qed.

Lemma select_loop_passes (input : list byte) (n m : nat) (mt : Smallz4.Matches)
    (data n_matches offset literalsFrom numLiterals : Z) (r : sink)
    (emitted : list (Z * Z * Z)) :
  n_matches - offset <= Z.of_nat n -> n_matches - offset <= Z.of_nat m ->
  Smallz4.select_loop input n mt data n_matches offset literalsFrom numLiterals
    r emitted
  = Smallz4.select_loop input m mt data n_matches offset literalsFrom
      numLiterals r emitted.
Proof.
  revert m offset literalsFrom numLiterals r emitted.
  induction n as [|n IH];
    intros [|m] offset literalsFrom numLiterals r emitted Hn Hm;
    cbn [Smallz4.select_loop]; cbn zeta; try reflexivity.
  - destruct (Z.ltb_spec offset n_matches); [lia | reflexivity].
  - destruct (Z.ltb_spec offset n_matches); [lia | reflexivity].
  - destruct (Z.ltb_spec offset n_matches); [|reflexivity].
    destruct (Z.leb_spec (Smallz4.vget (Smallz4.lengths mt) offset)
                Smallz4.JustLiteral) as [Hl | Hl].
    + destruct (offset + 1 <? n_matches); [|reflexivity]. apply IH; lia.
    + unfold Smallz4.JustLiteral in Hl. apply IH; lia.
Qed.

Lemma cost_loop_passes (n m : nat) (cost : list Z)
    (i ml len minCost best extra next : Z) :
  0 <= len -> ml < 4294967295 ->
  ml + 1 - len <= Z.of_nat n -> ml + 1 - len <= Z.of_nat m ->
  Smallz4.cost_loop n cost i ml len minCost best extra next
  = Smallz4.cost_loop m cost i ml len minCost best extra next.
Proof.
  revert m len minCost best extra next.
  induction n as [|n IH]; intros [|m] len minCost best extra next Hl Hml Hn Hm;
    cbn [Smallz4.cost_loop]; cbn zeta; try reflexivity.
  - destruct (Z.leb_spec len ml); [lia | reflexivity].
  - destruct (Z.leb_spec len ml); [lia | reflexivity].
  - destruct (Z.leb_spec len ml); [|reflexivity].
    assert (Hu : u32 (len + 1) = len + 1).
    { unfold u32. apply Z.mod_small. lia. }
    rewrite Hu. apply IH; lia.
Qed.

(** The loops of the decoder take at least one byte of the input in each
    pass, and a read behind the buffer ends the run: the passes that
    [unlz4] is given are never used up. *)

Lemma next_left (mem : list byte) (s : Unlz4.state) :
  match Unlz4.next mem s with
  | Ok (_, s') => (unread mem s' < unread mem s)%nat
  | OutOfFuel => False
  | _ => True
  end.
Proof.
  unfold Unlz4.next, unread.
  destruct (nth_error mem (Unlz4.it s)) eqn:E; [|exact I].
  cbn [Unlz4.with_it Unlz4.it].
  assert (Unlz4.it s < length mem)%nat by (apply nth_error_Some; congruence).
  lia.
Qed.

Lemma push_left (mem : list byte) (c : Z) (s : Unlz4.state) :
  match Unlz4.push c s with
  | Ok s' => unread mem s' = unread mem s
  | OutOfFuel => False
  | _ => True
  end.
Proof.
  unfold Unlz4.push. destruct (_ && _); [reflexivity | exact I].
Qed.

Lemma flush_left (mem : list byte) (s : Unlz4.state) :
  unread mem (Unlz4.flush_if_full s) = unread mem s.
Proof.
  unfold Unlz4.flush_if_full. destruct (_ =? _); reflexivity.
Qed.

Lemma read_length_left (mem : list byte) (fuel : nat) (n bo : Z)
    (s : Unlz4.state) :
  (unread mem s < fuel)%nat ->
  match Unlz4.read_length mem fuel n bo s with
  | Ok (_, _, s') => (unread mem s' < unread mem s)%nat
  | OutOfFuel => False
  | _ => True
  end.
Proof.
  revert n bo s. induction fuel as [|fuel IH]; intros n bo s Hf; [lia|].
  cbn [Unlz4.read_length].
  pose proof (next_left mem s) as N.
  destruct (Unlz4.next mem s) as [[c s1] | | |]; cbn [bind]; auto.
  destruct (c =? 255); [|exact N].
  specialize (IH (u32 (n + c)) (u32 (bo + 1)) s1 ltac:(lia)).
  destruct (Unlz4.read_length mem fuel _ _ s1) as [[[? ?] s2] | | |]; auto.
  lia.
Qed.

Lemma copy_literals_fast_left (mem : list byte) (n : nat) (s : Unlz4.state) :
  match Unlz4.copy_literals_fast mem n s with
  | Ok s' => (unread mem s' <= unread mem s)%nat
  | OutOfFuel => False
  | _ => True
  end.
Proof.
  revert s. induction n as [|n IH]; intros s; cbn [Unlz4.copy_literals_fast];
    [lia|].
  pose proof (next_left mem s) as N.
  destruct (Unlz4.next mem s) as [[c s1] | | |]; cbn [bind]; auto.
  pose proof (push_left mem c s1) as P.
  destruct (Unlz4.push c s1) as [s2 | | |]; cbn [bind]; auto.
  specialize (IH s2).
  destruct (Unlz4.copy_literals_fast mem n s2); auto. lia.
Qed.

Lemma copy_literals_slow_left (mem : list byte) (n : nat) (s : Unlz4.state) :
  match Unlz4.copy_literals_slow mem n s with
  | Ok s' => (unread mem s' <= unread mem s)%nat
  | OutOfFuel => False
  | _ => True
  end.
Proof.
  revert s. induction n as [|n IH]; intros s; cbn [Unlz4.copy_literals_slow];
    [lia|].
  pose proof (next_left mem s) as N.
  destruct (Unlz4.next mem s) as [[c s1] | | |]; cbn [bind]; auto.
  pose proof (push_left mem c s1) as P.
  destruct (Unlz4.push c s1) as [s2 | | |]; cbn [bind]; auto.
  specialize (IH (Unlz4.flush_if_full s2)). rewrite flush_left in IH.
  destruct (Unlz4.copy_literals_slow mem n _); auto. lia.
Qed.

Lemma hist_fuel (s : Unlz4.state) (i : Z) : Unlz4.hist s i <> OutOfFuel.
Proof.
  unfold Unlz4.hist. destruct (0 <=? i); [|discriminate].
  destruct (nth_error _ _); discriminate.
Qed.

Lemma copy_match_overlap_left (mem : list byte) (n : nat) (ref : Z)
    (s : Unlz4.state) :
  match Unlz4.copy_match_overlap n ref s with
  | Ok s' => unread mem s' = unread mem s
  | OutOfFuel => False
  | _ => True
  end.
Proof.
  revert ref s. induction n as [|n IH]; intros ref s;
    cbn [Unlz4.copy_match_overlap]; [reflexivity|].
  pose proof (hist_fuel s ref) as Hh.
  destruct (Unlz4.hist s ref) as [c | | |]; cbn [bind]; auto.
  pose proof (push_left mem c s) as P.
  destruct (Unlz4.push c s) as [s1 | | |]; cbn [bind]; auto.
  specialize (IH (u32 (ref + 1)) s1).
  destruct (Unlz4.copy_match_overlap n _ s1); auto. congruence.
Qed.

Lemma copy_match_wrap_left (mem : list byte) (n : nat) (ref : Z)
    (s : Unlz4.state) :
  match Unlz4.copy_match_wrap n ref s with
  | Ok s' => unread mem s' = unread mem s
  | OutOfFuel => False
  | _ => True
  end.
Proof.
  revert ref s. induction n as [|n IH]; intros ref s;
    cbn [Unlz4.copy_match_wrap]; [reflexivity|].
  pose proof (hist_fuel s ref) as Hh.
  destruct (Unlz4.hist s ref) as [c | | |]; cbn [bind]; auto.
  pose proof (push_left mem c s) as P.
  destruct (Unlz4.push c s) as [s1 | | |]; cbn [bind]; auto.
  specialize (IH (u32 (ref + 1) mod Unlz4.HISTORY_SIZE) (Unlz4.flush_if_full s1)).
  rewrite flush_left in IH.
  destruct (Unlz4.copy_match_wrap n _ _); auto. congruence.
Qed.

Lemma memcpy_match_left (mem : list byte) (ref ml : Z) (s : Unlz4.state) :
  match Unlz4.memcpy_match ref ml s with
  | Ok s' => unread mem s' = unread mem s
  | OutOfFuel => False
  | _ => True
  end.
Proof.
  unfold Unlz4.memcpy_match. destruct (_ && _); [reflexivity | exact I].
Qed.

Lemma literal_run_left (mem : list byte) (bo : Z) (s : Unlz4.state) :
  match Unlz4.literal_run mem bo s with
  | Ok (_, _, s') => (unread mem s' < unread mem s)%nat
  | OutOfFuel => False
  | _ => True
  end.
Proof.
  unfold Unlz4.literal_run.
  pose proof (next_left mem s) as N.
  destruct (Unlz4.next mem s) as [[token s1] | | |]; cbn [bind]; auto.
  assert (R : match (if Z.shiftr token 4 =? 15
                     then Unlz4.read_length mem (S (length mem))
                            (Z.shiftr token 4) (u32 (bo + 1)) s1
                     else Ok (Z.shiftr token 4, u32 (bo + 1), s1)) with
              | Ok (_, _, s') => (unread mem s' <= unread mem s1)%nat
              | OutOfFuel => False
              | _ => True
              end).
  { destruct (_ =? 15); [|lia].
    pose proof (read_length_left mem (S (length mem)) (Z.shiftr token 4)
                  (u32 (bo + 1)) s1 ltac:(unfold unread; lia)) as R.
    destruct (Unlz4.read_length _ _ _ _ _) as [[[? ?] ?] | | |]; auto. lia. }
  destruct (if Z.shiftr token 4 =? 15 then _ else _) as [[[nl bo1] s2] | | |];
    cbn [bind]; auto.
  destruct (_ <? Unlz4.HISTORY_SIZE).
  - pose proof (copy_literals_fast_left mem (Z.to_nat nl) s2) as C.
    destruct (Unlz4.copy_literals_fast _ _ _); cbn [bind]; auto. lia.
  - pose proof (copy_literals_slow_left mem (Z.to_nat nl) s2) as C.
    destruct (Unlz4.copy_literals_slow _ _ _); cbn [bind]; auto. lia.
Qed.

Lemma match_run_left (mem : list byte) (token bo : Z) (s : Unlz4.state) :
  match Unlz4.match_run mem token bo s with
  | Ok (_, s') => (unread mem s' < unread mem s)%nat
  | OutOfFuel => False
  | _ => True
  end.
Proof.
  unfold Unlz4.match_run.
  pose proof (next_left mem s) as N0.
  destruct (Unlz4.next mem s) as [[d0 s0] | | |]; cbn [bind]; auto.
  pose proof (next_left mem s0) as N1.
  destruct (Unlz4.next mem s0) as [[d1 s1] | | |]; cbn [bind]; auto.
  destruct (_ =? 0); [exact I|].
  assert (R : match (if 4 + Z.land token 15 =? 4 + 15
                     then Unlz4.read_length mem (S (length mem))
                            (4 + Z.land token 15) (u32 (bo + 2)) s1
                     else Ok (4 + Z.land token 15, u32 (bo + 2), s1)) with
              | Ok (_, _, s') => (unread mem s' <= unread mem s1)%nat
              | OutOfFuel => False
              | _ => True
              end).
  { destruct (_ =? 4 + 15); [|lia].
    pose proof (read_length_left mem (S (length mem)) (4 + Z.land token 15)
                  (u32 (bo + 2)) s1 ltac:(unfold unread; lia)) as R.
    destruct (Unlz4.read_length _ _ _ _ _) as [[[? ?] ?] | | |]; auto. lia. }
  destruct (if 4 + Z.land token 15 =? 4 + 15 then _ else _)
    as [[[ml bo1] s2] | | |]; cbn [bind]; auto.
  set (ref := if _ <=? Unlz4.pos s2 then _ else _).
  destruct (_ && _).
  - destruct (_ || _).
    + pose proof (memcpy_match_left mem ref ml s2) as C.
      destruct (Unlz4.memcpy_match _ _ _); cbn [bind]; auto. lia.
    + pose proof (copy_match_overlap_left mem (Z.to_nat ml) ref s2) as C.
      destruct (Unlz4.copy_match_overlap _ _ _); cbn [bind]; auto. lia.
  - pose proof (copy_match_wrap_left mem (Z.to_nat ml) ref s2) as C.
    destruct (Unlz4.copy_match_wrap _ _ _); cbn [bind]; auto. lia.
Qed.

Lemma sequence_left (mem : list byte) (bs bo : Z) (s : Unlz4.state) :
  match Unlz4.sequence mem bs bo s with
  | Ok (inl s') => (unread mem s' <= unread mem s)%nat
  | Ok (inr (_, s')) => (unread mem s' < unread mem s)%nat
  | OutOfFuel => False
  | _ => True
  end.
Proof.
  unfold Unlz4.sequence.
  pose proof (literal_run_left mem bo s) as L.
  destruct (Unlz4.literal_run mem bo s) as [[[token bo1] s1] | | |];
    cbn [bind]; auto.
  destruct (_ =? bs); [lia|].
  pose proof (match_run_left mem token bo1 s1) as M.
  destruct (Unlz4.match_run mem token bo1 s1) as [[bo2 s2] | | |];
    cbn [bind]; auto. lia.
Qed.

Lemma compressed_block_left (mem : list byte) (fuel : nat) (bs bo : Z)
    (s : Unlz4.state) :
  (unread mem s < fuel)%nat ->
  match Unlz4.compressed_block mem fuel bs bo s with
  | Ok s' => (unread mem s' <= unread mem s)%nat
  | OutOfFuel => False
  | _ => True
  end.
Proof.
  revert bo s. induction fuel as [|fuel IH]; intros bo s Hf; [lia|].
  cbn [Unlz4.compressed_block].
  destruct (bo <? bs); [|lia].
  pose proof (sequence_left mem bs bo s) as S.
  destruct (Unlz4.sequence mem bs bo s) as [[s1 | [bo1 s1]] | | |];
    cbn [bind]; auto.
  specialize (IH bo1 s1 ltac:(lia)).
  destruct (Unlz4.compressed_block mem fuel bs bo1 s1); auto. lia.
Qed.

Lemma read_u32_left (mem : list byte) (s : Unlz4.state) :
  match Unlz4.read_u32 mem s with
  | Ok (_, s') => (unread mem s' < unread mem s)%nat
  | OutOfFuel => False
  | _ => True
  end.
Proof.
  unfold Unlz4.read_u32.
  pose proof (next_left mem s) as N0.
  destruct (Unlz4.next mem s) as [[b0 s0] | | |]; cbn [bind]; auto.
  pose proof (next_left mem s0) as N1.
  destruct (Unlz4.next mem s0) as [[b1 s1] | | |]; cbn [bind]; auto.
  pose proof (next_left mem s1) as N2.
  destruct (Unlz4.next mem s1) as [[b2 s2] | | |]; cbn [bind]; auto.
  pose proof (next_left mem s2) as N3.
  destruct (Unlz4.next mem s2) as [[b3 s3] | | |]; cbn [bind]; auto.
  lia.
Qed.

Lemma blocks_left (mem : list byte) (fuel : nat) (cs : bool) (s : Unlz4.state) :
  (unread mem s < fuel)%nat ->
  Unlz4.blocks mem fuel cs s <> OutOfFuel.
Proof.
  revert s. induction fuel as [|fuel IH]; intros s Hf; [lia|].
  cbn [Unlz4.blocks].
  pose proof (read_u32_left mem s) as R.
  destruct (Unlz4.read_u32 mem s) as [[t s1] | | |]; cbn [bind];
    try discriminate; [|contradiction].
  destruct (_ =? 0); [discriminate|].
  assert (B : match (if Z.land t 2147483648 =? 0
                     then Unlz4.compressed_block mem (S (length mem))
                            (Z.land t 2147483647) 0 s1
                     else Unlz4.raw_block mem (Z.land t 2147483647) s1) with
              | Ok s' => (unread mem s' <= unread mem s1)%nat
              | OutOfFuel => False
              | _ => True
              end).
  { destruct (_ =? 0).
    - apply compressed_block_left. unfold unread. lia.
    - apply copy_literals_slow_left. }
  destruct (if Z.land t 2147483648 =? 0 then _ else _) as [s2 | | |];
    cbn [bind]; try discriminate; [|contradiction].
  apply IH. destruct cs; unfold unread in *; cbn [Unlz4.with_it Unlz4.it]; lia.
Qed.

(** the passes the model gives to [unlz4] are enough for every input *)
Lemma unlz4_passes (history0 mem : list byte) (it0 end_ : nat) (o : sink)
    (d : Unlz4.dictionary_arg) :
  Unlz4.unlz4 history0 mem it0 end_ o d <> OutOfFuel.
Proof.
  unfold Unlz4.unlz4.
  match goal with
  | |- context [Unlz4.next mem ?s] =>
      pose proof (next_left mem s) as N0;
      destruct (Unlz4.next mem s) as [[b0 s0] | | |]; cbn [bind];
      try discriminate; try contradiction
  end.
  pose proof (next_left mem s0) as N1.
  destruct (Unlz4.next mem s0) as [[b1 s1] | | |]; cbn [bind];
    try discriminate; try contradiction.
  pose proof (next_left mem s1) as N2.
  destruct (Unlz4.next mem s1) as [[b2 s2] | | |]; cbn [bind];
    try discriminate; try contradiction.
  pose proof (next_left mem s2) as N3.
  destruct (Unlz4.next mem s2) as [[b3 s3] | | |]; cbn [bind];
    try discriminate; try contradiction.
  destruct (negb _); [discriminate|].
  pose proof (next_left mem s3) as N4.
  destruct (Unlz4.next mem s3) as [[flags s4] | | |]; cbn [bind];
    try discriminate; try contradiction.
  destruct (negb _); [discriminate|].
  destruct d as [|[dd|]]; cbn [bind]; try discriminate.
  - match goal with
    | |- context [Unlz4.blocks mem ?f ?c ?s] =>
        pose proof (blocks_left mem f c s ltac:(unfold unread; lia)) as B;
        destruct (Unlz4.blocks mem f c s); cbn [bind];
        try discriminate; try contradiction
    end.
  - match goal with
    | |- context [Unlz4.blocks mem ?f ?c ?s] =>
        pose proof (blocks_left mem f c s ltac:(unfold unread; lia)) as B;
        destruct (Unlz4.blocks mem f c s); cbn [bind];
        try discriminate; try contradiction
    end.
Qed.

(** * The round trip *)

(** ** The text of a run of the decoder *)

Lemma nth_error_list_set (l : list byte) (i j : nat) (c : byte) :
  nth_error (Unlz4.list_set l i c) j
  = if (j =? i)%nat then (if (i <? length l)%nat then Some c else None)
    else nth_error l j.
Proof.
  revert i j. induction l as [|h t IH]; intros i j; simpl.
  - destruct (j =? i)%nat; destruct j; reflexivity.
  - destruct i as [|i]; destruct j as [|j]; simpl; try reflexivity.
    rewrite IH. reflexivity.
Qed.

Lemma nth_error_overwrite (b : list byte) (i : nat) (src : list byte) (j : nat) :
  (i + length src <= length b)%nat ->
  nth_error (overwrite b i src) j
  = if ((i <=? j) && (j <? i + length src))%nat then nth_error src (j - i)
    else nth_error b j.
Proof.
  intros Hl. unfold overwrite.
  destruct (Nat.leb_spec i j) as [Hij | Hij]; cbn [andb].
  - rewrite nth_error_app2 by (rewrite length_firstn; lia).
    rewrite length_firstn, Nat.min_l by lia.
    destruct (Nat.ltb_spec j (i + length src)) as [Hj | Hj].
    + rewrite nth_error_app1 by lia. reflexivity.
    + rewrite nth_error_app2 by lia. rewrite nth_error_skipn.
      f_equal. lia.
  - rewrite nth_error_app1 by (rewrite length_firstn; lia).
    rewrite nth_error_firstn.
    destruct (Nat.ltb_spec j i); [reflexivity | lia].
Qed.

Lemma length_copy_match (n d : nat) (text : list byte) :
  length (copy_match n d text) = (length text + n)%nat.
Proof.
  revert text. induction n as [|n IH]; intros text; simpl; [lia|].
  rewrite IH, length_app. simpl. lia.
Qed.

Lemma copy_match_old (n d : nat) (text : list byte) (t : nat) :
  (t < length text)%nat ->
  nth_error (copy_match n d text) t = nth_error text t.
Proof.
  revert text. induction n as [|n IH]; intros text Ht; simpl; [reflexivity|].
  rewrite IH by (rewrite length_app; simpl; lia).
  apply nth_error_app1. exact Ht.
Qed.

Lemma copy_match_new (n d : nat) (text : list byte) (t : nat) :
  (1 <= d <= length text)%nat ->
  (length text <= t < length text + n)%nat ->
  nth_error (copy_match n d text) t = nth_error (copy_match n d text) (t - d).
Proof.
  revert text. induction n as [|n IH]; intros text Hd Ht; simpl; [lia|].
  destruct (Nat.eq_dec t (length text)) as [-> | Hne].
  - rewrite !copy_match_old by (rewrite length_app; simpl; lia).
    rewrite nth_error_app2 by lia. rewrite Nat.sub_diag. simpl.
    rewrite nth_error_app1 by lia.
    symmetry. apply nth_error_nth'. lia.
  - apply IH; rewrite length_app; simpl; lia.
Qed.

Lemma copy_match_step (n d : nat) (text : list byte) :
  copy_match (S n) d text
  = copy_match n d (text ++ [nth (length text - d) text x00]).
Proof. reflexivity. Qed.

Lemma ring_with_it (pre text : list byte) (s : Unlz4.state) (i : nat) :
  ring pre text s -> ring pre text (Unlz4.with_it s i).
Proof. intros H. exact H. Qed.

Lemma ring_pending (pre text : list byte) (s : Unlz4.state) :
  ring pre text s ->
  firstn (Z.to_nat (Unlz4.pos s)) (Unlz4.history s)
  = skipn (length text - Z.to_nat (Unlz4.pos s)) text.
Proof.
  intros (Hl & Hp & Hw & Hpt & Ho & Ha & Hb).
  apply nth_error_ext. intros j.
  rewrite nth_error_firstn, nth_error_skipn.
  destruct (Nat.ltb_spec j (Z.to_nat (Unlz4.pos s))).
  - apply Ha. assumption.
  - symmetry. apply nth_error_None. lia.
Qed.

Lemma ring_written (pre text : list byte) (s : Unlz4.state) :
  ring pre text s ->
  written (dump (firstn (Z.to_nat (Unlz4.pos s)) (Unlz4.history s)) (Unlz4.out s))
  = pre ++ text.
Proof.
  intros H. pose proof (ring_pending pre text s H) as E.
  destruct H as (Hl & Hp & Hw & Hpt & Ho & Ha & Hb).
  destruct (dump_spec (firstn (Z.to_nat (Unlz4.pos s)) (Unlz4.history s))
              (Unlz4.out s) Hw) as (_ & W & _).
  rewrite W, Ho, E, <- app_assoc, firstn_skipn. reflexivity.
Qed.

Lemma flush_ring (pre text : list byte) (s : Unlz4.state) :
  ring pre text s ->
  ring pre text (Unlz4.flush_if_full s)
  /\ Unlz4.pos (Unlz4.flush_if_full s) < 65536.
Proof.
  intros H. unfold Unlz4.flush_if_full, Unlz4.HISTORY_SIZE.
  destruct (Z.eqb_spec (Unlz4.pos s) 65536) as [E | E].
  - pose proof (ring_written pre text s H) as W. rewrite E in W.
    destruct H as (Hl & Hp & Hw & Hpt & Ho & Ha & Hb).
    cbn [Unlz4.pos]. split; [|lia].
    unfold ring. cbn [Unlz4.history Unlz4.pos Unlz4.out].
    change (Z.to_nat 0) with 0%nat.
    split; [exact Hl|]. split; [lia|].
    split; [apply dump_spec; exact Hw|]. split; [lia|].
    split; [rewrite W, Nat.sub_0_r, firstn_all; reflexivity|].
    split.
    + intros j Hj. lia.
    + intros j Hj Hj'. rewrite Ha by lia. f_equal. lia.
  - split; [exact H|]. destruct H as (_ & Hp & _). lia.
Qed.

Lemma push_ring (pre text : list byte) (c : Z) (s s' : Unlz4.state) :
  ring pre text s ->
  Unlz4.push c s = Ok s' ->
  ring pre (text ++ [z2b c]) s'
  /\ Unlz4.pos s' = Unlz4.pos s + 1 /\ Unlz4.it s' = Unlz4.it s.
Proof.
  intros (Hl & Hp & Hw & Hpt & Ho & Ha & Hb). unfold Unlz4.push, Unlz4.HISTORY_SIZE.
  destruct (Z.leb_spec 0 (Unlz4.pos s)); cbn [andb]; [|discriminate].
  destruct (Z.ltb_spec (Unlz4.pos s) 65536); [|discriminate].
  intros E. inversion E. subst s'. clear E.
  cbn [Unlz4.pos Unlz4.it].
  assert (Eu : u32 (Unlz4.pos s + 1) = Unlz4.pos s + 1)
    by (unfold u32; apply Z.mod_small; lia).
  rewrite Eu. split; [|split; reflexivity].
  unfold ring. cbn [Unlz4.history Unlz4.pos Unlz4.out].
  rewrite length_app. cbn [length].
  replace (Z.to_nat (Unlz4.pos s + 1)) with (S (Z.to_nat (Unlz4.pos s))) by lia.
  split; [rewrite length_list_set; exact Hl|]. split; [lia|].
  split; [exact Hw|]. split; [lia|].
  split.
  { rewrite Ho. f_equal. rewrite firstn_app.
    replace (length text + 1 - S (Z.to_nat (Unlz4.pos s)) - length text)%nat
      with 0%nat by lia.
    rewrite firstn_O, app_nil_r. f_equal. lia. }
  split.
  - intros j Hj. rewrite nth_error_list_set.
    destruct (Nat.eqb_spec j (Z.to_nat (Unlz4.pos s))) as [-> | Hne].
    + destruct (Nat.ltb_spec (Z.to_nat (Unlz4.pos s)) (length (Unlz4.history s)));
        [|lia].
      rewrite nth_error_app2 by lia.
      replace (_ - length text)%nat with 0%nat by lia. reflexivity.
    + rewrite Ha by lia. rewrite nth_error_app1 by lia. f_equal. lia.
  - intros j Hj Hj'. rewrite nth_error_list_set.
    destruct (Nat.eqb_spec j (Z.to_nat (Unlz4.pos s))) as [-> | Hne]; [lia|].
    rewrite Hb by lia. rewrite nth_error_app1 by lia. f_equal. lia.
Qed.

Lemma hist_ring (pre text : list byte) (s : Unlz4.state) (d ref : Z) :
  ring pre text s ->
  1 <= d <= 65535 -> d <= Z.of_nat (length text) ->
  0 <= ref < 65536 ->
  ref = Unlz4.pos s - d \/ ref = Unlz4.pos s - d + 65536 ->
  Unlz4.hist s ref = Ok (b2z (nth (length text - Z.to_nat d) text x00)).
Proof.
  intros (Hl & Hp & Hw & Hpt & Ho & Ha & Hb) Hd Hdl Hr Href. unfold Unlz4.hist.
  destruct (Z.leb_spec 0 ref); [|lia].
  assert (E : nth_error (Unlz4.history s) (Z.to_nat ref)
              = nth_error text (length text - Z.to_nat d)).
  { destruct Href as [-> | ->].
    - rewrite Ha by lia. f_equal. lia.
    - rewrite Hb by lia. f_equal. lia. }
  rewrite E. rewrite (nth_error_nth' text x00) by lia. reflexivity.
Qed.

Lemma it_flush (s : Unlz4.state) :
  Unlz4.it (Unlz4.flush_if_full s) = Unlz4.it s.
Proof. unfold Unlz4.flush_if_full. destruct (_ =? _); reflexivity. Qed.

Lemma copy_literals_fast_ring (mem pre : list byte) (lits : list byte) :
  forall (text : list byte) (s s' : Unlz4.state),
    holds mem (Unlz4.it s) lits ->
    ring pre text s ->
    Unlz4.copy_literals_fast mem (length lits) s = Ok s' ->
    ring pre (text ++ lits) s'
    /\ Unlz4.pos s' = Unlz4.pos s + Z.of_nat (length lits).
Proof.
  induction lits as [|c lits IH]; intros text s s' Hh Hr;
    cbn [length Unlz4.copy_literals_fast].
  - intros E. inversion E. subst. rewrite app_nil_r. split; [exact Hr | lia].
  - destruct (next_holds mem s c lits Hh) as [En Hh']. rewrite En. cbn [bind].
    destruct (Unlz4.push (b2z c) (Unlz4.with_it s (S (Unlz4.it s))))
      as [s2 | | |] eqn:Ep; cbn [bind]; try discriminate.
    intros E.
    destruct (push_ring pre text (b2z c) _ s2 (ring_with_it _ _ _ _ Hr) Ep)
      as (R2 & P2 & I2).
    rewrite z2b_b2z in R2.
    destruct (IH (text ++ [c]) s2 s') as [R' P'];
      [rewrite I2; exact Hh' | exact R2 | exact E |].
    rewrite <- app_assoc in R'. split; [exact R'|].
    rewrite P', P2. cbn [Unlz4.with_it Unlz4.pos]. lia.
Qed.

Lemma copy_literals_slow_ring (mem pre : list byte) (lits : list byte) :
  forall (text : list byte) (s s' : Unlz4.state),
    holds mem (Unlz4.it s) lits ->
    ring pre text s ->
    Unlz4.pos s < 65536 ->
    Unlz4.copy_literals_slow mem (length lits) s = Ok s' ->
    ring pre (text ++ lits) s' /\ Unlz4.pos s' < 65536.
Proof.
  induction lits as [|c lits IH]; intros text s s' Hh Hr Hp;
    cbn [length Unlz4.copy_literals_slow].
  - intros E. inversion E. subst. rewrite app_nil_r. split; [exact Hr | lia].
  - destruct (next_holds mem s c lits Hh) as [En Hh']. rewrite En. cbn [bind].
    destruct (Unlz4.push (b2z c) (Unlz4.with_it s (S (Unlz4.it s))))
      as [s2 | | |] eqn:Ep; cbn [bind]; try discriminate.
    intros E.
    destruct (push_ring pre text (b2z c) _ s2 (ring_with_it _ _ _ _ Hr) Ep)
      as (R2 & P2 & I2).
    rewrite z2b_b2z in R2.
    destruct (flush_ring _ _ _ R2) as [R3 P3].
    destruct (IH (text ++ [c]) (Unlz4.flush_if_full s2) s') as [R' P'];
      [rewrite it_flush, I2; exact Hh' | exact R3 | exact P3 | exact E |].
    rewrite <- app_assoc in R'. split; [exact R' | exact P'].
Qed.

Lemma copy_match_overlap_ring (pre : list byte) (d : Z) (n : nat) :
  1 <= d <= 65535 ->
  forall (text : list byte) (ref : Z) (s s' : Unlz4.state),
    ring pre text s ->
    d <= Z.of_nat (length text) ->
    0 <= ref -> ref + Z.of_nat n <= 65536 ->
    ref = Unlz4.pos s - d \/ ref = Unlz4.pos s - d + 65536 ->
    Unlz4.copy_match_overlap n ref s = Ok s' ->
    ring pre (copy_match n (Z.to_nat d) text) s'
    /\ Unlz4.pos s' = Unlz4.pos s + Z.of_nat n.
Proof.
  intros Hd. induction n as [|n IH]; intros text ref s s' Hr Hdl H0 Hn Href;
    cbn [Unlz4.copy_match_overlap copy_match].
  - intros E. inversion E. subst. split; [exact Hr | lia].
  - rewrite (hist_ring pre text s d ref Hr Hd Hdl) by lia. cbn [bind].
    destruct (Unlz4.push _ s) as [s1 | | |] eqn:Ep; cbn [bind]; try discriminate.
    intros E.
    destruct (push_ring pre text _ s s1 Hr Ep) as (R1 & P1 & I1).
    rewrite z2b_b2z in R1.
    assert (Eu : u32 (ref + 1) = ref + 1) by (unfold u32; apply Z.mod_small; lia).
    rewrite Eu in E.
    destruct (IH _ (ref + 1) s1 s' R1) as [R' P'];
      [rewrite length_app; cbn [length]; lia | lia | lia | lia | exact E |].
    split; [exact R' | lia].
Qed.

Lemma pos_flush (s : Unlz4.state) :
  Unlz4.pos (Unlz4.flush_if_full s)
  = if Unlz4.pos s =? 65536 then 0 else Unlz4.pos s.
Proof.
  unfold Unlz4.flush_if_full, Unlz4.HISTORY_SIZE. destruct (_ =? _); reflexivity.
Qed.

Lemma copy_match_wrap_ring (pre : list byte) (d : Z) (n : nat) :
  1 <= d <= 65535 ->
  forall (text : list byte) (ref : Z) (s s' : Unlz4.state),
    ring pre text s ->
    Unlz4.pos s < 65536 ->
    d <= Z.of_nat (length text) ->
    0 <= ref < 65536 ->
    ref = Unlz4.pos s - d \/ ref = Unlz4.pos s - d + 65536 ->
    Unlz4.copy_match_wrap n ref s = Ok s' ->
    ring pre (copy_match n (Z.to_nat d) text) s' /\ Unlz4.pos s' < 65536.
Proof.
  intros Hd. induction n as [|n IH]; intros text ref s s' Hr Hp Hdl H0 Href;
    cbn [Unlz4.copy_match_wrap copy_match].
  - intros E. inversion E. subst. split; [exact Hr | lia].
  - rewrite (hist_ring pre text s d ref Hr Hd Hdl) by lia. cbn [bind].
    destruct (Unlz4.push _ s) as [s1 | | |] eqn:Ep; cbn [bind]; try discriminate.
    intros E.
    destruct (push_ring pre text _ s s1 Hr Ep) as (R1 & P1 & I1).
    rewrite z2b_b2z in R1.
    destruct (flush_ring _ _ _ R1) as [R2 P2].
    pose proof (pos_flush s1) as Pf.
    assert (P0 : 0 <= Unlz4.pos s) by (destruct Hr as (_ & ? & _); lia).
    destruct (IH _ (u32 (ref + 1) mod Unlz4.HISTORY_SIZE) _ s' R2 P2) as [R' P'];
      [rewrite length_app; cbn [length]; lia | | | exact E |].
    + unfold u32, Unlz4.HISTORY_SIZE. Z.div_mod_to_equations. lia.
    + rewrite Pf, P1. unfold u32, Unlz4.HISTORY_SIZE.
      destruct (Z.eqb_spec (Unlz4.pos s + 1) 65536);
        Z.div_mod_to_equations; lia.
    + split; [exact R' | exact P'].
Qed.

Lemma copy_match_firstn (n d : nat) (text : list byte) (k : nat) :
  (k <= length text)%nat ->
  firstn k (copy_match n d text) = firstn k text.
Proof.
  revert text. induction n as [|n IH]; intros text Hk; simpl; [reflexivity|].
  rewrite IH by (rewrite length_app; simpl; lia).
  rewrite firstn_app. replace (k - length text)%nat with 0%nat by lia.
  rewrite firstn_O, app_nil_r. reflexivity.
Qed.

Lemma memcpy_match_ring (pre text : list byte) (d ref ml : Z)
    (s s' : Unlz4.state) :
  ring pre text s ->
  1 <= d <= 65535 -> d <= Z.of_nat (length text) ->
  0 <= ml ->
  ref = Unlz4.pos s - d \/ ref = Unlz4.pos s - d + 65536 ->
  ref + ml <= Unlz4.pos s \/ Unlz4.pos s + ml <= ref ->
  Unlz4.pos s + ml < 65536 ->
  Unlz4.memcpy_match ref ml s = Ok s' ->
  ring pre (copy_match (Z.to_nat ml) (Z.to_nat d) text) s'
  /\ Unlz4.pos s' = Unlz4.pos s + ml.
Proof.
  intros (Hl & Hp & Hw & Hpt & Ho & Ha & Hb) Hd Hdl Hml Href Hno Hfit.
  unfold Unlz4.memcpy_match, Unlz4.HISTORY_SIZE.
  destruct (Z.leb_spec 0 ref); cbn [andb]; [|discriminate].
  destruct (Z.leb_spec (ref + ml) 65536); cbn [andb]; [|discriminate].
  destruct (Z.leb_spec 0 (Unlz4.pos s)); cbn [andb]; [|discriminate].
  destruct (Z.leb_spec (Unlz4.pos s + ml) 65536); [|discriminate].
  intros E. inversion E. subst s'. clear E.
  cbn [Unlz4.pos].
  assert (Eu : u32 (Unlz4.pos s + ml) = Unlz4.pos s + ml)
    by (unfold u32; apply Z.mod_small; lia).
  rewrite Eu. split; [|reflexivity].
  set (src := firstn (Z.to_nat ml) (skipn (Z.to_nat ref) (Unlz4.history s))).
  assert (Ls : length src = Z.to_nat ml).
  { subst src. rewrite length_firstn, length_skipn. lia. }
  assert (Ns : forall k, (k < Z.to_nat ml)%nat ->
                 nth_error src k = nth_error (Unlz4.history s) (Z.to_nat ref + k)).
  { intros k Hk. subst src. rewrite nth_error_firstn.
    destruct (Nat.ltb_spec k (Z.to_nat ml)); [|lia].
    apply nth_error_skipn. }
  set (text' := copy_match (Z.to_nat ml) (Z.to_nat d) text).
  assert (Lt : length text' = (length text + Z.to_nat ml)%nat)
    by apply length_copy_match.
  assert (Old : forall t, (t < length text)%nat ->
                  nth_error text' t = nth_error text t)
    by (intros; apply copy_match_old; assumption).
  assert (New : forall t, (length text <= t < length text + Z.to_nat ml)%nat ->
                  nth_error text' t = nth_error text (t - Z.to_nat d)).
  { intros t Ht. subst text'. rewrite copy_match_new by lia.
    apply copy_match_old. lia. }
  unfold ring. cbn [Unlz4.history Unlz4.pos Unlz4.out].
  split; [rewrite length_overwrite; [exact Hl | lia]|].
  split; [lia|]. split; [exact Hw|]. split; [lia|].
  split.
  { rewrite Ho. f_equal. subst text'. rewrite Lt.
    rewrite copy_match_firstn by lia. f_equal. lia. }
  split.
  - intros j Hj. rewrite nth_error_overwrite by lia. rewrite Ls.
    destruct (Nat.leb_spec (Z.to_nat (Unlz4.pos s)) j) as [Hpj | Hpj]; cbn [andb].
    + destruct (Nat.ltb_spec j (Z.to_nat (Unlz4.pos s) + Z.to_nat ml)); [|lia].
      rewrite Ns by lia. rewrite New by lia.
      destruct Href as [Er | Er].
      * rewrite Ha by lia. f_equal. lia.
      * rewrite Hb by lia. f_equal. lia.
    + rewrite Ha by lia. rewrite Old by lia. f_equal. lia.
  - intros j Hj Hj'. rewrite nth_error_overwrite by lia. rewrite Ls.
    destruct (Nat.leb_spec (Z.to_nat (Unlz4.pos s)) j) as [Hpj | Hpj];
      cbn [andb]; [|lia].
    destruct (Nat.ltb_spec j (Z.to_nat (Unlz4.pos s) + Z.to_nat ml)); [lia|].
    rewrite Hb by lia. rewrite Old by lia. f_equal. lia.
Qed.

Lemma ring_dwf (pre text : list byte) (s : Unlz4.state) :
  ring pre text s -> Unlz4.pos s < 65536 -> dwf s.
Proof.
  intros (Hl & Hp & Hw & _) H. unfold dwf, Unlz4.HISTORY_SIZE.
  split; [exact Hl|]. split; [lia | exact Hw].
Qed.

Lemma ring_same (pre text : list byte) (s s1 : Unlz4.state) :
  Unlz4.history s1 = Unlz4.history s ->
  Unlz4.pos s1 = Unlz4.pos s ->
  Unlz4.out s1 = Unlz4.out s ->
  ring pre text s -> ring pre text s1.
Proof. unfold ring. intros -> -> ->. exact (fun H => H). Qed.

Lemma literal_run_ring (mem pre text : list byte) (lits : list byte) (m bo : Z)
    (s s' : Unlz4.state) (t bo' : Z) :
  let n := Z.of_nat (length lits) in
  let field := Format.length_field n in
  holds mem (Unlz4.it s) ([Format.token n m] ++ field ++ lits) ->
  ring pre text s -> Unlz4.pos s < 65536 ->
  0 <= m ->
  0 <= bo -> bo + 1 + Z.of_nat (length field) + n < 2147483648 ->
  Unlz4.literal_run mem bo s = Ok (t, bo', s') ->
  ring pre (text ++ lits) s' /\ Unlz4.pos s' < 65536.
Proof.
  cbn zeta. intros Hh Hr Hp Hm Hb Hb2.
  set (n := Z.of_nat (length lits)) in *.
  assert (Hn : 0 <= n) by (subst n; lia).
  pose proof (length_length_field n Hn) as Hf.
  assert (P0 : 0 <= Unlz4.pos s) by (destruct Hr as (_ & ? & _); lia).
  cbn [app] in Hh.
  destruct (next_holds mem s _ _ Hh) as [En Hh1].
  apply holds_app in Hh1. destruct Hh1 as [Hh1 Hh2].
  unfold Unlz4.literal_run. rewrite En. cbn [bind].
  destruct (token_fields n m Hn Hm) as [T1 _]. rewrite T1.
  assert (Hu : u32 (bo + 1) = bo + 1) by (unfold u32; apply Z.mod_small; lia).
  rewrite Hu.
  destruct (read_field mem 0 n (bo + 1) (Unlz4.with_it s (S (Unlz4.it s))))
    as (s1 & E1 & I1 & H1 & P1 & O1); try lia.
  { exact Hh1. }
  { pose proof (Z.div_le_upper_bound n 255 n ltac:(lia) ltac:(lia)). lia. }
  cbn [Z.add] in E1. rewrite E1. cbn [bind].
  cbn [Unlz4.with_it Unlz4.it Unlz4.history Unlz4.pos Unlz4.out] in *.
  assert (R1 : ring pre text s1) by (apply (ring_same pre text s); assumption).
  assert (Hu3 : u32 (Unlz4.pos s1 + n) = Unlz4.pos s1 + n).
  { unfold u32. apply Z.mod_small. lia. }
  rewrite Hu3. subst n. rewrite Nat2Z.id.
  assert (Hh3 : holds mem (Unlz4.it s1) lits).
  { rewrite I1. exact Hh2. }
  unfold Unlz4.HISTORY_SIZE.
  destruct (Z.ltb_spec (Unlz4.pos s1 + Z.of_nat (length lits)) 65536).
  - destruct (Unlz4.copy_literals_fast mem (length lits) s1) as [s2 | | |] eqn:E2;
      cbn [bind]; try discriminate.
    intros E. inversion E. subst.
    destruct (copy_literals_fast_ring mem pre lits text s1 s' Hh3 R1 E2) as [R2 P2].
    split; [exact R2 | lia].
  - destruct (Unlz4.copy_literals_slow mem (length lits) s1) as [s2 | | |] eqn:E2;
      cbn [bind]; try discriminate.
    intros E. inversion E. subst.
    apply (copy_literals_slow_ring mem pre lits text s1 s' Hh3 R1); [lia | exact E2].
Qed.

Lemma match_run_ring (mem pre text : list byte) (q : Format.sequence)
    (token bo : Z) (s s' : Unlz4.state) (bo' : Z) :
  let field := Format.length_field (Format.matchLength q - 4) in
  holds mem (Unlz4.it s)
    ([z2b (Format.offset q); z2b (Z.shiftr (Format.offset q) 8)] ++ field) ->
  ring pre text s -> Unlz4.pos s < 65536 ->
  Format.sequence_shape q ->
  1 <= Format.offset q <= Z.of_nat (length text) ->
  Z.land token 15 = Z.min (Format.matchLength q - 4) 15 ->
  0 <= bo -> bo + 2 + Z.of_nat (length field) < 2147483648 ->
  Unlz4.match_run mem token bo s = Ok (bo', s') ->
  ring pre (copy_match (Z.to_nat (Format.matchLength q))
              (Z.to_nat (Format.offset q)) text) s'
  /\ Unlz4.pos s' < 65536.
Proof.
  cbn zeta. intros Hh Hr Hp (Ho & Hm) Hin Ht Hb Hb2.
  assert (P0 : 0 <= Unlz4.pos s) by (destruct Hr as (_ & ? & _); lia).
  cbn [app] in Hh.
  destruct (next_holds mem s _ _ Hh) as [E0 Hh1].
  destruct (next_holds mem (Unlz4.with_it s (S (Unlz4.it s))) _ _ Hh1)
    as [E1 Hh2].
  unfold Unlz4.match_run. rewrite E0. cbn [bind]. rewrite E1. cbn [bind].
  rewrite offset_bytes by exact Ho.
  destruct (Z.eqb_spec (Format.offset q) 0) as [Hz | Hz]; [lia|].
  rewrite Ht.
  assert (Hu : u32 (bo + 2) = bo + 2) by (unfold u32; apply Z.mod_small; lia).
  rewrite Hu.
  set (s0 := Unlz4.with_it (Unlz4.with_it s (S (Unlz4.it s)))
               (S (Unlz4.it (Unlz4.with_it s (S (Unlz4.it s)))))) in *.
  pose proof (length_length_field (Format.matchLength q - 4) ltac:(lia)) as Hf.
  assert (Hq : (Format.matchLength q - 4) / 255 <= Format.matchLength q - 4).
  { apply Z.div_le_upper_bound; lia. }
  destruct (read_field mem 4 (Format.matchLength q - 4) (bo + 2) s0)
    as (s1 & R1 & I1 & H1 & P1 & O1); try lia.
  { exact Hh2. }
  rewrite R1. cbn [bind].
  replace (4 + (Format.matchLength q - 4)) with (Format.matchLength q) by lia.
  assert (Rg : ring pre text s1).
  { apply (ring_same pre text s); try assumption. }
  assert (Hp1 : 0 <= Unlz4.pos s1 < 65536).
  { rewrite P1. subst s0. cbn. lia. }
  set (ml := Format.matchLength q) in *.
  set (delta := Format.offset q) in *.
  set (ref := if delta <=? Unlz4.pos s1 then Unlz4.pos s1 - delta
              else u32 (Unlz4.HISTORY_SIZE + Unlz4.pos s1 - delta)).
  assert (Hr' : 0 <= ref < 65536
                /\ (ref = Unlz4.pos s1 - delta \/ ref = Unlz4.pos s1 - delta + 65536)).
  { subst ref. unfold u32, Unlz4.HISTORY_SIZE in *.
    destruct (Z.leb_spec delta (Unlz4.pos s1)); [lia|].
    rewrite Z.mod_small; lia. }
  destruct Hr' as [Hr0 Hr1].
  assert (U1 : u32 (Unlz4.pos s1 + ml) = Unlz4.pos s1 + ml).
  { unfold u32. apply Z.mod_small. lia. }
  assert (U2 : u32 (ref + ml) = ref + ml).
  { unfold u32. apply Z.mod_small. lia. }
  rewrite U1, U2. unfold Unlz4.HISTORY_SIZE.
  assert (W : forall s2, Unlz4.copy_match_wrap (Z.to_nat ml) ref s1 = Ok s2 ->
                ring pre (copy_match (Z.to_nat ml) (Z.to_nat delta) text) s2
                /\ Unlz4.pos s2 < 65536).
  { intros s2 E2.
    apply (copy_match_wrap_ring pre delta (Z.to_nat ml) ltac:(lia) text ref s1 s2);
      try assumption; lia. }
  destruct (Z.ltb_spec (Unlz4.pos s1 + ml) 65536) as [C1 | C1];
    destruct (Z.ltb_spec (ref + ml) 65536) as [C2 | C2];
    cbn [andb].
  - destruct (Z.leb_spec (ref + ml) (Unlz4.pos s1)) as [C3 | C3]; cbn [orb];
      [|destruct (Z.leb_spec (Unlz4.pos s1 + ml) ref) as [C4 | C4]].
    + destruct (Unlz4.memcpy_match ref ml s1) as [s2 | | |] eqn:E2;
        cbn [bind]; try discriminate.
      intros E. inversion E. subst.
      destruct (memcpy_match_ring pre text delta ref ml s1 s' Rg) as [R2 P2];
        try assumption; try lia.
      split; [exact R2 | lia].
    + destruct (Unlz4.memcpy_match ref ml s1) as [s2 | | |] eqn:E2;
        cbn [bind]; try discriminate.
      intros E. inversion E. subst.
      destruct (memcpy_match_ring pre text delta ref ml s1 s' Rg) as [R2 P2];
        try assumption; try lia.
      split; [exact R2 | lia].
    + destruct (Unlz4.copy_match_overlap (Z.to_nat ml) ref s1) as [s2 | | |] eqn:E2;
        cbn [bind]; try discriminate.
      intros E. inversion E. subst.
      destruct (copy_match_overlap_ring pre delta (Z.to_nat ml) ltac:(lia)
                  text ref s1 s' Rg) as [R2 P2]; try assumption; try lia.
      split; [exact R2 | lia].
  - destruct (Unlz4.copy_match_wrap (Z.to_nat ml) ref s1) as [s2 | | |] eqn:E2;
      cbn [bind]; try discriminate.
    intros E. inversion E. subst. apply W. reflexivity.
  - destruct (Unlz4.copy_match_wrap (Z.to_nat ml) ref s1) as [s2 | | |] eqn:E2;
      cbn [bind]; try discriminate.
    intros E. inversion E. subst. apply W. reflexivity.
  - destruct (Unlz4.copy_match_wrap (Z.to_nat ml) ref s1) as [s2 | | |] eqn:E2;
      cbn [bind]; try discriminate.
    intros E. inversion E. subst. apply W. reflexivity.
Qed.

Lemma sequence_text (mem pre text : list byte) (q : Format.sequence) (bs bo : Z)
    (s : Unlz4.state) :
  holds mem (Unlz4.it s) (Format.sequence_bytes q) ->
  ring pre text s -> Unlz4.pos s < 65536 ->
  Format.sequence_shape q ->
  1 <= Format.offset q <= Z.of_nat (length (text ++ Format.literals q)) ->
  0 <= bo -> bo + Z.of_nat (length (Format.sequence_bytes q)) <= bs ->
  bs < 2147483648 ->
  exists s',
    Unlz4.sequence mem bs bo s
    = Ok (inr (bo + Z.of_nat (length (Format.sequence_bytes q)), s'))
    /\ Unlz4.it s' = (Unlz4.it s + length (Format.sequence_bytes q))%nat
    /\ ring pre (expand_sequence text q) s'
    /\ Unlz4.pos s' < 65536.
Proof.
  intros Hh Hr Hp Hq Hin Hb Hb2 Hbs.
  pose proof (ring_dwf pre text s Hr Hp) as D.
  pose proof (length_sequence_bytes q) as HL.
  unfold Format.sequence_bytes in Hh. cbn zeta in Hh.
  set (F1 := Format.length_field (Z.of_nat (length (Format.literals q)))) in *.
  set (F2 := Format.length_field (Format.matchLength q - 4)) in *.
  set (tok := Format.token (Z.of_nat (length (Format.literals q)))
                (Format.matchLength q - 4)) in *.
  apply holds_app in Hh. destruct Hh as [HA Hh].
  apply holds_app in Hh. destruct Hh as [HB Hh].
  apply holds_app in Hh. destruct Hh as [HC HD].
  cbn [length] in HB, HC, HD.
  assert (Hh12 : holds mem (Unlz4.it s) ([tok] ++ F1 ++ Format.literals q)).
  { apply holds_app. split; [exact HA|].
    apply holds_app. split; [exact HB | exact HC]. }
  pose proof Hq as (Ho & Hm).
  destruct (literal_run_ok mem (Format.literals q) (Format.matchLength q - 4)
              bo s Hh12 D ltac:(lia) Hb ltac:(fold F1; lia))
    as (s1 & E1 & I1 & D1).
  destruct (literal_run_ring mem pre text (Format.literals q)
              (Format.matchLength q - 4) bo s s1 _ _ Hh12 Hr Hp
              ltac:(lia) Hb ltac:(fold F1; lia) E1) as [R1 P1].
  fold F1 in E1, I1. fold tok in E1.
  unfold Unlz4.sequence. rewrite E1. cbn [bind].
  match goal with
  | |- context [?a =? bs] => destruct (Z.eqb_spec a bs); [lia|]
  end.
  destruct (token_fields (Z.of_nat (length (Format.literals q)))
              (Format.matchLength q - 4) ltac:(lia) ltac:(lia)) as [_ T2].
  fold tok in T2.
  pose proof (match_run_ok mem q (b2z tok)
                (bo + 1 + Z.of_nat (length F1)
                 + Z.of_nat (length (Format.literals q))) s1) as M.
  cbn zeta in M. fold F2 in M.
  assert (Hh4 : holds mem (Unlz4.it s1)
                  ([z2b (Format.offset q); z2b (Z.shiftr (Format.offset q) 8)]
                   ++ F2)).
  { rewrite I1. exact HD. }
  specialize (M Hh4 D1 (conj Ho Hm) T2 ltac:(lia) ltac:(lia)).
  destruct (Z.eqb_spec (Format.offset q) 0); [lia|].
  destruct M as (s2 & E2 & I2 & D2).
  destruct (match_run_ring mem pre (text ++ Format.literals q) q (b2z tok)
              (bo + 1 + Z.of_nat (length F1)
               + Z.of_nat (length (Format.literals q)))
              s1 s2 _ Hh4 R1 P1 Hq Hin T2 ltac:(lia) ltac:(fold F2; lia) E2)
    as [R2 P2].
  rewrite E2. cbn [bind].
  exists s2. split; [|split; [|split; [exact R2 | exact P2]]].
  - do 3 f_equal. lia.
  - lia.
Qed.

Lemma last_text (mem pre text : list byte) (l : list byte) (bs bo : Z)
    (s : Unlz4.state) :
  holds mem (Unlz4.it s) (Format.last_bytes l) ->
  ring pre text s -> Unlz4.pos s < 65536 ->
  0 <= bo -> bo + Z.of_nat (length (Format.last_bytes l)) = bs ->
  bs < 2147483648 ->
  exists s',
    Unlz4.sequence mem bs bo s = Ok (inl s')
    /\ Unlz4.it s' = (Unlz4.it s + length (Format.last_bytes l))%nat
    /\ ring pre (text ++ l) s'
    /\ Unlz4.pos s' < 65536.
Proof.
  intros Hh Hr Hp Hb Hb2 Hbs.
  pose proof (ring_dwf pre text s Hr Hp) as D.
  unfold Format.last_bytes in *. cbn zeta in *.
  rewrite !length_app in *. cbn [length] in Hb2 |- *.
  destruct (literal_run_ok mem l 0 bo s Hh D ltac:(lia) Hb ltac:(lia))
    as (s1 & E1 & I1 & D1).
  destruct (literal_run_ring mem pre text l 0 bo s s1 _ _ Hh Hr Hp
              ltac:(lia) Hb ltac:(lia) E1) as [R1 P1].
  unfold Unlz4.sequence. rewrite E1. cbn [bind].
  match goal with
  | |- context [?a =? bs] => destruct (Z.eqb_spec a bs); [|lia]
  end.
  exists s1. split; [reflexivity|]. split; [lia|]. split; [exact R1 | exact P1].
Qed.

Lemma compressed_block_text (mem pre : list byte) (ss : list Format.sequence)
    (l : list byte) (bs : Z) :
  Forall Format.sequence_shape ss ->
  bs < 2147483648 ->
  forall (fuel : nat) (bo : Z) (s : Unlz4.state) (text : list byte),
    holds mem (Unlz4.it s) (concat (map Format.sequence_bytes ss)
                            ++ Format.last_bytes l) ->
    ring pre text s -> Unlz4.pos s < 65536 ->
    seqs_inside text ss ->
    0 <= bo ->
    bo + Z.of_nat (length (concat (map Format.sequence_bytes ss)
                           ++ Format.last_bytes l)) = bs ->
    (length ss < fuel)%nat ->
    exists s',
      Unlz4.compressed_block mem fuel bs bo s = Ok s'
      /\ Unlz4.it s'
         = (Unlz4.it s + length (concat (map Format.sequence_bytes ss)
                                 ++ Format.last_bytes l))%nat
      /\ ring pre (fold_left expand_sequence ss text ++ l) s'
      /\ Unlz4.pos s' < 65536.
Proof.
  intros Hss Hbs. induction Hss as [|q ss Hq Hss IH];
    intros fuel bo s text Hh Hr Hp Hin Hb Hb2 Hf;
    (destruct fuel as [|fuel]; [lia|]); cbn [Unlz4.compressed_block].
  - cbn [map concat app fold_left] in *.
    pose proof (length_last_bytes l).
    destruct (Z.ltb_spec bo bs); [|lia].
    destruct (last_text mem pre text l bs bo s Hh Hr Hp Hb Hb2 Hbs)
      as (s' & E & I & R & P).
    rewrite E. cbn [bind]. eauto.
  - cbn [map concat fold_left] in *. rewrite <- app_assoc in Hh, Hb2 |- *.
    rewrite length_app in Hb2 |- *.
    pose proof (length_last_bytes l).
    assert (HL : (1 <= length (concat (map Format.sequence_bytes ss)
                               ++ Format.last_bytes l))%nat).
    { rewrite length_app. lia. }
    destruct (Z.ltb_spec bo bs); [|lia].
    apply holds_app in Hh. destruct Hh as [Hh1 Hh2].
    destruct Hin as [Hin1 Hin2].
    destruct (sequence_text mem pre text q bs bo s Hh1 Hr Hp Hq Hin1 Hb
                ltac:(lia) Hbs) as (s1 & E1 & I1 & R1 & P1).
    rewrite E1. cbn [bind]. cbn [length] in Hf.
    destruct (IH fuel (bo + Z.of_nat (length (Format.sequence_bytes q))) s1
                (expand_sequence text q))
      as (s' & E' & I' & R' & P');
      [rewrite I1; exact Hh2 | exact R1 | exact P1 | exact Hin2 | lia | lia
      | lia |].
    exists s'. split; [exact E'|]. split; [lia|]. split; [exact R' | exact P'].
Qed.

Lemma raw_block_text (mem pre text : list byte) (p : list byte)
    (s : Unlz4.state) :
  holds mem (Unlz4.it s) p ->
  ring pre text s -> Unlz4.pos s < 65536 ->
  exists s',
    Unlz4.raw_block mem (Z.of_nat (length p)) s = Ok s'
    /\ Unlz4.it s' = (Unlz4.it s + length p)%nat
    /\ ring pre (text ++ p) s'
    /\ Unlz4.pos s' < 65536.
Proof.
  intros Hh Hr Hp.
  destruct (raw_block_ok mem p s Hh (ring_dwf pre text s Hr Hp))
    as (s' & E & I & D).
  exists s'. split; [exact E|]. split; [exact I|].
  unfold Unlz4.raw_block in E. rewrite Nat2Z.id in E.
  apply (copy_literals_slow_ring mem pre p text s s'); assumption.
Qed.

Lemma blocks_text (mem pre : list byte) (bl : list Format.block) :
  Forall Format.block_shape bl ->
  forall (fuel : nat) (s : Unlz4.state) (text : list byte),
    holds mem (Unlz4.it s) (concat (map Format.block_bytes bl) ++ le32 0) ->
    ring pre text s -> Unlz4.pos s < 65536 ->
    blocks_inside text bl ->
    (length bl < fuel)%nat ->
    exists s',
      Unlz4.blocks mem fuel false s = Ok s'
      /\ ring pre (fold_left expand_block bl text) s'.
Proof.
  intros Hbl. induction Hbl as [|b bl Hb Hbl IH];
    intros fuel s text Hh Hr Hp Hin Hf;
    (destruct fuel as [|fuel]; [cbn [length] in Hf; lia|]);
    cbn [Unlz4.blocks].
  - cbn [map concat app fold_left] in *.
    rewrite (read_u32_ok mem 0 s) by (lia || exact Hh). cbn [bind].
    cbn [Z.land Z.eqb].
    eexists. split; [reflexivity|]. apply ring_with_it. exact Hr.
  - cbn [map concat length fold_left] in *. rewrite <- app_assoc in Hh.
    apply holds_app in Hh. destruct Hh as [Hh1 Hh2].
    assert (HLb : length (Format.block_bytes b)
                  = (4 + length (Format.payload b))%nat).
    { unfold Format.block_bytes. cbn zeta. rewrite length_app. reflexivity. }
    rewrite HLb in Hh2.
    unfold Format.block_bytes in Hh1. cbn zeta in Hh1.
    apply holds_app in Hh1. destruct Hh1 as [Hq1 Hq].
    replace (length (le32 (match b with
                           | Format.Raw _ =>
                               Z.lor (Z.of_nat (length (Format.payload b))) 2147483648
                           | Format.Compressed _ _ =>
                               Z.of_nat (length (Format.payload b))
                           end))) with 4%nat in * by reflexivity.
    destruct Hb as (Hsz & Hsh). destruct Hin as [Hin1 Hin2].
    set (n := Z.of_nat (length (Format.payload b))) in *.
    set (s1 := Unlz4.with_it s (Unlz4.it s + 4)).
    assert (R1 : ring pre text s1) by (apply ring_with_it; exact Hr).
    pose proof (holds_length mem _ _ Hq) as HLm.
    destruct b as [p | ss l]; cbn [Format.payload expand_block] in *.
    + assert (Ht : 0 <= Z.lor n 2147483648 < 4294967296)
        by (rewrite tagged_value by lia; lia).
      rewrite (read_u32_ok mem (Z.lor n 2147483648) s Ht Hq1).
      cbn [bind]. fold s1.
      rewrite land_bit31_tagged by lia. cbn [Z.eqb].
      destruct (tagged_size n ltac:(lia)) as [_ T]. rewrite T.
      destruct (Z.eqb_spec n 0); [lia|].
      destruct (raw_block_text mem pre text p s1 Hq R1 Hp)
        as (s2 & E2 & I2 & R2 & P2).
      fold n in E2. rewrite E2. cbn [bind].
      apply (IH fuel s2 (text ++ p)); try assumption; [|lia].
      rewrite I2. subst s1. cbn [Unlz4.with_it Unlz4.it].
      rewrite <- Nat.add_assoc. exact Hh2.
    + rewrite (read_u32_ok mem n s) by (lia || exact Hq1).
      cbn [bind]. fold s1.
      rewrite land_bit31_small by lia. cbn [Z.eqb].
      rewrite land_low31_small by lia.
      destruct (Z.eqb_spec n 0); [lia|].
      pose proof (length_sequences ss) as Hls.
      assert (Hne : concat (map Format.sequence_bytes ss) ++ Format.last_bytes l
                    <> []).
      { intros C. apply (f_equal (@length byte)) in C.
        rewrite length_app in C. pose proof (length_last_bytes l).
        cbn [length] in C. lia. }
      specialize (HLm Hne). rewrite length_app in HLm.
      destruct (compressed_block_text mem pre ss l n Hsh ltac:(lia)
                  (S (length mem)) 0 s1 text Hq R1 Hp Hin1 ltac:(lia)
                  ltac:(subst n; lia))
        as (s2 & E2 & I2 & R2 & P2); [lia|].
      rewrite E2. cbn [bind].
      apply (IH fuel s2); try assumption; [|lia].
      rewrite I2. subst s1. cbn [Unlz4.with_it Unlz4.it].
      rewrite <- Nat.add_assoc. exact Hh2.
Qed.

Lemma frame_text (history0 : list byte) (flags bd : byte)
    (contentSize dictID : list byte) (hc : byte) (bl : list Format.block)
    (end_ : nat) (o : sink) :
  length history0 = Z.to_nat Unlz4.HISTORY_SIZE ->
  Format.descriptor_shape flags contentSize dictID ->
  Forall Format.block_shape bl ->
  blocks_inside [] bl ->
  wf_sink o ->
  let mem := Format.frame flags bd contentSize dictID hc bl in
  exists (n : nat) (o' : sink),
    Unlz4.unlz4 history0 mem 0 end_ o Unlz4.NoDictionary = Ok (n, o')
    /\ written o' = written o ++ expand bl.
Proof.
  intros Hl (Hv & Hbc & Hcc & Hcs & Hdi) Hbl Hin Ho. cbn zeta.
  set (mem := Format.frame flags bd contentSize dictID hc bl).
  pose proof (holds_self mem) as Hh. unfold mem at 2 in Hh.
  unfold Format.frame in Hh.
  apply holds_app in Hh. destruct Hh as [Hmagic Hh].
  cbn [length Nat.add] in Hh.
  apply holds_app in Hh. destruct Hh as [Hdesc Hblocks].
  rewrite (unlz4_signature history0 mem 0 end_ o _ _ _ _ _ Hmagic).
  change (b2z x04 + 256 * b2z x22 + 65536 * b2z x4d + 16777216 * b2z x18
          =? 407708164) with true. cbn match.
  unfold Format.descriptor in Hdesc, Hblocks.
  pose proof Hdesc as Hflags. cbn [app] in Hflags.
  apply holds_cons in Hflags. destruct Hflags as [Hflags _].
  rewrite (next_at mem _ flags) by exact Hflags. cbn [bind].
  unfold after_flags. rewrite Hv, Hbc, Hcc. cbn [Z.eqb Pos.eqb negb bind].
  cbn [Unlz4.with_it Unlz4.it Unlz4.history Unlz4.pos Unlz4.out].
  set (s' := {| Unlz4.it := _; Unlz4.history := history0; Unlz4.pos := 0;
                Unlz4.out := o |}).
  assert (R : ring (written o) [] s').
  { unfold ring. subst s'. cbn [Unlz4.history Unlz4.pos Unlz4.out length].
    change (Z.to_nat 0) with 0%nat.
    split; [exact Hl|]. split; [lia|]. split; [exact Ho|]. split; [lia|].
    split; [cbn; rewrite app_nil_r; reflexivity|].
    split; intros j Hj; [lia|]. intros Hj'. lia. }
  assert (Hh' : holds mem (Unlz4.it s')
                  (concat (map Format.block_bytes bl) ++ le32 0)).
  { subst s'. cbn [Unlz4.it].
    match goal with
    | H : holds mem ?i ?x |- holds mem ?j ?x =>
        replace j with i; [exact H|]
    end.
    rewrite !length_app. cbn [length].
    destruct (Z.eqb_spec (Z.land (b2z flags) 8) 0),
      (Z.eqb_spec (Z.land (b2z flags) 1) 0);
      cbn [negb length]; rewrite ?Hcs, ?Hdi by assumption; lia. }
  assert (Hf : (length bl < S (length mem))%nat).
  { pose proof (length_blocks bl).
    pose proof (holds_length mem _ _ Hh') as HL.
    rewrite length_app in HL.
    specialize (HL ltac:(destruct (concat _); discriminate)). lia. }
  destruct (blocks_text mem (written o) bl Hbl (S (length mem)) s' [] Hh' R
              ltac:(subst s'; cbn; lia) Hin Hf) as (s2 & E2 & R2).
  rewrite E2. cbn [bind].
  eexists. eexists. split; [reflexivity|].
  apply (ring_written (written o) _ s2 R2).
Qed.

(** ** The matches of the encoder *)

Lemma byte_at_range (input : list byte) (p : Z) :
  0 <= Smallz4.byte_at input p < 256.
Proof.
  unfold Smallz4.byte_at. destruct (p <? 0); [lia | apply b2z_range].
Qed.

Lemma load32_value (input : list byte) (a : Z) :
  Smallz4.load32 input a
  = Smallz4.byte_at input a + 256 * Smallz4.byte_at input (a + 1)
    + 65536 * Smallz4.byte_at input (a + 2)
    + 16777216 * Smallz4.byte_at input (a + 3).
Proof.
  unfold Smallz4.load32.
  pose proof (byte_at_range input a). pose proof (byte_at_range input (a + 1)).
  pose proof (byte_at_range input (a + 2)).
  pose proof (byte_at_range input (a + 3)).
  rewrite (lor_shiftl_add 8) by (change (2 ^ 8) with 256; lia).
  rewrite (lor_shiftl_add 16) by (change (2 ^ 8) with 256;
                                   change (2 ^ 16) with 65536; lia).
  rewrite (lor_shiftl_add 24) by (change (2 ^ 8) with 256;
                                   change (2 ^ 16) with 65536;
                                   change (2 ^ 24) with 16777216; lia).
  change (2 ^ 8) with 256. change (2 ^ 16) with 65536.
  change (2 ^ 24) with 16777216. lia.
Qed.

Lemma load32_bytes (input : list byte) (a b : Z) :
  Smallz4.load32 input a = Smallz4.load32 input b ->
  forall k, 0 <= k < 4 ->
    Smallz4.byte_at input (a + k) = Smallz4.byte_at input (b + k).
Proof.
  rewrite !load32_value. intros E k Hk.
  pose proof (byte_at_range input a). pose proof (byte_at_range input (a + 1)).
  pose proof (byte_at_range input (a + 2)).
  pose proof (byte_at_range input (a + 3)).
  pose proof (byte_at_range input b). pose proof (byte_at_range input (b + 1)).
  pose proof (byte_at_range input (b + 2)).
  pose proof (byte_at_range input (b + 3)).
  assert (K : k = 0 \/ k = 1 \/ k = 2 \/ k = 3) by lia.
  destruct K as [-> | [-> | [-> | ->]]]; rewrite ?Z.add_0_r; lia.
Qed.

Lemma match4_bytes (input : list byte) (a b : Z) :
  Smallz4.match4 input a b = true ->
  forall y, a <= y < a + 4 ->
    Smallz4.byte_at input y = Smallz4.byte_at input (y - (a - b)).
Proof.
  unfold Smallz4.match4. intros E y Hy. apply Z.eqb_eq in E.
  pose proof (load32_bytes input a b E (y - a) ltac:(lia)) as B.
  replace (a + (y - a)) with y in B by lia.
  replace (b + (y - a)) with (y - (a - b)) in B by lia. exact B.
Qed.

Lemma phase1_bytes (input : list byte) (n : nat) (cur T ph1 : Z) :
  let r := Smallz4.phase1_loop input n cur T ph1 in
  r <= ph1
  /\ (cur - 4 < ph1 -> cur - 4 < r)
  /\ forall y, r + 4 <= y < ph1 + 4 ->
       Smallz4.byte_at input y = Smallz4.byte_at input (y - T).
Proof.
  revert ph1. induction n as [|n IH]; intros ph1; cbn [Smallz4.phase1_loop].
  - cbn zeta. split; [lia|]. split; [tauto|]. intros y Hy. lia.
  - destruct (Z.gtb_spec ph1 cur) as [Hg | Hg]; cbn [andb].
    + destruct (Smallz4.match4 input ph1 (ph1 - T)) eqn:M.
      * destruct (IH (ph1 - 4)) as (I1 & I2 & I3). cbn zeta.
        split; [lia|]. split; [intros; apply I2; lia|].
        intros y Hy. destruct (Z.lt_ge_cases y ph1).
        -- apply I3. lia.
        -- pose proof (match4_bytes input ph1 (ph1 - T) M y ltac:(lia)) as B.
           replace (ph1 - (ph1 - T)) with T in B by lia. exact B.
      * cbn zeta. split; [lia|]. split; [tauto|]. intros y Hy. lia.
    + cbn zeta. split; [lia|]. split; [tauto|]. intros y Hy. lia.
Qed.

Lemma phase2_fast_bytes (input : list byte) (n : nat) (stop T p2 : Z) :
  let r := Smallz4.phase2_fast input n stop T p2 in
  p2 <= r
  /\ forall y, p2 <= y < r ->
       Smallz4.byte_at input y = Smallz4.byte_at input (y - T).
Proof.
  revert p2. induction n as [|n IH]; intros p2; cbn [Smallz4.phase2_fast].
  - cbn zeta. split; [lia|]. intros y Hy. lia.
  - destruct (p2 + 4 <=? stop); cbn [andb].
    + destruct (Smallz4.match4 input p2 (p2 - T)) eqn:M.
      * destruct (IH (p2 + 4)) as (I1 & I2). cbn zeta.
        split; [lia|].
        intros y Hy. destruct (Z.lt_ge_cases y (p2 + 4)).
        -- pose proof (match4_bytes input p2 (p2 - T) M y ltac:(lia)) as B.
           replace (p2 - (p2 - T)) with T in B by lia. exact B.
        -- apply I2. lia.
      * cbn zeta. split; [lia|]. intros y Hy. lia.
    + cbn zeta. split; [lia|]. intros y Hy. lia.
Qed.

Lemma phase2_slow_bytes (input : list byte) (n : nat) (stop T p2 : Z) :
  let r := Smallz4.phase2_slow input n stop T p2 in
  p2 <= r
  /\ forall y, p2 <= y < r ->
       Smallz4.byte_at input y = Smallz4.byte_at input (y - T).
Proof.
  revert p2. induction n as [|n IH]; intros p2; cbn [Smallz4.phase2_slow].
  - cbn zeta. split; [lia|]. intros y Hy. lia.
  - destruct (p2 <? stop); cbn [andb].
    + destruct (Z.eqb_spec (Smallz4.byte_at input p2)
                  (Smallz4.byte_at input (p2 - T))) as [M | M].
      * destruct (IH (p2 + 1)) as (I1 & I2). cbn zeta.
        split; [lia|].
        intros y Hy. destruct (Z.eq_dec y p2) as [-> | Hne]; [exact M|].
        apply I2. lia.
      * cbn zeta. split; [lia|]. intros y Hy. lia.
    + cbn zeta. split; [lia|]. intros y Hy. lia.
Qed.

Lemma phase2_slow_reaches (input : list byte) (n : nat) (stop T lim p2 : Z) :
  lim <= stop ->
  (forall y, p2 <= y < lim ->
     Smallz4.byte_at input y = Smallz4.byte_at input (y - T)) ->
  lim - p2 <= Z.of_nat n ->
  lim <= Smallz4.phase2_slow input n stop T p2 \/ lim <= p2.
Proof.
  revert p2. induction n as [|n IH]; intros p2 Hl Hb Hn;
    cbn [Smallz4.phase2_slow].
  - right. lia.
  - destruct (Z.le_gt_cases lim p2) as [Hd | Hd]; [right; exact Hd|]. left.
    destruct (Z.ltb_spec p2 stop); [|lia]. cbn [andb].
    rewrite (Hb p2) by lia. rewrite Z.eqb_refl.
    destruct (IH (p2 + 1)) as [I | I]; try lia.
    + intros y Hy. apply Hb. lia.
    + pose proof (phase2_slow_bytes input n stop T (p2 + 1)) as [P _]. lia.
Qed.

Lemma chain_loop_valid (input : list byte) (R : Z -> Prop) (p stop : Z)
    (lh ph pe : Smallz4.table) :
  chains input R p lh ph pe ->
  p + 4 <= stop -> stop - p < 4294967296 ->
  forall (n : nat) (distance T steps rl rd : Z),
    R (p - T) -> 0 <= T <= 65535 ->
    (T = 0 \/ Smallz4.load32 input (p - T) = Smallz4.load32 input p) ->
    distance = u16 (pe (Z.land (p - T) 65535)) ->
    (rl = 1 \/ (4 <= rl /\ valid_match input p rl rd)) ->
    let r := Smallz4.chain_loop input n p p stop pe distance T steps rl rd in
    fst r = 1 \/ (4 <= fst r /\ valid_match input p (fst r) (snd r)).
Proof.
  intros (C1 & _ & _ & C4) Hstop Hsz.
  induction n as [|n IH]; intros distance T steps rl rd HR HT Hl Hd Hrl;
    cbn [Smallz4.chain_loop]; [exact Hrl|].
  unfold Smallz4.EndOfChain, Smallz4.MaxDistance. cbn zeta.
  destruct (Z.eqb_spec distance 0) as [Hz | Hz]; [exact Hrl|].
  pose proof (u16_range (pe (Z.land (p - T) 65535))) as Hdr.
  rewrite <- Hd in Hdr.
  assert (Hu : u32 (T + distance) = T + distance)
    by (unfold u32; apply Z.mod_small; lia).
  rewrite Hu.
  destruct (Z.gtb_spec (T + distance) 65535) as [Hg | Hg]; [exact Hrl|].
  destruct (C4 (p - T) HR ltac:(lia)) as [C | [CR CL]];
    [cbn zeta in C; rewrite <- Hd in C; contradiction|].
  cbn zeta in CR, CL. rewrite <- Hd in CR, CL.
  replace (p - T - distance) with (p - (T + distance)) in CR, CL by lia.
  assert (HL : Smallz4.load32 input (p - (T + distance)) = Smallz4.load32 input p).
  { rewrite <- CL. destruct Hl as [-> | Hl]; [f_equal; lia | exact Hl]. }
  pose proof (C1 _ CR) as Hc0.
  destruct (Z.gtb_spec (p + rl + 1) stop) as [Ha | Ha]; [exact Hrl|].
  set (T' := T + distance) in *.
  pose proof (phase1_bytes input (Z.to_nat (p + rl + 1 - 4 - p)) p T'
                (p + rl + 1 - 4)) as (P1 & P2 & P3).
  set (ph1 := Smallz4.phase1_loop input _ p T' _) in *.
  destruct (Z.gtb_spec ph1 p) as [Hp1 | Hp1].
  { apply IH; [exact CR | lia | right; exact HL | reflexivity | exact Hrl]. }
  pose proof (phase2_fast_bytes input (Z.to_nat (stop - (p + rl + 1))) stop T'
                (p + rl + 1)) as (F1 & F2).
  pose proof (phase2_fast_range input (Z.to_nat (stop - (p + rl + 1))) stop T'
                (p + rl + 1) ltac:(lia)) as F3.
  set (ph2f := Smallz4.phase2_fast input _ stop T' _) in *.
  pose proof (phase2_slow_bytes input (Z.to_nat (stop - ph2f)) stop T' ph2f)
    as (S1 & S2).
  pose proof (phase2_slow_range input (Z.to_nat (stop - ph2f)) stop T' ph2f
                ltac:(lia)) as S3.
  assert (B4 : forall y, p <= y < p + 4 ->
                 Smallz4.byte_at input y = Smallz4.byte_at input (y - T')).
  { intros y Hy. symmetry in HL.
    pose proof (load32_bytes input _ _ HL (y - p) ltac:(lia)) as B.
    replace (p + (y - p)) with y in B by lia.
    replace (p - T' + (y - p)) with (y - T') in B by lia. exact B. }
  pose proof (phase2_slow_reaches input (Z.to_nat (stop - ph2f)) stop T' (p + 4)
                ph2f Hstop) as S4.
  set (ph2 := Smallz4.phase2_slow input _ stop T' ph2f) in *.
  assert (S5 : p + 4 <= ph2).
  { destruct S4 as [S4 | S4]; try lia.
    intros y Hy. apply B4. destruct Hrl as [-> | [Hr4 _]]; lia. }
  assert (Hu2 : u32 (ph2 - p) = ph2 - p) by (unfold u32; apply Z.mod_small; lia).
  assert (Hu3 : u16 T' = T') by (unfold u16; apply Z.mod_small; lia).
  rewrite Hu2, Hu3.
  assert (V : 4 <= ph2 - p /\ valid_match input p (ph2 - p) T').
  { split; [lia|]. unfold valid_match. split; [lia|]. split; [lia|].
    intros k Hk.
    destruct (Z.lt_ge_cases (p + k) (p + 4)); [apply B4; lia|].
    destruct (Z.lt_ge_cases (p + k) (p + rl + 1)); [apply P3; lia|].
    destruct (Z.lt_ge_cases (p + k) ph2f); [apply F2; lia|].
    apply S2. lia. }
  destruct (u16 (steps - 1) =? 0); [right; exact V|].
  apply IH; [exact CR | lia | right; exact HL | reflexivity | right; exact V].
Qed.

Lemma findLongestMatch_valid (L : Z) (input : list byte) (R : Z -> Prop)
    (p end_ data : Z) (lh ph pe : Smallz4.table) (rd : Z) :
  chains input R p lh ph pe -> R p ->
  p + 4 <= end_ -> end_ - p < 4294967296 ->
  let r := Smallz4.findLongestMatch L input data p data end_ pe rd in
  fst r = 1 \/ (4 <= fst r /\ valid_match input p (fst r) (snd r)).
Proof.
  intros C HR He Hs. unfold Smallz4.findLongestMatch, Smallz4.JustLiteral.
  cbn zeta.
  replace (data + p - data) with p by lia.
  replace (p + end_ - p) with end_ by lia.
  apply (chain_loop_valid input R p end_ lh ph pe C He Hs).
  - rewrite Z.sub_0_r. exact HR.
  - lia.
  - left. reflexivity.
  - rewrite Z.sub_0_r. reflexivity.
  - left. reflexivity.
Qed.

Lemma slot_mod (q : Z) : Z.land q 65535 = q mod 65536.
Proof. change 65535 with (Z.ones 16). apply Z.land_ones. lia. Qed.

Lemma slot_inj (p q : Z) :
  p - 65536 < q <= p -> Z.land q 65535 = Z.land p 65535 -> q = p.
Proof.
  rewrite !slot_mod. intros H E. Z.div_mod_to_equations. lia.
Qed.

Lemma chains_update (input : list byte) (R : Z -> Prop) (hi p : Z)
    (lh ph pe : Smallz4.table) (h dh de : Z) :
  chains input R hi lh ph pe ->
  hi <= p -> 0 <= p ->
  0 <= dh <= 65535 -> (dh = 0 \/ R (p - dh)) ->
  0 <= de <= 65535 ->
  (de = 0 \/ (R (p - de)
              /\ Smallz4.load32 input p = Smallz4.load32 input (p - de))) ->
  chains input (fun q => R q \/ q = p) p
    (Smallz4.tset lh h p)
    (Smallz4.tset ph (Z.land p 65535) dh)
    (Smallz4.tset pe (Z.land p 65535) de).
Proof.
  intros (C1 & C2 & C3 & C4) Hhi Hp Hdh Hh Hde He.
  unfold chains, Smallz4.tset.
  split; [|split; [|split]].
  - intros q [Hq | ->]; [specialize (C1 q Hq)|]; lia.
  - intros h'. destruct (h' =? h); [right; right; reflexivity|].
    destruct (C2 h') as [E | E]; [left | right; left]; exact E.
  - intros q Hq Hw. cbn zeta.
    destruct (Z.eqb_spec (Z.land q 65535) (Z.land p 65535)) as [E | E].
    + assert (q = p).
      { apply slot_inj; [|exact E].
        destruct Hq as [Hq | ->]; [specialize (C1 q Hq)|]; lia. }
      subst q. unfold u16. rewrite Z.mod_small by lia.
      destruct Hh as [Hh | Hh]; [left; exact Hh | right; left; exact Hh].
    + destruct Hq as [Hq | ->]; [|contradiction].
      destruct (C3 q Hq ltac:(lia)) as [D | D]; [left | right; left]; exact D.
  - intros q Hq Hw. cbn zeta.
    destruct (Z.eqb_spec (Z.land q 65535) (Z.land p 65535)) as [E | E].
    + assert (q = p).
      { apply slot_inj; [|exact E].
        destruct Hq as [Hq | ->]; [specialize (C1 q Hq)|]; lia. }
      subst q. unfold u16. rewrite Z.mod_small by lia.
      destruct He as [He | [He1 He2]]; [left; exact He | right].
      split; [left; exact He1 | exact He2].
    + destruct Hq as [Hq | ->]; [|contradiction].
      destruct (C4 q Hq ltac:(lia)) as [D | [D1 D2]]; [left; exact D | right].
      split; [left; exact D1 | exact D2].
Qed.

Lemma chains_later (input : list byte) (R : Z -> Prop) (hi p : Z)
    (lh ph pe : Smallz4.table) :
  chains input R hi lh ph pe -> hi <= p -> chains input R p lh ph pe.
Proof.
  intros (C1 & C2 & C3 & C4) Hhi. unfold chains.
  split; [|split; [|split]].
  - intros q Hq. specialize (C1 q Hq). lia.
  - exact C2.
  - intros q Hq Hw. apply C3; [exact Hq | lia].
  - intros q Hq Hw. apply C4; [exact Hq | lia].
Qed.

Lemma exact_walk_valid (input : list byte) (R : Z -> Prop) (hi p : Z)
    (w : Smallz4.window) (lh ph pe : Smallz4.table) (four hash dh : Z) :
  chains input R hi lh ph pe ->
  hi <= p -> p < 18446744073709551616 ->
  Smallz4.data_ptr w = Smallz4.dataZero w ->
  four = Smallz4.load32 input p ->
  forall (n : nat) (lhm dist : Z),
    R lhm -> dist = p - lhm -> 0 <= dist <= 65535 ->
    let r := Smallz4.exact_walk input n w (Smallz4.tset ph (Z.land p 65535) dh)
               four hash lhm dist in
    fst r = four ->
    0 <= snd r <= 65535 /\ R (p - snd r)
    /\ Smallz4.load32 input p = Smallz4.load32 input (p - snd r).
Proof.
  intros (C1 & C2 & C3 & C4) Hhi Hp Hw Hfour.
  assert (Here : forall lhm dist, R lhm -> dist = p - lhm -> 0 <= dist <= 65535 ->
                   Smallz4.load32 input lhm = four ->
                   0 <= dist <= 65535 /\ R (p - dist)
                   /\ Smallz4.load32 input p = Smallz4.load32 input (p - dist)).
  { intros lhm dist HR -> Hd E. replace (p - (p - lhm)) with lhm by lia.
    split; [lia|]. split; [exact HR | congruence]. }
  induction n as [|n IH]; intros lhm dist HR Hd Hr; cbn [Smallz4.exact_walk];
    unfold Smallz4.data_at; rewrite Hw;
    replace (Smallz4.dataZero w + (lhm - Smallz4.dataZero w)) with lhm by lia;
    cbn zeta.
  - cbn [fst snd]. apply Here; assumption.
  - destruct (Z.eqb_spec (Smallz4.load32 input lhm) four) as [E | E].
    + cbn [fst snd]. apply Here; assumption.
    + destruct (negb _); [cbn [fst]; intros; contradiction|].
      unfold Smallz4.EndOfChain, Smallz4.MaxDistance.
      pose proof (C1 lhm HR) as Hl.
      assert (Hs : Smallz4.tset ph (Z.land p 65535) dh (Z.land lhm 65535)
                   = ph (Z.land lhm 65535)).
      { unfold Smallz4.tset.
        destruct (Z.eqb_spec (Z.land lhm 65535) (Z.land p 65535)) as [S | S];
          [|reflexivity].
        apply slot_inj in S; [|lia]. congruence. }
      rewrite Hs.
      pose proof (u16_range (ph (Z.land lhm 65535))) as Hn.
      destruct (Z.eqb_spec (u16 (ph (Z.land lhm 65535))) 0);
        [cbn [fst]; intros; contradiction|].
      assert (U1 : Smallz4.u64 (dist + u16 (ph (Z.land lhm 65535)))
                   = dist + u16 (ph (Z.land lhm 65535))).
      { unfold Smallz4.u64. apply Z.mod_small. lia. }
      rewrite U1.
      destruct (Z.gtb_spec (dist + u16 (ph (Z.land lhm 65535))) 65535);
        [cbn [fst]; intros; contradiction|].
      destruct (C3 lhm HR ltac:(lia)) as [D | D]; [contradiction|].
      cbn zeta in D. pose proof (C1 _ D) as Hl'.
      assert (U2 : Smallz4.u64 (lhm - u16 (ph (Z.land lhm 65535)))
                   = lhm - u16 (ph (Z.land lhm 65535))).
      { unfold Smallz4.u64. apply Z.mod_small. lia. }
      rewrite U2.
      destruct (_ <? Smallz4.dataZero w); [cbn [fst]; intros; contradiction|].
      apply IH; [exact D | lia | lia].
Qed.

Lemma table_ok_set (input : list byte) (w : Smallz4.window)
    (m : Smallz4.Matches) (i l d : Z) :
  table_ok input w m ->
  (1 < l -> 4 <= l /\ valid_match input (Smallz4.lastBlock w + i) l d) ->
  table_ok input w (Smallz4.set_match m i l d).
Proof.
  intros [Hlen Hm] Hl. unfold table_ok, Smallz4.set_match.
  cbn [Smallz4.lengths Smallz4.distances]. rewrite !length_vset.
  split; [exact Hlen|]. intros j Hj. rewrite !vget_vset, <- Hlen.
  destruct ((j =? i) && (0 <=? i) && (i <? Z.of_nat (length (Smallz4.lengths m))))
    eqn:E.
  - apply andb_true_iff in E. destruct E as [E _].
    apply andb_true_iff in E. destruct E as [E _].
    apply Z.eqb_eq in E. subst j. exact Hl.
  - apply Hm. exact Hj.
Qed.

Ltac chains_goal :=
  match goal with
  | C : chains ?input ?R _ _ _ _
    |- (exists R', chains ?input R' ?p ?a ?b ?c) /\ _ =>
      assert (CH : chains input (fun q => R q \/ q = p) p a b c)
  end.

Ltac last_hash_facts :=
  match goal with
  | H : (Smallz4.lastHash ?f ?hash =? Smallz4.NoLastHash) = false,
    C : chains _ ?R ?hi (Smallz4.lastHash ?f) _ _,
    G : (Smallz4.u64 (?p - Smallz4.lastHash ?f ?hash) >? 65535) = _ |- _ =>
      apply Z.eqb_neq in H;
      assert (HR : R (Smallz4.lastHash f hash))
        by (destruct C as (_ & C2 & _);
            destruct (C2 hash) as [E | E]; [contradiction | exact E]);
      assert (HR1 : 0 <= Smallz4.lastHash f hash <= hi)
        by (destruct C as (C1 & _); apply C1; exact HR);
      assert (U0 : Smallz4.u64 (p - Smallz4.lastHash f hash)
                   = p - Smallz4.lastHash f hash)
        by (unfold Smallz4.u64; apply Z.mod_small; lia);
      rewrite U0 in *
  end.

Ltac near_facts :=
  match goal with
  | H : (?p - Smallz4.lastHash ?f ?hash >? 65535) = false |- _ =>
      rewrite Z.gtb_ltb in H; apply Z.ltb_ge in H;
      assert (U1 : u16 (p - Smallz4.lastHash f hash)
                   = p - Smallz4.lastHash f hash)
        by (unfold u16; apply Z.mod_small; lia);
      rewrite U1 in *
  end.

Ltac exact_facts :=
  match goal with
  | H : negb (?four =? ?a) = false,
    E : Smallz4.exact_walk ?input _ ?w (Smallz4.tset _ (Z.land ?p 65535) _)
          ?four ?hash (Smallz4.lastHash ?f ?hash) _ = (?a, ?b),
    C : chains ?input ?R ?hi (Smallz4.lastHash ?f) _ _,
    Hhi : ?hi <= ?p, Hp64 : ?p < 18446744073709551616,
    W1 : Smallz4.data_ptr ?w = Smallz4.dataZero ?w,
    HR : ?R (Smallz4.lastHash ?f ?hash) |- _ =>
      apply negb_false_iff in H; apply Z.eqb_eq in H;
      pose proof (exact_walk_valid input R hi p w _ _ _ four hash
                    (p - Smallz4.lastHash f hash) C Hhi Hp64 W1 eq_refl
                    (Z.to_nat (65535 + 2)) (Smallz4.lastHash f hash)
                    (p - Smallz4.lastHash f hash) HR eq_refl
                    ltac:(lia)) as XW;
      cbn zeta in XW; rewrite E in XW; cbn [fst snd] in XW;
      specialize (XW (eq_sym H)); destruct XW as (XW1 & XW2 & XW3);
      assert (U2 : u16 b = b) by (unfold u16; apply Z.mod_small; lia);
      rewrite U2 in *
  end.

Ltac chains_side :=
  first
    [ left; reflexivity
    | right; match goal with
             | HR : ?R ?x |- ?R ?y => replace y with x by lia; exact HR
             end
    | right; split; assumption ].

Ltac chains_step :=
  match goal with
  | C : chains ?input ?R ?hi _ _ _
    |- chains ?input _ ?p (Smallz4.tset _ _ _) (Smallz4.tset _ _ ?dh)
         (Smallz4.tset _ _ ?de) =>
      apply (chains_update input R hi p _ _ _ _ dh de C); try lia;
      chains_side
  end.

Ltac searched_match :=
  match goal with
  | CH : chains ?input ?R' ?p _ _ ?pe,
    E : Smallz4.findLongestMatch ?L ?input ?data ?p ?data ?end_ ?pe ?rd
        = (_, _) |- _ =>
      let V := fresh "V" in
      pose proof (findLongestMatch_valid L input R' p end_ data _ _ pe rd CH
                    (or_intror eq_refl)) as V;
      cbn zeta in V; rewrite E in V; cbn [fst snd] in V
  end.

Lemma step_inv (L : Z) (input : list byte) (w : Smallz4.window) (i : Z)
    (f : Smallz4.finder) (R : Z -> Prop) (hi : Z) :
  plain_window input w ->
  Z.of_nat (length input) < 18446744073709551616 ->
  chains input R hi (Smallz4.lastHash f) (Smallz4.previousHash f)
    (Smallz4.previousExact f) ->
  0 <= Smallz4.lastBlock w + i -> hi <= Smallz4.lastBlock w + i ->
  i + 12 <= Smallz4.blockSize w ->
  bounded (Smallz4.blockSize w) (Smallz4.matches f) ->
  table_ok input w (Smallz4.matches f) ->
  let f' := snd (Smallz4.step L input w i f) in
  (exists R', chains input R' (Smallz4.lastBlock w + i) (Smallz4.lastHash f')
                (Smallz4.previousHash f') (Smallz4.previousExact f'))
  /\ table_ok input w (Smallz4.matches f').
Proof.
  intros (W1 & W2 & W3 & W4 & W5) Hlen C Hp Hhi Hi Hb Ht.
  set (p := Smallz4.lastBlock w + i) in *.
  unfold Smallz4.step.
  destruct (_ && _ && _ && _) eqn:Hc.
  - cbn [snd Smallz4.lastHash Smallz4.previousHash Smallz4.previousExact
         Smallz4.matches].
    split; [exists R; apply (chains_later input R hi); assumption|].
    apply andb_true_iff in Hc. destruct Hc as [Hc Hc3].
    apply andb_true_iff in Hc. destruct Hc as [Hc Hc2].
    apply andb_true_iff in Hc. destruct Hc as [Hc0 Hc1].
    apply Z.gtb_lt in Hc0. apply Z.gtb_lt in Hc3. apply Z.eqb_eq in Hc2.
    unfold Smallz4.MaxSameLetter in Hc3.
    destruct (Hb (i - 1) ltac:(lia)) as [_ Hpb].
    destruct Ht as [Hl Ht'].
    destruct (Ht' (i - 1) ltac:(lia) ltac:(lia)) as [_ (V1 & V2 & V3)].
    set (prev := Smallz4.vget (Smallz4.lengths (Smallz4.matches f)) (i - 1)) in *.
    assert (Hu : u32 (prev - 1) = prev - 1).
    { unfold u32. apply Z.mod_small. unfold Smallz4.blockSize, Smallz4.MaxBlockSize in *. lia. }
    rewrite Hu. apply table_ok_set; [split; assumption|].
    intros _. split; [lia|]. unfold valid_match. split; [lia|]. split; [lia|].
    intros k Hk. fold p. rewrite Hc2 in V3.
    specialize (V3 (k + 1) ltac:(lia)).
    replace (Smallz4.lastBlock w + (i - 1) + (k + 1)) with (p + k) in V3 by lia.
    exact V3.
  - cbn zeta.
    unfold Smallz4.dataBlock, Smallz4.data_at, Smallz4.MaxDistance,
      Smallz4.EndOfChain, Smallz4.BlockEndLiterals.
    rewrite W1.
    assert (Hp64 : p < 18446744073709551616)
      by (subst p; unfold Smallz4.blockSize in *; lia).
    replace (Smallz4.dataZero w + (Smallz4.lastBlock w - Smallz4.dataZero w) + i)
      with p by (subst p; lia).
    replace (Smallz4.u64 (i + Smallz4.lastBlock w)) with p
      by (unfold Smallz4.u64; rewrite Z.mod_small; subst p; lia).
    replace (Z.land (i + 65535 + 1) 65535) with (Z.land p 65535)
      by (rewrite !slot_mod; subst p; Z.div_mod_to_equations; lia).
    replace (i + Smallz4.lastBlock w) with p by (subst p; lia).
    set (four := Smallz4.load32 input p).
    set (hash := Smallz4.getHash32 four).
    replace (Smallz4.tset (Smallz4.lastHash f) hash p hash) with p
      by (unfold Smallz4.tset; rewrite Z.eqb_refl; reflexivity).
    step_cases; cbn [snd Smallz4.lastHash Smallz4.previousHash
                     Smallz4.previousExact Smallz4.matches].
    all: try last_hash_facts.
    all: try near_facts.
    all: try exact_facts.
    all: chains_goal.
    all: try (chains_step; fail).
    all: (split; [eexists; exact CH|]).
    all: try exact Ht.
    all: apply table_ok_set; [exact Ht|]; intros Hl1.
    all: searched_match.
    all: match goal with
         | H : (_ <? 0) = false |- _ => apply Z.ltb_ge in H
         end.
    all: unfold Smallz4.blockSize, Smallz4.MaxBlockSize in *.
    all: destruct V as [V | V]; [subst p; lia | subst p; lia | lia | exact V].
Qed.

Lemma match_loop_inv (L : Z) (input : list byte) (w : Smallz4.window) :
  plain_window input w ->
  Z.of_nat (length input) < 18446744073709551616 ->
  forall (n : nat) (i : Z) (f : Smallz4.finder)
         (trace : list (Z * Smallz4.visit)) (R : Z -> Prop) (hi : Z),
    chains input R hi (Smallz4.lastHash f) (Smallz4.previousHash f)
      (Smallz4.previousExact f) ->
    0 <= Smallz4.lastBlock w + i -> hi <= Smallz4.lastBlock w + i ->
    ((0 < n)%nat -> i + Z.of_nat n <= Smallz4.blockSize w - 11) ->
    bounded (Smallz4.blockSize w) (Smallz4.matches f) ->
    table_ok input w (Smallz4.matches f) ->
    let f' := fst (Smallz4.match_loop L input n w i f trace) in
    (exists R' hi',
        chains input R' hi' (Smallz4.lastHash f') (Smallz4.previousHash f')
          (Smallz4.previousExact f')
        /\ hi' <= Z.max hi (Smallz4.nextBlock w - 12))
    /\ table_ok input w (Smallz4.matches f').
Proof.
  intros W Hlen.
  assert (HB : Smallz4.blockSize w < 4294967296).
  { destruct W as (_ & _ & _ & _ & W5). unfold Smallz4.MaxBlockSize in W5. lia. }
  induction n as [|n IH]; intros i f trace R hi C Hp Hhi Hn Hb Ht;
    cbn [Smallz4.match_loop].
  - cbn [fst]. split; [|exact Ht]. exists R, hi. split; [exact C | lia].
  - pose proof (step_inv L input w i f R hi W Hlen C Hp Hhi ltac:(lia) Hb Ht)
      as [[R1 C1] T1].
    pose proof (step_bounded L input w i f HB ltac:(lia) Hb) as B1.
    destruct (Smallz4.step L input w i f) as [v f1]. cbn [snd] in *.
    destruct (IH (i + 1) f1 (trace ++ [(i, v)]) R1 (Smallz4.lastBlock w + i) C1)
      as [(R2 & hi2 & C2 & H2) T2]; try assumption; try lia.
    split; [|exact T2]. exists R2, hi2. split; [exact C2|].
    unfold Smallz4.blockSize in *. lia.
Qed.

Lemma fill_literals_table_ok (input : list byte) (w : Smallz4.window)
    (n : nat) (i : Z) (m m' : Smallz4.Matches) :
  Smallz4.fill_literals n i m = Ok m' ->
  table_ok input w m -> table_ok input w m'.
Proof.
  revert i m. induction n as [|n IH]; intros i m; cbn [Smallz4.fill_literals].
  - intros E Hm. inversion E. subst. exact Hm.
  - destruct (i <? 0); [discriminate|]. intros E Hm.
    apply (IH _ _ E). destruct Hm as [Hl Hm]. unfold table_ok.
    cbn [Smallz4.lengths Smallz4.distances]. rewrite length_vset.
    split; [exact Hl|]. intros j Hj.
    destruct (vget_vset_cases (Smallz4.lengths m) i j Smallz4.JustLiteral)
      as [E' | [-> E']]; rewrite E'.
    + apply Hm. exact Hj.
    + unfold Smallz4.JustLiteral. lia.
Qed.

Lemma table_ok_zeros (input : list byte) (w : Smallz4.window) (n : nat) :
  table_ok input w {| Smallz4.lengths := repeat 0 n;
                      Smallz4.distances := repeat 0 n |}.
Proof.
  unfold table_ok. cbn [Smallz4.lengths Smallz4.distances].
  split; [rewrite !repeat_length; reflexivity|].
  intros j Hj. rewrite vget_zeros. lia.
Qed.

Lemma find_matches_inv (L : Z) (input : list byte) (w : Smallz4.window)
    (lh ph pe : Smallz4.table) (f : Smallz4.finder)
    (trace : list (Z * Smallz4.visit)) (R : Z -> Prop) (hi : Z) :
  plain_window input w ->
  Z.of_nat (length input) < 18446744073709551616 ->
  chains input R hi lh ph pe ->
  hi <= Smallz4.lastBlock w - 12 \/ hi < 0 ->
  Smallz4.find_matches L input w lh ph pe = Ok (f, trace) ->
  (exists R' hi',
      chains input R' hi' (Smallz4.lastHash f) (Smallz4.previousHash f)
        (Smallz4.previousExact f)
      /\ (hi' <= Smallz4.nextBlock w - 12 \/ hi' < 0))
  /\ table_ok input w (Smallz4.matches f).
Proof.
  intros W Hlen C Hhi. unfold Smallz4.find_matches.
  pose proof W as (W1 & W2 & W3 & W4 & W5).
  match goal with
  | |- context [Smallz4.match_loop L input ?n w ?i ?f0 ?t] =>
      pose proof (match_loop_inv L input w W Hlen n i f0 t R hi C) as Hl;
      destruct (Smallz4.match_loop L input n w i f0 t) as [f1 trace1]
  end.
  cbn [fst Smallz4.matches] in Hl.
  destruct (Smallz4.fill_literals _ _ _) as [m' | | |] eqn:E; cbn [bind];
    try discriminate.
  intros H. inversion H. subst. clear H.
  cbn [Smallz4.matches Smallz4.lastHash Smallz4.previousHash
       Smallz4.previousExact].
  assert (Hlb : - 12 <= Smallz4.lookback L w <= 0
                /\ 0 <= Smallz4.lastBlock w + Smallz4.lookback L w).
  { unfold Smallz4.lookback, Smallz4.BlockEndNoMatch.
    destruct (Smallz4.uncompressed L); [lia|].
    destruct (Z.gtb_spec (Smallz4.dataZero w) 12); lia. }
  destruct Hl as [(R' & hi' & C' & H') T']; try lia.
  - unfold Smallz4.passes. destruct (Smallz4.uncompressed L); [simpl; lia|].
    unfold Smallz4.BlockEndNoMatch. lia.
  - intros j. cbn [Smallz4.lengths]. rewrite vget_zeros. lia.
  - apply table_ok_zeros.
  - split.
    + exists R', hi'. split; [exact C' | lia].
    + apply (fill_literals_table_ok input w _ _ _ _ E). exact T'.
Qed.

Lemma valid_match_shorter (input : list byte) (p l l' d : Z) :
  valid_match input p l d -> l' <= l -> valid_match input p l' d.
Proof.
  intros (H1 & H2 & H3) Hl. split; [exact H1|]. split; [exact H2|].
  intros k Hk. apply H3. lia.
Qed.

Lemma cost_loop_best (n : nat) (cost : list Z)
    (i ml len minCost best extra next : Z) :
  ml < 4294967295 -> 4 <= len ->
  best = 1 \/ 4 <= best <= ml ->
  let r := Smallz4.cost_loop n cost i ml len minCost best extra next in
  snd r = 1 \/ 4 <= snd r <= ml.
Proof.
  intros Hml. revert len minCost best extra next.
  induction n as [|n IH]; intros len minCost best extra next Hlen Hb;
    cbn [Smallz4.cost_loop]; cbn zeta.
  - exact Hb.
  - destruct (Z.leb_spec len ml); [|exact Hb].
    assert (Hu : u32 (len + 1) = len + 1) by (unfold u32; apply Z.mod_small; lia).
    rewrite Hu. apply IH; [lia|].
    destruct (_ <=? minCost); [right; lia | exact Hb].
Qed.

Lemma cost_step_table_ok (input : list byte) (w : Smallz4.window) (B i : Z)
    (m : Smallz4.Matches) (cost : list Z) (nl : Z) :
  B < 4294967295 ->
  bounded B m ->
  table_ok input w m ->
  table_ok input w (fst (fst (Smallz4.cost_step i (m, cost, nl)))).
Proof.
  intros HB Hb [Hl Hm]. unfold Smallz4.cost_step.
  assert (Hml : i < 0 \/ Smallz4.vget (Smallz4.lengths m) i < 4294967295).
  { destruct (Z.lt_ge_cases i 0); [left; assumption | right].
    destruct (Z.le_gt_cases (Smallz4.vget (Smallz4.lengths m) i) 1); [lia|].
    destruct (Hb i ltac:(lia)). lia. }
  assert (Hneg : i < 0 -> Smallz4.vget (Smallz4.lengths m) i = 0).
  { intros Hi. unfold Smallz4.vget. destruct (Z.ltb_spec i 0); [reflexivity|lia]. }
  match goal with
  | |- context [if ?c then (?a, ?b) else Smallz4.cost_loop ?n ?co ?i ?ml ?l ?mc ?bl ?e ?nx] =>
      pose proof (cost_loop_best n co i ml l mc bl e nx) as Hc;
      cbn zeta in Hc;
      destruct c;
      [ | destruct (Smallz4.cost_loop n co i ml l mc bl e nx) as [minCost best] ]
  end; cbn [fst snd] in *; unfold table_ok;
    cbn [Smallz4.lengths Smallz4.distances]; rewrite length_vset;
    (split; [exact Hl|]); intros j Hj.
  - destruct (vget_vset_cases (Smallz4.lengths m) i j
                (Smallz4.vget (Smallz4.lengths m) i)) as [E | [-> E]];
      rewrite E; apply Hm; exact Hj.
  - destruct (vget_vset_cases (Smallz4.lengths m) i j best) as [E | [-> E]];
      rewrite E; [apply Hm; exact Hj|].
    intros H1.
    destruct Hc as [Hc | Hc];
      [ destruct Hml; lia | unfold Smallz4.MinMatch; lia
      | left; reflexivity | lia |].
    destruct (Hm i Hj ltac:(lia)) as [_ V].
    split; [lia|]. apply (valid_match_shorter input _ _ best _ V). lia.
Qed.

Lemma cost_steps_table_ok (input : list byte) (w : Smallz4.window) (B : Z)
    (n : nat) (st : Smallz4.Matches * list Z * Z) :
  B < 4294967295 ->
  bounded B (fst (fst st)) ->
  table_ok input w (fst (fst st)) ->
  table_ok input w (fst (fst (Smallz4.cost_steps n st))).
Proof.
  intros HB. revert st. induction n as [|n IH]; intros [[m cost] nl] Hb Hm;
    cbn [Smallz4.cost_steps]; [exact Hm|].
  apply IH.
  - apply cost_step_bounded. exact Hb.
  - apply (cost_step_table_ok input w B); assumption.
Qed.

Lemma choose_table_ok (L : Z) (input : list byte) (w : Smallz4.window) (B : Z)
    (m : Smallz4.Matches) :
  B < 4294967295 ->
  bounded B m ->
  table_ok input w m -> table_ok input w (Smallz4.choose L m).
Proof.
  intros HB Hb Hm. unfold Smallz4.choose. destruct (_ && _); [|exact Hm].
  unfold Smallz4.estimateCosts. apply (cost_steps_table_ok input w B); assumption.
Qed.

(** ** The bytes of a compressed block *)

Lemma appends_refl (r : sink) : wf_sink r -> appends r r [].
Proof. intros H. split; [exact H|]. rewrite app_nil_r. reflexivity. Qed.

Lemma appends_eq (r r' : sink) (bs bs' : list byte) :
  appends r r' bs -> bs = bs' -> appends r r' bs'.
Proof. intros H <-. exact H. Qed.

Lemma appends_dump1 (c : byte) (r r1 : sink) (bs : list byte) :
  appends r r1 bs -> appends r (dump1 c r1) (bs ++ [c]).
Proof.
  intros [W E]. destruct (dump1_spec c r1 W) as (W' & E' & _).
  split; [exact W'|]. rewrite E', E, app_assoc. reflexivity.
Qed.

Lemma appends_dump (str : list byte) (r r1 : sink) (bs : list byte) :
  appends r r1 bs -> appends r (dump str r1) (bs ++ str).
Proof.
  intros [W E]. destruct (dump_spec str r1 W) as (W' & E' & _).
  split; [exact W'|]. rewrite E', E, app_assoc. reflexivity.
Qed.

Lemma overflow_small (v : Z) : 0 <= v < 255 -> Format.overflow v = [z2b v].
Proof.
  intros H. unfold Format.overflow.
  rewrite Z.div_small, Z.mod_small by lia. reflexivity.
Qed.

Lemma overflow_step (v : Z) :
  255 <= v -> Format.overflow v = xff :: Format.overflow (v - 255).
Proof.
  intros H. unfold Format.overflow.
  replace v with (v - 255 + 1 * 255) at 1 2 by lia.
  rewrite Z.div_add, Z_mod_plus_full by lia.
  assert (0 <= (v - 255) / 255) by (apply Z.div_pos; lia).
  replace (Z.to_nat ((v - 255) / 255 + 1)) with (S (Z.to_nat ((v - 255) / 255)))
    by lia.
  reflexivity.
Qed.

Lemma appends_dump_length (n : nat) (v : Z) (r r1 : sink) (bs : list byte) :
  0 <= v -> v < 255 * (Z.of_nat n + 1) ->
  appends r r1 bs ->
  appends r (Smallz4.dump_length n v r1) (bs ++ Format.overflow v).
Proof.
  revert v r1 bs. induction n as [|n IH]; intros v r1 bs H0 Hn A;
    cbn [Smallz4.dump_length]; unfold Smallz4.MaxLengthCode.
  - rewrite overflow_small by lia. apply appends_dump1. exact A.
  - destruct (Z.geb_spec v 255).
    + rewrite overflow_step by lia.
      apply (appends_eq r _ ((bs ++ [xff]) ++ Format.overflow (v - 255)));
        [|rewrite <- app_assoc; reflexivity].
      apply IH; [lia | lia|].
      change xff with (z2b 255). apply appends_dump1. exact A.
    + rewrite overflow_small by lia. apply appends_dump1. exact A.
Qed.

Lemma token_value (nl ml : Z) :
  0 <= nl -> 0 <= ml ->
  z2b (Z.lor (if ml <? 15 then b2z (z2b ml) else 15)
         (if nl <? 15 then Z.shiftl nl 4 else 240))
  = Format.token nl ml.
Proof.
  intros Hn Hm. unfold Format.token. f_equal. rewrite Z.lor_comm. f_equal.
  - destruct (Z.ltb_spec nl 15).
    + rewrite Z.min_l by lia. reflexivity.
    + rewrite Z.min_r by lia. reflexivity.
  - destruct (Z.ltb_spec ml 15).
    + rewrite Z.min_l by lia. rewrite b2z_z2b. apply Z.mod_small. lia.
    + rewrite Z.min_r by lia. reflexivity.
Qed.

Lemma emit_sequence_match (input : list byte) (data len dist lf nl : Z)
    (r0 r : sink) (bs : list byte) :
  appends r0 r bs -> 0 <= nl -> 4 <= len ->
  let lits := if nl >? 0 then Smallz4.span input (data + lf) nl else [] in
  Z.of_nat (length lits) = nl ->
  appends r0 (Smallz4.emit_sequence input false data len dist lf nl r)
    (bs ++ Format.sequence_bytes
             {| Format.literals := lits; Format.offset := dist;
                Format.matchLength := len |}).
Proof.
  cbn zeta. intros A Hnl Hlen Hl.
  unfold Smallz4.emit_sequence, Smallz4.MinMatch, Format.sequence_bytes,
    Format.length_field.
  cbn [Format.literals Format.offset Format.matchLength andb]. rewrite Hl.
  rewrite andb_false_r.
  pose proof (token_value nl (len - 4) Hnl ltac:(lia)) as T.
  set (tok := if len - 4 <? 15 then b2z (z2b (len - 4)) else 15) in *.
  rewrite <- (z2b_land_255 dist).
  destruct (Z.ltb_spec nl 15) as [H15 | H15];
    destruct (Z.gtb_spec nl 0) as [Hn0 | Hn0];
    destruct (Z.geb_spec (len - 4) 15) as [Hm15 | Hm15];
    (destruct (Z.ltb_spec (len - 4) 15); [try lia | try lia]);
    rewrite <- T;
    (eapply appends_eq;
     [ repeat first [ apply appends_dump_length; [lia | lia |]
                    | apply appends_dump1
                    | apply appends_dump
                    | exact A ]
     | rewrite <- ?app_assoc; cbn [app]; reflexivity ]).
Qed.

Lemma emit_sequence_last (input : list byte) (data len dist lf nl : Z)
    (r0 r : sink) (bs : list byte) :
  appends r0 r bs -> 0 < nl ->
  let lits := Smallz4.span input (data + lf) nl in
  Z.of_nat (length lits) = nl ->
  appends r0 (Smallz4.emit_sequence input true data len dist lf nl r)
    (bs ++ Format.last_bytes lits).
Proof.
  cbn zeta. intros A Hnl Hl.
  unfold Smallz4.emit_sequence, Format.last_bytes, Format.length_field.
  cbn zeta. rewrite Hl.
  pose proof (token_value nl 0 ltac:(lia) ltac:(lia)) as T.
  change (0 <? 15) with true in *. cbn match in *.
  destruct (Z.gtb_spec nl 0); [|lia]. cbn [andb].
  destruct (Z.ltb_spec nl 15) as [H15 | H15]; rewrite <- T;
    (eapply appends_eq;
     [ repeat first [ apply appends_dump_length; [lia | lia |]
                    | apply appends_dump1
                    | apply appends_dump
                    | exact A ]
     | rewrite <- ?app_assoc; cbn [app]; reflexivity ]).
Qed.

Lemma firstn_snoc (l : list byte) (a : nat) :
  (a < length l)%nat -> firstn (S a) l = firstn a l ++ [nth a l x00].
Proof.
  revert a. induction l as [|h t IH]; intros a Ha; cbn [length] in Ha; [lia|].
  destruct a as [|a]; [reflexivity|].
  cbn [firstn nth app]. f_equal. apply IH. lia.
Qed.

Lemma nth_firstn_lt (l : list byte) (a k : nat) :
  (k < a)%nat -> nth k (firstn a l) x00 = nth k l x00.
Proof.
  revert a k. induction l as [|h t IH]; intros a k Hk.
  - rewrite firstn_nil. reflexivity.
  - destruct a as [|a]; [lia|]. destruct k as [|k]; [reflexivity|].
    cbn [firstn nth]. apply IH. lia.
Qed.

Lemma copy_match_input (input : list byte) (d : nat) :
  forall (n a : nat),
    (1 <= d <= a)%nat -> (a + n <= length input)%nat ->
    (forall k, (k < n)%nat ->
       nth (a + k) input x00 = nth (a + k - d) input x00) ->
    copy_match n d (firstn a input) = firstn (a + n) input.
Proof.
  induction n as [|n IH]; intros a Hd Hn Hk; cbn [copy_match].
  - rewrite Nat.add_0_r. reflexivity.
  - rewrite length_firstn, Nat.min_l by lia.
    rewrite nth_firstn_lt by lia.
    pose proof (Hk 0%nat ltac:(lia)) as H0. rewrite Nat.add_0_r in H0.
    rewrite <- H0.
    rewrite <- firstn_snoc by lia.
    rewrite IH; [f_equal; lia | lia | lia |].
    intros k Hk'. specialize (Hk (S k) ltac:(lia)).
    replace (S a + k)%nat with (a + S k)%nat by lia. exact Hk.
Qed.

Lemma byte_at_nth (input : list byte) (z : Z) :
  0 <= z -> Smallz4.byte_at input z = b2z (nth (Z.to_nat z) input x00).
Proof.
  intros H. unfold Smallz4.byte_at. destruct (Z.ltb_spec z 0); [lia | reflexivity].
Qed.

Lemma copy_match_valid (input : list byte) (p l d : Z) :
  valid_match input p l d -> 0 <= l ->
  p + l <= Z.of_nat (length input) ->
  copy_match (Z.to_nat l) (Z.to_nat d) (firstn (Z.to_nat p) input)
  = firstn (Z.to_nat (p + l)) input.
Proof.
  intros (Hd & Hp & Hb) Hl Hin.
  rewrite copy_match_input; [f_equal; lia | lia | lia |].
  intros k Hk. specialize (Hb (Z.of_nat k) ltac:(lia)).
  rewrite !byte_at_nth in Hb by lia. apply b2z_inj in Hb.
  replace (Z.to_nat p + k)%nat with (Z.to_nat (p + Z.of_nat k)) by lia.
  replace (Z.to_nat (p + Z.of_nat k) - Z.to_nat d)%nat
    with (Z.to_nat (p + Z.of_nat k - d)) by lia.
  exact Hb.
Qed.

Lemma length_span (input : list byte) (a n : Z) :
  0 <= a -> 0 <= n -> a + n <= Z.of_nat (length input) ->
  Z.of_nat (length (Smallz4.span input a n)) = n.
Proof.
  intros Ha Hn Hl. unfold Smallz4.span. rewrite length_firstn, length_skipn. lia.
Qed.

Lemma firstn_span (input : list byte) (a n : Z) :
  0 <= a -> 0 <= n ->
  firstn (Z.to_nat a) input ++ Smallz4.span input a n
  = firstn (Z.to_nat (a + n)) input.
Proof.
  intros Ha Hn. unfold Smallz4.span.
  replace (Z.to_nat (a + n)) with (Z.to_nat a + Z.to_nat n)%nat by lia.
  symmetry. apply firstn_add.
Qed.

Lemma select_loop_spec (input : list byte) (m : Smallz4.Matches) (base B : Z) :
  0 <= base -> base + B <= Z.of_nat (length input) -> B <= 4194304 ->
  bounded B m ->
  (forall j, 0 <= j ->
     1 < Smallz4.vget (Smallz4.lengths m) j ->
     4 <= Smallz4.vget (Smallz4.lengths m) j
     /\ valid_match input (base + j) (Smallz4.vget (Smallz4.lengths m) j)
          (Smallz4.vget (Smallz4.distances m) j)) ->
  forall (n : nat) (offset lf nl : Z) (r0 r : sink) (bs : list byte)
         (emitted : list (Z * Z * Z)),
    appends r0 r bs ->
    0 <= nl <= offset -> offset < B ->
    (0 < nl -> lf = offset - nl) ->
    B - offset <= Z.of_nat n ->
    exists (ss : list Format.sequence) (l : list byte),
      appends r0
        (fst (Smallz4.select_loop input n m base B offset lf nl r emitted))
        (bs ++ concat (map Format.sequence_bytes ss) ++ Format.last_bytes l)
      /\ Forall Format.sequence_shape ss
      /\ seqs_inside (firstn (Z.to_nat (base + offset - nl)) input) ss
      /\ fold_left expand_sequence ss
           (firstn (Z.to_nat (base + offset - nl)) input) ++ l
         = firstn (Z.to_nat (base + B)) input.
Proof.
  intros Hbase Hin HB Hb Hm.
  induction n as [|n IH]; intros offset lf nl r0 r bs emitted A Hnl Ho Hlf Hn;
    [lia|].
  cbn [Smallz4.select_loop]. cbn zeta.
  destruct (Z.ltb_spec offset B); [|lia].
  unfold Smallz4.JustLiteral.
  destruct (Z.leb_spec (Smallz4.vget (Smallz4.lengths m) offset) 1) as [Hl | Hl].
  - (* a literal *)
    set (lf' := if nl =? 0 then offset else lf).
    assert (Hlf' : lf' = offset + 1 - (nl + 1)).
    { subst lf'. destruct (Z.eqb_spec nl 0); [lia | rewrite Hlf; lia]. }
    destruct (Z.ltb_spec (offset + 1) B).
    + destruct (IH (offset + 1) lf' (nl + 1) r0 r bs emitted A)
        as (ss & l & A' & F & I & E); try lia.
      replace (base + (offset + 1) - (nl + 1)) with (base + offset - nl) in *
        by lia.
      exists ss, l. auto.
    + exists [], (Smallz4.span input (base + lf') (nl + 1)).
      cbn [fst map concat app fold_left seqs_inside].
      split; [|split; [constructor|split; [exact I|]]].
      * apply emit_sequence_last; [exact A | lia|].
        apply length_span; lia.
      * rewrite Hlf'.
        replace (base + (offset + 1 - (nl + 1))) with (base + offset - nl) by lia.
        rewrite firstn_span by lia. f_equal. lia.
  - (* a match *)
    destruct (Hm offset ltac:(lia) Hl) as [H4 V].
    destruct (Hb offset Hl) as [_ Hend].
    set (len := Smallz4.vget (Smallz4.lengths m) offset) in *.
    set (dist := Smallz4.vget (Smallz4.distances m) offset) in *.
    set (lits := if nl >? 0 then Smallz4.span input (base + lf) nl else []).
    set (q := {| Format.literals := lits; Format.offset := dist;
                 Format.matchLength := len |}).
    assert (Ll : Z.of_nat (length lits) = nl).
    { subst lits. destruct (Z.gtb_spec nl 0); [|cbn; lia].
      pose proof (Hlf ltac:(lia)). apply length_span; lia. }
    assert (T1 : firstn (Z.to_nat (base + offset - nl)) input ++ lits
                 = firstn (Z.to_nat (base + offset)) input).
    { subst lits. destruct (Z.gtb_spec nl 0).
      - rewrite Hlf by lia.
        replace (base + (offset - nl)) with (base + offset - nl) by lia.
        rewrite firstn_span by lia. f_equal. lia.
      - rewrite app_nil_r. f_equal. lia. }
    assert (T2 : expand_sequence (firstn (Z.to_nat (base + offset - nl)) input) q
                 = firstn (Z.to_nat (base + offset + len)) input).
    { unfold expand_sequence. subst q.
      cbn [Format.literals Format.offset Format.matchLength].
      rewrite T1. apply copy_match_valid; [exact V | lia | lia]. }
    pose proof (emit_sequence_match input base len dist lf nl r0 r bs A
                  ltac:(lia) H4 Ll) as A1.
    fold lits in A1. fold q in A1.
    destruct (IH (offset + len) lf 0 r0 _ _
                (emitted ++ [(offset, len, dist)]) A1)
      as (ss & l & A' & F & I & E); try lia.
    replace (base + (offset + len) - 0) with (base + offset + len) in * by lia.
    exists (q :: ss), l.
    cbn [map concat fold_left seqs_inside]. rewrite T2.
    split; [|split; [|split; [|exact E]]].
    + rewrite <- !app_assoc in A'. rewrite <- app_assoc. exact A'.
    + constructor; [|exact F]. unfold Format.sequence_shape. subst q.
      cbn [Format.offset Format.matchLength].
      destruct V as (Vd & _). lia.
    + split; [|exact I]. subst q. cbn [Format.offset Format.literals].
      rewrite T1.
      rewrite length_firstn. destruct V as (Vd & Vp & _). lia.
Qed.

(** ** The blocks of the encoder *)

Lemma length_step (L : Z) (input : list byte) (w : Smallz4.window) (i : Z)
    (f : Smallz4.finder) :
  length (Smallz4.lengths (Smallz4.matches (snd (Smallz4.step L input w i f))))
  = length (Smallz4.lengths (Smallz4.matches f)).
Proof.
  unfold Smallz4.step.
  destruct (_ && _ && _ && _).
  - cbn [snd Smallz4.matches Smallz4.set_match Smallz4.lengths].
    apply length_vset.
  - cbn zeta.
    step_cases; cbn [snd Smallz4.matches Smallz4.set_match Smallz4.lengths];
      rewrite ?length_vset; reflexivity.
Qed.

Lemma length_match_loop (L : Z) (input : list byte) (n : nat)
    (w : Smallz4.window) (i : Z) (f : Smallz4.finder)
    (trace : list (Z * Smallz4.visit)) :
  length (Smallz4.lengths
            (Smallz4.matches (fst (Smallz4.match_loop L input n w i f trace))))
  = length (Smallz4.lengths (Smallz4.matches f)).
Proof.
  revert i f trace. induction n as [|n IH]; intros i f trace;
    cbn [Smallz4.match_loop]; [reflexivity|].
  pose proof (length_step L input w i f) as Hs.
  destruct (Smallz4.step L input w i f) as [v f']. cbn [snd] in Hs.
  rewrite IH. exact Hs.
Qed.

Lemma length_fill_literals (n : nat) (i : Z) (m m' : Smallz4.Matches) :
  Smallz4.fill_literals n i m = Ok m' ->
  length (Smallz4.lengths m') = length (Smallz4.lengths m).
Proof.
  revert i m. induction n as [|n IH]; intros i m; cbn [Smallz4.fill_literals].
  - intros E. inversion E. reflexivity.
  - destruct (i <? 0); [discriminate|]. intros E.
    rewrite (IH _ _ E). cbn [Smallz4.lengths]. apply length_vset.
Qed.

Lemma length_find_matches (L : Z) (input : list byte) (w : Smallz4.window)
    (lh ph pe : Smallz4.table) (f : Smallz4.finder)
    (trace : list (Z * Smallz4.visit)) :
  Smallz4.find_matches L input w lh ph pe = Ok (f, trace) ->
  length (Smallz4.lengths (Smallz4.matches f)) = Z.to_nat (Smallz4.n_matches L w).
Proof.
  unfold Smallz4.find_matches.
  match goal with
  | |- context [Smallz4.match_loop L input ?n w ?i ?f0 ?t] =>
      pose proof (length_match_loop L input n w i f0 t) as Hl;
      destruct (Smallz4.match_loop L input n w i f0 t) as [f1 trace1]
  end.
  cbn [fst Smallz4.matches Smallz4.lengths] in Hl.
  destruct (Smallz4.fill_literals _ _ _) as [m' | | |] eqn:E; cbn [bind];
    try discriminate.
  intros H. inversion H. subst. clear H. cbn [Smallz4.matches].
  rewrite (length_fill_literals _ _ _ _ E), Hl. apply repeat_length.
Qed.

Lemma length_cost_steps (n : nat) (st : Smallz4.Matches * list Z * Z) :
  length (Smallz4.lengths (fst (fst (Smallz4.cost_steps n st))))
  = length (Smallz4.lengths (fst (fst st))).
Proof.
  revert st. induction n as [|n IH]; intros [[m cost] nl];
    cbn [Smallz4.cost_steps]; [reflexivity|].
  rewrite IH. unfold Smallz4.cost_step.
  match goal with
  | |- context [if ?c then (?a, ?b) else ?x] =>
      destruct (if c then (a, b) else x) as [minCost best]
  end.
  cbn [fst Smallz4.lengths]. apply length_vset.
Qed.

Lemma length_choose (L : Z) (m : Smallz4.Matches) :
  length (Smallz4.lengths (Smallz4.choose L m)) = length (Smallz4.lengths m).
Proof.
  unfold Smallz4.choose. destruct (_ && _); [|reflexivity].
  unfold Smallz4.estimateCosts. apply length_cost_steps.
Qed.

Lemma encode_block_spec (L : Z) (input : list byte) (w : Smallz4.window)
    (lh ph pe : Smallz4.table) (b : Smallz4.encoded) (R : Z -> Prop) (hi : Z) :
  plain_window input w ->
  Z.of_nat (length input) < 18446744073709551616 ->
  chains input R hi lh ph pe ->
  hi <= Smallz4.lastBlock w - 12 \/ hi < 0 ->
  Smallz4.encode_block L input w lh ph pe = Ok b ->
  (exists R' hi',
      chains input R' hi' (Smallz4.lastHash (Smallz4.found b))
        (Smallz4.previousHash (Smallz4.found b))
        (Smallz4.previousExact (Smallz4.found b))
      /\ (hi' <= Smallz4.nextBlock w - 12 \/ hi' < 0))
  /\ (Smallz4.uncompressed L = false ->
     exists (ss : list Format.sequence) (l : list byte),
       Smallz4.compressed b
       = concat (map Format.sequence_bytes ss) ++ Format.last_bytes l
       /\ Forall Format.sequence_shape ss
       /\ seqs_inside (firstn (Z.to_nat (Smallz4.lastBlock w)) input) ss
       /\ fold_left expand_sequence ss
            (firstn (Z.to_nat (Smallz4.lastBlock w)) input) ++ l
          = firstn (Z.to_nat (Smallz4.nextBlock w)) input).
Proof.
  intros W Hlen C Hhi. unfold Smallz4.encode_block.
  pose proof W as (W1 & W2 & W3 & W4 & W5).
  unfold Smallz4.MaxBlockSize in W5.
  assert (HB : Smallz4.blockSize w < 4294967296) by lia.
  destruct (Smallz4.find_matches L input w lh ph pe) as [[f trace] | | |] eqn:E;
    cbn [bind]; try discriminate.
  destruct (find_matches_inv L input w lh ph pe f trace R hi W Hlen C Hhi E)
    as [HC HT].
  destruct (Smallz4.select _ _) as [r emitted] eqn:Es.
  intros H. inversion H. subst b. clear H.
  cbn [Smallz4.found Smallz4.compressed].
  split; [exact HC|]. intros HL.
  pose proof (find_matches_bounded L input w lh ph pe f trace HB E) as Hb.
  pose proof (length_find_matches L input w lh ph pe f trace E) as Hn.
  unfold Smallz4.n_matches in Hn. rewrite HL in Hn.
  apply (choose_bounded L) in Hb.
  apply (choose_table_ok L input w (Smallz4.blockSize w)) in HT;
    [|lia | exact (find_matches_bounded L input w lh ph pe f trace HB E)].
  rewrite <- (length_choose L) in Hn.
  set (m := Smallz4.choose L (Smallz4.matches f)) in *.
  unfold Smallz4.select in Es. rewrite Hn in Es.
  unfold Smallz4.blockSize in *.
  replace (Z.of_nat (Z.to_nat (Smallz4.nextBlock w - Smallz4.lastBlock w)))
    with (Smallz4.nextBlock w - Smallz4.lastBlock w) in Es by lia.
  set (r0 := {| buf := _; ix := 0 |}) in Es.
  assert (A0 : appends r0 r0 []).
  { apply appends_refl. unfold wf_sink, r0. cbn. lia. }
  unfold Smallz4.dataBlock, Smallz4.data_at in Es. rewrite W1 in Es.
  replace (Smallz4.dataZero w + (Smallz4.lastBlock w - Smallz4.dataZero w))
    with (Smallz4.lastBlock w) in Es by lia.
  destruct (select_loop_spec input m (Smallz4.lastBlock w)
              (Smallz4.nextBlock w - Smallz4.lastBlock w)
              ltac:(lia) ltac:(lia) ltac:(lia) Hb (proj2 HT)
              (Z.to_nat (Smallz4.nextBlock w - Smallz4.lastBlock w))
              0 0 0 r0 r0 [] [] A0 ltac:(lia) ltac:(lia) ltac:(lia) ltac:(lia))
    as (ss & l & [_ A] & F & I & X).
  rewrite Es in A. cbn [fst] in A.
  exists ss, l.
  replace (Smallz4.lastBlock w + 0 - 0) with (Smallz4.lastBlock w) in * by lia.
  replace (Smallz4.lastBlock w + (Smallz4.nextBlock w - Smallz4.lastBlock w))
    with (Smallz4.nextBlock w) in * by lia.
  split; [|auto]. rewrite A. reflexivity.
Qed.

Lemma emit_block_raw (L : Z) (input : list byte) (w : Smallz4.window)
    (c : list byte) (o0 o : sink) (bs : list byte) :
  appends o0 o bs ->
  0 <= Smallz4.blockSize w < 2147483648 ->
  (Z.of_nat (length c) <? Smallz4.blockSize w) && negb (Smallz4.uncompressed L)
  = false ->
  let p := Smallz4.span input (Smallz4.dataBlock w) (Smallz4.blockSize w) in
  Z.of_nat (length p) = Smallz4.blockSize w ->
  appends o0 (Smallz4.emit_block L input w c o)
    (bs ++ Format.block_bytes (Format.Raw p)).
Proof.
  cbn zeta. intros [W E] Hb Hc Hp. unfold Smallz4.emit_block. rewrite Hc.
  match goal with
  | |- context [dump ?p (dump1 (z2b (Z.land (Z.shiftr ?t 24) 255)) _)] =>
      destruct (dump_prefixed t p o W) as (W' & E')
  end.
  split; [exact W'|]. rewrite E', E, size_prefix_le32.
  unfold Format.block_bytes. cbn [Format.payload]. rewrite Hp.
  unfold u32. rewrite Z.mod_small by lia. rewrite <- app_assoc. reflexivity.
Qed.

Lemma emit_block_compressed (L : Z) (input : list byte) (w : Smallz4.window)
    (ss : list Format.sequence) (l : list byte) (o0 o : sink) (bs : list byte) :
  let c := Format.payload (Format.Compressed ss l) in
  appends o0 o bs ->
  0 <= Smallz4.blockSize w < 2147483648 ->
  (Z.of_nat (length c) <? Smallz4.blockSize w) && negb (Smallz4.uncompressed L)
  = true ->
  appends o0 (Smallz4.emit_block L input w c o)
    (bs ++ Format.block_bytes (Format.Compressed ss l)).
Proof.
  cbn zeta. intros [W E] Hb Hc. unfold Smallz4.emit_block. rewrite Hc.
  apply andb_true_iff in Hc. destruct Hc as [Hc _]. apply Z.ltb_lt in Hc.
  match goal with
  | |- context [dump ?p (dump1 (z2b (Z.land (Z.shiftr ?t 24) 255)) _)] =>
      destruct (dump_prefixed t p o W) as (W' & E')
  end.
  split; [exact W'|]. rewrite E', E, size_prefix_le32.
  unfold Format.block_bytes.
  unfold u32. rewrite Z.mod_small by lia. rewrite Z.lor_0_r.
  rewrite Nat2Z.id, firstn_all. rewrite <- app_assoc. reflexivity.
Qed.

Lemma expand_snoc (bl : list Format.block) (b : Format.block) :
  expand (bl ++ [b]) = expand_block (expand bl) b.
Proof. unfold expand. rewrite fold_left_app. reflexivity. Qed.

Lemma blocks_inside_snoc (bl : list Format.block) (b : Format.block) :
  forall text : list byte,
    blocks_inside text bl ->
    match b with
    | Format.Raw _ => True
    | Format.Compressed ss _ => seqs_inside (fold_left expand_block bl text) ss
    end ->
    blocks_inside text (bl ++ [b]).
Proof.
  induction bl as [|a bl IH]; intros text Hbl Hb; cbn [app blocks_inside] in *.
  - split; [exact Hb | exact I].
  - destruct Hbl as [Ha Hbl]. split; [exact Ha|]. apply IH; assumption.
Qed.

Lemma plain_block_window (input : list byte) (o : sink) (e : Smallz4.encoder)
    (bl : list Format.block) :
  encoder_inv input o e bl ->
  Smallz4.nextBlock (Smallz4.win e) <> Z.of_nat (length input) ->
  plain_window input (block_window input e).
Proof.
  intros (Hinv & (Hw1 & Hw2 & Hw3 & Hw4) & Hmod & _) Hne.
  destruct (block_window_borders input e Hinv Hne) as (Hlb & Hnb & Hbs).
  pose proof Hinv as (_ & _ & HN & _).
  unfold plain_window. rewrite Hlb.
  unfold block_window, Smallz4.next_block in *.
  cbn [Smallz4.data_ptr Smallz4.dataZero Smallz4.lastBlock Smallz4.nextBlock] in *.
  split; [exact Hw1|]. split; [split; [exact Hw2 | exact Hw4]|].
  split; [destruct Hmod as [Hmod | Hmod]; [|contradiction];
          Z.div_mod_to_equations; lia|].
  split; [lia | exact Hbs].
Qed.

Lemma read_more_done (input : list byte) (e : Smallz4.encoder) :
  Smallz4.it e = Z.of_nat (length input) ->
  Smallz4.read_more input e = Smallz4.win e.
Proof.
  intros H. unfold Smallz4.read_more. rewrite H, Z.sub_diag. reflexivity.
Qed.

Lemma block_step (L : Z) (input : list byte) (o : sink) (e e' : Smallz4.encoder)
    (bl : list Format.block) :
  encoder_inv input o e bl ->
  Z.of_nat (length input) < 18446744073709551616 ->
  Smallz4.block L input e = Ok (inr e') ->
  exists b : Format.block, encoder_inv input o e' (bl ++ [b]).
Proof.
  intros Inv Hlen.
  pose proof Inv as (Hinv & HW & Hmod & (R & hi & C & Hhi) & A & Fs & Bi & X).
  pose proof Hinv as (Hd & HR & HN & Hlog).
  destruct (Z.eq_dec (Smallz4.nextBlock (Smallz4.win e))
              (Z.of_nat (length input))) as [E | E].
  { unfold Smallz4.block. rewrite Hd, nextBlock_read_more, HR, E, Z.eqb_refl.
    discriminate. }
  pose proof (block_keeps_inv L input e Hinv) as K.
  rewrite block_continue in K |- * by (rewrite ?HR; assumption).
  pose proof (plain_block_window input o e bl Inv E) as PW.
  destruct (block_window_borders input e Hinv E) as (Hlb & Hnb & Hbs).
  set (w := block_window input e) in *.
  destruct (Smallz4.encode_block L input w _ _ _) as [b | | |] eqn:Eb;
    cbn [bind] in K |- *; try discriminate.
  intros H. inversion H. subst e'. clear H.
  destruct (encode_block_spec L input w _ _ _ b R hi PW Hlen C
              ltac:(rewrite Hlb; exact Hhi) Eb) as [(R' & hi' & C' & H') P].
  pose proof PW as (P1 & P2 & P3 & P4 & P5).
  unfold Smallz4.MaxBlockSize in P5.
  assert (Hdb : Smallz4.dataBlock w = Smallz4.lastBlock w).
  { unfold Smallz4.dataBlock, Smallz4.data_at. rewrite P1. lia. }
  assert (Hit : Smallz4.it (advance L input e b) = Z.of_nat (length input)).
  { unfold advance. cbn [Smallz4.it]. lia. }
  assert (Hwin : Smallz4.win (advance L input e b) = Smallz4.discard w).
  { reflexivity. }
  assert (Hnb' : Smallz4.nextBlock (Smallz4.win (advance L input e b))
                 = Smallz4.nextBlock w).
  { rewrite Hwin. apply nextBlock_discard. }
  assert (Hnw : Smallz4.nextBlock w mod 4194304 = 0
                \/ Smallz4.nextBlock w = Z.of_nat (length input)).
  { destruct Hmod as [Hmod | Hmod]; [|contradiction].
    subst w. unfold block_window, Smallz4.next_block in *.
    cbn [Smallz4.nextBlock Smallz4.lastBlock] in *.
    rewrite nextBlock_read_more, HR in *. unfold Smallz4.MaxBlockSize.
    destruct (Z.gtb_spec (Smallz4.nextBlock (Smallz4.win e) + 4 * 1024 * 1024)
                (Z.of_nat (length input))); [right; reflexivity | left].
    Z.div_mod_to_equations. lia. }
  assert (Hrm : let w' := Smallz4.read_more input (advance L input e b) in
                Smallz4.data_ptr w' = Smallz4.dataZero w'
                /\ 0 <= Smallz4.dataZero w'
                /\ Smallz4.data_size w'
                   = Z.of_nat (length input) - Smallz4.dataZero w'
                /\ (Smallz4.dataZero w' = 0
                    \/ 12 <= Smallz4.nextBlock
                               (Smallz4.win (advance L input e b)))).
  { cbn zeta. rewrite (read_more_done input _ Hit), Hnb', Hwin.
    destruct HW as (Hw1 & Hw2 & Hw3 & Hw4).
    unfold Smallz4.discard, Smallz4.MaxDistance.
    assert (Ds : Smallz4.data_size w
                 = Smallz4.data_size (Smallz4.read_more input e)) by reflexivity.
    assert (Dz : Smallz4.dataZero w
                 = Smallz4.dataZero (Smallz4.read_more input e)) by reflexivity.
    assert (Dp : Smallz4.data_ptr w
                 = Smallz4.data_ptr (Smallz4.read_more input e)) by reflexivity.
    destruct (Z.gtb_spec (Smallz4.data_size w) 65535);
      cbn [Smallz4.data_ptr Smallz4.dataZero Smallz4.data_size];
      unfold Smallz4.blockSize in *; clear P3; Z.div_mod_to_equations; lia. }
  assert (Hch : exists (R : Z -> Prop) (hi : Z),
             chains input R hi (Smallz4.hashes (advance L input e b))
               (Smallz4.chainHash (advance L input e b))
               (Smallz4.chainExact (advance L input e b))
             /\ (hi <= Smallz4.nextBlock (Smallz4.win (advance L input e b)) - 12
                 \/ hi < 0)).
  { exists R', hi'. rewrite Hnb'. split; [exact C' | exact H']. }
  assert (Hbs' : 0 <= Smallz4.blockSize w < 2147483648)
    by (unfold Smallz4.blockSize in *; lia).
  destruct ((Z.of_nat (length (Smallz4.compressed b)) <? Smallz4.blockSize w)
            && negb (Smallz4.uncompressed L)) eqn:U.
  - (* a compressed block *)
    assert (HL : Smallz4.uncompressed L = false).
    { apply andb_true_iff in U. destruct U as [_ U].
      apply negb_true_iff in U. exact U. }
    destruct (P HL) as (ss & l & Ec & F & I & Xs).
    exists (Format.Compressed ss l).
    unfold encoder_inv.
    split; [exact K|]. split; [exact Hrm|]. split; [rewrite Hnb'; exact Hnw|].
    split; [exact Hch|].
    split.
    { unfold advance. cbn [Smallz4.output]. fold w.
      rewrite map_app, concat_app. cbn [map concat]. rewrite app_nil_r, app_assoc.
      rewrite Ec in U |- *.
      apply (emit_block_compressed L input w ss l o (Smallz4.output e));
        assumption. }
    split.
    { apply Forall_app. split; [exact Fs|]. constructor; [|constructor].
      unfold Format.block_shape. split; [|exact F].
      apply andb_true_iff in U. destruct U as [U _]. apply Z.ltb_lt in U.
      rewrite Ec in U. cbn [Format.payload].
      pose proof (length_last_bytes l). rewrite length_app in *.
      unfold Smallz4.blockSize in *. lia. }
    split.
    { apply blocks_inside_snoc; [exact Bi|]. fold (expand bl).
      rewrite X, <- Hlb. exact I. }
    rewrite expand_snoc, Hnb'. cbn [expand_block]. rewrite X, <- Hlb. exact Xs.
  - (* a block that is not compressed *)
    exists (Format.Raw (Smallz4.span input (Smallz4.dataBlock w)
                          (Smallz4.blockSize w))).
    assert (Hsp : Z.of_nat (length (Smallz4.span input (Smallz4.dataBlock w)
                                      (Smallz4.blockSize w)))
                  = Smallz4.blockSize w).
    { rewrite Hdb. apply length_span; unfold Smallz4.blockSize; lia. }
    unfold encoder_inv.
    split; [exact K|]. split; [exact Hrm|]. split; [rewrite Hnb'; exact Hnw|].
    split; [exact Hch|].
    split.
    { unfold advance. cbn [Smallz4.output]. fold w.
      rewrite map_app, concat_app. cbn [map concat]. rewrite app_nil_r, app_assoc.
      apply (emit_block_raw L input w _ o (Smallz4.output e)); assumption. }
    split.
    { apply Forall_app. split; [exact Fs|]. constructor; [|constructor].
      unfold Format.block_shape. cbn [Format.payload]. rewrite Hsp.
      unfold Smallz4.blockSize in *. split; [lia | exact I]. }
    split.
    { apply blocks_inside_snoc; [exact Bi | exact I]. }
    rewrite expand_snoc, Hnb'. cbn [expand_block]. rewrite X, <- Hlb, Hdb.
    rewrite firstn_span by (unfold Smallz4.blockSize; lia).
    f_equal. unfold Smallz4.blockSize. lia.
Qed.

Lemma block_stop (L : Z) (input : list byte) (o : sink) (e e' : Smallz4.encoder)
    (bl : list Format.block) :
  encoder_inv input o e bl ->
  Smallz4.block L input e = Ok (inl e') ->
  Smallz4.output e' = Smallz4.output e
  /\ Smallz4.nextBlock (Smallz4.win e) = Z.of_nat (length input).
Proof.
  intros (Hinv & _). pose proof Hinv as (Hd & HR & HN & Hlog).
  unfold Smallz4.block. rewrite Hd, nextBlock_read_more, HR.
  destruct (Z.eqb_spec (Smallz4.nextBlock (Smallz4.win e))
              (Z.of_nat (length input))) as [E | E].
  - intros H. inversion H. subst e'. cbn [Smallz4.output]. auto.
  - destruct (Smallz4.encode_block _ _ _ _ _ _); cbn [bind]; discriminate.
Qed.

Lemma blocks_text_of_input (L : Z) (input : list byte) (o : sink) :
  Z.of_nat (length input) < 18446744073709551616 ->
  forall (n : nat) (e : Smallz4.encoder) (bl : list Format.block),
    encoder_inv input o e bl ->
    snd (Smallz4.blocks L input n e) = Ok tt ->
    exists bl' : list Format.block,
      appends o (Smallz4.output (fst (Smallz4.blocks L input n e)))
        (Smallz4.header ++ concat (map Format.block_bytes bl'))
      /\ Forall Format.block_shape bl'
      /\ blocks_inside [] bl'
      /\ expand bl' = input.
Proof.
  intros Hlen. induction n as [|n IH]; intros e bl Inv;
    cbn [Smallz4.blocks]; [discriminate|].
  destruct (Smallz4.block L input e) as [[e' | e'] | | |] eqn:Eb;
    cbn [fst snd]; try discriminate.
  - intros _. destruct (block_stop L input o e e' bl Inv Eb) as [Ho En].
    destruct Inv as (_ & _ & _ & _ & A & Fs & Bi & X).
    exists bl. rewrite Ho. split; [exact A|]. split; [exact Fs|].
    split; [exact Bi|]. rewrite X, En, Nat2Z.id. apply firstn_all.
  - destruct (block_step L input o e e' bl Inv Hlen Eb) as [b Inv'].
    apply (IH e' (bl ++ [b]) Inv').
Qed.

Lemma encoder_inv_start (input : list byte) (o : sink) :
  wf_sink o -> encoder_inv input o (Smallz4.start o []) [].
Proof.
  intros Ho. unfold encoder_inv.
  split.
  { unfold block_inv. cbn. repeat split; try lia. constructor. }
  split.
  { unfold Smallz4.read_more, Smallz4.start.
    cbn [Smallz4.it Smallz4.win Smallz4.data_size Smallz4.nextBlock].
    rewrite Z.sub_0_r.
    destruct (Z.eqb_spec (Z.of_nat (length input)) 0);
      cbn [Z.eqb Smallz4.data_ptr Smallz4.dataZero Smallz4.data_size]; lia. }
  split; [left; reflexivity|].
  split.
  { exists (fun _ => False), (-1). split; [|right; lia].
    unfold chains, Smallz4.start.
    cbn [Smallz4.hashes Smallz4.chainHash Smallz4.chainExact].
    split; [intros q []|]. split; [intros h; left; reflexivity|].
    split; intros q []. }
  split.
  { cbn [map concat]. rewrite app_nil_r. unfold Smallz4.start.
    cbn [Smallz4.output].
    destruct (dump_spec Smallz4.header o Ho) as (W & E & _).
    split; assumption. }
  split; [constructor|]. split; [exact I | reflexivity].
Qed.

(** Where the encoder returns, the decoder gives the input back: the bytes
    that [lz4] has written for an input without dictionary are a frame
    that [unlz4] decodes without an error, writing the bytes of the input
    behind what its sink holds. *)
Theorem round_trip_of_a_returning_run (input : list byte) (L : Z)
    (history0 : list byte) (end_ : nat) (o : sink) :
  Z.of_nat (length input) < 18446744073709551616 ->
  length history0 = Z.to_nat Unlz4.HISTORY_SIZE ->
  wf_sink o ->
  snd (Smallz4.lz4 input sink0 L []) = Ok tt ->
  exists (n : nat) (o' : sink),
    Unlz4.unlz4 history0 (written (fst (Smallz4.lz4 input sink0 L []))) 0 end_ o
      Unlz4.NoDictionary
    = Ok (n, o')
    /\ written o' = written o ++ input.
Proof.
  intros Hlen Hh Ho. unfold Smallz4.lz4, Smallz4.compress, Smallz4.run.
  pose proof (blocks_text_of_input L input sink0 Hlen (S (length input))
                (Smallz4.start sink0 []) []
                (encoder_inv_start input sink0 wf_sink0)) as B.
  destruct (Smallz4.blocks L input (S (length input)) (Smallz4.start sink0 []))
    as [e r].
  cbn [fst snd] in B.
  destruct r as [[] | | |]; cbn [fst snd]; try discriminate.
  intros _. destruct (B eq_refl) as (bl & [W E] & F & Bi & X).
  destruct (dump_spec (le32 0) (Smallz4.output e) W) as (_ & E' & _).
  unfold dump_type. rewrite E', E.
  change (written sink0) with (@nil byte). cbn [app].
  assert (Ef : (Smallz4.header ++ concat (map Format.block_bytes bl)) ++ le32 0
               = Format.frame x40 x70 [] [] xdf bl).
  { rewrite <- app_assoc. reflexivity. }
  rewrite Ef.
  destruct (frame_text history0 x40 x70 [] [] xdf bl end_ o Hh) as (n & o' & U & T);
    try assumption.
  { unfold Format.descriptor_shape. cbn. repeat split; intros; congruence. }
  exists n, o'. rewrite <- X. split; [exact U | exact T].
Qed.

(** * More of the code *)

(** ** The sink *)

(** X13: [dump] of a span writes the bytes behind what the sink holds and
    moves the cursor behind them; the cursor stays inside of the buffer.
    The buffer keeps its size when the bytes fit in, and else grows to the
    larger one of twice its size and the new place of the cursor; it never
    shrinks. *)
Theorem dump_appends_the_bytes (str : list byte) (s : sink) :
  wf_sink s ->
  wf_sink (dump str s)
  /\ written (dump str s) = written s ++ str
  /\ ix (dump str s) = (ix s + length str)%nat
  /\ (length (buf s) <= length (buf (dump str s)))%nat
  /\ length (buf (dump str s))
     = (if (length (buf s) <? ix s + length str)%nat
        then Nat.max (length (buf s) * 2) (ix s + length str)
        else length (buf s)).
Proof.
  intros H. destruct (dump_spec str s H) as (W & E & I).
  split; [exact W|]. split; [exact E|]. split; [exact I|].
  unfold wf_sink in H. unfold dump. cbn [buf].
  destruct (Nat.ltb_spec (length (buf s)) (ix s + length str)).
  - split; rewrite length_overwrite; rewrite length_resize; lia.
  - split; rewrite length_overwrite; lia.
Qed.

Lemma dump_appends_the_bytes_witness :
  let s := {| buf := [x61; x62; x63; x00]; ix := 3 |} in
  wf_sink (dump [x41; x42] s)
  /\ written (dump [x41; x42] s) = written s ++ [x41; x42]
  /\ ix (dump [x41; x42] s) = (ix s + length [x41; x42])%nat
  /\ (length (buf s) <= length (buf (dump [x41; x42] s)))%nat
  /\ length (buf (dump [x41; x42] s))
     = (if (length (buf s) <? ix s + length [x41; x42])%nat
        then Nat.max (length (buf s) * 2) (ix s + length [x41; x42])
        else length (buf s)).
Proof.
  apply (dump_appends_the_bytes [x41; x42]
           {| buf := [x61; x62; x63; x00]; ix := 3 |}).
  unfold wf_sink. cbn. lia.
Defined.

(** X14: [dump] of one byte writes it behind what the sink holds and moves
    the cursor by one.  The buffer keeps its size unless the cursor is at
    its end: then an empty buffer grows to 128 bytes and any other one to
    twice its size; it never shrinks. *)
Theorem dump_appends_one_byte (c : byte) (s : sink) :
  wf_sink s ->
  wf_sink (dump1 c s)
  /\ written (dump1 c s) = written s ++ [c]
  /\ ix (dump1 c s) = S (ix s)
  /\ (length (buf s) <= length (buf (dump1 c s)))%nat
  /\ (buf s = [] -> length (buf (dump1 c s)) = 128%nat)
  /\ length (buf (dump1 c s))
     = (if (ix s =? length (buf s))%nat
        then if (length (buf s) =? 0)%nat then 128%nat
             else (length (buf s) * 2)%nat
        else length (buf s)).
Proof.
  intros H. destruct (dump1_spec c s H) as (W & E & I).
  split; [exact W|]. split; [exact E|]. split; [exact I|].
  unfold wf_sink in H. unfold dump1. cbn [buf].
  destruct (Nat.eqb_spec (ix s) (length (buf s))) as [Hx | Hx].
  - destruct (Nat.eqb_spec (length (buf s)) 0) as [H0 | H0].
    + split; [|split].
      * rewrite length_overwrite; rewrite length_resize; cbn [length]; lia.
      * intros _. rewrite length_overwrite; rewrite length_resize;
          cbn [length]; lia.
      * rewrite length_overwrite; rewrite length_resize; cbn [length]; lia.
    + split; [|split].
      * rewrite length_overwrite; rewrite length_resize; cbn [length]; lia.
      * intros Hb. rewrite Hb in H0. contradiction.
      * rewrite length_overwrite; rewrite length_resize; cbn [length]; lia.
  - split; [|split].
    + rewrite length_overwrite; cbn [length]; lia.
    + intros Hb. rewrite Hb in *. cbn [length] in *. lia.
    + rewrite length_overwrite; cbn [length]; lia.
Qed.

Lemma dump_appends_one_byte_witness :
  let s := {| buf := [x61; x62]; ix := 2 |} in
  wf_sink (dump1 x41 s)
  /\ written (dump1 x41 s) = written s ++ [x41]
  /\ ix (dump1 x41 s) = S (ix s)
  /\ (length (buf s) <= length (buf (dump1 x41 s)))%nat
  /\ (buf s = [] -> length (buf (dump1 x41 s)) = 128%nat)
  /\ length (buf (dump1 x41 s))
     = (if (ix s =? length (buf s))%nat
        then if (length (buf s) =? 0)%nat then 128%nat
             else (length (buf s) * 2)%nat
        else length (buf s)).
Proof.
  apply (dump_appends_one_byte x41 {| buf := [x61; x62]; ix := 2 |}).
  unfold wf_sink. cbn. lia.
Defined.

Lemma holds_behind (xs ys : list byte) : holds (xs ++ ys) (length xs) ys.
Proof.
  unfold holds. rewrite skipn_app, Nat.sub_diag, skipn_all. cbn [skipn app].
  apply firstn_all.
Qed.

(** X15: the four bytes that [dump_type] writes for a 32 bit value are read
    back as this value by the decoder's read of a block size. *)
Theorem dump_type_is_read_back (v : Z) (o : sink) (s : Unlz4.state) :
  wf_sink o ->
  0 <= v < 4294967296 ->
  Unlz4.it s = ix o ->
  Unlz4.read_u32 (written (dump_type v o)) s
  = Ok (v, Unlz4.with_it s (ix o + 4)).
Proof.
  intros Ho Hv Hi. unfold dump_type.
  destruct (dump_spec (le32 v) o Ho) as (_ & E & _). rewrite E.
  rewrite <- Hi. apply read_u32_ok; [exact Hv|].
  rewrite Hi, <- (length_written o Ho). apply holds_behind.
Qed.

Lemma dump_type_is_read_back_witness :
  Unlz4.read_u32 (written (dump_type 305419896 sink0))
    {| Unlz4.it := 0; Unlz4.history := []; Unlz4.pos := 0; Unlz4.out := sink0 |}
  = Ok (305419896,
        Unlz4.with_it
          {| Unlz4.it := 0; Unlz4.history := []; Unlz4.pos := 0;
             Unlz4.out := sink0 |} (ix sink0 + 4)).
Proof.
  apply dump_type_is_read_back; [exact wf_sink0 | lia | reflexivity].
Defined.

(** ** The hash of four bytes *)

(** X16: [getHash32] gives an index of the table [lastHash], which has
    [HashSize] entries, whatever the four bytes are. *)
Theorem getHash32_is_an_index (fourBytes : Z) :
  0 <= Smallz4.getHash32 fourBytes < Smallz4.HashSize.
Proof.
  unfold Smallz4.getHash32, Smallz4.HashSize, Smallz4.HashBits. cbn zeta.
  change (Z.shiftl 1 20 - 1) with (Z.ones 20).
  rewrite Z.land_ones by lia. change (Z.shiftl 1 20) with (2 ^ 20).
  apply Z.mod_pos_bound. lia.
Qed.

(** ** The match finder *)

(** X10: what [findLongestMatch] returns is no match (the length 1) or a
    match of the input: at least four bytes that repeat the bytes
    [distance] positions in front of them, with a distance from 1 to
    65535 that does not reach in front of the input.  The chain it walks
    is the table [previousExact] as the loop of [compress] keeps it. *)
Theorem findLongestMatch_finds_a_repetition (L : Z) (input : list byte)
    (R : Z -> Prop) (pos end_ data : Z) (lh ph pe : Smallz4.table) (rd : Z) :
  chains input R pos lh ph pe -> R pos ->
  pos + 4 <= end_ -> end_ - pos < 4294967296 ->
  let r := Smallz4.findLongestMatch L input data pos data end_ pe rd in
  fst r = 1 \/ (4 <= fst r /\ valid_match input pos (fst r) (snd r)).
Proof.
  intros C HR He Hs.
  exact (findLongestMatch_valid L input R pos end_ data lh ph pe rd C HR He Hs).
Qed.

Lemma findLongestMatch_finds_a_repetition_witness :
  let input := Inputs.abcd4 in
  let pe := Smallz4.tset (fun _ => 0) 4 4 in
  let r := Smallz4.findLongestMatch 9 input 0 4 0 27 pe 0 in
  fst r = 1 \/ (4 <= fst r /\ valid_match input 4 (fst r) (snd r)).
Proof.
  cbn zeta.
  apply (findLongestMatch_finds_a_repetition 9 Inputs.abcd4
           (fun q => q = 0 \/ q = 4) 4 27 0
           (fun _ => Smallz4.NoLastHash) (fun _ => 0)
           (Smallz4.tset (fun _ => 0) 4 4) 0).
  - unfold chains. split; [intros q [-> | ->]; lia|].
    split; [intros h; left; reflexivity|].
    split; [intros q _ _; left; reflexivity|].
    intros q [-> | ->] _.
    + left. reflexivity.
    + right. split; [left; reflexivity | reflexivity].
  - right. reflexivity.
  - lia.
  - lia.
Defined.

(** ** The cost model *)

Lemma vget_Forall (P : Z -> Prop) (v : list Z) (j : Z) :
  Forall P v -> P 0 -> P (Smallz4.vget v j).
Proof.
  intros Hv H0. unfold Smallz4.vget. destruct (j <? 0); [exact H0|].
  destruct (Nat.lt_ge_cases (Z.to_nat j) (length v)) as [Hl | Hl].
  - rewrite Forall_forall in Hv. apply Hv. apply nth_In. exact Hl.
  - rewrite nth_overflow by exact Hl. exact H0.
Qed.

Lemma Forall_vset (P : Z -> Prop) (v : list Z) (i x : Z) :
  Forall P v -> P x -> Forall P (Smallz4.vset v i x).
Proof.
  intros Hv Hx. unfold Smallz4.vset. destruct (i <? 0); [exact Hv|].
  generalize (Z.to_nat i). induction Hv as [|h t Hh Ht IH]; intros [|k];
    cbn [Smallz4.vset_nat]; constructor; auto.
Qed.

Lemma cost_step_only_shortens (i : Z) (m : Smallz4.Matches) (cost : list Z)
    (nl : Z) :
  Forall (fun l => 0 <= l < 4294967295) (Smallz4.lengths m) ->
  let m' := fst (fst (Smallz4.cost_step i (m, cost, nl))) in
  Smallz4.distances m' = Smallz4.distances m
  /\ Forall (fun l => 0 <= l < 4294967295) (Smallz4.lengths m')
  /\ forall j : Z,
       (j <> i ->
        Smallz4.vget (Smallz4.lengths m') j = Smallz4.vget (Smallz4.lengths m) j)
       /\ (Smallz4.vget (Smallz4.lengths m') j = Smallz4.vget (Smallz4.lengths m) j
           \/ Smallz4.vget (Smallz4.lengths m') j = 1
           \/ 4 <= Smallz4.vget (Smallz4.lengths m') j
                <= Smallz4.vget (Smallz4.lengths m) j).
Proof.
  intros Hv. unfold Smallz4.cost_step.
  pose proof (vget_Forall (fun l => 0 <= l < 4294967295) _ i Hv ltac:(cbn beta; lia))
    as Hi.
  cbn beta in Hi.
  match goal with
  | |- context [if ?c then (?a, ?b) else Smallz4.cost_loop ?n ?co ?i ?ml ?l ?mc ?bl ?e ?nx] =>
      pose proof (cost_loop_best n co i ml l mc bl e nx ltac:(lia)
                    ltac:(unfold Smallz4.MinMatch; lia)
                    ltac:(left; reflexivity)) as Hc;
      cbn zeta in Hc;
      destruct c;
      [ | destruct (Smallz4.cost_loop n co i ml l mc bl e nx) as [minCost best] ]
  end; cbn [fst snd Smallz4.lengths Smallz4.distances] in *.
  - split; [reflexivity|]. split; [apply Forall_vset; [exact Hv | lia]|].
    intros j. rewrite vget_vset.
    destruct (Z.eqb_spec j i) as [-> | Hne]; cbn [andb].
    + split; [intros C; contradiction|]. left. clear Hc.
      destruct (_ && _); reflexivity.
    + split; [reflexivity | left; reflexivity].
  - split; [reflexivity|]. split; [apply Forall_vset; [exact Hv | lia]|].
    intros j. rewrite vget_vset.
    destruct (Z.eqb_spec j i) as [-> | Hne]; cbn [andb].
    + split; [intros C; contradiction|].
      destruct (_ && _); [|left; reflexivity].
      destruct Hc as [Hc | Hc]; [right; left; exact Hc | right; right; exact Hc].
    + split; [reflexivity | left; reflexivity].
Qed.

Lemma cost_steps_only_shorten (n : nat) (st : Smallz4.Matches * list Z * Z) :
  Forall (fun l => 0 <= l < 4294967295) (Smallz4.lengths (fst (fst st))) ->
  let m := fst (fst st) in
  let m' := fst (fst (Smallz4.cost_steps n st)) in
  Smallz4.distances m' = Smallz4.distances m
  /\ forall j : Z,
       (Z.of_nat n <= j ->
        Smallz4.vget (Smallz4.lengths m') j = Smallz4.vget (Smallz4.lengths m) j)
       /\ (Smallz4.vget (Smallz4.lengths m') j = Smallz4.vget (Smallz4.lengths m) j
           \/ Smallz4.vget (Smallz4.lengths m') j = 1
           \/ 4 <= Smallz4.vget (Smallz4.lengths m') j
                <= Smallz4.vget (Smallz4.lengths m) j).
Proof.
  revert st. induction n as [|n IH]; intros [[m cost] nl] Hv;
    cbn [Smallz4.cost_steps fst].
  - cbn zeta. split; [reflexivity|]. intros j. auto.
  - destruct (cost_step_only_shortens (Z.of_nat n) m cost nl Hv)
      as (D1 & V1 & S1).
    specialize (IH (Smallz4.cost_step (Z.of_nat n) (m, cost, nl)) V1).
    cbn zeta in IH. destruct IH as (D2 & S2).
    cbn zeta. split; [congruence|]. intros j.
    destruct (S1 j) as [U1 T1]. destruct (S2 j) as [U2 T2].
    split.
    + intros Hj. rewrite U2 by lia. apply U1. lia.
    + destruct T2 as [T2 | [T2 | T2]]; destruct T1 as [T1 | [T1 | T1]]; lia.
Qed.

(** X11: [estimateCosts] only shortens: it leaves the distances and the
    last five entries as they are, and the length of an entry is afterwards
    what it was, or 1 (a literal), or a length from 4 up to what it was. *)
Theorem estimateCosts_only_shortens (m : Smallz4.Matches) :
  Forall (fun l => 0 <= l < 4294967295) (Smallz4.lengths m) ->
  let m' := Smallz4.estimateCosts m in
  Smallz4.distances m' = Smallz4.distances m
  /\ length (Smallz4.lengths m') = length (Smallz4.lengths m)
  /\ forall j : Z,
       (Z.of_nat (length (Smallz4.lengths m)) - 5 <= j ->
        Smallz4.vget (Smallz4.lengths m') j = Smallz4.vget (Smallz4.lengths m) j)
       /\ (Smallz4.vget (Smallz4.lengths m') j = Smallz4.vget (Smallz4.lengths m) j
           \/ Smallz4.vget (Smallz4.lengths m') j = 1
           \/ 4 <= Smallz4.vget (Smallz4.lengths m') j
                <= Smallz4.vget (Smallz4.lengths m) j).
Proof.
  intros Hv. cbn zeta. unfold Smallz4.estimateCosts, Smallz4.BlockEndLiterals.
  match goal with
  | |- context [Smallz4.cost_steps ?n ?st] =>
      destruct (cost_steps_only_shorten n st Hv) as (D & S);
      pose proof (length_cost_steps n st) as Hl
  end.
  cbn [fst] in *. split; [exact D|]. split; [exact Hl|].
  intros j. destruct (S j) as [U T]. split; [|exact T].
  intros Hj. destruct (Z.lt_ge_cases j 0) as [Hn | Hn].
  - unfold Smallz4.vget. destruct (Z.ltb_spec j 0); [reflexivity | lia].
  - apply U. lia.
Qed.

Lemma estimateCosts_only_shortens_witness :
  let m := {| Smallz4.lengths := [1; 1; 1; 1; 1; 8; 1; 1; 1; 1; 20; 1; 1; 1; 1; 1;
                                  1; 1; 1; 1; 1; 1; 1; 1; 1; 1; 1; 1; 1; 1; 1; 1;
                                  1; 1; 1; 1; 1; 1; 1; 1];
              Smallz4.distances := [0; 0; 0; 0; 0; 4; 0; 0; 0; 0; 4; 0; 0; 0; 0; 0;
                                    0; 0; 0; 0; 0; 0; 0; 0; 0; 0; 0; 0; 0; 0; 0; 0;
                                    0; 0; 0; 0; 0; 0; 0; 0] |} in
  let m' := Smallz4.estimateCosts m in
  (Smallz4.vget (Smallz4.lengths m) 5 = 8
   /\ Smallz4.vget (Smallz4.lengths m') 5 = 5)
  /\ Smallz4.distances m' = Smallz4.distances m
  /\ length (Smallz4.lengths m') = length (Smallz4.lengths m)
  /\ forall j : Z,
       (Z.of_nat (length (Smallz4.lengths m)) - 5 <= j ->
        Smallz4.vget (Smallz4.lengths m') j = Smallz4.vget (Smallz4.lengths m) j)
       /\ (Smallz4.vget (Smallz4.lengths m') j = Smallz4.vget (Smallz4.lengths m) j
           \/ Smallz4.vget (Smallz4.lengths m') j = 1
           \/ 4 <= Smallz4.vget (Smallz4.lengths m') j
                <= Smallz4.vget (Smallz4.lengths m) j).
Proof.
  cbn zeta. split; [split; vm_compute; reflexivity|].
  apply estimateCosts_only_shortens.
  cbn [Smallz4.lengths]. repeat (constructor; [lia|]). constructor.
Defined.

(** ** The serializer *)

(** X12: [selectBestMatches] writes the block in the format: for a table
    whose matches are matches of the input, at least 12 bytes in front of
    the end of the block and ending at least 5 bytes in front of it, the
    bytes it returns are sequences and a last run of literals that stand
    for the bytes of the block, behind the text in front of the block. *)
Theorem selectBestMatches_writes_the_block (input : list byte)
    (m : Smallz4.Matches) (data : Z) :
  let B := Z.of_nat (length (Smallz4.lengths m)) in
  0 <= data -> 0 < B <= 4194304 ->
  data + B <= Z.of_nat (length input) ->
  bounded B m ->
  (forall j, 0 <= j ->
     1 < Smallz4.vget (Smallz4.lengths m) j ->
     4 <= Smallz4.vget (Smallz4.lengths m) j
     /\ valid_match input (data + j) (Smallz4.vget (Smallz4.lengths m) j)
          (Smallz4.vget (Smallz4.distances m) j)) ->
  exists (ss : list Format.sequence) (l : list byte),
    Smallz4.selectBestMatches input m data
    = Format.payload (Format.Compressed ss l)
    /\ Forall Format.sequence_shape ss
    /\ seqs_inside (firstn (Z.to_nat data) input) ss
    /\ fold_left expand_sequence ss (firstn (Z.to_nat data) input) ++ l
       = firstn (Z.to_nat (data + B)) input.
Proof.
  cbn zeta. intros Hd HB Hin Hb Hm.
  unfold Smallz4.selectBestMatches, Smallz4.select.
  set (r0 := {| buf := _; ix := 0 |}).
  assert (A0 : appends r0 r0 []).
  { apply appends_refl. unfold wf_sink, r0. cbn. lia. }
  destruct (select_loop_spec input m data
              (Z.of_nat (length (Smallz4.lengths m)))
              Hd Hin ltac:(lia) Hb Hm
              (length (Smallz4.lengths m))
              0 0 0 r0 r0 [] [] A0 ltac:(lia) ltac:(lia) ltac:(lia) ltac:(lia))
    as (ss & l & [_ A] & F & I & X).
  exists ss, l.
  replace (data + 0 - 0) with data in * by lia.
  split; [|auto]. rewrite A. reflexivity.
Qed.

Lemma vget_ones (n : nat) (j : Z) : Smallz4.vget (repeat 1 n) j <= 1.
Proof.
  apply (vget_Forall (fun l => l <= 1)); [|lia].
  apply Forall_forall. intros x Hx. apply repeat_spec in Hx. lia.
Qed.

Lemma selectBestMatches_writes_the_block_witness :
  let input := Inputs.abcd4 in
  let m := {| Smallz4.lengths := Smallz4.vset (repeat 1 32) 4 12;
              Smallz4.distances := Smallz4.vset (repeat 0 32) 4 4 |} in
  exists (ss : list Format.sequence) (l : list byte),
    Smallz4.selectBestMatches input m 0
    = Format.payload (Format.Compressed ss l)
    /\ Forall Format.sequence_shape ss
    /\ seqs_inside (firstn (Z.to_nat 0) input) ss
    /\ fold_left expand_sequence ss (firstn (Z.to_nat 0) input) ++ l
       = firstn (Z.to_nat (0 + Z.of_nat (length (Smallz4.lengths m)))) input.
Proof.
  cbn zeta.
  apply (selectBestMatches_writes_the_block Inputs.abcd4
           {| Smallz4.lengths := Smallz4.vset (repeat 1 32) 4 12;
              Smallz4.distances := Smallz4.vset (repeat 0 32) 4 4 |} 0).
  - lia.
  - vm_compute. split; [reflexivity | discriminate].
  - vm_compute. discriminate.
  - intros j. cbn [Smallz4.lengths]. rewrite vget_vset.
    destruct (Z.eqb_spec j 4) as [-> | Hne]; cbn [andb].
    + intros _. vm_compute. split; discriminate.
    + pose proof (vget_ones 32 j). lia.
  - intros j Hj. cbn [Smallz4.lengths Smallz4.distances]. rewrite !vget_vset.
    destruct (Z.eqb_spec j 4) as [-> | Hne]; cbn [andb].
    + intros _. change ((0 <=? 4) && (4 <? Z.of_nat (length (repeat 1 32))))
        with true.
      change ((0 <=? 4) && (4 <? Z.of_nat (length (repeat 0 32)))) with true.
      cbn iota. split; [lia|]. unfold valid_match.
      split; [lia|]. split; [lia|]. intros k Hk.
      assert (K : k = 0 \/ k = 1 \/ k = 2 \/ k = 3 \/ k = 4 \/ k = 5 \/ k = 6
                  \/ k = 7 \/ k = 8 \/ k = 9 \/ k = 10 \/ k = 11) by lia.
      repeat (destruct K as [-> | K]; [reflexivity|]). subst k. reflexivity.
    + pose proof (vget_ones 32 j). lia.
Defined.

(** ** When the encoder returns *)

(** the table of a block has room for the literals at its end when the
    block is not compressed, is the first one, or has at least 11 bytes *)
Lemma encode_block_defined (L : Z) (input : list byte) (w : Smallz4.window)
    (lh ph pe : Smallz4.table) :
  Smallz4.uncompressed L = true \/ Smallz4.dataZero w = 0
  \/ 11 <= Smallz4.blockSize w ->
  exists b, Smallz4.encode_block L input w lh ph pe = Ok b.
Proof.
  intros H. unfold Smallz4.encode_block, Smallz4.find_matches.
  destruct (Smallz4.match_loop _ _ _ _ _ _ _) as [f trace].
  match goal with
  | |- context [Smallz4.fill_literals ?n ?i ?m] =>
      destruct (fill_literals_inside n i m) as (m' & E); [| rewrite E]
  end.
  - unfold Smallz4.passes, Smallz4.lookback, Smallz4.BlockEndNoMatch.
    destruct (Smallz4.uncompressed L); [lia|].
    destruct H as [H | [H | H]]; [discriminate | rewrite H; cbn; lia |].
    destruct (Z.gtb_spec (Smallz4.dataZero w) 12); lia.
  - cbn [bind]. destruct (Smallz4.select _ _ _) as [r emitted]. eauto.
Qed.

(** a block of at most ten bytes behind a block: the loop over the
    positions starts below 0 and does not reach 0 *)
Lemma encode_block_undefined (L : Z) (input : list byte) (w : Smallz4.window)
    (lh ph pe : Smallz4.table) :
  Smallz4.uncompressed L = false ->
  0 < Smallz4.dataZero w ->
  1 <= Smallz4.blockSize w <= 10 ->
  Smallz4.encode_block L input w lh ph pe = Undefined.
Proof.
  intros Hu Hz Hb. unfold Smallz4.encode_block, Smallz4.find_matches.
  destruct (Smallz4.match_loop _ _ _ _ _ _ _) as [f trace].
  set (i := Smallz4.lookback L w + Z.max 0 (Smallz4.passes L w)).
  assert (Hi : i < 0).
  { subst i.
    unfold Smallz4.passes, Smallz4.lookback, Smallz4.BlockEndNoMatch.
    rewrite Hu. destruct (Z.gtb_spec (Smallz4.dataZero w) 12); lia. }
  assert (Hn : Smallz4.n_matches L w = Smallz4.blockSize w).
  { unfold Smallz4.n_matches. rewrite Hu. reflexivity. }
  rewrite Hn.
  set (n := Z.to_nat _).
  assert (En : n = S (Nat.pred n)) by (subst n; lia).
  rewrite En, fill_literals_outside by exact Hi. reflexivity.
Qed.

Lemma dataZero_read_more (input : list byte) (e : Smallz4.encoder) :
  Smallz4.dataZero (Smallz4.read_more input e) = Smallz4.dataZero (Smallz4.win e).
Proof.
  unfold Smallz4.read_more.
  destruct (_ =? 0); [reflexivity|]. destruct (_ =? 0); reflexivity.
Qed.

Lemma dataZero_discard (w : Smallz4.window) :
  Smallz4.dataZero w <= Smallz4.dataZero (Smallz4.discard w)
  /\ (Smallz4.MaxDistance < Smallz4.data_size w ->
      Smallz4.dataZero (Smallz4.discard w)
      = Smallz4.dataZero w + (Smallz4.data_size w - Smallz4.MaxDistance)).
Proof.
  unfold Smallz4.discard.
  destruct (Z.gtb_spec (Smallz4.data_size w) Smallz4.MaxDistance);
    cbn [Smallz4.dataZero]; split; lia.
Qed.

Lemma borders_start (input : list byte) (o : sink) :
  borders input (Smallz4.start o []).
Proof.
  unfold borders, Smallz4.read_more. cbn.
  repeat split; try lia. left. repeat split.
  rewrite Z.sub_0_r. destruct (Z.eqb_spec (Z.of_nat (length input)) 0) as [E|E].
  - cbn. lia.
  - reflexivity.
Qed.

Lemma block_window_fields (input : list byte) (e : Smallz4.encoder) :
  let w := block_window input e in
  let N := Smallz4.numRead e + (Z.of_nat (length input) - Smallz4.it e) in
  let nb := Smallz4.nextBlock (Smallz4.win e) in
  Smallz4.lastBlock w = nb
  /\ Smallz4.nextBlock w
     = (if nb + Smallz4.MaxBlockSize >? N then N else nb + Smallz4.MaxBlockSize)
  /\ Smallz4.dataZero w = Smallz4.dataZero (Smallz4.win e)
  /\ Smallz4.data_size w = Smallz4.data_size (Smallz4.read_more input e).
Proof.
  cbn zeta. unfold block_window, Smallz4.next_block.
  cbn [Smallz4.lastBlock Smallz4.nextBlock Smallz4.dataZero Smallz4.data_size].
  rewrite nextBlock_read_more, dataZero_read_more. auto.
Qed.

(** the borders behind a block that has been encoded *)
Lemma borders_advance (L : Z) (input : list byte) (e : Smallz4.encoder)
    (b : Smallz4.encoded) :
  borders input e ->
  Smallz4.nextBlock (Smallz4.win e) <> Z.of_nat (length input) ->
  borders input (advance L input e b)
  /\ Smallz4.nextBlock (Smallz4.win (advance L input e b))
     = Smallz4.nextBlock (block_window input e)
  /\ slack input (advance L input e b) < slack input e.
Proof.
  intros (Hd & Hr & Hnb & Hm & Hz) En.
  destruct (block_window_fields input e) as (Wl & Wn & Wz & Ws).
  rewrite Hr in Wn. unfold Smallz4.MaxBlockSize in Wn.
  change (4 * 1024 * 1024) with 4194304 in Wn.
  assert (Hmod : Smallz4.nextBlock (Smallz4.win e) mod 4194304 = 0)
    by (destruct Hm; [assumption | contradiction]).
  split; [|split].
  - unfold borders. cbn [advance Smallz4.parseDictionary Smallz4.numRead
                          Smallz4.it Smallz4.win].
    rewrite nextBlock_discard, read_more_done
      by (cbn [advance Smallz4.it]; lia).
    cbn [Smallz4.win].
    destruct (dataZero_discard (block_window input e)) as [D1 D2].
    rewrite Ws, Wz in *.
    split; [reflexivity|]. split; [lia|].
    destruct (Z.gtb_spec (Smallz4.nextBlock (Smallz4.win e) + 4194304)
                (Z.of_nat (length input))) as [G | G]; rewrite Wn.
    + split; [lia|]. split; [right; reflexivity|]. right. left. reflexivity.
    + split; [lia|]. split.
      { left. clear - Hmod. Z.div_mod_to_equations. lia. }
      right. right. split; [lia|].
      destruct Hz as [(Z1 & Z2 & Z3) | [Z1 | [Z1 Z2]]];
        [| contradiction | lia].
      rewrite Z3 in D2. unfold Smallz4.MaxDistance in D2. lia.
  - cbn [advance Smallz4.win]. apply nextBlock_discard.
  - unfold slack in *.
    cbn [advance Smallz4.numRead Smallz4.it Smallz4.win].
    rewrite nextBlock_discard, Wn.
    destruct (Z.gtb_spec (Smallz4.nextBlock (Smallz4.win e) + 4194304)
                (Z.of_nat (length input))); lia.
Qed.

Lemma blocks_outcome (L : Z) (input : list byte) (n : nat) (e : Smallz4.encoder) :
  borders input e ->
  slack input e < Z.of_nat n ->
  (short_tail L input = true ->
   Smallz4.nextBlock (Smallz4.win e) <> Z.of_nat (length input)) ->
  snd (Smallz4.blocks L input n e)
  = if short_tail L input then Undefined else Ok tt.
Proof.
  revert e. induction n as [|n IH]; intros e B Hs Hst.
  { destruct B as (_ & Hr & Hnb & _). unfold slack in Hs. lia. }
  destruct B as (Hd & Hr & Hnb & Hm & Hz).
  cbn [Smallz4.blocks].
  destruct (Z.eq_dec (Smallz4.nextBlock (Smallz4.win e))
              (Z.of_nat (length input))) as [En | En].
  - (* the end of the input *)
    unfold Smallz4.block. rewrite Hd, nextBlock_read_more, Hr, En, Z.eqb_refl.
    cbn [snd]. destruct (short_tail L input); [|reflexivity].
    exfalso. apply Hst; [reflexivity | exact En].
  - rewrite (block_continue L input e Hd) by (rewrite Hr; exact En).
    destruct (block_window_fields input e) as (Wl & Wn & Wz & Ws).
    rewrite Hr in Wn.
    assert (Hmod : Smallz4.nextBlock (Smallz4.win e) mod 4194304 = 0)
      by (destruct Hm; [assumption | contradiction]).
    unfold Smallz4.MaxBlockSize in Wn.
    change (4 * 1024 * 1024) with 4194304 in Wn.
    assert (Hbs : Smallz4.blockSize (block_window input e)
                  = Smallz4.nextBlock (block_window input e)
                    - Smallz4.nextBlock (Smallz4.win e))
      by (unfold Smallz4.blockSize; rewrite Wl; reflexivity).
    assert (Hshort : short_tail L input = true ->
              Smallz4.uncompressed L = false
              /\ 4194304 < Z.of_nat (length input)
              /\ 1 <= Z.of_nat (length input) mod 4194304 <= 10).
    { unfold short_tail, Smallz4.uncompressed, Smallz4.MaxBlockSize.
      change (4 * 1024 * 1024) with 4194304.
      intros H. apply andb_prop in H. destruct H as [H H4].
      apply andb_prop in H. destruct H as [H H3].
      apply andb_prop in H. destruct H as [H1 H2].
      apply Z.ltb_lt in H2. apply Z.leb_le in H3, H4.
      destruct (L =? 0); [discriminate|]. repeat split; lia. }
    assert (Hlong : short_tail L input = false ->
              Smallz4.uncompressed L = true
              \/ Z.of_nat (length input) <= 4194304
              \/ Z.of_nat (length input) mod 4194304 = 0
              \/ 11 <= Z.of_nat (length input) mod 4194304).
    { unfold short_tail, Smallz4.uncompressed, Smallz4.MaxBlockSize.
      change (4 * 1024 * 1024) with 4194304.
      intros H. destruct (L =? 0); [left; reflexivity|]. cbn [negb andb] in H.
      destruct (Z.ltb_spec 4194304 (Z.of_nat (length input)));
        [|right; left; lia].
      cbn [andb] in H.
      destruct (Z.leb_spec 1 (Z.of_nat (length input) mod 4194304)).
      - cbn [andb] in H. apply Z.leb_gt in H. right. right. right. lia.
      - pose proof (Z.mod_pos_bound (Z.of_nat (length input)) 4194304).
        right. right. left. lia. }
    (* the step behind a block that has been encoded *)
    assert (Step : forall b,
              (short_tail L input = true ->
               Smallz4.nextBlock (block_window input e)
               <> Z.of_nat (length input)) ->
              snd (Smallz4.blocks L input n (advance L input e b))
              = if short_tail L input then Undefined else Ok tt).
    { intros b Hne.
      destruct (borders_advance L input e b
                  (conj Hd (conj Hr (conj Hnb (conj Hm Hz)))) En)
        as (B' & Hn' & Hs').
      apply IH; [exact B' | lia | rewrite Hn'; exact Hne]. }
    destruct (Z.gtb_spec (Smallz4.nextBlock (Smallz4.win e) + 4194304)
                (Z.of_nat (length input))) as [G | G].
    + (* the last block *)
      assert (Hsize : 0 < Smallz4.nextBlock (Smallz4.win e) ->
                Smallz4.blockSize (block_window input e)
                = Z.of_nat (length input) mod 4194304
                /\ 4194304 < Z.of_nat (length input)).
      { intros Hp. rewrite Hbs, Wn. clear - Hmod G Hnb En Hp.
        Z.div_mod_to_equations. lia. }
      destruct (short_tail L input) eqn:Est.
      * destruct (Hshort eq_refl) as (Hu & H4 & Hmd).
        destruct Hz as [(Z1 & Z2 & Z3) | [Z1 | [Z1 Z2]]];
          [lia | contradiction |].
        destruct (Hsize Z1) as [Hb _].
        rewrite encode_block_undefined; [reflexivity | exact Hu | | ].
        -- rewrite Wz. lia.
        -- rewrite Hb. exact Hmd.
      * destruct (encode_block_defined L input (block_window input e)
                    (Smallz4.hashes e) (Smallz4.chainHash e)
                    (Smallz4.chainExact e)) as (b & Eb).
        { destruct Hz as [(Z1 & Z2 & Z3) | [Z1 | [Z1 Z2]]];
            [right; left; rewrite Wz; exact Z2 | contradiction |].
          destruct (Hsize Z1) as [Hb H4].
          destruct (Hlong eq_refl) as [Hu | [Hle | [H0 | H11]]];
            [left; exact Hu | lia | | right; right; rewrite Hb; exact H11].
          exfalso. rewrite Hbs, Wn in Hb. lia. }
        rewrite Eb. cbn [bind].
        apply Step. discriminate.
    + (* a full block *)
      destruct (encode_block_defined L input (block_window input e)
                  (Smallz4.hashes e) (Smallz4.chainHash e)
                  (Smallz4.chainExact e)) as (b & Eb).
      { right. right. rewrite Hbs, Wn. lia. }
      rewrite Eb. cbn [bind]. apply Step. intros Est.
      destruct (Hshort Est) as (_ & _ & Hmd). rewrite Wn.
      clear - Hmod Hmd. Z.div_mod_to_equations. lia.
Qed.

Lemma run_outcome (input : list byte) (L : Z) (o : sink) :
  snd (Smallz4.run L input o [])
  = if short_tail L input then Undefined else Ok tt.
Proof.
  unfold Smallz4.run. apply blocks_outcome.
  - apply borders_start.
  - unfold slack. cbn. lia.
  - unfold short_tail, Smallz4.MaxBlockSize. cbn [Smallz4.start Smallz4.win
      Smallz4.nextBlock]. intros H.
    apply andb_prop in H. destruct H as [H _].
    apply andb_prop in H. destruct H as [H _].
    apply andb_prop in H. destruct H as [_ H]. apply Z.ltb_lt in H. lia.
Qed.

Lemma lz4_outcome (input : list byte) (L : Z) (o : sink) :
  snd (Smallz4.lz4 input o L [])
  = if short_tail L input then Undefined else Ok tt.
Proof.
  unfold Smallz4.lz4, Smallz4.compress.
  pose proof (run_outcome input L o) as H.
  destruct (Smallz4.run L input o []) as [e r]. cbn [snd] in H. subst r.
  destruct (short_tail L input); reflexivity.
Qed.

(** X2: without a dictionary, [lz4] returns for every input and every
    chain length but in one case: a chain length other than 0 and an input
    of more than 4 MiB whose last block has 1 to 10 bytes (its size modulo
    4 MiB).  In that case the run leaves the match table of the last block
    (the literals at its end are written from a negative index on). *)
Theorem lz4_returns_unless_the_last_block_is_short (input : list byte)
    (L : Z) (o : sink) :
  let N := Z.of_nat (length input) in
  (L <> 0 /\ 4194304 < N /\ 1 <= N mod 4194304 <= 10 ->
   snd (Smallz4.lz4 input o L []) = Undefined)
  /\ (L = 0 \/ N <= 4194304 \/ N mod 4194304 = 0 \/ 11 <= N mod 4194304 ->
      snd (Smallz4.lz4 input o L []) = Ok tt).
Proof.
  cbn zeta. rewrite lz4_outcome.
  unfold short_tail, Smallz4.MaxBlockSize.
  change (4 * 1024 * 1024) with 4194304.
  split.
  - intros (HL & H4 & H1 & H10).
    apply Z.eqb_neq in HL. apply Z.ltb_lt in H4. apply Z.leb_le in H1, H10.
    rewrite HL, H4, H1, H10. reflexivity.
  - intros H.
    destruct (Z.eqb_spec L 0); [reflexivity|]. cbn [negb andb].
    destruct (Z.ltb_spec 4194304 (Z.of_nat (length input))); [|reflexivity].
    cbn [andb].
    destruct (Z.leb_spec 1 (Z.of_nat (length input) mod 4194304));
      [|reflexivity].
    cbn [andb].
    destruct (Z.leb_spec (Z.of_nat (length input) mod 4194304) 10);
      [|reflexivity].
    lia.
Qed.

Lemma lz4_returns_unless_the_last_block_is_short_witness :
  snd (Smallz4.lz4 (repeat x41 (Z.to_nat 4194307)) sink0 9 []) = Undefined
  /\ snd (Smallz4.lz4 Inputs.hello sink0 9 []) = Ok tt.
Proof.
  split.
  - apply (lz4_returns_unless_the_last_block_is_short
             (repeat x41 (Z.to_nat 4194307)) 9 sink0).
    rewrite repeat_length, Z2Nat.id by lia.
    split; [discriminate|]. split; [reflexivity|].
    change (4194307 mod 4194304) with 3. lia.
  - apply (lz4_returns_unless_the_last_block_is_short Inputs.hello 9 sink0).
    right. left. vm_compute. discriminate.
Defined.

(** ** The header and the end mark *)

Lemma short_tail_spec (L : Z) (input : list byte) :
  let N := Z.of_nat (length input) in
  (short_tail L input = true
   <-> L <> 0 /\ 4194304 < N /\ 1 <= N mod 4194304 <= 10)
  /\ (short_tail L input = false
      <-> L = 0 \/ N <= 4194304 \/ N mod 4194304 = 0 \/ 11 <= N mod 4194304).
Proof.
  cbn zeta. unfold short_tail, Smallz4.MaxBlockSize.
  change (4 * 1024 * 1024) with 4194304.
  pose proof (Z.mod_pos_bound (Z.of_nat (length input)) 4194304 ltac:(lia)).
  destruct (Z.eqb_spec L 0); cbn [negb andb]; [split; split; intros; lia || auto|].
  destruct (Z.ltb_spec 4194304 (Z.of_nat (length input))); cbn [andb];
    [|split; split; intros; lia || auto].
  destruct (Z.leb_spec 1 (Z.of_nat (length input) mod 4194304)); cbn [andb];
    [|split; split; intros; lia || auto].
  destruct (Z.leb_spec (Z.of_nat (length input) mod 4194304) 10);
    split; split; intros; lia || auto.
Qed.

(** C4 fails where the encoder does not return.  The frame of the empty
    input is the 11 bytes [04 22 4D 18 40 70 DF 00 00 00 00], for every chain
    length.  For every input and every chain length, what the encoder writes
    starts with the seven bytes [04 22 4D 18 40 70 DF]; the run returns, and
    the last four bytes are then [00 00 00 00], when the chain length is 0,
    or the input has at most 4 MiB, or its last block has no or at least 11
    bytes.  With a chain length other than 0 and an input of more than 4 MiB
    whose last block has 1 to 10 bytes the run leaves the match table of the
    last block: there is no return and no end mark, as for 4 MiB + 10 bytes
    at the chain length 1. *)
Theorem frame_header_and_end_mark :
  (forall L : Z,
      let r := Smallz4.lz4 [] sink0 L [] in
      snd r = Ok tt
      /\ written (fst r)
         = [x04; x22; x4d; x18; x40; x70; xdf; x00; x00; x00; x00])
  /\ (forall (input : list byte) (L : Z),
      let N := Z.of_nat (length input) in
      let r := Smallz4.lz4 input sink0 L [] in
      (exists mid : list byte,
          written (fst r) = [x04; x22; x4d; x18; x40; x70; xdf] ++ mid)
      /\ (L = 0 \/ N <= 4194304 \/ N mod 4194304 = 0 \/ 11 <= N mod 4194304 ->
          snd r = Ok tt
          /\ exists mid : list byte,
               written (fst r)
               = [x04; x22; x4d; x18; x40; x70; xdf] ++ mid
                 ++ [x00; x00; x00; x00])
      /\ (L <> 0 /\ 4194304 < N /\ 1 <= N mod 4194304 <= 10 ->
          snd r = Undefined))
  /\ snd (Smallz4.lz4 (repeat x41 (Z.to_nat 4194314)) sink0 1 []) = Undefined.
Proof.
  split; [|split].
  - intros L. split; reflexivity.
  - intros input L. cbn zeta.
    destruct (short_tail_spec L input) as [St Sf]. cbn zeta in St, Sf.
    pose proof (lz4_outcome input L sink0) as Ho.
    destruct (lz4_frame_cases input L) as (mid & [[Hr Hw] | [Hr Hw]]);
      cbn zeta in Hr, Hw.
    + split; [exists (mid ++ [x00; x00; x00; x00]); exact Hw|].
      split.
      * intros _. split; [exact Hr|]. exists mid. exact Hw.
      * intros H. apply St in H. rewrite H in Ho. exact Ho.
    + split; [exists mid; exact Hw|].
      split.
      * intros H. apply Sf in H. rewrite H, Hr in Ho. discriminate.
      * intros _. exact Hr.
  - rewrite lz4_outcome.
    unfold short_tail, Smallz4.MaxBlockSize.
    rewrite repeat_length, Z2Nat.id by lia. reflexivity.
Qed.

Lemma frame_header_and_end_mark_witness :
  let r := Smallz4.lz4 Inputs.hello sink0 9 [] in
  snd r = Ok tt
  /\ exists mid : list byte,
       written (fst r)
       = [x04; x22; x4d; x18; x40; x70; xdf] ++ mid ++ [x00; x00; x00; x00].
Proof.
  cbn zeta.
  apply (proj1 (proj2 (proj1 (proj2 frame_header_and_end_mark)
                         Inputs.hello 9))).
  right. left. vm_compute. discriminate.
Defined.

(** ** The frame of the encoder *)

Lemma block_advances (L : Z) (input : list byte) (e e' : Smallz4.encoder) :
  Smallz4.parseDictionary e = false ->
  Smallz4.numRead e + (Z.of_nat (length input) - Smallz4.it e)
  = Z.of_nat (length input) ->
  Smallz4.block L input e = Ok (inr e') ->
  let nb := Smallz4.nextBlock (Smallz4.win e) in
  nb <> Z.of_nat (length input)
  /\ Smallz4.nextBlock (Smallz4.win e')
     = Z.min (nb + 4194304) (Z.of_nat (length input)).
Proof.
  intros Hd Hr Hb. cbn zeta.
  destruct (Z.eq_dec (Smallz4.nextBlock (Smallz4.win e))
              (Z.of_nat (length input))) as [En | En].
  { unfold Smallz4.block in Hb.
    rewrite Hd, nextBlock_read_more, Hr, En, Z.eqb_refl in Hb. discriminate. }
  split; [exact En|].
  rewrite (block_continue L input e Hd) in Hb by (rewrite Hr; exact En).
  destruct (Smallz4.encode_block _ _ _ _ _ _) as [b | | |];
    cbn [bind] in Hb; try discriminate.
  injection Hb as <-. cbn [advance Smallz4.win]. rewrite nextBlock_discard.
  destruct (block_window_fields input e) as (_ & Wn & _).
  rewrite Wn, Hr. unfold Smallz4.MaxBlockSize.
  change (4 * 1024 * 1024) with 4194304.
  destruct (Z.gtb_spec (Smallz4.nextBlock (Smallz4.win e) + 4194304)
              (Z.of_nat (length input))); lia.
Qed.

(** the blocks of a run cut the input every 4 MiB *)
Lemma blocks_cut (L : Z) (input : list byte) (o : sink) :
  Z.of_nat (length input) < 18446744073709551616 ->
  forall (n : nat) (e : Smallz4.encoder) (bl : list Format.block),
    encoder_inv input o e bl ->
    Z.of_nat (length bl)
    = (Smallz4.nextBlock (Smallz4.win e) + 4194303) / 4194304 ->
    (forall k : nat, (k <= length bl)%nat ->
       expand (firstn k bl)
       = firstn (Z.to_nat (Z.min (Z.of_nat k * 4194304)
                             (Smallz4.nextBlock (Smallz4.win e)))) input) ->
    snd (Smallz4.blocks L input n e) = Ok tt ->
    exists bl' : list Format.block,
      appends o (Smallz4.output (fst (Smallz4.blocks L input n e)))
        (Smallz4.header ++ concat (map Format.block_bytes bl'))
      /\ Forall Format.block_shape bl'
      /\ blocks_inside [] bl'
      /\ Z.of_nat (length bl') = (Z.of_nat (length input) + 4194303) / 4194304
      /\ forall k : nat, (k <= length bl')%nat ->
           expand (firstn k bl')
           = firstn (Z.to_nat (Z.min (Z.of_nat k * 4194304)
                                 (Z.of_nat (length input)))) input.
Proof.
  intros Hlen. induction n as [|n IH]; intros e bl Inv Hc Hk;
    cbn [Smallz4.blocks]; [discriminate|].
  destruct (Smallz4.block L input e) as [[e' | e'] | | |] eqn:Eb;
    cbn [fst snd]; try discriminate.
  - intros _. destruct (block_stop L input o e e' bl Inv Eb) as [Ho En].
    destruct Inv as (_ & _ & _ & _ & A & Fs & Bi & X).
    exists bl. rewrite Ho, <- En. auto.
  - destruct (block_step L input o e e' bl Inv Hlen Eb) as [b Inv'].
    pose proof Inv as ((Hd & Hr & Hnb & _) & _ & Hm & _).
    destruct (block_advances L input e e' Hd Hr Eb) as [En Hn'].
    assert (Hmod : Smallz4.nextBlock (Smallz4.win e) mod 4194304 = 0)
      by (destruct Hm; [assumption | contradiction]).
    assert (X' : expand (bl ++ [b])
                 = firstn (Z.to_nat (Smallz4.nextBlock (Smallz4.win e'))) input)
      by (destruct Inv' as (_ & _ & _ & _ & _ & _ & _ & X'); exact X').
    apply (IH e' (bl ++ [b]) Inv').
    + rewrite length_app, Hn'. cbn [length].
      rewrite Nat2Z.inj_add, Hc. clear - Hmod Hnb En.
      change (Z.of_nat 1) with 1. Z.div_mod_to_equations. lia.
    + intros k Hle. rewrite length_app in Hle. cbn [length] in Hle.
      destruct (Nat.eq_dec k (length bl + 1)) as [-> | Hne].
      * rewrite firstn_all2 by (rewrite length_app; cbn [length]; lia).
        rewrite X'. f_equal. f_equal. rewrite Hn', Nat2Z.inj_add, Hc.
        clear - Hmod Hnb En. change (Z.of_nat 1) with 1.
        Z.div_mod_to_equations. lia.
      * rewrite firstn_app.
        replace (k - length bl)%nat with 0%nat by lia.
        cbn [firstn]. rewrite app_nil_r, Hk by lia.
        f_equal. f_equal. rewrite Hn'.
        assert (Z.of_nat k <= Z.of_nat (length bl)) by lia.
        clear - Hmod Hnb En Hc H. Z.div_mod_to_equations. lia.
Qed.

Lemma lz4_frame (input : list byte) (L : Z) (o : sink) :
  Z.of_nat (length input) < 18446744073709551616 ->
  wf_sink o ->
  snd (Smallz4.lz4 input o L []) = Ok tt ->
  exists bl : list Format.block,
    written (fst (Smallz4.lz4 input o L []))
    = written o ++ Format.frame x40 x70 [] [] xdf bl
    /\ Forall Format.block_shape bl
    /\ blocks_inside [] bl
    /\ expand bl = input
    /\ Z.of_nat (length bl) = (Z.of_nat (length input) + 4194303) / 4194304
    /\ forall k : nat, (k <= length bl)%nat ->
         expand (firstn k bl)
         = firstn (Z.to_nat (Z.min (Z.of_nat k * 4194304)
                               (Z.of_nat (length input)))) input.
Proof.
  intros Hlen Ho. unfold Smallz4.lz4, Smallz4.compress, Smallz4.run.
  pose proof (blocks_cut L input o Hlen (S (length input))
                (Smallz4.start o []) []
                (encoder_inv_start input o Ho)) as B.
  destruct (Smallz4.blocks L input (S (length input)) (Smallz4.start o []))
    as [e r].
  cbn [fst snd] in B.
  destruct r as [[] | | |]; cbn [fst snd]; try discriminate.
  intros _. destruct B as (bl & [W E] & F & Bi & Hc & Hk).
  - reflexivity.
  - intros k Hle. cbn [length] in Hle. replace k with 0%nat by lia.
    reflexivity.
  - reflexivity.
  - destruct (dump_spec (le32 0) (Smallz4.output e) W) as (_ & E' & _).
    exists bl. unfold dump_type. rewrite E', E.
    split; [rewrite <- !app_assoc; reflexivity|].
    split; [exact F|]. split; [exact Bi|]. split; [|auto].
    rewrite <- (firstn_all bl) at 1. rewrite Hk by lia.
    rewrite Hc.
    replace (Z.to_nat _) with (length input);
      [apply firstn_all | clear; Z.div_mod_to_equations; lia].
Qed.

(** X3: what [lz4] has written when it returns is a frame of the format:
    behind what the sink held, the magic number, the descriptor 40 70 DF
    (version 01, no checksums, no content size, no dictionary ID, blocks of
    up to 4 MiB), blocks of 1 to 4 MiB whose sequences have matches of at
    least 4 bytes and offsets from 1 to 65535 that reach back into the text,
    and the end mark.  The blocks stand for the input, and they cut it
    every 4 MiB: there is one block for each 4 MiB begun, and the first [k]
    blocks stand for the first [k] times 4 MiB of the input. *)
Theorem lz4_writes_a_frame (input : list byte) (L : Z) (o : sink) :
  Z.of_nat (length input) < 18446744073709551616 ->
  wf_sink o ->
  snd (Smallz4.lz4 input o L []) = Ok tt ->
  exists bl : list Format.block,
    written (fst (Smallz4.lz4 input o L []))
    = written o ++ Format.frame x40 x70 [] [] xdf bl
    /\ Forall Format.block_shape bl
    /\ blocks_inside [] bl
    /\ expand bl = input
    /\ Z.of_nat (length bl) = (Z.of_nat (length input) + 4194303) / 4194304
    /\ forall k : nat, (k <= length bl)%nat ->
         expand (firstn k bl)
         = firstn (Z.to_nat (Z.min (Z.of_nat k * 4194304)
                               (Z.of_nat (length input)))) input.
Proof.
  intros Hlen Ho Hr. exact (lz4_frame input L o Hlen Ho Hr).
Qed.

Lemma lz4_writes_a_frame_witness :
  exists bl : list Format.block,
    written (fst (Smallz4.lz4 Inputs.hello sink0 9 []))
    = written sink0 ++ Format.frame x40 x70 [] [] xdf bl
    /\ Forall Format.block_shape bl
    /\ blocks_inside [] bl
    /\ expand bl = Inputs.hello
    /\ Z.of_nat (length bl)
       = (Z.of_nat (length Inputs.hello) + 4194303) / 4194304
    /\ forall k : nat, (k <= length bl)%nat ->
         expand (firstn k bl)
         = firstn (Z.to_nat (Z.min (Z.of_nat k * 4194304)
                               (Z.of_nat (length Inputs.hello)))) Inputs.hello.
Proof.
  apply lz4_writes_a_frame.
  - vm_compute. reflexivity.
  - exact wf_sink0.
  - vm_compute. reflexivity.
Defined.

(** ** The blocks the encoder emits *)







(** ** The size of the frame *)

Lemma emit_block_size (L : Z) (input : list byte) (w : Smallz4.window)
    (c : list byte) (o : sink) :
  wf_sink o -> 0 <= Smallz4.blockSize w ->
  wf_sink (Smallz4.emit_block L input w c o)
  /\ Z.of_nat (length (written (Smallz4.emit_block L input w c o)))
     <= Z.of_nat (length (written o)) + 4 + Smallz4.blockSize w.
Proof.
  intros Ho Hb. unfold Smallz4.emit_block.
  assert (Hu : u32 (Smallz4.blockSize w) <= Smallz4.blockSize w).
  { unfold u32. apply Z.mod_le; lia. }
  destruct (Z.ltb_spec (Z.of_nat (length c)) (Smallz4.blockSize w)) as [Hc | Hc];
    destruct (Smallz4.uncompressed L); cbn [andb negb];
    match goal with
    | |- context [dump ?p (dump1 (z2b (Z.land (Z.shiftr ?t 24) 255)) _)] =>
        destruct (dump_prefixed t p o Ho) as (W & E)
    end;
    (split; [exact W|]); rewrite E, !length_app; cbn [size_prefix length];
    try (unfold Smallz4.span; rewrite length_firstn; lia);
    rewrite length_firstn; lia.
Qed.

Lemma blocks_size (L : Z) (input : list byte) (n0 : Z) (n : nat)
    (e : Smallz4.encoder) :
  borders input e ->
  wf_sink (Smallz4.output e) ->
  Z.of_nat (length (written (Smallz4.output e)))
  <= n0 + frame_bound (Smallz4.nextBlock (Smallz4.win e)) ->
  Z.of_nat (length (written (Smallz4.output (fst (Smallz4.blocks L input n e)))))
  <= n0 + frame_bound (Z.of_nat (length input)).
Proof.
  assert (Mono : forall nb, 0 <= nb <= Z.of_nat (length input) ->
            frame_bound nb <= frame_bound (Z.of_nat (length input))).
  { intros nb H. unfold frame_bound.
    pose proof (Z.div_le_mono (nb + 4194303)
                  (Z.of_nat (length input) + 4194303) 4194304). lia. }
  revert e. induction n as [|n IH]; intros e B Ho Hs.
  { cbn [Smallz4.blocks fst]. destruct B as (_ & _ & Hnb & _).
    specialize (Mono _ Hnb). lia. }
  pose proof B as (Hd & Hr & Hnb & Hm & Hz).
  cbn [Smallz4.blocks].
  destruct (Z.eq_dec (Smallz4.nextBlock (Smallz4.win e))
              (Z.of_nat (length input))) as [En | En].
  - unfold Smallz4.block. rewrite Hd, nextBlock_read_more, Hr, En, Z.eqb_refl.
    cbn [fst Smallz4.output]. rewrite En in Hs. exact Hs.
  - rewrite (block_continue L input e Hd) by (rewrite Hr; exact En).
    destruct (Smallz4.encode_block L input (block_window input e) _ _ _)
      as [b | err | |]; cbn [bind fst];
      try (specialize (Mono _ Hnb); lia).
    destruct (borders_advance L input e b B En) as (B' & Hn' & _).
    destruct (block_window_fields input e) as (Wl & Wn & _).
    rewrite Hr in Wn. unfold Smallz4.MaxBlockSize in Wn.
    change (4 * 1024 * 1024) with 4194304 in Wn.
    assert (Hmod : Smallz4.nextBlock (Smallz4.win e) mod 4194304 = 0)
      by (destruct Hm; [assumption | contradiction]).
    destruct (emit_block_size L input (block_window input e)
                (Smallz4.compressed b) (Smallz4.output e) Ho) as [W' S'].
    { unfold Smallz4.blockSize. rewrite Wl, Wn.
      destruct (_ >? _); lia. }
    apply IH; [exact B' | exact W' |].
    rewrite Hn'. cbn [advance Smallz4.output].
    unfold Smallz4.blockSize in S'. rewrite Wl in S'.
    assert (Hlt : Smallz4.nextBlock (Smallz4.win e)
                  < Smallz4.nextBlock (block_window input e)).
    { rewrite Wn. destruct (Z.gtb_spec
        (Smallz4.nextBlock (Smallz4.win e) + 4194304)
        (Z.of_nat (length input))); lia. }
    revert Hs S' Hlt Hmod Hnb. unfold frame_bound.
    generalize (Smallz4.nextBlock (block_window input e)).
    generalize (Smallz4.nextBlock (Smallz4.win e)).
    intros a c. intros. Z.div_mod_to_equations. lia.
Qed.

(** X4: the frame is never much longer than the input.  Without a
    dictionary, what [lz4] appends to the sink has at most 11 bytes (the
    header and the end mark), the bytes of the input, and 4 bytes for each
    block of up to 4 MiB: a block that does not shrink is stored as it
    is. *)
Theorem lz4_output_is_bounded (input : list byte) (L : Z) (o : sink) :
  wf_sink o ->
  let N := Z.of_nat (length input) in
  Z.of_nat (length (written (fst (Smallz4.lz4 input o L []))))
  <= Z.of_nat (length (written o)) + 11 + N + 4 * ((N + 4194303) / 4194304).
Proof.
  intros Ho. cbn zeta. unfold Smallz4.lz4, Smallz4.compress, Smallz4.run.
  destruct (dump_spec Smallz4.header o Ho) as (W0 & E0 & _).
  pose proof (blocks_size L input (Z.of_nat (length (written o)))
                (S (length input)) (Smallz4.start o [])
                (borders_start input o) W0) as Hs.
  pose proof (blocks_cases L input (S (length input)) (Smallz4.start o [])
                eq_refl W0) as Hc.
  destruct (Smallz4.blocks L input (S (length input)) (Smallz4.start o []))
    as [e r].
  cbn [fst snd] in *.
  assert (Hb : Z.of_nat (length (written (Smallz4.output e)))
               <= Z.of_nat (length (written o))
                  + frame_bound (Z.of_nat (length input))).
  { apply Hs. cbn [Smallz4.start Smallz4.output Smallz4.win Smallz4.nextBlock].
    rewrite E0, length_app. unfold frame_bound. cbn. lia. }
  destruct Hc as (_ & We & _); [unfold slack; cbn; lia|].
  unfold frame_bound in Hb.
  destruct r as [[] | | |]; cbn [fst]; try lia.
  destruct (dump_spec (le32 0) (Smallz4.output e) We) as (_ & E' & _).
  unfold dump_type. rewrite E', length_app. cbn [le32 length]. lia.
Qed.

Lemma lz4_output_is_bounded_witness :
  Z.of_nat (length (written (fst (Smallz4.lz4 Inputs.hello sink0 9 []))))
  <= Z.of_nat (length (written sink0)) + 11
     + Z.of_nat (length Inputs.hello)
     + 4 * ((Z.of_nat (length Inputs.hello) + 4194303) / 4194304).
Proof.
  apply (lz4_output_is_bounded Inputs.hello 9 sink0). exact wf_sink0.
Defined.

(** ** Chain length 0 *)

Lemma data_ptr_discard (w : Smallz4.window) :
  Smallz4.data_ptr w = Smallz4.dataZero w ->
  Smallz4.data_ptr (Smallz4.discard w) = Smallz4.dataZero (Smallz4.discard w).
Proof.
  intros H. unfold Smallz4.discard. destruct (_ >? _);
    cbn [Smallz4.data_ptr Smallz4.dataZero]; lia.
Qed.

Lemma data_ptr_start (input : list byte) (o : sink) :
  let w := Smallz4.read_more input (Smallz4.start o []) in
  Smallz4.data_ptr w = Smallz4.dataZero w.
Proof.
  cbn zeta. unfold Smallz4.read_more. cbn.
  destruct (_ =? 0); reflexivity.
Qed.

Lemma blocks_stored (input : list byte) (o : sink) (n : nat)
    (e : Smallz4.encoder) (ps : list (list byte)) :
  borders input e ->
  (let w := Smallz4.read_more input e in
   Smallz4.data_ptr w = Smallz4.dataZero w) ->
  appends o (Smallz4.output e)
    (Smallz4.header ++ concat (map Format.block_bytes (map Format.Raw ps))) ->
  concat ps = firstn (Z.to_nat (Smallz4.nextBlock (Smallz4.win e))) input ->
  Forall (fun p => 1 <= Z.of_nat (length p) <= 4194304) ps ->
  slack input e < Z.of_nat n ->
  let r := Smallz4.blocks 0 input n e in
  snd r = Ok tt
  /\ exists ps' : list (list byte),
       appends o (Smallz4.output (fst r))
         (Smallz4.header
          ++ concat (map Format.block_bytes (map Format.Raw ps')))
       /\ concat ps' = input
       /\ Forall (fun p => 1 <= Z.of_nat (length p) <= 4194304) ps'.
Proof.
  revert e ps. induction n as [|n IH]; intros e ps B Hp A Hc Hf Hs.
  { destruct B as (_ & Hr & Hnb & _). unfold slack in Hs. lia. }
  pose proof B as (Hd & Hr & Hnb & Hm & Hz).
  cbn zeta. cbn [Smallz4.blocks].
  destruct (Z.eq_dec (Smallz4.nextBlock (Smallz4.win e))
              (Z.of_nat (length input))) as [En | En].
  - unfold Smallz4.block. rewrite Hd, nextBlock_read_more, Hr, En, Z.eqb_refl.
    cbn [fst snd Smallz4.output]. split; [reflexivity|].
    exists ps. split; [exact A|]. split; [|exact Hf].
    rewrite Hc, En, Nat2Z.id. apply firstn_all.
  - rewrite (block_continue 0 input e Hd) by (rewrite Hr; exact En).
    destruct (encode_block_defined 0 input (block_window input e)
                (Smallz4.hashes e) (Smallz4.chainHash e)
                (Smallz4.chainExact e)) as (b & Eb); [left; reflexivity|].
    rewrite Eb. cbn [bind].
    destruct (borders_advance 0 input e b B En) as (B' & Hn' & Hs').
    destruct (block_window_fields input e) as (Wl & Wn & Wz & _).
    rewrite Hr in Wn. unfold Smallz4.MaxBlockSize in Wn.
    change (4 * 1024 * 1024) with 4194304 in Wn.
    set (w := block_window input e) in *.
    assert (Hsz : 1 <= Smallz4.blockSize w <= 4194304
                  /\ Smallz4.nextBlock w <= Z.of_nat (length input)).
    { unfold Smallz4.blockSize. rewrite Wl, Wn.
      destruct (Z.gtb_spec (Smallz4.nextBlock (Smallz4.win e) + 4194304)
                  (Z.of_nat (length input))); lia. }
    assert (Hdb : Smallz4.dataBlock w = Smallz4.nextBlock (Smallz4.win e)).
    { unfold Smallz4.dataBlock, Smallz4.data_at. rewrite Wl, Wz.
      change (Smallz4.data_ptr w) with
        (Smallz4.data_ptr (Smallz4.read_more input e)).
      cbn zeta in Hp. rewrite Hp, dataZero_read_more. lia. }
    set (p := Smallz4.span input (Smallz4.dataBlock w) (Smallz4.blockSize w)).
    assert (Hlp : Z.of_nat (length p) = Smallz4.blockSize w).
    { subst p. apply length_span; [rewrite Hdb; lia | lia |].
      rewrite Hdb. unfold Smallz4.blockSize. rewrite Wl. lia. }
    apply (IH (advance 0 input e b) (ps ++ [p])).
    + exact B'.
    + cbn zeta. rewrite read_more_done by (cbn [advance Smallz4.it]; lia).
      cbn [advance Smallz4.win]. apply data_ptr_discard. fold w.
      change (Smallz4.data_ptr w) with
        (Smallz4.data_ptr (Smallz4.read_more input e)).
      cbn zeta in Hp. rewrite Hp, Wz, dataZero_read_more. reflexivity.
    + cbn [advance Smallz4.output]. fold w.
      rewrite !map_app, concat_app. cbn [map concat].
      rewrite app_nil_r, app_assoc.
      apply emit_block_raw; [exact A | lia | | exact Hlp].
      apply andb_false_r.
    + rewrite Hn', concat_app. cbn [concat]. rewrite app_nil_r, Hc.
      subst p. rewrite Hdb. unfold Smallz4.blockSize in *. rewrite Wl in *.
      rewrite firstn_span by lia. f_equal. f_equal. lia.
    + apply Forall_app. split; [exact Hf|]. constructor; [lia | constructor].
    + lia.
Qed.

(** X5: with the chain length 0 the input is stored.  [lz4] returns, and
    what it has appended to the sink is the header, the input cut into
    blocks of 1 to 4 MiB, each behind its size with bit 31 set, and the end
    mark. *)
Theorem chain_length_0_stores_the_input (input : list byte) (o : sink) :
  wf_sink o ->
  snd (Smallz4.lz4 input o 0 []) = Ok tt
  /\ exists ps : list (list byte),
       written (fst (Smallz4.lz4 input o 0 []))
       = written o
         ++ Format.frame x40 x70 [] [] xdf (map Format.Raw ps)
       /\ concat ps = input
       /\ Forall (fun p => 1 <= Z.of_nat (length p) <= 4194304) ps.
Proof.
  intros Ho. unfold Smallz4.lz4, Smallz4.compress, Smallz4.run.
  destruct (blocks_stored input o (S (length input)) (Smallz4.start o []) [])
    as (R & ps & [W E] & C & F).
  - apply borders_start.
  - apply data_ptr_start.
  - cbn [map concat]. rewrite app_nil_r.
    destruct (dump_spec Smallz4.header o Ho) as (W0 & E0 & _).
    split; [exact W0 | exact E0].
  - reflexivity.
  - constructor.
  - unfold slack. cbn. lia.
  - destruct (Smallz4.blocks 0 input (S (length input)) (Smallz4.start o []))
      as [e r].
    cbn [fst snd] in *. subst r. cbn [fst snd]. split; [reflexivity|].
    exists ps. split; [|auto].
    destruct (dump_spec (le32 0) (Smallz4.output e) W) as (_ & E' & _).
    unfold dump_type. rewrite E', E. rewrite <- !app_assoc. reflexivity.
Qed.

Lemma chain_length_0_stores_the_input_witness :
  snd (Smallz4.lz4 Inputs.hello sink0 0 []) = Ok tt
  /\ exists ps : list (list byte),
       written (fst (Smallz4.lz4 Inputs.hello sink0 0 []))
       = written sink0
         ++ Format.frame x40 x70 [] [] xdf (map Format.Raw ps)
       /\ concat ps = Inputs.hello
       /\ Forall (fun p => 1 <= Z.of_nat (length p) <= 4194304) ps.
Proof.
  apply (chain_length_0_stores_the_input Inputs.hello sink0). exact wf_sink0.
Defined.

(** ** Frames with checksums *)

Lemma blocks_text_mark (mem pre : list byte) (cs : bool) (t : Z)
    (bl : list (Format.block * list byte)) :
  0 <= t < 4294967296 -> Z.land t 2147483647 = 0 ->
  Forall (fun bc => Format.block_shape (fst bc)
                    /\ length (snd bc) = if cs then 4%nat else 0%nat) bl ->
  forall (fuel : nat) (s : Unlz4.state) (text : list byte),
    holds mem (Unlz4.it s) (blocks_with_sums bl ++ le32 t) ->
    ring pre text s -> Unlz4.pos s < 65536 ->
    blocks_inside text (map fst bl) ->
    (length bl < fuel)%nat ->
    exists s',
      Unlz4.blocks mem fuel cs s = Ok s'
      /\ ring pre (fold_left expand_block (map fst bl) text) s'
      /\ Unlz4.it s'
         = (Unlz4.it s + length (blocks_with_sums bl ++ le32 t))%nat.
Proof.
  unfold blocks_with_sums.
  intros Htr Htz Hbl. induction Hbl as [|[b c] bl [Hb Hc] Hbl IH];
    intros fuel s text Hh Hr Hp Hin Hf;
    (destruct fuel as [|fuel]; [cbn [length] in Hf; lia|]);
    cbn [Unlz4.blocks].
  - cbn [map concat app fold_left] in *.
    rewrite (read_u32_ok mem t s) by (exact Htr || exact Hh). cbn [bind].
    rewrite Htz. cbn [Z.eqb].
    eexists. split; [reflexivity|]. split; [apply ring_with_it; exact Hr|].
    reflexivity.
  - cbn [map concat length fold_left fst snd] in *.
    rewrite <- !app_assoc in Hh.
    apply holds_app in Hh. destruct Hh as [Hh1 Hh2].
    apply holds_app in Hh2. destruct Hh2 as [_ Hh2].
    assert (HLb : length (Format.block_bytes b)
                  = (4 + length (Format.payload b))%nat).
    { unfold Format.block_bytes. cbn zeta. rewrite length_app. reflexivity. }
    rewrite HLb in Hh2.
    unfold Format.block_bytes in Hh1. cbn zeta in Hh1.
    apply holds_app in Hh1. destruct Hh1 as [Hq1 Hq].
    replace (length (le32 (match b with
                           | Format.Raw _ =>
                               Z.lor (Z.of_nat (length (Format.payload b))) 2147483648
                           | Format.Compressed _ _ =>
                               Z.of_nat (length (Format.payload b))
                           end))) with 4%nat in * by reflexivity.
    destruct Hb as (Hsz & Hsh). destruct Hin as [Hin1 Hin2].
    set (n := Z.of_nat (length (Format.payload b))) in *.
    set (s1 := Unlz4.with_it s (Unlz4.it s + 4)).
    assert (R1 : ring pre text s1) by (apply ring_with_it; exact Hr).
    pose proof (holds_length mem _ _ Hq) as HLm.
    (* the state behind the block and its checksum *)
    assert (Next : forall s2,
              ring pre (expand_block text b) s2 -> Unlz4.pos s2 < 65536 ->
              Unlz4.it s2 = (Unlz4.it s1 + length (Format.payload b))%nat ->
              exists s',
                Unlz4.blocks mem fuel cs
                  (if cs then Unlz4.with_it s2 (Unlz4.it s2 + 4) else s2) = Ok s'
                /\ ring pre (fold_left expand_block (map fst bl)
                               (expand_block text b)) s'
                /\ Unlz4.it s'
                   = (Unlz4.it s
                      + length (((Format.block_bytes b ++ c)
                                 ++ concat (map (fun bc =>
                                      Format.block_bytes (fst bc) ++ snd bc) bl))
                                ++ le32 t))%nat).
    { intros s2 R2 P2 I2.
      set (s3 := if cs then Unlz4.with_it s2 (Unlz4.it s2 + 4) else s2).
      assert (I3 : Unlz4.it s3
                   = (Unlz4.it s + (4 + length (Format.payload b)) + length c)%nat).
      { subst s3 s1. cbn [Unlz4.with_it Unlz4.it] in I2.
        destruct cs; cbn [Unlz4.with_it Unlz4.it]; lia. }
      assert (R3 : ring pre (expand_block text b) s3)
        by (subst s3; destruct cs; [apply ring_with_it|]; exact R2).
      assert (P3 : Unlz4.pos s3 < 65536)
        by (subst s3; destruct cs; exact P2).
      destruct (IH fuel s3 (expand_block text b)) as (s' & E & R' & I');
        [rewrite I3; exact Hh2 | exact R3 | exact P3 | exact Hin2 | lia |].
      exists s'. split; [exact E|]. split; [exact R'|].
      rewrite I', I3, !length_app, HLb. lia. }
    destruct b as [p | ss l]; cbn [Format.payload expand_block] in *.
    + assert (Ht : 0 <= Z.lor n 2147483648 < 4294967296)
        by (rewrite tagged_value by lia; lia).
      rewrite (read_u32_ok mem (Z.lor n 2147483648) s Ht Hq1).
      cbn [bind]. fold s1.
      rewrite land_bit31_tagged by lia. cbn [Z.eqb].
      destruct (tagged_size n ltac:(lia)) as [_ T]. rewrite T.
      destruct (Z.eqb_spec n 0); [lia|].
      destruct (raw_block_text mem pre text p s1 Hq R1 Hp)
        as (s2 & E2 & I2 & R2 & P2).
      fold n in E2. rewrite E2. cbn [bind].
      apply (Next s2 R2 P2 I2).
    + rewrite (read_u32_ok mem n s) by (lia || exact Hq1).
      cbn [bind]. fold s1.
      rewrite land_bit31_small by lia. cbn [Z.eqb].
      rewrite land_low31_small by lia.
      destruct (Z.eqb_spec n 0); [lia|].
      pose proof (length_sequences ss) as Hls.
      assert (Hne : concat (map Format.sequence_bytes ss) ++ Format.last_bytes l
                    <> []).
      { intros C. apply (f_equal (@length byte)) in C.
        rewrite length_app in C. pose proof (length_last_bytes l).
        cbn [length] in C. lia. }
      specialize (HLm Hne). rewrite length_app in HLm.
      destruct (compressed_block_text mem pre ss l n Hsh ltac:(lia)
                  (S (length mem)) 0 s1 text Hq R1 Hp Hin1 ltac:(lia)
                  ltac:(subst n; lia))
        as (s2 & E2 & I2 & R2 & P2); [lia|].
      rewrite E2. cbn [bind].
      apply (Next s2 R2 P2 I2).
Qed.

Lemma blocks_text_sums (mem pre : list byte) (cs : bool)
    (bl : list (Format.block * list byte)) :
  Forall (fun bc => Format.block_shape (fst bc)
                    /\ length (snd bc) = if cs then 4%nat else 0%nat) bl ->
  forall (fuel : nat) (s : Unlz4.state) (text : list byte),
    holds mem (Unlz4.it s) (blocks_with_sums bl ++ le32 0) ->
    ring pre text s -> Unlz4.pos s < 65536 ->
    blocks_inside text (map fst bl) ->
    (length bl < fuel)%nat ->
    exists s',
      Unlz4.blocks mem fuel cs s = Ok s'
      /\ ring pre (fold_left expand_block (map fst bl) text) s'
      /\ Unlz4.it s'
         = (Unlz4.it s + length (blocks_with_sums bl ++ le32 0))%nat.
Proof.
  apply (blocks_text_mark mem pre cs 0); [lia | reflexivity].
Qed.

Lemma length_blocks_with_sums (bl : list (Format.block * list byte)) :
  (length bl <= length (blocks_with_sums bl))%nat.
Proof.
  unfold blocks_with_sums. induction bl as [|[b c] bl IH];
    cbn [map concat length fst snd]; [lia|].
  rewrite !length_app. unfold Format.block_bytes at 1. cbn zeta.
  rewrite length_app. cbn [le32 length]. lia.
Qed.

(** the run of [unlz4] on a frame of version 01 that the buffer holds at
    the read cursor, behind the descriptor *)
Lemma unlz4_frame_with_mark (history0 mem : list byte) (it0 : nat) (t : Z)
    (flags bd : byte) (contentSize dictID : list byte) (hc : byte)
    (bl : list (Format.block * list byte)) (cc : list byte)
    (end_ : nat) (o : sink) (d : Unlz4.dictionary_arg) :
  Z.shiftr (b2z flags) 6 = 1 ->
  (Z.land (b2z flags) 8 <> 0 -> length contentSize = 8%nat) ->
  (Z.land (b2z flags) 1 <> 0 -> length dictID = 4%nat) ->
  holds mem it0 (frame_with_mark t flags bd contentSize dictID hc bl cc) ->
  let i := (it0 + 4
            + length (Format.descriptor flags bd contentSize dictID hc))%nat in
  holds mem i (blocks_with_sums bl ++ le32 t)
  /\ (length bl < S (length mem))%nat
  /\ (i + length (blocks_with_sums bl ++ le32 t) + length cc
      = it0 + length (frame_with_mark t flags bd contentSize dictID hc bl cc))%nat
  /\ Unlz4.unlz4 history0 mem it0 end_ o d
     = (h <- match d with
             | Unlz4.NoDictionary => Ok history0
             | Unlz4.DictionaryFile None => Fatal CannotOpenDictionary
             | Unlz4.DictionaryFile (Some dict) =>
                 Ok (Unlz4.load_dictionary history0 dict)
             end ;;
        s <- Unlz4.blocks mem (S (length mem))
               (negb (Z.land (b2z flags) 16 =? 0))
               {| Unlz4.it := i; Unlz4.history := h; Unlz4.pos := 0;
                  Unlz4.out := o |} ;;
        let s := if negb (Z.land (b2z flags) 4 =? 0)
                 then Unlz4.with_it s (Unlz4.it s + 4) else s in
        Ok (Unlz4.it s,
            dump (firstn (Z.to_nat (Unlz4.pos s)) (Unlz4.history s))
              (Unlz4.out s))).
Proof.
  intros Hv Hcs Hdi Hh. cbn zeta.
  pose proof (holds_length mem it0 _ Hh ltac:(discriminate)) as Hfit.
  assert (HL : length (frame_with_mark t flags bd contentSize dictID hc bl cc)
               = (4 + length (Format.descriptor flags bd contentSize dictID hc)
                  + length (blocks_with_sums bl ++ le32 t) + length cc)%nat).
  { unfold frame_with_mark. rewrite !length_app. cbn [length]. lia. }
  unfold frame_with_mark in Hh.
  apply holds_app in Hh. destruct Hh as [Hmagic Hh].
  cbn [length] in Hh.
  apply holds_app in Hh. destruct Hh as [Hdesc Hblocks].
  rewrite app_assoc in Hblocks.
  apply holds_app in Hblocks. destruct Hblocks as [Hblocks _].
  split; [exact Hblocks|].
  split.
  { pose proof (length_blocks_with_sums bl). rewrite length_app in HL. lia. }
  split; [lia|].
  rewrite (unlz4_signature history0 mem it0 end_ o _ _ _ _ _ Hmagic).
  change (b2z x04 + 256 * b2z x22 + 65536 * b2z x4d + 16777216 * b2z x18
          =? 407708164) with true. cbn match.
  pose proof Hdesc as Hflags. unfold Format.descriptor in Hflags.
  cbn [app] in Hflags.
  apply holds_cons in Hflags. destruct Hflags as [Hflags _].
  replace (it0 + 4)%nat with (S (S (S (S it0)))) in Hflags by lia.
  rewrite (next_at mem _ flags) by exact Hflags. cbn [bind].
  unfold after_flags. rewrite Hv. cbn [Z.eqb Pos.eqb negb].
  cbn [Unlz4.with_it Unlz4.it Unlz4.history Unlz4.pos Unlz4.out].
  assert (Hd : (S (S (S (S (S it0))))
                + (1 + (if negb (Z.land (b2z flags) 8 =? 0)%Z then 8 else 0)
                   + (if negb (Z.land (b2z flags) 1 =? 0)%Z then 4 else 0) + 1)
                = it0 + 4
                  + length (Format.descriptor flags bd contentSize dictID hc))%nat).
  { unfold Format.descriptor. rewrite !length_app. cbn [length].
    destruct (Z.eqb_spec (Z.land (b2z flags) 8) 0),
      (Z.eqb_spec (Z.land (b2z flags) 1) 0);
      cbn [negb length]; rewrite ?Hcs, ?Hdi by assumption; lia. }
  rewrite Hd. destruct d as [|[dict|]]; reflexivity.
Qed.

Lemma unlz4_frame_with_sums (history0 mem : list byte) (it0 : nat)
    (flags bd : byte) (contentSize dictID : list byte) (hc : byte)
    (bl : list (Format.block * list byte)) (cc : list byte)
    (end_ : nat) (o : sink) (d : Unlz4.dictionary_arg) :
  Z.shiftr (b2z flags) 6 = 1 ->
  (Z.land (b2z flags) 8 <> 0 -> length contentSize = 8%nat) ->
  (Z.land (b2z flags) 1 <> 0 -> length dictID = 4%nat) ->
  holds mem it0 (frame_with_sums flags bd contentSize dictID hc bl cc) ->
  let i := (it0 + 4
            + length (Format.descriptor flags bd contentSize dictID hc))%nat in
  holds mem i (blocks_with_sums bl ++ le32 0)
  /\ (length bl < S (length mem))%nat
  /\ (i + length (blocks_with_sums bl ++ le32 0) + length cc
      = it0 + length (frame_with_sums flags bd contentSize dictID hc bl cc))%nat
  /\ Unlz4.unlz4 history0 mem it0 end_ o d
     = (h <- match d with
             | Unlz4.NoDictionary => Ok history0
             | Unlz4.DictionaryFile None => Fatal CannotOpenDictionary
             | Unlz4.DictionaryFile (Some dict) =>
                 Ok (Unlz4.load_dictionary history0 dict)
             end ;;
        s <- Unlz4.blocks mem (S (length mem))
               (negb (Z.land (b2z flags) 16 =? 0))
               {| Unlz4.it := i; Unlz4.history := h; Unlz4.pos := 0;
                  Unlz4.out := o |} ;;
        let s := if negb (Z.land (b2z flags) 4 =? 0)
                 then Unlz4.with_it s (Unlz4.it s + 4) else s in
        Ok (Unlz4.it s,
            dump (firstn (Z.to_nat (Unlz4.pos s)) (Unlz4.history s))
              (Unlz4.out s))).
Proof.
  exact (unlz4_frame_with_mark history0 mem it0 0 flags bd contentSize dictID
           hc bl cc end_ o d).
Qed.

(** the state of the decoder in front of the blocks, behind a text that is
    what the history holds *)
Lemma ring_start (pre h : list byte) (i : nat) (o : sink) :
  length h = Z.to_nat Unlz4.HISTORY_SIZE ->
  wf_sink o -> written o = pre ++ h ->
  ring pre h {| Unlz4.it := i; Unlz4.history := h; Unlz4.pos := 0;
                Unlz4.out := o |}.
Proof.
  intros Hl Ho Hw. unfold ring.
  cbn [Unlz4.history Unlz4.pos Unlz4.out].
  change (Z.to_nat 0) with 0%nat.
  split; [exact Hl|]. split; [lia|]. split; [exact Ho|]. split; [lia|].
  split; [rewrite Nat.sub_0_r, firstn_all; exact Hw|].
  split; intros j Hj; [lia|]. intros _. f_equal.
  change Unlz4.HISTORY_SIZE with 65536 in Hl. lia.
Qed.

Lemma frame_with_mark_text (history0 mem : list byte) (it0 : nat) (t : Z)
    (flags bd : byte) (contentSize dictID : list byte) (hc : byte)
    (bl : list (Format.block * list byte)) (rest : list byte)
    (end_ : nat) (o : sink) :
  0 <= t < 4294967296 -> Z.land t 2147483647 = 0 ->
  length history0 = Z.to_nat Unlz4.HISTORY_SIZE ->
  Z.shiftr (b2z flags) 6 = 1 ->
  (Z.land (b2z flags) 8 <> 0 -> length contentSize = 8%nat) ->
  (Z.land (b2z flags) 1 <> 0 -> length dictID = 4%nat) ->
  Forall (fun bc => Format.block_shape (fst bc)
                    /\ length (snd bc)
                       = if Z.land (b2z flags) 16 =? 0 then 0%nat else 4%nat)
    bl ->
  blocks_inside [] (map fst bl) ->
  wf_sink o ->
  holds mem it0 (frame_with_mark t flags bd contentSize dictID hc bl rest) ->
  exists o' : sink,
    Unlz4.unlz4 history0 mem it0 end_ o Unlz4.NoDictionary
    = Ok ((it0 + 4 + length (Format.descriptor flags bd contentSize dictID hc)
           + length (blocks_with_sums bl) + 4
           + (if (Z.land (b2z flags) 4 =? 0)%Z then 0 else 4))%nat, o')
    /\ written o' = written o ++ expand (map fst bl).
Proof.
  intros Htr Htz Hl Hv Hcs Hdi Hbl Hin Ho Hm.
  destruct (unlz4_frame_with_mark history0 mem it0 t flags bd contentSize
              dictID hc bl rest end_ o Unlz4.NoDictionary Hv Hcs Hdi Hm)
    as (Hh & Hf & HL & E).
  rewrite E. cbn [bind]. clear E.
  set (s' := {| Unlz4.it := _; Unlz4.history := history0; Unlz4.pos := 0;
                Unlz4.out := o |}).
  assert (R : ring (written o) [] s').
  { unfold ring. subst s'. cbn [Unlz4.history Unlz4.pos Unlz4.out length].
    change (Z.to_nat 0) with 0%nat.
    split; [exact Hl|]. split; [lia|]. split; [exact Ho|]. split; [lia|].
    split; [cbn; rewrite app_nil_r; reflexivity|].
    split; intros j Hj; [lia|]. intros Hj'. lia. }
  destruct (blocks_text_mark mem (written o)
              (negb (Z.land (b2z flags) 16 =? 0)) t bl Htr Htz) with
    (fuel := S (length mem)) (s := s') (text := @nil byte)
    as (s2 & E2 & R2 & I2).
  { eapply Forall_impl; [|exact Hbl]. intros [b c] [H1 H2].
    split; [exact H1|]. cbn [snd] in *. rewrite H2.
    destruct (Z.land (b2z flags) 16 =? 0); reflexivity. }
  { exact Hh. }
  { exact R. }
  { subst s'. cbn. lia. }
  { exact Hin. }
  { exact Hf. }
  rewrite E2. cbn [bind].
  eexists. split.
  - f_equal. f_equal.
    assert (HI : (if negb (Z.land (b2z flags) 4 =? 0)
                  then Unlz4.with_it s2 (Unlz4.it s2 + 4) else s2).(Unlz4.it)
                 = (Unlz4.it s2
                    + (if (Z.land (b2z flags) 4 =? 0)%Z then 0 else 4))%nat).
    { destruct (Z.land (b2z flags) 4 =? 0);
        cbn [negb Unlz4.with_it Unlz4.it]; lia. }
    rewrite HI, I2. subst s'. cbn [Unlz4.it].
    rewrite length_app.
    replace (length (le32 t)) with 4%nat by reflexivity. lia.
  - assert (HR : ring (written o) (expand (map fst bl))
                   (if negb (Z.land (b2z flags) 4 =? 0)
                    then Unlz4.with_it s2 (Unlz4.it s2 + 4) else s2)).
    { destruct (negb (Z.land (b2z flags) 4 =? 0));
        [apply ring_with_it|]; exact R2. }
    exact (ring_written (written o) _ _ HR).
Qed.

Lemma frame_with_sums_text (history0 mem : list byte) (it0 : nat)
    (flags bd : byte) (contentSize dictID : list byte) (hc : byte)
    (bl : list (Format.block * list byte)) (cc : list byte)
    (end_ : nat) (o : sink) :
  length history0 = Z.to_nat Unlz4.HISTORY_SIZE ->
  Z.shiftr (b2z flags) 6 = 1 ->
  (Z.land (b2z flags) 8 <> 0 -> length contentSize = 8%nat) ->
  (Z.land (b2z flags) 1 <> 0 -> length dictID = 4%nat) ->
  Forall (fun bc => Format.block_shape (fst bc)
                    /\ length (snd bc)
                       = if Z.land (b2z flags) 16 =? 0 then 0%nat else 4%nat)
    bl ->
  length cc = (if Z.land (b2z flags) 4 =? 0 then 0%nat else 4%nat) ->
  blocks_inside [] (map fst bl) ->
  wf_sink o ->
  let frame := frame_with_sums flags bd contentSize dictID hc bl cc in
  holds mem it0 frame ->
  exists o' : sink,
    Unlz4.unlz4 history0 mem it0 end_ o Unlz4.NoDictionary
    = Ok ((it0 + length frame)%nat, o')
    /\ written o' = written o ++ expand (map fst bl).
Proof.
  intros Hl Hv Hcs Hdi Hbl Hcc Hin Ho. cbn zeta. intros Hm.
  destruct (frame_with_mark_text history0 mem it0 0 flags bd contentSize
              dictID hc bl cc end_ o ltac:(lia) eq_refl Hl Hv Hcs Hdi Hbl Hin
              Ho Hm) as (o' & E & W).
  exists o'. split; [|exact W]. rewrite E. f_equal. f_equal.
  unfold frame_with_sums. rewrite !length_app, Hcc.
  replace (length (le32 0)) with 4%nat by reflexivity. cbn [length].
  destruct (Z.land (b2z flags) 4 =? 0); lia.
Qed.

(** C9: a size prefix whose low 31 bits are zero ends the decoding whether
    bit 31 is set or not.  The loop over the blocks, in any state, stops
    behind the four bytes [00 00 00 80] as it does behind [00 00 00 00].
    And the run of [unlz4] on a frame of version 01 whose blocks are followed
    by the prefix [t], where [t] is [0x00000000] or [0x80000000], and then by
    any bytes, is the same for both values of [t]: it returns with the read
    cursor behind the prefix (and behind the four bytes of the content
    checksum, where the flags announce one), nothing of what follows is
    decoded, and the text of the blocks, which the history still holds when
    the loop stops, has been written behind what the sink held. *)
Theorem zero_size_prefix_ends_stream :
  (forall (mem : list byte) (fuel : nat) (hasBlockChecksum : bool)
          (s : Unlz4.state) (top : byte),
      nth_error mem (Unlz4.it s) = Some x00 ->
      nth_error mem (S (Unlz4.it s)) = Some x00 ->
      nth_error mem (S (S (Unlz4.it s))) = Some x00 ->
      nth_error mem (S (S (S (Unlz4.it s)))) = Some top ->
      top = x00 \/ top = x80 ->
      Unlz4.blocks mem (S fuel) hasBlockChecksum s
      = Ok (Unlz4.with_it s (Unlz4.it s + 4)))
  /\ (forall (history0 mem : list byte) (it0 : nat) (t : Z)
             (flags bd : byte) (contentSize dictID : list byte) (hc : byte)
             (bl : list (Format.block * list byte)) (rest : list byte)
             (end_ : nat) (o : sink),
      t = 0 \/ t = 2147483648 ->
      length history0 = Z.to_nat Unlz4.HISTORY_SIZE ->
      Z.shiftr (b2z flags) 6 = 1 ->
      (Z.land (b2z flags) 8 <> 0 -> length contentSize = 8%nat) ->
      (Z.land (b2z flags) 1 <> 0 -> length dictID = 4%nat) ->
      Forall (fun bc => Format.block_shape (fst bc)
                        /\ length (snd bc)
                           = if Z.land (b2z flags) 16 =? 0
                             then 0%nat else 4%nat)
        bl ->
      blocks_inside [] (map fst bl) ->
      wf_sink o ->
      holds mem it0
        (frame_with_mark t flags bd contentSize dictID hc bl rest) ->
      exists o' : sink,
        Unlz4.unlz4 history0 mem it0 end_ o Unlz4.NoDictionary
        = Ok ((it0 + 4
               + length (Format.descriptor flags bd contentSize dictID hc)
               + length (blocks_with_sums bl) + 4
               + (if (Z.land (b2z flags) 4 =? 0)%Z then 0 else 4))%nat, o')
        /\ written o' = written o ++ expand (map fst bl)).
Proof.
  split.
  - intros mem fuel cs s top H0 H1 H2 H3 Ht.
    exact (zero_size_prefix_ends_blocks mem fuel cs s top H0 H1 H2 H3 Ht).
  - intros history0 mem it0 t flags bd contentSize dictID hc bl rest end_ o
      Ht Hl Hv Hcs Hdi Hbl Hin Ho Hm.
    apply (frame_with_mark_text history0 mem it0 t flags bd contentSize
             dictID hc bl rest end_ o); try assumption.
    + destruct Ht; subst t; lia.
    + destruct Ht; subst t; reflexivity.
Qed.

Lemma zero_size_prefix_ends_stream_witness :
  let bl := [(Format.Raw [x61; x62; x63], [])] in
  let frame :=
    frame_with_mark 2147483648 x40 x70 [] [] xdf bl [x01; x02; x03; x04; x05] in
  exists o' : sink,
    Unlz4.unlz4 (repeat x00 (Z.to_nat Unlz4.HISTORY_SIZE)) ([xff; xff] ++ frame)
      2%nat 0%nat sink0 Unlz4.NoDictionary
    = Ok (20%nat, o')
    /\ written o' = written sink0 ++ [x61; x62; x63].
Proof.
  cbn zeta.
  apply (proj2 zero_size_prefix_ends_stream
           (repeat x00 (Z.to_nat Unlz4.HISTORY_SIZE))
           ([xff; xff]
            ++ frame_with_mark 2147483648 x40 x70 [] [] xdf
                 [(Format.Raw [x61; x62; x63], [])]
                 [x01; x02; x03; x04; x05])
           2%nat 2147483648 x40 x70 [] [] xdf
           [(Format.Raw [x61; x62; x63], [])]
           [x01; x02; x03; x04; x05] 0%nat sink0).
  - right. reflexivity.
  - apply repeat_length.
  - reflexivity.
  - intros H. exfalso. apply H. reflexivity.
  - intros H. exfalso. apply H. reflexivity.
  - constructor; [|constructor]. split; [|reflexivity].
    split; [cbn; lia | exact I].
  - cbn. auto.
  - exact wf_sink0.
  - apply (holds_behind [xff; xff]).
Defined.

(** X7: [unlz4] skips the checksums.  A frame of version 01 that the
    buffer holds at the read cursor, whose flags announce block checksums
    and a content checksum, or not, is decoded whatever the bytes of these
    checksums (and of the header checksum, the content size and the
    dictionary ID) are: the run returns with the read cursor at the end of
    the frame, and has appended the text of the blocks to the sink. *)
Theorem unlz4_skips_the_checksums (history0 mem : list byte) (it0 : nat)
    (flags bd : byte) (contentSize dictID : list byte) (hc : byte)
    (bl : list (Format.block * list byte)) (cc : list byte)
    (end_ : nat) (o : sink) :
  length history0 = Z.to_nat Unlz4.HISTORY_SIZE ->
  Z.shiftr (b2z flags) 6 = 1 ->
  (Z.land (b2z flags) 8 <> 0 -> length contentSize = 8%nat) ->
  (Z.land (b2z flags) 1 <> 0 -> length dictID = 4%nat) ->
  Forall (fun bc => Format.block_shape (fst bc)
                    /\ length (snd bc)
                       = if Z.land (b2z flags) 16 =? 0 then 0%nat else 4%nat)
    bl ->
  length cc = (if Z.land (b2z flags) 4 =? 0 then 0%nat else 4%nat) ->
  blocks_inside [] (map fst bl) ->
  wf_sink o ->
  let frame := frame_with_sums flags bd contentSize dictID hc bl cc in
  holds mem it0 frame ->
  exists o' : sink,
    Unlz4.unlz4 history0 mem it0 end_ o Unlz4.NoDictionary
    = Ok ((it0 + length frame)%nat, o')
    /\ written o' = written o ++ expand (map fst bl).
Proof.
  intros Hl Hv Hcs Hdi Hbl Hcc Hin Ho. cbn zeta. intros Hm.
  exact (frame_with_sums_text history0 mem it0 flags bd contentSize dictID hc
           bl cc end_ o Hl Hv Hcs Hdi Hbl Hcc Hin Ho Hm).
Qed.

Lemma unlz4_skips_the_checksums_witness :
  let bl := [(Format.Raw [x61; x62; x63], [xde; xad; xbe; xef])] in
  let frame := frame_with_sums x54 x70 [] [] x00 bl [x01; x02; x03; x04] in
  exists o' : sink,
    Unlz4.unlz4 (repeat x00 (Z.to_nat Unlz4.HISTORY_SIZE)) ([xff; xff] ++ frame)
      2 0 sink0 Unlz4.NoDictionary
    = Ok ((2 + length frame)%nat, o')
    /\ written o' = written sink0 ++ expand (map fst bl).
Proof.
  cbn zeta.
  apply (unlz4_skips_the_checksums (repeat x00 (Z.to_nat Unlz4.HISTORY_SIZE))
           ([xff; xff]
            ++ frame_with_sums x54 x70 [] [] x00
                 [(Format.Raw [x61; x62; x63], [xde; xad; xbe; xef])]
                 [x01; x02; x03; x04])
           2 x54 x70 [] [] x00
           [(Format.Raw [x61; x62; x63], [xde; xad; xbe; xef])]
           [x01; x02; x03; x04] 0 sink0).
  - apply repeat_length.
  - reflexivity.
  - intros H. exfalso. apply H. reflexivity.
  - intros H. exfalso. apply H. reflexivity.
  - constructor; [|constructor]. split; [|reflexivity].
    split; [cbn; lia | exact I].
  - reflexivity.
  - cbn. auto.
  - exact wf_sink0.
  - apply (holds_behind [xff; xff]).
Defined.

(** ** The decoder and its sink *)

Lemma alike_bind {A B : Type} (RA : A -> A -> Prop) (RB : B -> B -> Prop)
    (r1 r2 : result A) (k1 k2 : A -> result B) :
  alike RA r1 r2 ->
  (forall a b, RA a b -> alike RB (k1 a) (k2 b)) ->
  alike RB (bind r1 k1) (bind r2 k2).
Proof.
  intros H K. destruct r1, r2; cbn in H |- *; try contradiction; auto.
Qed.

Lemma same_text_dump (w1 w2 : list byte) (o1 o2 : sink) (x : list byte) :
  same_text w1 w2 o1 o2 -> same_text w1 w2 (dump x o1) (dump x o2).
Proof.
  intros (W1 & W2 & bs & E1 & E2).
  destruct (dump_spec x o1 W1) as (W1' & E1' & _).
  destruct (dump_spec x o2 W2) as (W2' & E2' & _).
  split; [exact W1'|]. split; [exact W2'|]. exists (bs ++ x).
  rewrite E1', E2', E1, E2, <- !app_assoc. auto.
Qed.

Lemma twins_with_it (w1 w2 : list byte) (s1 s2 : Unlz4.state) (i : nat) :
  twins w1 w2 s1 s2 -> twins w1 w2 (Unlz4.with_it s1 i) (Unlz4.with_it s2 i).
Proof.
  intros (Hi & Hh & Hp & Ht). unfold twins. cbn. auto.
Qed.

Lemma next_twins (w1 w2 mem : list byte) (s1 s2 : Unlz4.state) :
  twins w1 w2 s1 s2 ->
  alike (twins_with w1 w2) (Unlz4.next mem s1) (Unlz4.next mem s2).
Proof.
  intros T. pose proof T as (Hi & _). unfold Unlz4.next. rewrite Hi.
  destruct (nth_error mem (Unlz4.it s2)); cbn; [|exact I].
  split; [reflexivity|]. cbn [snd]. apply twins_with_it. exact T.
Qed.

Lemma push_twins (w1 w2 : list byte) (c : Z) (s1 s2 : Unlz4.state) :
  twins w1 w2 s1 s2 ->
  alike (twins w1 w2) (Unlz4.push c s1) (Unlz4.push c s2).
Proof.
  intros (Hi & Hh & Hp & Ht). unfold Unlz4.push. rewrite Hp.
  destruct (_ && _); cbn; [|exact I].
  unfold twins. cbn. rewrite Hi, Hh. auto.
Qed.

Lemma flush_twins (w1 w2 : list byte) (s1 s2 : Unlz4.state) :
  twins w1 w2 s1 s2 ->
  twins w1 w2 (Unlz4.flush_if_full s1) (Unlz4.flush_if_full s2).
Proof.
  intros T. pose proof T as (Hi & Hh & Hp & Ht).
  unfold Unlz4.flush_if_full. rewrite Hp.
  destruct (Unlz4.pos s2 =? Unlz4.HISTORY_SIZE); [|exact T].
  unfold twins. cbn. rewrite Hh.
  split; [exact Hi|]. split; [reflexivity|]. split; [reflexivity|].
  apply same_text_dump. exact Ht.
Qed.

Lemma hist_twins (w1 w2 : list byte) (s1 s2 : Unlz4.state) (i : Z) :
  twins w1 w2 s1 s2 -> Unlz4.hist s1 i = Unlz4.hist s2 i.
Proof.
  intros (_ & Hh & _). unfold Unlz4.hist. rewrite Hh. reflexivity.
Qed.

(** the step of a loop of the decoder on twins *)
Ltac twin_step L :=
  eapply alike_bind; [apply L; eassumption |];
  let a := fresh "a" in let b := fresh "b" in let H := fresh "T" in
  intros a b H.

Lemma read_length_twins (w1 w2 mem : list byte) (fuel : nat) (n bo : Z)
    (s1 s2 : Unlz4.state) :
  twins w1 w2 s1 s2 ->
  alike (twins_with w1 w2) (Unlz4.read_length mem fuel n bo s1)
    (Unlz4.read_length mem fuel n bo s2).
Proof.
  revert n bo s1 s2. induction fuel as [|fuel IH]; intros n bo s1 s2 T;
    cbn [Unlz4.read_length]; [exact I|].
  twin_step next_twins. destruct a as [c t1], b as [c' t2].
  destruct T0 as [E T']. cbn [fst snd] in E, T'. subst c'.
  destruct (c =? 255); [apply IH; exact T'|].
  cbn. split; [reflexivity | exact T'].
Qed.

Lemma copy_literals_fast_twins (w1 w2 mem : list byte) (n : nat)
    (s1 s2 : Unlz4.state) :
  twins w1 w2 s1 s2 ->
  alike (twins w1 w2) (Unlz4.copy_literals_fast mem n s1)
    (Unlz4.copy_literals_fast mem n s2).
Proof.
  revert s1 s2. induction n as [|n IH]; intros s1 s2 T;
    cbn [Unlz4.copy_literals_fast]; [exact T|].
  twin_step next_twins. destruct a as [c t1], b as [c' t2].
  destruct T0 as [E T']. cbn [fst snd] in E, T'. subst c'.
  twin_step push_twins. apply IH. assumption.
Qed.

Lemma copy_literals_slow_twins (w1 w2 mem : list byte) (n : nat)
    (s1 s2 : Unlz4.state) :
  twins w1 w2 s1 s2 ->
  alike (twins w1 w2) (Unlz4.copy_literals_slow mem n s1)
    (Unlz4.copy_literals_slow mem n s2).
Proof.
  revert s1 s2. induction n as [|n IH]; intros s1 s2 T;
    cbn [Unlz4.copy_literals_slow]; [exact T|].
  twin_step next_twins. destruct a as [c t1], b as [c' t2].
  destruct T0 as [E T']. cbn [fst snd] in E, T'. subst c'.
  twin_step push_twins. apply IH. apply flush_twins. assumption.
Qed.

Lemma memcpy_match_twins (w1 w2 : list byte) (ref ml : Z)
    (s1 s2 : Unlz4.state) :
  twins w1 w2 s1 s2 ->
  alike (twins w1 w2) (Unlz4.memcpy_match ref ml s1)
    (Unlz4.memcpy_match ref ml s2).
Proof.
  intros (Hi & Hh & Hp & Ht). unfold Unlz4.memcpy_match. rewrite Hp.
  destruct (_ && _); cbn; [|exact I].
  unfold twins. cbn. rewrite Hi, Hh. auto.
Qed.

Lemma copy_match_overlap_twins (w1 w2 : list byte) (n : nat) (ref : Z)
    (s1 s2 : Unlz4.state) :
  twins w1 w2 s1 s2 ->
  alike (twins w1 w2) (Unlz4.copy_match_overlap n ref s1)
    (Unlz4.copy_match_overlap n ref s2).
Proof.
  revert ref s1 s2. induction n as [|n IH]; intros ref s1 s2 T;
    cbn [Unlz4.copy_match_overlap]; [exact T|].
  rewrite (hist_twins w1 w2 s1 s2 ref T).
  destruct (Unlz4.hist s2 ref) as [c | e | |]; cbn [bind]; cbn;
    try reflexivity; try exact I.
  twin_step push_twins. apply IH. assumption.
Qed.

Lemma copy_match_wrap_twins (w1 w2 : list byte) (n : nat) (ref : Z)
    (s1 s2 : Unlz4.state) :
  twins w1 w2 s1 s2 ->
  alike (twins w1 w2) (Unlz4.copy_match_wrap n ref s1)
    (Unlz4.copy_match_wrap n ref s2).
Proof.
  revert ref s1 s2. induction n as [|n IH]; intros ref s1 s2 T;
    cbn [Unlz4.copy_match_wrap]; [exact T|].
  rewrite (hist_twins w1 w2 s1 s2 ref T).
  destruct (Unlz4.hist s2 ref) as [c | e | |]; cbn [bind]; cbn;
    try reflexivity; try exact I.
  twin_step push_twins. apply IH. apply flush_twins. assumption.
Qed.

Lemma literal_run_twins (w1 w2 mem : list byte) (bo : Z)
    (s1 s2 : Unlz4.state) :
  twins w1 w2 s1 s2 ->
  alike (twins_with w1 w2) (Unlz4.literal_run mem bo s1)
    (Unlz4.literal_run mem bo s2).
Proof.
  intros T. unfold Unlz4.literal_run.
  twin_step next_twins. destruct a as [token t1], b as [token' t2].
  destruct T0 as [E T']. cbn [fst snd] in E, T'. subst token'.
  eapply alike_bind with (RA := twins_with w1 w2).
  { destruct (_ =? 15); [apply read_length_twins; exact T'|].
    cbn. split; [reflexivity | exact T']. }
  intros [[nl bo1] u1] [[nl' bo1'] u2] [E U]. cbn [fst snd] in E, U.
  injection E as -> ->.
  pose proof U as (_ & _ & Hp & _). rewrite Hp.
  eapply alike_bind with (RA := twins w1 w2).
  { destruct (_ <? _);
      [apply copy_literals_fast_twins | apply copy_literals_slow_twins];
      exact U. }
  intros v1 v2 V. cbn. split; [reflexivity | exact V].
Qed.

Lemma match_run_twins (w1 w2 mem : list byte) (token bo : Z)
    (s1 s2 : Unlz4.state) :
  twins w1 w2 s1 s2 ->
  alike (twins_with w1 w2) (Unlz4.match_run mem token bo s1)
    (Unlz4.match_run mem token bo s2).
Proof.
  intros T. unfold Unlz4.match_run.
  twin_step next_twins. destruct a as [d0 t1], b as [d0' t2].
  destruct T0 as [E T']. cbn [fst snd] in E, T'. subst d0'.
  twin_step next_twins. destruct a as [d1 u1], b as [d1' u2].
  destruct T0 as [E U]. cbn [fst snd] in E, U. subst d1'.
  destruct (_ =? 0); [reflexivity|].
  eapply alike_bind with (RA := twins_with w1 w2).
  { destruct (_ =? 4 + 15); [apply read_length_twins; exact U|].
    cbn. split; [reflexivity | exact U]. }
  intros [[ml bo1] v1] [[ml' bo1'] v2] [E V]. cbn [fst snd] in E, V.
  injection E as -> ->.
  pose proof V as (_ & _ & Hp & _). rewrite Hp.
  eapply alike_bind with (RA := twins w1 w2).
  { destruct (_ && _).
    - destruct (_ || _);
        [apply memcpy_match_twins | apply copy_match_overlap_twins]; exact V.
    - apply copy_match_wrap_twins. exact V. }
  intros x1 x2 X. cbn. split; [reflexivity | exact X].
Qed.

Lemma sequence_twins (w1 w2 mem : list byte) (bs bo : Z)
    (s1 s2 : Unlz4.state) :
  twins w1 w2 s1 s2 ->
  alike (twin_pass w1 w2) (Unlz4.sequence mem bs bo s1)
    (Unlz4.sequence mem bs bo s2).
Proof.
  intros T. unfold Unlz4.sequence.
  twin_step literal_run_twins.
  destruct a as [[token bo1] t1], b as [[token' bo1'] t2].
  destruct T0 as [E T']. cbn [fst snd] in E, T'. injection E as -> ->.
  destruct (_ =? bs); [exact T'|].
  twin_step match_run_twins. exact T0.
Qed.

Lemma compressed_block_twins (w1 w2 mem : list byte) (fuel : nat) (bs bo : Z)
    (s1 s2 : Unlz4.state) :
  twins w1 w2 s1 s2 ->
  alike (twins w1 w2) (Unlz4.compressed_block mem fuel bs bo s1)
    (Unlz4.compressed_block mem fuel bs bo s2).
Proof.
  revert bo s1 s2. induction fuel as [|fuel IH]; intros bo s1 s2 T;
    cbn [Unlz4.compressed_block]; [exact I|].
  destruct (bo <? bs); [|exact T].
  twin_step sequence_twins.
  destruct a as [t1 | [bo1 t1]], b as [t2 | [bo2 t2]]; cbn in T0;
    try contradiction.
  - exact T0.
  - destruct T0 as [E T']. cbn [fst snd] in E, T'. subst bo2.
    apply IH. exact T'.
Qed.

Lemma read_u32_twins (w1 w2 mem : list byte) (s1 s2 : Unlz4.state) :
  twins w1 w2 s1 s2 ->
  alike (twins_with w1 w2) (Unlz4.read_u32 mem s1) (Unlz4.read_u32 mem s2).
Proof.
  intros T. unfold Unlz4.read_u32.
  twin_step next_twins. destruct a as [b0 t1], b as [b0' t2].
  destruct T0 as [E T0]. cbn [fst snd] in E, T0. subst b0'.
  twin_step next_twins. destruct a as [b1 u1], b as [b1' u2].
  destruct T1 as [E T1]. cbn [fst snd] in E, T1. subst b1'.
  twin_step next_twins. destruct a as [b2 v1], b as [b2' v2].
  destruct T2 as [E T2]. cbn [fst snd] in E, T2. subst b2'.
  twin_step next_twins. destruct a as [b3 x1], b as [b3' x2].
  destruct T3 as [E T3]. cbn [fst snd] in E, T3. subst b3'.
  cbn. split; [reflexivity | exact T3].
Qed.

Lemma blocks_twins (w1 w2 mem : list byte) (fuel : nat) (cs : bool)
    (s1 s2 : Unlz4.state) :
  twins w1 w2 s1 s2 ->
  alike (twins w1 w2) (Unlz4.blocks mem fuel cs s1) (Unlz4.blocks mem fuel cs s2).
Proof.
  revert s1 s2. induction fuel as [|fuel IH]; intros s1 s2 T;
    cbn [Unlz4.blocks]; [exact I|].
  twin_step read_u32_twins. destruct a as [t t1], b as [t' t2].
  destruct T0 as [E T']. cbn [fst snd] in E, T'. subst t'.
  destruct (_ =? 0); [exact T'|].
  eapply alike_bind with (RA := twins w1 w2).
  { destruct (_ =? 0);
      [apply compressed_block_twins | apply copy_literals_slow_twins];
      exact T'. }
  intros u1 u2 U. apply IH.
  pose proof U as (Hi & _). rewrite Hi.
  destruct cs; [apply twins_with_it|]; exact U.
Qed.

Lemma unlz4_twins (w1 w2 history0 mem : list byte) (it0 end_ : nat)
    (o1 o2 : sink) (d : Unlz4.dictionary_arg) :
  same_text w1 w2 o1 o2 ->
  alike (fun x y => fst x = fst y /\ same_text w1 w2 (snd x) (snd y))
    (Unlz4.unlz4 history0 mem it0 end_ o1 d)
    (Unlz4.unlz4 history0 mem it0 end_ o2 d).
Proof.
  intros S. unfold Unlz4.unlz4.
  assert (T : twins w1 w2
                {| Unlz4.it := it0; Unlz4.history := history0; Unlz4.pos := 0;
                   Unlz4.out := o1 |}
                {| Unlz4.it := it0; Unlz4.history := history0; Unlz4.pos := 0;
                   Unlz4.out := o2 |})
    by (unfold twins; cbn; auto).
  twin_step next_twins. destruct a as [b0 t1], b as [b0' t2].
  destruct T0 as [E T0]. cbn [fst snd] in E, T0. subst b0'.
  twin_step next_twins. destruct a as [b1 u1], b as [b1' u2].
  destruct T1 as [E T1]. cbn [fst snd] in E, T1. subst b1'.
  twin_step next_twins. destruct a as [b2 v1], b as [b2' v2].
  destruct T2 as [E T2]. cbn [fst snd] in E, T2. subst b2'.
  twin_step next_twins. destruct a as [b3 x1], b as [b3' x2].
  destruct T3 as [E T3]. cbn [fst snd] in E, T3. subst b3'.
  destruct (negb _); [reflexivity|].
  twin_step next_twins. destruct a as [flags y1], b as [flags' y2].
  destruct T4 as [E T4]. cbn [fst snd] in E, T4. subst flags'.
  destruct (negb (Z.shiftr flags 6 =? 1)); [reflexivity|].
  destruct T4 as (Hi & Hh & Hp & Ht).
  cbn [Unlz4.with_it Unlz4.it Unlz4.history Unlz4.pos Unlz4.out].
  rewrite Hi, Hh.
  eapply alike_bind with (RA := eq).
  { destruct d as [|[dd|]]; cbn; reflexivity. }
  intros h h' <-.
  eapply alike_bind with (RA := twins w1 w2).
  { apply blocks_twins. unfold twins. cbn. auto. }
  intros z1 z2 Z. cbn [alike fst snd].
  assert (Z' : twins w1 w2
                 (if negb (Z.land flags 4 =? 0)
                  then Unlz4.with_it z1 (Unlz4.it z1 + 4) else z1)
                 (if negb (Z.land flags 4 =? 0)
                  then Unlz4.with_it z2 (Unlz4.it z2 + 4) else z2)).
  { destruct Z as (Zi & Zr). destruct (negb (Z.land flags 4 =? 0)).
    - rewrite Zi. apply twins_with_it. split; [exact Zi | exact Zr].
    - split; [exact Zi | exact Zr]. }
  destruct Z' as (Zi & Zh & Zp & Zt).
  split; [exact Zi|]. rewrite Zh, Zp. apply same_text_dump. exact Zt.
Qed.

(** X9: [unlz4] appends.  What a run reads, how it ends and the bytes it
    writes do not depend on the sink it is given: it keeps the bytes in
    front of the cursor and writes behind them what it writes to an empty
    sink, for every input buffer, well-formed or not. *)
Theorem unlz4_appends_to_the_sink (history0 mem : list byte)
    (it0 end_ : nat) (o : sink) (d : Unlz4.dictionary_arg) :
  wf_sink o ->
  match Unlz4.unlz4 history0 mem it0 end_ sink0 d with
  | Ok (n, o0) =>
      exists o' : sink,
        Unlz4.unlz4 history0 mem it0 end_ o d = Ok (n, o')
        /\ written o' = written o ++ written o0
  | Fatal e => Unlz4.unlz4 history0 mem it0 end_ o d = Fatal e
  | Undefined => Unlz4.unlz4 history0 mem it0 end_ o d = Undefined
  | OutOfFuel => Unlz4.unlz4 history0 mem it0 end_ o d = OutOfFuel
  end.
Proof.
  intros Ho.
  assert (S : same_text [] (written o) sink0 o).
  { split; [exact wf_sink0|]. split; [exact Ho|]. exists [].
    split; [reflexivity | symmetry; apply app_nil_r]. }
  pose proof (unlz4_twins [] (written o) history0 mem it0 end_ sink0 o d S) as A.
  destruct (Unlz4.unlz4 history0 mem it0 end_ sink0 d) as [[n o0] | e | |],
    (Unlz4.unlz4 history0 mem it0 end_ o d) as [[n' o'] | e' | |];
    cbn in A; try contradiction; try reflexivity.
  - destruct A as [-> (_ & _ & bs & E1 & E2)]. exists o'.
    split; [reflexivity|]. rewrite E2, E1. reflexivity.
  - subst e'. reflexivity.
Qed.

Lemma unlz4_appends_to_the_sink_witness :
  match Unlz4.unlz4 [] [x04; x22; x4d; x18; x40; x70; xdf; x00; x00; x00; x00]
          0 0 sink0 Unlz4.NoDictionary with
  | Ok (n, o0) =>
      exists o' : sink,
        Unlz4.unlz4 [] [x04; x22; x4d; x18; x40; x70; xdf; x00; x00; x00; x00]
          0 0 (dump1 x41 sink0) Unlz4.NoDictionary = Ok (n, o')
        /\ written o' = written (dump1 x41 sink0) ++ written o0
  | Fatal e =>
      Unlz4.unlz4 [] [x04; x22; x4d; x18; x40; x70; xdf; x00; x00; x00; x00]
        0 0 (dump1 x41 sink0) Unlz4.NoDictionary = Fatal e
  | Undefined =>
      Unlz4.unlz4 [] [x04; x22; x4d; x18; x40; x70; xdf; x00; x00; x00; x00]
        0 0 (dump1 x41 sink0) Unlz4.NoDictionary = Undefined
  | OutOfFuel =>
      Unlz4.unlz4 [] [x04; x22; x4d; x18; x40; x70; xdf; x00; x00; x00; x00]
        0 0 (dump1 x41 sink0) Unlz4.NoDictionary = OutOfFuel
  end.
Proof.
  apply (unlz4_appends_to_the_sink []
           [x04; x22; x4d; x18; x40; x70; xdf; x00; x00; x00; x00] 0 0
           (dump1 x41 sink0) Unlz4.NoDictionary).
  apply (dump1_spec x41 sink0 wf_sink0).
Defined.

(** ** Matches that reach in front of the text *)

Lemma length_expand_sequence (text : list byte) (q : Format.sequence) :
  (length text <= length (expand_sequence text q))%nat.
Proof.
  unfold expand_sequence. rewrite length_copy_match, length_app. lia.
Qed.

Lemma length_expand_sequences (ss : list Format.sequence) (text : list byte) :
  (length text <= length (fold_left expand_sequence ss text))%nat.
Proof.
  revert text. induction ss as [|q ss IH]; intros text; cbn [fold_left]; [lia|].
  pose proof (length_expand_sequence text q). specialize (IH (expand_sequence text q)).
  lia.
Qed.

Lemma seqs_inside_long (ss : list Format.sequence) (text : list byte) :
  Forall Format.sequence_shape ss ->
  ~ Exists (fun q => Format.offset q = 0) ss ->
  65535 <= Z.of_nat (length text) ->
  seqs_inside text ss.
Proof.
  intros Hs. revert text. induction Hs as [|q ss Hq Hs IH]; intros text Hz Hl;
    cbn [seqs_inside]; [exact I|].
  destruct Hq as [Ho _]. split.
  - rewrite length_app.
    assert (Format.offset q <> 0) by (intros E; apply Hz; left; exact E).
    lia.
  - apply IH; [intros E; apply Hz; right; exact E|].
    pose proof (length_expand_sequence text q). lia.
Qed.

Lemma blocks_inside_long (bl : list Format.block) (text : list byte) :
  Forall Format.block_shape bl ->
  Forall (fun b => ~ Format.has_zero_offset b) bl ->
  65535 <= Z.of_nat (length text) ->
  blocks_inside text bl.
Proof.
  intros Hs. revert text. induction Hs as [|b bl Hb Hs IH]; intros text Hz Hl;
    cbn [blocks_inside]; [exact I|].
  inversion Hz as [|? ? Hz1 Hz2]; subst.
  split.
  - destruct b as [p | ss l]; [exact I|].
    destruct Hb as [_ Hss]. apply seqs_inside_long; assumption.
  - apply IH; [exact Hz2|].
    destruct b as [p | ss l]; cbn [expand_block]; rewrite length_app.
    + lia.
    + pose proof (length_expand_sequences ss text). lia.
Qed.

(** X8: [unlz4] does not look where a match starts.  For every frame of
    version 01 with blocks of the format and offsets other than 0 that the
    input buffer holds at the read cursor, the run returns with the read
    cursor at the end of the frame, and what it has appended is the text of
    the blocks behind the 64k bytes of the history buffer: a match that
    reaches in front of the text of the frame copies the bytes of the
    dictionary, where one was loaded, and else the bytes that the history
    buffer held when the call began. *)
Theorem unlz4_copies_from_the_history (history0 mem : list byte) (it0 : nat)
    (flags bd : byte) (contentSize dictID : list byte) (hc : byte)
    (bl : list (Format.block * list byte)) (cc : list byte)
    (end_ : nat) (o : sink) (d : Unlz4.dictionary_arg) :
  length history0 = Z.to_nat Unlz4.HISTORY_SIZE ->
  Z.shiftr (b2z flags) 6 = 1 ->
  (Z.land (b2z flags) 8 <> 0 -> length contentSize = 8%nat) ->
  (Z.land (b2z flags) 1 <> 0 -> length dictID = 4%nat) ->
  Forall (fun bc => Format.block_shape (fst bc)
                    /\ length (snd bc)
                       = if Z.land (b2z flags) 16 =? 0 then 0%nat else 4%nat)
    bl ->
  Forall (fun bc => ~ Format.has_zero_offset (fst bc)) bl ->
  length cc = (if Z.land (b2z flags) 4 =? 0 then 0%nat else 4%nat) ->
  wf_sink o ->
  d <> Unlz4.DictionaryFile None ->
  let frame := frame_with_sums flags bd contentSize dictID hc bl cc in
  holds mem it0 frame ->
  let h := match d with
           | Unlz4.DictionaryFile (Some dict) =>
               Unlz4.load_dictionary history0 dict
           | _ => history0
           end in
  exists (o' : sink) (t : list byte),
    Unlz4.unlz4 history0 mem it0 end_ o d = Ok ((it0 + length frame)%nat, o')
    /\ written o' = written o ++ t
    /\ h ++ t = fold_left expand_block (map fst bl) h.
Proof.
  intros Hl Hv Hcs Hdi Hbl Hz Hcc Ho Hd. cbn zeta. intros Hm.
  destruct (unlz4_frame_with_sums history0 mem it0 flags bd contentSize dictID
              hc bl cc end_ o d Hv Hcs Hdi Hm) as (Hh & Hf & HL & E).
  rewrite E. clear E.
  set (h := match d with
            | Unlz4.DictionaryFile (Some dict) =>
                Unlz4.load_dictionary history0 dict
            | _ => history0
            end).
  assert (Ed : match d with
               | Unlz4.NoDictionary => Ok history0
               | Unlz4.DictionaryFile None => Fatal CannotOpenDictionary
               | Unlz4.DictionaryFile (Some dict) =>
                   Ok (Unlz4.load_dictionary history0 dict)
               end = Ok h).
  { subst h. destruct d as [|[dict|]]; [reflexivity | reflexivity |].
    contradiction Hd. reflexivity. }
  rewrite Ed. cbn [bind].
  assert (Hlh : length h = Z.to_nat Unlz4.HISTORY_SIZE).
  { subst h. destruct d as [|[dict|]]; try exact Hl.
    rewrite length_load_dictionary; exact Hl. }
  (* the run with the history in front of the sink *)
  destruct (dump_spec h o Ho) as (Wh & Eh & _).
  set (i := (it0 + 4
             + length (Format.descriptor flags bd contentSize dictID hc))%nat)
    in *.
  set (s1 := {| Unlz4.it := i; Unlz4.history := h; Unlz4.pos := 0;
                Unlz4.out := o |}).
  set (s2 := {| Unlz4.it := i; Unlz4.history := h; Unlz4.pos := 0;
                Unlz4.out := dump h o |}).
  assert (R : ring (written o) h s2) by (apply ring_start; assumption).
  destruct (blocks_text_sums mem (written o)
              (negb (Z.land (b2z flags) 16 =? 0)) bl) with
    (fuel := S (length mem)) (s := s2) (text := h)
    as (s2' & E2 & R2 & I2).
  { eapply Forall_impl; [|exact Hbl]. intros [b c] [H1 H2].
    split; [exact H1|]. cbn [snd] in *. rewrite H2.
    destruct (Z.land (b2z flags) 16 =? 0); reflexivity. }
  { exact Hh. }
  { exact R. }
  { subst s2. cbn. lia. }
  { apply blocks_inside_long.
    - apply Forall_map. eapply Forall_impl; [|exact Hbl].
      intros bc [H _]. exact H.
    - apply Forall_map. exact Hz.
    - rewrite Hlh. change Unlz4.HISTORY_SIZE with 65536. lia. }
  { exact Hf. }
  assert (T : twins (written o) (written o ++ h) s1 s2).
  { unfold twins. subst s1 s2. cbn.
    split; [reflexivity|]. split; [reflexivity|]. split; [reflexivity|].
    split; [exact Ho|]. split; [exact Wh|]. exists [].
    rewrite !app_nil_r. split; [reflexivity | exact Eh]. }
  pose proof (blocks_twins (written o) (written o ++ h) mem (S (length mem))
                (negb (Z.land (b2z flags) 16 =? 0)) s1 s2 T) as A.
  rewrite E2 in A.
  destruct (Unlz4.blocks mem (S (length mem)) _ s1) as [s1' | | |];
    cbn in A; try contradiction.
  cbn [bind].
  destruct A as (Ai & Ah & Ap & At).
  set (f1 := if negb (Z.land (b2z flags) 4 =? 0)
             then Unlz4.with_it s1' (Unlz4.it s1' + 4) else s1').
  set (f2 := if negb (Z.land (b2z flags) 4 =? 0)
             then Unlz4.with_it s2' (Unlz4.it s2' + 4) else s2').
  assert (F : Unlz4.it f1 = (Unlz4.it s2' + length cc)%nat
              /\ Unlz4.history f1 = Unlz4.history f2
              /\ Unlz4.pos f1 = Unlz4.pos f2
              /\ Unlz4.out f1 = Unlz4.out s1'
              /\ Unlz4.out f2 = Unlz4.out s2'
              /\ ring (written o) (fold_left expand_block (map fst bl) h) f2).
  { subst f1 f2. rewrite Hcc.
    destruct (Z.land (b2z flags) 4 =? 0);
      cbn [negb Unlz4.with_it Unlz4.it Unlz4.history Unlz4.pos Unlz4.out];
      (split; [lia|]); (split; [exact Ah|]); (split; [exact Ap|]);
      (split; [reflexivity|]); (split; [reflexivity|]);
      [| apply ring_with_it]; exact R2. }
  destruct F as (Fi & Fh & Fp & Fo1 & Fo2 & FR).
  pose proof (ring_written (written o) _ f2 FR) as W2.
  pose proof (same_text_dump (written o) (written o ++ h) _ _
                (firstn (Z.to_nat (Unlz4.pos f2)) (Unlz4.history f2)) At)
    as (_ & _ & bs & B1 & B2).
  rewrite <- Fo2, W2, <- app_assoc in B2. apply app_inv_head in B2.
  exists (dump (firstn (Z.to_nat (Unlz4.pos f1)) (Unlz4.history f1))
            (Unlz4.out f1)), bs.
  split; [|split].
  - f_equal. f_equal. rewrite Fi, I2, <- HL. subst s2. cbn [Unlz4.it].
    reflexivity.
  - rewrite Fh, Fp, Fo1. exact B1.
  - symmetry. exact B2.
Qed.

Lemma unlz4_copies_from_the_history_witness :
  let bl := [(Format.Compressed
                [{| Format.literals := []; Format.offset := 3;
                    Format.matchLength := 4 |}]
                [x21], [])] in
  let frame := frame_with_sums x40 x70 [] [] xdf bl [] in
  let d := Unlz4.DictionaryFile (Some [x61; x62; x63]) in
  let h := Unlz4.load_dictionary (repeat x00 (Z.to_nat Unlz4.HISTORY_SIZE))
             [x61; x62; x63] in
  exists (o' : sink) (t : list byte),
    Unlz4.unlz4 (repeat x00 (Z.to_nat Unlz4.HISTORY_SIZE)) frame 0 0 sink0 d
    = Ok ((0 + length frame)%nat, o')
    /\ written o' = written sink0 ++ t
    /\ h ++ t = fold_left expand_block (map fst bl) h.
Proof.
  cbn zeta.
  apply (unlz4_copies_from_the_history
           (repeat x00 (Z.to_nat Unlz4.HISTORY_SIZE))
           (frame_with_sums x40 x70 [] [] xdf
              [(Format.Compressed
                  [{| Format.literals := []; Format.offset := 3;
                      Format.matchLength := 4 |}]
                  [x21], [])] [])
           0 x40 x70 [] [] xdf
           [(Format.Compressed
               [{| Format.literals := []; Format.offset := 3;
                   Format.matchLength := 4 |}]
               [x21], [])]
           [] 0 sink0 (Unlz4.DictionaryFile (Some [x61; x62; x63]))).
  - apply repeat_length.
  - reflexivity.
  - intros H. exfalso. apply H. reflexivity.
  - intros H. exfalso. apply H. reflexivity.
  - constructor; [|constructor]. split; [|reflexivity].
    split; [cbn; lia|]. constructor; [|constructor].
    unfold Format.sequence_shape. cbn. lia.
  - constructor; [|constructor]. cbn. intros H.
    inversion H as [? ? H0 | ? ? H0]; subst; [discriminate H0 | inversion H0].
  - reflexivity.
  - exact wf_sink0.
  - discriminate.
  - apply holds_self.
Defined.

(** ** The encoder and its sink *)

Lemma same_text_dump1 (w1 w2 : list byte) (o1 o2 : sink) (c : byte) :
  same_text w1 w2 o1 o2 -> same_text w1 w2 (dump1 c o1) (dump1 c o2).
Proof.
  intros (W1 & W2 & bs & E1 & E2).
  destruct (dump1_spec c o1 W1) as (W1' & E1' & _).
  destruct (dump1_spec c o2 W2) as (W2' & E2' & _).
  split; [exact W1'|]. split; [exact W2'|]. exists (bs ++ [c]).
  rewrite E1', E2', E1, E2, <- !app_assoc. auto.
Qed.

Lemma emit_block_twins (w1 w2 : list byte) (L : Z) (input : list byte)
    (w : Smallz4.window) (c : list byte) (o1 o2 : sink) :
  same_text w1 w2 o1 o2 ->
  same_text w1 w2 (Smallz4.emit_block L input w c o1)
    (Smallz4.emit_block L input w c o2).
Proof.
  intros S. unfold Smallz4.emit_block. cbn zeta.
  destruct (_ && _); apply same_text_dump; repeat apply same_text_dump1;
    exact S.
Qed.

Lemma block_twins (w1 w2 : list byte) (L : Z) (input : list byte)
    (e1 e2 : Smallz4.encoder) :
  encoder_twins w1 w2 e1 e2 ->
  alike (fun x y =>
           match x, y with
           | inl a, inl b => encoder_twins w1 w2 a b
           | inr a, inr b => encoder_twins w1 w2 a b
           | _, _ => False
           end)
    (Smallz4.block L input e1) (Smallz4.block L input e2).
Proof.
  intros [E S]. rewrite E. destruct e1 as [i w n h ch ce pd o1 lg].
  cbn [Smallz4.output] in S.
  generalize dependent (Smallz4.output e2). intros o2 _ S.
  unfold Smallz4.block, with_output, Smallz4.read_more.
  cbn [Smallz4.it Smallz4.win Smallz4.numRead Smallz4.hashes Smallz4.chainHash
       Smallz4.chainExact Smallz4.parseDictionary Smallz4.output Smallz4.log].
  destruct pd; [reflexivity|].
  match goal with
  | |- context [Smallz4.nextBlock ?x =? ?y] =>
      destruct (Smallz4.nextBlock x =? y)
  end.
  - cbn. split; [reflexivity | exact S].
  - match goal with
    | |- context [Smallz4.encode_block ?a ?b ?c ?d ?e ?f] =>
        destruct (Smallz4.encode_block a b c d e f) as [b0 | err | |]
    end; cbn [bind]; cbn; try reflexivity; try exact I.
    split; [reflexivity|]. apply emit_block_twins. exact S.
Qed.

Lemma blocks_encoder_twins (w1 w2 : list byte) (L : Z) (input : list byte)
    (n : nat) (e1 e2 : Smallz4.encoder) :
  encoder_twins w1 w2 e1 e2 ->
  snd (Smallz4.blocks L input n e1) = snd (Smallz4.blocks L input n e2)
  /\ encoder_twins w1 w2 (fst (Smallz4.blocks L input n e1))
       (fst (Smallz4.blocks L input n e2)).
Proof.
  revert e1 e2. induction n as [|n IH]; intros e1 e2 T;
    cbn [Smallz4.blocks]; [split; [reflexivity | exact T]|].
  pose proof (block_twins w1 w2 L input e1 e2 T) as A.
  destruct (Smallz4.block L input e1) as [[a | a] | err | |],
    (Smallz4.block L input e2) as [[b | b] | err' | |];
    cbn in A; try contradiction; cbn [fst snd].
  - split; [reflexivity | exact A].
  - apply IH. exact A.
  - subst err'. split; [reflexivity | exact T].
  - split; [reflexivity | exact T].
  - split; [reflexivity | exact T].
Qed.

(** X6: [lz4] appends.  How a run ends and the bytes it writes do not
    depend on the sink it is given: it keeps the bytes in front of the
    cursor and writes behind them what it writes to an empty sink. *)
Theorem lz4_appends_to_the_sink (input : list byte) (L : Z) (o : sink)
    (dictionary : list byte) :
  wf_sink o ->
  snd (Smallz4.lz4 input o L dictionary)
  = snd (Smallz4.lz4 input sink0 L dictionary)
  /\ written (fst (Smallz4.lz4 input o L dictionary))
     = written o ++ written (fst (Smallz4.lz4 input sink0 L dictionary)).
Proof.
  intros Ho. unfold Smallz4.lz4, Smallz4.compress, Smallz4.run.
  assert (Hs : same_text [] (written o) sink0 o).
  { split; [exact wf_sink0|]. split; [exact Ho|]. exists [].
    split; [reflexivity | symmetry; apply app_nil_r]. }
  assert (T : encoder_twins [] (written o) (Smallz4.start sink0 dictionary)
                (Smallz4.start o dictionary)).
  { split; [reflexivity|]. apply same_text_dump. exact Hs. }
  destruct (blocks_encoder_twins [] (written o) L input (S (length input))
              _ _ T) as [R [_ S']].
  destruct (Smallz4.blocks L input (S (length input))
              (Smallz4.start sink0 dictionary)) as [e1 r1],
    (Smallz4.blocks L input (S (length input))
       (Smallz4.start o dictionary)) as [e2 r2].
  cbn [fst snd] in R, S'. subst r2.
  destruct r1 as [[] | err | |]; cbn [fst snd].
  - split; [reflexivity|].
    destruct (same_text_dump [] (written o) _ _ (le32 0) S')
      as (_ & _ & bs & E1 & E2).
    unfold dump_type. rewrite E2, E1. reflexivity.
  - split; [reflexivity|]. destruct S' as (_ & _ & bs & E1 & E2).
    rewrite E2, E1. reflexivity.
  - split; [reflexivity|]. destruct S' as (_ & _ & bs & E1 & E2).
    rewrite E2, E1. reflexivity.
  - split; [reflexivity|]. destruct S' as (_ & _ & bs & E1 & E2).
    rewrite E2, E1. reflexivity.
Qed.

Lemma lz4_appends_to_the_sink_witness :
  snd (Smallz4.lz4 Inputs.hello (dump1 x41 sink0) 9 [])
  = snd (Smallz4.lz4 Inputs.hello sink0 9 [])
  /\ written (fst (Smallz4.lz4 Inputs.hello (dump1 x41 sink0) 9 []))
     = written (dump1 x41 sink0)
       ++ written (fst (Smallz4.lz4 Inputs.hello sink0 9 [])).
Proof.
  apply (lz4_appends_to_the_sink Inputs.hello 9 (dump1 x41 sink0) []).
  apply (dump1_spec x41 sink0 wf_sink0).
Defined.

(** ** The round trip *)

Lemma frame_as_sums (flags bd : byte) (contentSize dictID : list byte)
    (hc : byte) (bl : list Format.block) :
  Format.frame flags bd contentSize dictID hc bl
  = frame_with_sums flags bd contentSize dictID hc
      (map (fun b => (b, [])) bl) [].
Proof.
  unfold Format.frame, frame_with_sums, blocks_with_sums.
  rewrite app_nil_r, map_map. cbn [fst snd].
  do 4 f_equal. apply map_ext. intros b. symmetry. apply app_nil_r.
Qed.

(** X1: the round trip.  For every input whose last block is not a short
    one behind a full block (1 to 10 bytes) and every chain length, [lz4]
    without a dictionary returns, and [unlz4] without a dictionary, run on
    the bytes [lz4] has written, returns with the read cursor at the end
    of these bytes and has appended the input to its sink, whatever the
    history buffer held and whatever [end] is. *)
Theorem round_trip (input : list byte) (L : Z)
    (history0 : list byte) (end_ : nat) (o : sink) :
  let N := Z.of_nat (length input) in
  N < 18446744073709551616 ->
  L = 0 \/ N <= 4194304 \/ N mod 4194304 = 0 \/ 11 <= N mod 4194304 ->
  length history0 = Z.to_nat Unlz4.HISTORY_SIZE ->
  wf_sink o ->
  let c := written (fst (Smallz4.lz4 input sink0 L [])) in
  snd (Smallz4.lz4 input sink0 L []) = Ok tt
  /\ exists o' : sink,
       Unlz4.unlz4 history0 c 0 end_ o Unlz4.NoDictionary = Ok (length c, o')
       /\ written o' = written o ++ input.
Proof.
  cbn zeta. intros HN Hlast Hh Ho.
  assert (R : snd (Smallz4.lz4 input sink0 L []) = Ok tt).
  { rewrite lz4_outcome.
    unfold short_tail, Smallz4.MaxBlockSize.
    change (4 * 1024 * 1024) with 4194304.
    destruct (Z.eqb_spec L 0); [reflexivity|]. cbn [negb andb].
    destruct (Z.ltb_spec 4194304 (Z.of_nat (length input))); [|reflexivity].
    cbn [andb].
    destruct (Z.leb_spec 1 (Z.of_nat (length input) mod 4194304));
      [|reflexivity].
    cbn [andb].
    destruct (Z.leb_spec (Z.of_nat (length input) mod 4194304) 10);
      [|reflexivity].
    lia. }
  split; [exact R|].
  destruct (lz4_frame input L sink0 HN wf_sink0 R)
    as (bl & E & F & I & X & _).
  change (written sink0) with (@nil byte) in E. cbn [app] in E.
  rewrite E, frame_as_sums.
  destruct (frame_with_sums_text history0
              (frame_with_sums x40 x70 [] [] xdf (map (fun b => (b, [])) bl) [])
              0 x40 x70 [] [] xdf
              (map (fun b => (b, [])) bl) [] end_ o Hh) as (o' & U & W).
  - reflexivity.
  - intros H. exfalso. apply H. reflexivity.
  - intros H. exfalso. apply H. reflexivity.
  - apply Forall_map. eapply Forall_impl; [|exact F].
    intros b Hb. cbn [fst snd]. split; [exact Hb | reflexivity].
  - reflexivity.
  - rewrite map_map. cbn [fst]. rewrite map_id. exact I.
  - exact Ho.
  - apply holds_self.
  - exists o'. split; [exact U|].
    rewrite W, map_map. cbn [fst]. rewrite map_id, X. reflexivity.
Qed.

Lemma round_trip_witness :
  let c := written (fst (Smallz4.lz4 Inputs.twice7 sink0 3 [])) in
  snd (Smallz4.lz4 Inputs.twice7 sink0 3 []) = Ok tt
  /\ exists o' : sink,
       Unlz4.unlz4 (repeat xff (Z.to_nat Unlz4.HISTORY_SIZE)) c 0 0 sink0
         Unlz4.NoDictionary = Ok (length c, o')
       /\ written o' = written sink0 ++ Inputs.twice7.
Proof.
  apply (round_trip Inputs.twice7 3 (repeat xff (Z.to_nat Unlz4.HISTORY_SIZE))
           0 sink0).
  - vm_compute. reflexivity.
  - right. left. vm_compute. discriminate.
  - apply repeat_length.
  - exact wf_sink0.
Defined.
